(* ===== verification/_CoqProject ===== *)
-Q . S2P
Prelude.v
CType.v
Core.v
RingBuffer.v
RingSpec.v
Packet.v
Parser.v
Protocol.v
Machine.v
Connection.v
World.v
Sim.v
SocketUtils.v
Enqueue.v
Reactor.v
Preserve.v
ReactorSpec.v
Scenario.v
EventLoop.v
Service.v
History.v
Liveness.v
Logger.v
Main.v
Vmlinux.v
Types.v
Ebpf.v
Client.v
Bench.v
ClientSim.v
Echo.v
PingPong.v
Compose.v
Workload.v
Sequence.v
Batch.v
Flood.v
Script.v
Walk.v
