(* ===== verification/Prelude.v ===== *)
(** * Velora: a verification development

    Velora is a TCP server written in C: an edge-triggered epoll loop that
    accepts clients, collects their bytes in ring buffers, parses them into
    packets, answers each packet as a small session protocol prescribes and
    sends the answers.  This library models the server as executable Rocq
    functions and proves that they do what they should, and with it the load
    generators and the conformance test of [tests/], which are the clients the
    repository has.  Paths below
    are relative to [src/] of the repository, which holds [src/], [include/],
    [tests/] and [ebpf-learning/].

    ** How C is modelled

    - A function becomes a function to [outcome]: [Ok] of its result, [Undef]
      where the C program would have undefined behaviour (a load or store
      outside a block, a NULL or dangling pointer, a division by zero), [NoFuel]
      where a loop of the model was cut off.
    - An n-bit integer is a [Z] with its conversions written out ([u8], [u16],
      [u32], [u64]); a block of memory is the list of its cells, and every access
      checks its bounds.
    - [Core.Libc] is the allocator: an oracle that answers each request with
      NULL or with a block of arbitrary contents.  A theorem that needs an
      allocation to succeed says so ([allocates n]).  [p_live] counts the blocks
      in use, so that a leak or a double free shows.
    - [Core.Abi] is the size of an enumeration.  With gcc's four bytes
      [sizeof(vr_packet_header_t)] is 12, although 8 bytes travel on the wire.
    - [World.Kernel] is the kernel: one function per system call on an abstract
      state.  [World.KernelLaws] states what its manual pages promise, in terms
      of what a process can observe: the open descriptors, what epoll watches,
      the bytes sent and received per descriptor.  [Sim] is an instance that
      follows a script; the witnesses run on it.
    - [World.io] is the monad of the network code (kernel, process, heap of
      connections, manager, reactor).  [wp] states that a computation returns and
      what holds then; [wlp] says the same of a loop with no bound of its own, for
      any number of turns; [wx] is one of the two, by a flag.
    - [Client.Os] and [Client.prog] are the same for the test clients: one function
      per system call they make, with laws over the same view of the kernel, and a
      monad; [safe] says that nothing undefined happens and what holds on return,
      [finishes] that the fuel was enough.  A blocking call that is never answered
      ([os_hangs]) does not return ([wait]); theorems that a client ends exclude it
      ([undisturbed]).  [ClientSim] is an instance.  The Python program of a script
      is one that also returns exceptions ([Script.py]).
    - [CType.ctype] is a C type as data, with the layout of the System V ABI,
      bit-fields included, and loads and stores of members on the bytes of an
      object.

    ** The files

    - Prelude: outcomes, machine integers, blocks, the tactics [ostep] and
      friends, the hint database [velora].
    - CType: C types, their layout, their objects; the class [CEnum] of numbered
      enumerations.
    - Core: [include/velora/common.h], [error.h], [src/core/error.c]; allocator,
      implementation-defined sizes.
    - RingBuffer, RingSpec: [src/conn/ring_buffer.c].  [ring_wf] is the invariant,
      [ring_contents] the queue a ring represents.  RingSpec: the calls refine a
      bounded FIFO queue; what [reserve] promises.
    - Packet: [src/protocol/packet.c]; round trip of the serializer.
    - Parser: [src/protocol/parser.c], over the class [RingReads] of the ring
      operations it uses, which the ring implements.  It refines the pure
      function [parse_spec]; fragmentation makes no difference.
    - Protocol: [src/protocol/protocol.c].  It refines [session_step], a machine
      over a set of open streams, for polite clients.
    - Machine: the same for every client: [machine_step], without bitmap and
      allocator, which the handler refines packet by packet.
    - Connection: [src/conn/conn.c], [src/shared/utilities.c].  [mgr_step] is the
      step relation of the manager, [manager_invariant] its invariant by rule
      induction.
    - World, Sim: the kernel interface, the monad, the scripted kernel.
    - SocketUtils: [src/net/socket_utils.c], [src/net/tcp_server.c].
    - Enqueue: the response path of [src/event_loop/reactor.c] (lines 238-561).
    - Reactor: the rest of [src/event_loop/reactor.c].
    - Preserve: [preserves P m], that a computation keeps a predicate of the
      kernel's state, by what each system call does to it ([call_ok]); a hint
      database that follows the code.
    - ReactorSpec: [world_ok], the invariant that ties manager, objects,
      descriptors and epoll registrations together, and a specification of every
      handler.
    - Scenario: a concrete state with one client for the witnesses.
    - EventLoop: accept loop, batches of events, rounds, start-up, shutdown.
    - Service: what a client observes, from received bytes to queued answers.
    - History: the whole run, as a step relation ([reachable], and [run] with all
      states on the way); for every client, the bytes sent are explained by the
      bytes received ([history]).
    - Liveness: the server ends when its input ends; answers reach the socket.
    - Logger: [src/core/logger.c], the debug and the release build, and
      [vr_perror].  Main: [src/main.c], signal handlers, log, manager and loop.
    - Vmlinux: from [ebpf-learning/xdp/vmlinux.h], the interface of the bpf system
      call, the contexts of eBPF programs and the packet headers.
    - Types: the layout theorems for the types of the server and of Vmlinux.
    - Ebpf: the programs in [ebpf-learning/]; the counter also with calls that run
      at the same time, as a step relation.  The helper that updates a map is a
      parameter ([MapHelper]) with the laws of its documentation.
    - Client: what the programs of [tests/] share: packets, blocking sends and
      receives, the handshake.  ClientSim: an operating system for them whose peer
      is a given function.
    - Bench: the frame the three load generators with a table of clients share:
      establish, register, measure, close; as a [program] with operations that are
      filled in, and a specification against laws the operations have.
    - Echo: clients that send something and count the PONGs that come back, with
      their receive buffer.  [books] is the invariant of a client, [honest] the
      contract with the peer.
    - PingPong: [tests/throughput_pingpong.c], an instance of Bench and Echo.
    - Compose: clients and server.  [linked] is a connection between a client and
      an object of the server; the server honours the contract.
    - Workload: the PUBLISH packets of the next two, and those a server finds in
      runs of them.
    - Sequence: [tests/packet_throughput.c], an instance of Bench and Echo.
      Batch: [tests/throughput_c.c], an instance of Bench.
    - Flood: [tests/conn_flood.c].
    - Script, Walk: [tests/parser_walk.sh].  Script: exceptions, sockets, packets
      and the conversation with a server; Walk: the checks.

    ** What the theorems show

    - Safety of the whole: [EventLoop.reactor_loop_safe], [Main.program_safe] (no
      undefined behaviour, handlers installed, the log closed, nothing left
      allocated but the manager's array), both as long as response objects can be
      allocated,
      [EventLoop.round_keeps_invariant] (no event reaches a freed connection),
      [Connection.manager_invariant], [Connection.manager_teardown],
      [Protocol.handler_safe].
    - Function: [History.clients_served] (over any run, every client has been sent
      answers to its packets, in order, and all of them if memory was there and its
      ring never full), [Service.packets_answered] (in one
      event, those of the session machine), [Service.writes_in_order],
      [Service.reads_in_order],
      [Enqueue.enqueue_appends_packet], the three refinement theorems of ring,
      parser and protocol, the round trips of Packet and Parser.
    - Termination: [EventLoop.client_event_handled] and
      [EventLoop.shutdown_releases] return; [EventLoop.accept_loop_ends] for a
      finite backlog.
    - Liveness: [Liveness.server_terminates], when the kernel has finitely many
      events and connections to report ([patience_laws]);
      [Liveness.answers_delivered], when there is memory and room and the peer takes
      what it is sent ([willing]).
    - Clients: [Compose.connection_established] (the handshake),
      [PingPong.benchmark_books] and [PingPong.benchmark_runs] (counters, buffers,
      descriptors and end of the benchmark), [Compose.server_honest] (with enums of
      one byte the server is the peer they assume),
      [Sequence.sequences_confirmed], [Batch.batch_counts_packets] (what their
      counts mean), [Flood.flood_accounts], [Flood.flood_waits_for_all] (counters
      and end of the connection flood), [Walk.suite_passes] (the server passes its
      conformance test).
    - Types: [Types.layouts_sound] (members are aligned, inside and apart, and an
      assignment changes one member), [Types.member_access],
      [Vmlinux.headers_match_wire] (the structs are the octets of the standards),
      [Vmlinux.enums_roundtrip].
    - eBPF: [Ebpf.xdp_in_bounds], [Ebpf.execve_counts], [Ebpf.concurrent_counts].
    - Behaviour that differs from what the code means or says is proved as such:
      [Parser.wire_header_not_parsed] and [Compose.handshake_stalls] (with gcc's
      enums the server never answers the CONNECT of its test clients),
      [Enqueue.response_leaks_memory],
      [Service.full_ring_stops_reading], [Protocol.close_unopened_ends_session],
      [Protocol.unchecked_calloc_crashes],
      [EventLoop.shutdown_leaves_clients_open],
      [SocketUtils.server_create_descriptors] (descriptor 1 is leaked),
      [RingSpec.reserve_failure_changes_buffer],
      [Flood.refused_connects_close_stdin], [Sequence.sequences_confirmed] (an empty
      payload is a NULL for memcpy), [Ebpf.concurrent_counts] (calls at
      the same time may count as one).

    ** Fuel

    - [reserve_loop] has [reserve_fuel] turns; the capacity doubles, so it ends
      well before.  [drain_writes_loop] has one turn per byte in the ring and one
      more, [process_packets_loop] likewise, [destroy_all] one per connection and
      one more.  [drain_reads_loop] has [read_fuel] turns: each but the last
      receives a byte or enlarges the ring, and both are bounded by 65536.  All of
      these are proved never to run out.
    - [accept_loop] and [event_loop] are bounded only by the kernel and take their
      fuel as an argument; [Liveness.server_terminates] says how much is enough.
      [dispatch] has one turn per possible event.
    - The loops of the test clients take their fuel as an argument: eight turns are
      enough for the handshake, [8 * pipeline + 1] for the loops of a client,
      [process_pongs] has one per byte; the measurement has as many rounds as the
      clock allows ([clock]); the batch benchmark needs more turns than the kernel
      buffers bytes, the flood as many as connections, the conformance test 65535,
      the longest payload.

    ** What is not modelled

    - The text of log lines and which of them are written when, beyond the file in
      Logger and their effect on errno ([k_log_errno]); among them is one with a
      wrong conversion ([src/protocol/parser.c], line 115).
    - The moment a signal arrives: [Main.setup_signals] and [handle_shutdown] are
      modelled, the loop sees them as the flag it tests ([k_signalled]).
    - Calls that pass NULL for a connection, a buffer or a manager, which the
      program never makes.
    - Threads: the server has one.
    - Of [tests/]: what the programs print beyond their results, their reading of
      arguments, floating point rates; the other shell scripts, which start clients
      and print what they see.
    - The rest of [vmlinux.h], a generated dump of every type of a kernel: internal
      types that no program of the repository names and that have no operations
      here to be right or wrong about. *)

From stdpp Require Export prelude list gmap strings.
From Stdlib Require Export ZArith Lia.
#[global] Open Scope Z_scope.

(** ** Outcomes of C code

    [Ok a] is a normal return.  [Undef] is undefined behaviour of the C
    program: a load or store outside a live block, a NULL dereference, a
    division by zero, a use of freed memory.  [NoFuel] is a loop that was cut
    off by the fuel of its model. *)
Inductive outcome (A : Type) : Type :=
| Ok (a : A)
| Undef
| NoFuel.
Arguments Ok {A} _.
Arguments Undef {A}.
Arguments NoFuel {A}.

#[global] Instance outcome_ret : MRet outcome := fun A a => Ok a.
#[global] Instance outcome_bind : MBind outcome := fun A B f o =>
  match o with Ok a => f a | Undef => Undef | NoFuel => NoFuel end.

(** ** Machine integers: the unsigned conversions of the code *)

Definition u8 (z : Z) : Z := z mod 256.
Definition u16 (z : Z) : Z := z mod 65536.
Definition u32 (z : Z) : Z := z mod 4294967296.
Definition u64 (z : Z) : Z := z mod 18446744073709551616.

Definition is_byte (z : Z) : Prop := 0 <= z < 256.

(** ** Blocks of memory

    A block is the list of its cells.  Each access checks the bounds. *)

Definition zlen {A} (l : list A) : Z := Z.of_nat (length l).

Definition in_range (off n len : Z) : bool :=
  (0 <=? off) && (0 <=? n) && (off + n <=? len).

(** [d[i]] *)
Definition load {A} (d : list A) (i : Z) : outcome A :=
  if 0 <=? i then match d !! Z.to_nat i with Some x => Ok x | None => Undef end
  else Undef.

(** [d[i] = x] *)
Definition store {A} (d : list A) (i : Z) (x : A) : outcome (list A) :=
  if in_range i 1 (zlen d) then Ok (<[Z.to_nat i := x]> d) else Undef.

(** the source of [memcpy(_, d + off, n)] *)
Definition slice {A} (d : list A) (off n : Z) : outcome (list A) :=
  if in_range off n (zlen d)
  then Ok (take (Z.to_nat n) (drop (Z.to_nat off) d)) else Undef.

(** the destination of [memcpy(d + off, bs, length bs)] *)
Definition splice {A} (d : list A) (off : Z) (bs : list A) : outcome (list A) :=
  if in_range off (zlen bs) (zlen d)
  then Ok (take (Z.to_nat off) d ++ bs ++ drop (Z.to_nat off + length bs) d)
  else Undef.

(** dereference of a pointer to an owned block; [None] is NULL *)
Definition deref {A} (p : option A) : outcome A :=
  match p with Some a => Ok a | None => Undef end.

(** ** Automation *)

Create HintDb velora.

(** Case analysis on the boolean tests of the code. *)
Ltac no_if t :=
  lazymatch t with
  | context [if _ then _ else _] => fail
  | _ => idtac
  end.
Ltac bdestruct_test :=
  match goal with
  | |- context [?a <? ?b] => no_if a; no_if b; destruct (Z.ltb_spec a b)
  | |- context [?a <=? ?b] => no_if a; no_if b; destruct (Z.leb_spec a b)
  | |- context [?a =? ?b] => no_if a; no_if b; destruct (Z.eqb_spec a b)
  end.

(** Decide the boolean tests that arithmetic settles. *)
Ltac settle_tests :=
  repeat match goal with
  | |- context [?a <? ?b] =>
      first [ rewrite (proj2 (Z.ltb_lt a b)) by lia
            | rewrite (proj2 (Z.ltb_ge a b)) by lia ]
  | |- context [?a <=? ?b] =>
      first [ rewrite (proj2 (Z.leb_le a b)) by lia
            | rewrite (proj2 (Z.leb_gt a b)) by lia ]
  | |- context [?a =? ?b] =>
      first [ rewrite (proj2 (Z.eqb_eq a b)) by lia
            | rewrite (proj2 (Z.eqb_neq a b)) by lia ]
  end.

(** Step through a bind whose head has been computed. *)
Ltac ostep := cbn [mbind mret outcome_bind outcome_ret deref].

(** ** Machine integers *)

Lemma u8_id z : 0 <= z < 256 -> u8 z = z.
Proof. intros; apply Z.mod_small; lia. Qed.
Lemma u16_id z : 0 <= z < 65536 -> u16 z = z.
Proof. intros; apply Z.mod_small; lia. Qed.
Lemma u32_id z : 0 <= z < 4294967296 -> u32 z = z.
Proof. intros; apply Z.mod_small; lia. Qed.
Lemma u64_id z : 0 <= z < 18446744073709551616 -> u64 z = z.
Proof. intros; apply Z.mod_small; lia. Qed.

Lemma u8_byte z : is_byte (u8 z).
Proof. apply Z.mod_pos_bound; lia. Qed.
#[export] Hint Resolve u8_byte : velora.

(** Deciding that a concrete list holds bytes. *)
Definition bytes_b (l : list Z) : bool := forallb (fun z => (0 <=? z) && (z <? 256)) l.

Lemma bytes_b_sound l : bytes_b l = true -> Forall is_byte l.
Proof.
  unfold bytes_b. rewrite forallb_forall. intros Hl. apply Forall_forall.
  intros z Hz%list_elem_of_In%Hl. unfold is_byte. lia.
Qed.

Ltac solve_bytes := apply bytes_b_sound; vm_compute; reflexivity.

(** The ring arithmetic: an index that runs over the end by less than a turn. *)
Definition wrap (n i : Z) : Z := if i <? n then i else i - n.

Lemma mod_wrap n i : 0 <= i < 2 * n -> i mod n = wrap n i.
Proof.
  intros Hi. unfold wrap. destruct (Z.ltb_spec i n).
  - apply Z.mod_small; lia.
  - symmetry. apply (Z.mod_unique i n 1); lia.
Qed.

Lemma wrap_range n i : 0 <= i < 2 * n -> 0 <= wrap n i < n.
Proof. unfold wrap; intros; bdestruct_test; lia. Qed.

(** ** Checked accesses inside the bounds *)

Section Blocks.
Context {A : Type}.
Implicit Types d bs : list A.

Lemma zlen_nonneg d : 0 <= zlen d.
Proof. unfold zlen; lia. Qed.

Lemma in_range_true off n len :
  in_range off n len = true <-> 0 <= off /\ 0 <= n /\ off + n <= len.
Proof. unfold in_range; lia. Qed.

Lemma load_ok d i x : 0 <= i -> d !! Z.to_nat i = Some x -> load d i = Ok x.
Proof. intros ? Hd. unfold load. settle_tests. by rewrite Hd. Qed.

Lemma slice_ok d off n :
  0 <= off -> 0 <= n -> off + n <= zlen d ->
  slice d off n = Ok (take (Z.to_nat n) (drop (Z.to_nat off) d)).
Proof.
  intros. unfold slice. by rewrite (proj2 (in_range_true _ _ _)) by lia.
Qed.

Lemma splice_ok d off bs :
  0 <= off -> off + zlen bs <= zlen d ->
  splice d off bs
  = Ok (take (Z.to_nat off) d ++ bs ++ drop (Z.to_nat off + length bs) d).
Proof.
  intros. unfold splice.
  by rewrite (proj2 (in_range_true _ _ _)) by (pose proof (zlen_nonneg bs); lia).
Qed.

Lemma splice_zlen d off bs d' : splice d off bs = Ok d' -> zlen d' = zlen d.
Proof.
  unfold splice. destruct (in_range _ _ _) eqn:E; [|done].
  apply in_range_true in E. intros [= <-]. unfold zlen in *.
  rewrite !length_app, length_take, length_drop. lia.
Qed.

Lemma store_splice d i x : store d i x = splice d i [x].
Proof.
  unfold store, splice. change (zlen [x]) with 1.
  destruct (in_range _ _ _) eqn:E; [|done].
  apply in_range_true in E. unfold zlen in E.
  rewrite insert_take_drop by lia. simpl. by rewrite Nat.add_1_r.
Qed.

(** ** The window of a ring

    [window d r c] reads [c] cells of the circular block [d] from position
    [r]: what the ring buffer holds, in order. *)
Definition window d (r c : nat) : list A := take c (drop r (d ++ d)).

Lemma window_length d r c :
  (r < length d)%nat -> (c <= length d)%nat -> length (window d r c) = c.
Proof. intros. unfold window. rewrite length_take, length_drop, length_app. lia. Qed.

Lemma window_lookup d r c i :
  (r < length d)%nat -> (c <= length d)%nat -> (i < c)%nat ->
  window d r c !! i
  = if decide (r + i < length d)%nat then d !! (r + i)%nat
    else d !! (r + i - length d)%nat.
Proof.
  intros. unfold window. rewrite lookup_take_lt, lookup_drop by lia. case_decide.
  - by rewrite lookup_app_l.
  - by rewrite lookup_app_r by lia.
Qed.

Lemma window_straight d r c :
  (r + c <= length d)%nat -> window d r c = take c (drop r d).
Proof.
  intros. unfold window. rewrite drop_app_le by lia.
  by rewrite take_app_le by (rewrite length_drop; lia).
Qed.

Lemma window_wrapped d r c :
  (r <= length d)%nat -> (length d <= r + c)%nat -> (c <= length d)%nat ->
  window d r c = drop r d ++ take (c - (length d - r)) d.
Proof.
  intros. unfold window. rewrite drop_app_le by lia.
  by rewrite take_app_ge, length_drop by (rewrite length_drop; lia).
Qed.

Lemma window_take d r c k :
  (k <= c)%nat -> take k (window d r c) = window d r k.
Proof. intros. unfold window. by rewrite take_take, Nat.min_l by lia. Qed.

(** Dropping [k] cells moves the read position by [k], around the end. *)
Lemma window_drop d r c k :
  (r < length d)%nat -> (c <= length d)%nat -> (k <= c)%nat ->
  let r' := if decide (r + k < length d)%nat then (r + k)%nat
            else (r + k - length d)%nat in
  drop k (window d r c) = window d r' (c - k).
Proof.
  intros ? ? ? r'.
  assert (r' < length d \/ (r' = 0 /\ length d = 0))%nat by (subst r'; case_decide; lia).
  apply list_eq. intros i. rewrite lookup_drop.
  destruct (decide (i < c - k)%nat) as [Hi|Hi].
  - rewrite !window_lookup by lia. subst r'. repeat case_decide; try lia; f_equal; lia.
  - rewrite !lookup_ge_None_2; [done| |]; rewrite window_length; lia.
Qed.

(** Cells written right behind the window, without passing the end of the
    block or the read position, extend it. *)
Lemma window_write d r c bs w :
  (r < length d)%nat -> (c + length bs <= length d)%nat ->
  w = (if decide (r + c < length d)%nat then (r + c)%nat
       else (r + c - length d)%nat) ->
  (w + length bs <= length d)%nat ->
  window (take w d ++ bs ++ drop (w + length bs) d) r (c + length bs)
  = window d r c ++ bs.
Proof.
  intros Hr Hc Hw Hb.
  set (d' := take w d ++ bs ++ drop (w + length bs) d).
  assert (Hd' : length d' = length d).
  { subst d'. rewrite !length_app, length_take, length_drop. lia. }
  assert (Hlk : forall j, (j < length d)%nat ->
    d' !! j = if decide (w <= j < w + length bs)%nat then bs !! (j - w)%nat else d !! j).
  { intros j Hj. subst d'. destruct (decide (j < w)%nat).
    { rewrite lookup_app_l, lookup_take_lt by (rewrite ?length_take; lia).
      by rewrite decide_False by lia. }
    rewrite lookup_app_r, length_take by (rewrite length_take; lia).
    replace (j - (w `min` length d))%nat with (j - w)%nat by lia.
    destruct (decide (w <= j < w + length bs)%nat).
    - by rewrite lookup_app_l by lia.
    - rewrite lookup_app_r, lookup_drop by lia. f_equal. lia. }
  apply list_eq. intros i.
  destruct (decide (i < c + length bs)%nat) as [Hi|Hi].
  2:{ rewrite !lookup_ge_None_2; [done| |];
      rewrite ?length_app, window_length; lia. }
  rewrite window_lookup, Hd' by lia.
  destruct (decide (i < c)%nat).
  - rewrite lookup_app_l, window_lookup by (rewrite ?window_length; lia).
    destruct (decide (r + c < length d)%nat), (decide (r + i < length d)%nat);
      rewrite Hlk, decide_False by lia; done.
  - rewrite lookup_app_r, window_length by (rewrite ?window_length; lia).
    destruct (decide (r + c < length d)%nat), (decide (r + i < length d)%nat);
      rewrite Hlk, decide_True by lia; f_equal; lia.
Qed.
End Blocks.
