(* ===== verification/CType.v ===== *)
(** * CType: C types, their layout and their objects

    The types of the program as data, and the layout the System V ABI gives them
    (x86-64, and the BPF target of clang, which lays structs out the same way): a
    member starts at the next multiple of its alignment, a struct is padded to a
    multiple of its largest alignment, and a bit-field shares the storage unit of
    its declared type with its neighbours as long as it does not cross the unit's
    end.  Offsets are counted in bits, so that plain members and bit-fields are
    placed by one function.

    The second half is about objects: an object is the list of its bytes, the host
    is little-endian, and a member is a window of the bits.  [locate_spec],
    [member_update] and [load_member_safe] are what pointer arithmetic and member
    access of the C code rely on; [Types] states them for the types of the
    program. *)

From S2P Require Import Prelude.
#[local] Open Scope Z_scope.

(** ** Types *)

(** A member has a name (or is an anonymous struct or union), a type and, when it
    is a bit-field, a width. *)
Inductive ctype :=
| TInt (signed : bool) (bytes : Z)
| TPtr
| TArray (t : ctype) (n : Z)
| TStruct (ms : list member)
| TUnion (ms : list member)
with member :=
| Member (name : option string) (t : ctype) (bits : option Z).

Definition m_name (m : member) : option string := let 'Member n _ _ := m in n.
Definition m_type (m : member) : ctype := let 'Member _ t _ := m in t.
Definition m_bits (m : member) : option Z := let 'Member _ _ b := m in b.

(** [T f;], [T f : w;] and the anonymous struct or union. *)
Definition plain (f : string) (t : ctype) : member := Member (Some f) t None.
Definition bitfield (f : string) (t : ctype) (w : Z) : member := Member (Some f) t (Some w).
Definition anonymous (t : ctype) : member := Member None t None.

Notation "f '∷' t" := (plain f%string t) (at level 60) : Z_scope.

Definition uint8 : ctype := TInt false 1.
Definition uint16 : ctype := TInt false 2.
Definition uint32 : ctype := TInt false 4.
Definition uint64 : ctype := TInt false 8.
Definition int8 : ctype := TInt true 1.
Definition int16 : ctype := TInt true 2.
Definition int32 : ctype := TInt true 4.
(** An enumeration: the values of its enumerators and the enumerators in
    declaration order.  Two enumerators may share a value. *)
Class CEnum (E : Type) := {
  enum_value : E -> Z;
  enumerators : list E
}.

(** The first enumerator of a value. *)
Definition enum_of `{CEnum E} (v : Z) : option E := find (fun e => enum_value e =? v) enumerators.

(** ** Layout *)

Definition align_up (off a : Z) : Z := (off + (a - 1)) / a * a.

(** What placing a member needs of it: size and alignment of its type in bytes,
    and its width when it is a bit-field. *)
Record slot := Slot { s_size : Z; s_align : Z; s_bits : option Z }.

(** The first bit of a member that is placed at bit [off] or later. *)
Definition slot_start (off : Z) (s : slot) : Z :=
  match s_bits s with
  | None => align_up off (8 * s_align s)
  | Some w =>
    if off mod (8 * s_size s) + w <=? 8 * s_size s then off
    else align_up off (8 * s_size s)
  end.

Definition slot_width (s : slot) : Z := default (8 * s_size s) (s_bits s).

(** The first bits of the members in order, and the first bit after the last. *)
Fixpoint place (off : Z) (ss : list slot) : list Z :=
  match ss with
  | [] => []
  | s :: ss => slot_start off s :: place (slot_start off s + slot_width s) ss
  end.

Fixpoint extent (off : Z) (ss : list slot) : Z :=
  match ss with
  | [] => off
  | s :: ss => extent (slot_start off s + slot_width s) ss
  end.

Definition max_align (ss : list slot) : Z := foldr (fun s a => Z.max (s_align s) a) 1 ss.
Definition max_width (ss : list slot) : Z := foldr (fun s w => Z.max (slot_width s) w) 0 ss.

(** Size and alignment in bytes of a struct and of a union. *)
Definition struct_layout (ss : list slot) : Z * Z :=
  (align_up (extent 0 ss) (8 * max_align ss) / 8, max_align ss).
Definition union_layout (ss : list slot) : Z * Z :=
  (align_up (max_width ss) (8 * max_align ss) / 8, max_align ss).

Definition slot_with (f : ctype -> Z * Z) (m : member) : slot :=
  Slot (f (m_type m)).1 (f (m_type m)).2 (m_bits m).

Fixpoint layout (t : ctype) : Z * Z :=
  match t with
  | TInt _ n => (n, n)
  | TPtr => (8, 8)
  | TArray t n => ((layout t).1 * n, (layout t).2)
  | TStruct ms => struct_layout (map (slot_with layout) ms)
  | TUnion ms => union_layout (map (slot_with layout) ms)
  end.

Definition sizeof (t : ctype) : Z := (layout t).1.
Definition alignof (t : ctype) : Z := (layout t).2.
Definition slot_of : member -> slot := slot_with layout.

(** ** Members by name

    [f] searches an anonymous member; in a union every member starts at bit 0. *)
Section Search.
Context (f : ctype -> option (Z * ctype * option Z)) (union : bool) (name : string).

Fixpoint search (off : Z) (ms : list member) : option (Z * ctype * option Z) :=
  match ms with
  | [] => None
  | m :: ms =>
    let o := slot_start off (slot_of m) in
    let next := if union then 0 else o + slot_width (slot_of m) in
    match m_name m with
    | Some n => if String.eqb n name then Some (o, m_type m, m_bits m) else search next ms
    | None =>
      match f (m_type m) with
      | Some (o', t, b) => Some (o + o', t, b)
      | None => search next ms
      end
    end
  end.
End Search.

(** The first bit, the type and the bit-field width of the member [name] of [t]. *)
Fixpoint find_member (name : string) (t : ctype) : option (Z * ctype * option Z) :=
  match t with
  | TStruct ms => search (find_member name) false name 0 ms
  | TUnion ms => search (find_member name) true name 0 ms
  | _ => None
  end.

(** [t.n1.n2...] *)
Fixpoint locate (path : list string) (t : ctype) : option (Z * ctype * option Z) :=
  match path with
  | [] => Some (0, t, None)
  | [n] => find_member n t
  | n :: path =>
    match find_member n t with
    | Some (o, t', None) =>
      match locate path t' with
      | Some (o', t'', b) => Some (o + o', t'', b)
      | None => None
      end
    | _ => None
    end
  end.

(** [offsetof(t, path)]; a bit-field has no address. *)
Definition offset_of (t : ctype) (path : list string) : option Z :=
  match locate path t with
  | Some (o, _, None) => Some (o / 8)
  | _ => None
  end.

(** ** Well-formed types *)

Definition int_size (n : Z) : bool := (n =? 1) || (n =? 2) || (n =? 4) || (n =? 8).

(** A bit-field is named, its type is an integer type and it fits in it. *)
Definition bits_ok (m : member) : bool :=
  match m_bits m with
  | None => true
  | Some w =>
    match m_name m, m_type m with
    | Some _, TInt _ n => (0 <? w) && (w <=? 8 * n)
    | _, _ => false
    end
  end.

Fixpoint wf (t : ctype) : bool :=
  match t with
  | TInt _ n => int_size n
  | TPtr => true
  | TArray t n => wf t && (0 <=? n)
  | TStruct ms | TUnion ms => forallb (fun m => wf (m_type m) && bits_ok m) ms
  end.

Definition members_wf : list member -> bool := forallb (fun m => wf (m_type m) && bits_ok m).

(** ** Objects *)

(** The number a list of bytes stands for, least significant byte first, and the
    [n] bytes of a number. *)
Fixpoint le_value (bs : list Z) : Z :=
  match bs with
  | [] => 0
  | b :: bs => b + 256 * le_value bs
  end.

Fixpoint le_bytes (n : nat) (v : Z) : list Z :=
  match n with
  | O => []
  | S n => v mod 256 :: le_bytes n (v / 256)
  end.

(** The [w] bits from bit [o] on, read and written. *)
Definition get_bits (v o w : Z) : Z := Z.land (Z.shiftr v o) (Z.ones w).
Definition set_bits (v o w x : Z) : Z :=
  Z.lor (Z.ldiff v (Z.shiftl (Z.ones w) o)) (Z.shiftl (Z.land x (Z.ones w)) o).

Definition read_bits (bs : list Z) (o w : Z) : Z := get_bits (le_value bs) o w.
Definition write_bits (bs : list Z) (o w x : Z) : list Z :=
  le_bytes (length bs) (set_bits (le_value bs) o w x).

(** A load of [n] bytes at address [a] of a block that starts at [base]. *)
Fixpoint load_le (n : nat) (block : list Z) (base a : Z) : outcome Z :=
  match n with
  | O => Ok 0
  | S n =>
    b ← load block (a - base);
    v ← load_le n block base (a + 1);
    Ok (b + 256 * v)
  end.

(** [p->path] for a [p] of type [t *] that holds [a]: the bytes of the member are
    loaded, or the storage unit of a bit-field and its bits taken out of it. *)
Definition load_member (t : ctype) (path : list string) (block : list Z) (base a : Z) : outcome Z :=
  match locate path t with
  | Some (o, TInt _ n, None) => load_le (Z.to_nat n) block base (a + o / 8)
  | Some (o, TInt _ n, Some w) =>
    unit ← load_le (Z.to_nat n) block base (a + o / (8 * n) * n);
    Ok (get_bits unit (o mod (8 * n)) w)
  | _ => Undef
  end.

(** ** Alignment arithmetic *)

Lemma align_up_spec off a :
  0 < a -> off <= align_up off a < off + a /\ (a | align_up off a).
Proof.
  intros Ha. unfold align_up. split; [|by eexists].
  pose proof (Z.div_mod (off + (a - 1)) a ltac:(lia)). pose proof (Z.mod_pos_bound (off + (a - 1)) a Ha). nia.
Qed.

Lemma align_up_ge off a : 0 < a -> off <= align_up off a.
Proof. intros Ha. by apply align_up_spec. Qed.

Lemma align_up_divide off a : (a | align_up off a).
Proof. by eexists. Qed.

(** The alignments are powers of two, so the larger of two is a multiple of the
    smaller one. *)
Definition align_ok (a : Z) : Prop := a = 1 \/ a = 2 \/ a = 4 \/ a = 8.

Lemma align_ok_pos a : align_ok a -> 0 < a.
Proof. unfold align_ok. lia. Qed.

Lemma align_ok_max a b : align_ok a -> align_ok b -> align_ok (Z.max a b).
Proof. unfold align_ok. lia. Qed.

Lemma align_ok_divide a b : align_ok a -> align_ok b -> a <= b -> (a | b).
Proof.
  intros Ha Hb Hle. exists (b / a).
  destruct Ha as [->|[->|[->| ->]]], Hb as [->|[->|[->| ->]]]; try lia; reflexivity.
Qed.

#[export] Hint Resolve align_ok_pos align_ok_max : velora.

(** ** Slots *)

(** What the members of a well-formed type come to. *)
Definition slot_ok (s : slot) : Prop :=
  align_ok (s_align s) /\ 0 <= s_size s /\ (s_align s | s_size s) /\
  forall w, s_bits s = Some w -> s_size s = s_align s /\ 0 < w <= 8 * s_size s.

(** Where a member may be: a plain one at a multiple of its alignment, a bit-field
    inside one storage unit of its type. *)
Definition well_placed (o : Z) (s : slot) : Prop :=
  match s_bits s with
  | None => (8 * s_align s | o)
  | Some w => o mod (8 * s_size s) + w <= 8 * s_size s
  end.

Lemma slot_width_nonneg s : slot_ok s -> 0 <= slot_width s.
Proof.
  intros (_ & Hs & _ & Hb). unfold slot_width. destruct (s_bits s) as [w|]; simpl; [|lia].
  specialize (Hb w eq_refl). lia.
Qed.

Lemma slot_start_spec off s :
  slot_ok s -> off <= slot_start off s /\ well_placed (slot_start off s) s.
Proof.
  intros (Ha & Hs & _ & Hb). apply align_ok_pos in Ha as Hp. unfold slot_start, well_placed.
  destruct (s_bits s) as [w|].
  - specialize (Hb w eq_refl) as [He Hw]. destruct (Z.leb_spec (off mod (8 * s_size s) + w) (8 * s_size s)).
    { done. }
    split; [apply align_up_ge; lia|]. destruct (align_up_divide off (8 * s_size s)) as [k ->].
    rewrite Z.mod_mul by lia. lia.
  - split; [apply align_up_ge; lia|apply align_up_divide].
Qed.

Lemma max_align_cons s ss : max_align (s :: ss) = Z.max (s_align s) (max_align ss).
Proof. done. Qed.
Lemma max_width_cons s ss : max_width (s :: ss) = Z.max (slot_width s) (max_width ss).
Proof. done. Qed.

Lemma max_align_ok ss : Forall slot_ok ss -> align_ok (max_align ss).
Proof.
  induction 1 as [|s ss [Ha _] _ IH]; simpl; [by left|]. auto with velora.
Qed.

Lemma max_align_divide ss s : Forall slot_ok ss -> s ∈ ss -> (s_align s | max_align ss).
Proof.
  intros Hok Hin. assert (Hs : slot_ok s) by (by eapply Forall_forall in Hok).
  apply align_ok_divide; [by destruct Hs|by apply max_align_ok|].
  clear Hok Hs. induction Hin as [s ss|s s' ss Hin IH]; simpl; lia.
Qed.

Lemma max_width_nonneg ss : 0 <= max_width ss.
Proof. induction ss; simpl; lia. Qed.

(** ** Placement *)

Lemma extent_ge ss off : Forall slot_ok ss -> off <= extent off ss.
Proof.
  intros H. revert off. induction H as [|s ss Hs _ IH]; intros off; simpl; [lia|].
  specialize (IH (slot_start off s + slot_width s)). pose proof (slot_start_spec off s Hs) as [Ho _].
  pose proof (slot_width_nonneg s Hs). lia.
Qed.

Lemma place_length ss off : length (place off ss) = length ss.
Proof. revert off. induction ss; intros; simpl; auto. Qed.

(** Every member is well placed, after [off] and before the extent. *)
Lemma place_lookup ss off i s o :
  Forall slot_ok ss -> ss !! i = Some s -> place off ss !! i = Some o ->
  off <= o /\ o + slot_width s <= extent off ss /\ well_placed o s.
Proof.
  intros H. revert off i. induction H as [|s' ss Hs Hss IH]; intros off i; [by rewrite lookup_nil|].
  pose proof (slot_start_spec off s' Hs) as [Ho Hw]. pose proof (slot_width_nonneg s' Hs).
  destruct i as [|i]; cbn [place extent lookup list_lookup].
  - intros [= <-] [= <-]. split_and!; [done|by apply extent_ge|done].
  - intros Hi Hp. destruct (IH _ _ Hi Hp) as (? & ? & ?). split_and!; [lia|done|done].
Qed.

(** A later member starts after the end of an earlier one. *)
Lemma place_ordered ss off i j s o p :
  Forall slot_ok ss -> (i < j)%nat -> ss !! i = Some s ->
  place off ss !! i = Some o -> place off ss !! j = Some p -> o + slot_width s <= p.
Proof.
  intros H. revert off i j. induction H as [|s' ss Hs Hss IH]; intros off i j Hij; [by rewrite lookup_nil|].
  destruct j as [|j]; [lia|]. destruct i as [|i]; cbn [place lookup list_lookup].
  - intros [= <-] [= <-] Hp. assert (Hj : is_Some (ss !! j)).
    { apply lookup_lt_Some in Hp. apply lookup_lt_is_Some. by rewrite place_length in Hp. }
    destruct Hj as [s2 Hj]. by destruct (place_lookup ss _ j s2 p Hss Hj Hp).
  - intros Hi Ho Hp. eapply IH; [|done..]. lia.
Qed.

(** ** Types *)

Section Induction.
Context (P : ctype -> Prop).
Context (HInt : forall sg n, P (TInt sg n)) (HPtr : P TPtr) (HArray : forall t n, P t -> P (TArray t n)).
Context (HStruct : forall ms, Forall (fun m => P (m_type m)) ms -> P (TStruct ms)).
Context (HUnion : forall ms, Forall (fun m => P (m_type m)) ms -> P (TUnion ms)).

(** Induction that reaches the members' types. *)
Fixpoint ctype_members_ind (t : ctype) : P t :=
  let members := fix members (ms : list member) : Forall (fun m => P (m_type m)) ms :=
    match ms with
    | [] => Forall_nil_2 _
    | Member n t b :: ms => Forall_cons_2 _ (Member n t b) ms (ctype_members_ind t) (members ms)
    end in
  match t with
  | TInt sg n => HInt sg n
  | TPtr => HPtr
  | TArray t n => HArray t n (ctype_members_ind t)
  | TStruct ms => HStruct ms (members ms)
  | TUnion ms => HUnion ms (members ms)
  end.
End Induction.

Definition layout_ok (l : Z * Z) : Prop := align_ok l.2 /\ 0 <= l.1 /\ (l.2 | l.1).

(** Rounding bits up to a multiple of [8 * a] gives whole bytes. *)
Lemma round_bytes n a :
  0 < a -> 0 <= n ->
  0 <= align_up n (8 * a) / 8 /\ (a | align_up n (8 * a) / 8) /\ n <= 8 * (align_up n (8 * a) / 8).
Proof.
  intros Ha Hn. pose proof (align_up_ge n (8 * a) ltac:(lia)) as Hge.
  destruct (align_up_divide n (8 * a)) as [k Hk]. rewrite Hk in *.
  replace (k * (8 * a)) with (k * a * 8) by lia. rewrite Z.div_mul by done.
  split_and!; [nia|by eexists|lia].
Qed.

Lemma aggregate_ok n ss : Forall slot_ok ss -> 0 <= n -> layout_ok (align_up n (8 * max_align ss) / 8, max_align ss).
Proof.
  intros Hs Hn. pose proof (max_align_ok ss Hs) as Ha.
  destruct (round_bytes n (max_align ss)) as (? & ? & _); auto with velora. by split_and!.
Qed.

Lemma slot_of_ok m :
  layout_ok (layout (m_type m)) -> bits_ok m = true -> slot_ok (slot_of m).
Proof.
  intros (Ha & Hs & Hd) Hb. split_and!; try done. unfold slot_of, slot_with, bits_ok in *. cbn [s_bits s_size s_align].
  intros w Hw. rewrite Hw in Hb. destruct (m_name m), (m_type m); try done. simpl. split; [done|lia].
Qed.

Lemma slots_ok ms :
  Forall (fun m => wf (m_type m) = true -> layout_ok (layout (m_type m))) ms ->
  members_wf ms = true -> Forall slot_ok (map slot_of ms).
Proof.
  intros H Hw. apply Forall_map, Forall_forall. intros m Hm. rewrite Forall_forall in H.
  unfold members_wf in Hw. rewrite forallb_forall in Hw. specialize (Hw m).
  apply andb_true_iff in Hw as [H1 H2]; [|by apply list_elem_of_In]. by apply slot_of_ok; [apply H|].
Qed.

Lemma layout_wf t : wf t = true -> layout_ok (layout t).
Proof.
  induction t as [sg n| |t n IH|ms IH|ms IH] using ctype_members_ind; cbn [wf layout].
  - unfold int_size, layout_ok, align_ok. simpl. intros. split_and!; [lia|lia|by exists 1; lia].
  - intros _. unfold layout_ok, align_ok. simpl. split_and!; [lia|lia|by exists 1].
  - intros [Hw Hn]%andb_true_iff. destruct (IH Hw) as (Ha & Hs & [k Hk]). split_and!; simpl; [done|nia|].
    exists (k * n). rewrite Hk. lia.
  - intros Hw. apply aggregate_ok; [by apply slots_ok|]. by apply extent_ge, slots_ok.
  - intros Hw. apply aggregate_ok; [by apply slots_ok|]. apply max_width_nonneg.
Qed.

Lemma slots_wf ms : members_wf ms = true -> Forall slot_ok (map slot_of ms).
Proof. intros Hw. apply slots_ok; [|done]. apply Forall_true. intros m. apply layout_wf. Qed.

(** The members end before the struct does. *)
Lemma struct_extent ms :
  wf (TStruct ms) = true -> extent 0 (map slot_of ms) <= 8 * sizeof (TStruct ms).
Proof.
  intros Hw. pose proof (slots_wf ms Hw) as Hss.
  apply round_bytes; [by apply align_ok_pos, max_align_ok|by apply extent_ge].
Qed.

(** ** Members by name *)

Abbreviation found := (Z * ctype * option Z)%type.

(** What a search in [t] may return: a member that lies inside [t] and is well
    placed there, of a type whose alignment divides that of [t]. *)
Definition member_at (align bound : Z) (r : found) : Prop :=
  let s := Slot (sizeof r.1.2) (alignof r.1.2) r.2 in
  wf r.1.2 = true /\ slot_ok s /\ (alignof r.1.2 | align) /\
  0 <= r.1.1 /\ r.1.1 + slot_width s <= bound /\ well_placed r.1.1 s.

Lemma member_at_weaken align bound align' bound' r :
  member_at align bound r -> (align | align') -> bound <= bound' -> member_at align' bound' r.
Proof.
  intros (? & ? & ? & ? & ? & ?) Ha Hb. split_and!; try done; [by etrans|lia].
Qed.

(** A member of a member: the outer one starts at a multiple of its alignment. *)
Lemma member_at_shift align bound x (r : found) :
  0 <= x -> 0 < align -> (8 * align | x) -> member_at align bound r ->
  member_at align (x + bound) (x + r.1.1, r.1.2, r.2).
Proof.
  intros Hx Hp Ha (? & Hok & Hd & ? & ? & Hw). split_and!; cbn [fst snd] in *; try done; [lia|lia|].
  assert (Hdx : (8 * alignof r.1.2 | x)) by (etrans; [|done]; by apply Z.mul_divide_mono_l).
  unfold well_placed in *. cbn [s_bits s_align s_size] in *. destruct r.2 as [w|].
  - destruct Hok as (_ & _ & _ & Hok). destruct (Hok w eq_refl) as [He Hww]. cbn [s_size s_align] in *.
    rewrite He in *. destruct Hdx as [k ->]. by rewrite (Z.add_comm (k * _)), Z.mod_add by lia.
  - by apply Z.divide_add_r.
Qed.

Lemma slot_start_0 s : slot_ok s -> slot_start 0 s = 0.
Proof.
  intros (Ha & Hs & _ & Hb). apply align_ok_pos in Ha. unfold slot_start. destruct (s_bits s) as [w|].
  - specialize (Hb w eq_refl). rewrite Zmod_0_l. destruct (Z.leb_spec (0 + w) (8 * s_size s)); [done|lia].
  - unfold align_up. rewrite Z.div_small; lia.
Qed.

Section SearchSpec.
Context (f : ctype -> option found) (union : bool) (name : string).

Definition bound_of (off : Z) (ss : list slot) : Z := if union then max_width ss else extent off ss.

Lemma search_spec ms off r :
  Forall (fun m => forall r, f (m_type m) = Some r ->
            member_at (alignof (m_type m)) (8 * sizeof (m_type m)) r) ms ->
  members_wf ms = true -> 0 <= off -> (union = true -> off = 0) ->
  search f union name off ms = Some r ->
  member_at (max_align (map slot_of ms)) (bound_of off (map slot_of ms)) r.
Proof.
  intros Hf. revert off. induction Hf as [|m ms Hm _ IH]; intros off Hw Hoff Hu; cbn [search]; [done|].
  pose proof (slots_wf _ Hw) as Hss. apply andb_true_iff in Hw as [[Hwm Hbm]%andb_true_iff Hw].
  apply Forall_cons_1 in Hss as Hsm. destruct Hsm as [Hsm _].
  destruct (slot_start_spec off _ Hsm) as [Hge Hwp]. pose proof (slot_width_nonneg _ Hsm) as Hwd.
  set (o := slot_start off (slot_of m)) in *.
  assert (Hend : o + slot_width (slot_of m) <= bound_of off (map slot_of (m :: ms))).
  { unfold bound_of. destruct union.
    - unfold o. rewrite (Hu eq_refl), slot_start_0, map_cons, max_width_cons by done. lia.
    - apply (extent_ge (map slot_of ms)). by apply Forall_cons_1 in Hss as [_ ?]. }
  assert (Hal : (alignof (m_type m) | max_align (map slot_of (m :: ms)))).
  { apply (max_align_divide _ (slot_of m)); [done|left]. }
  assert (Hrest : search f union name (if union then 0 else o + slot_width (slot_of m)) ms = Some r ->
    member_at (max_align (map slot_of (m :: ms))) (bound_of off (map slot_of (m :: ms))) r).
  { intros Hs. eapply member_at_weaken; [apply (IH _ Hw) in Hs; [exact Hs|destruct union; lia|by destruct union]|..].
    - apply align_ok_divide; [apply max_align_ok; by apply Forall_cons_1 in Hss as [_ ?]|by apply max_align_ok|].
      rewrite map_cons, max_align_cons. lia.
    - unfold bound_of. destruct union; [rewrite map_cons, max_width_cons; lia|done]. }
  destruct (m_name m) as [n|] eqn:En.
  - destruct (String.eqb n name); [|done]. intros [= <-]. split_and!; try done. cbn [fst]. lia.
  - destruct (f (m_type m)) as [[[o' t] b]|] eqn:Ef; [|done]. intros [= <-].
    assert (Hnb : m_bits m = None).
    { unfold bits_ok in Hbm. rewrite En in Hbm. by destruct (m_bits m). }
    eapply member_at_weaken.
    + apply (member_at_shift (alignof (m_type m)) (8 * sizeof (m_type m)) o (o', t, b)); [lia| | |by apply Hm].
      * destruct Hsm as [Ha _]. by apply align_ok_pos in Ha.
      * unfold well_placed in Hwp. cbn [slot_of slot_with s_bits] in Hwp. by rewrite Hnb in Hwp.
    + done.
    + unfold slot_width in Hend. cbn [slot_of slot_with s_bits s_size] in Hend. by rewrite Hnb in Hend.
Qed.
End SearchSpec.

Lemma members_found name ms :
  members_wf ms = true ->
  Forall (fun m => forall r, wf (m_type m) = true -> find_member name (m_type m) = Some r ->
            member_at (alignof (m_type m)) (8 * sizeof (m_type m)) r) ms ->
  Forall (fun m => forall r, find_member name (m_type m) = Some r ->
            member_at (alignof (m_type m)) (8 * sizeof (m_type m)) r) ms.
Proof.
  unfold members_wf. rewrite forallb_forall. intros Hw H. rewrite !Forall_forall in *.
  intros m Hm r Hr. apply H; [done| |done].
  specialize (Hw m ltac:(by apply list_elem_of_In)). by apply andb_true_iff in Hw as [? _].
Qed.

Lemma find_member_spec name t r :
  wf t = true -> find_member name t = Some r -> member_at (alignof t) (8 * sizeof t) r.
Proof.
  revert r. induction t as [sg n| |t n IH|ms IH|ms IH] using ctype_members_ind; intros r Hw Hr; try done.
  - assert (Hss : Forall slot_ok (map slot_of ms)) by (by apply slots_wf).
    apply (search_spec (find_member name) false name) in Hr; [|by apply members_found|done|done|done].
    eapply member_at_weaken; [exact Hr|done|]. apply round_bytes; [by apply align_ok_pos, max_align_ok|].
    by apply extent_ge.
  - assert (Hss : Forall slot_ok (map slot_of ms)) by (by apply slots_wf).
    apply (search_spec (find_member name) true name) in Hr; [|by apply members_found|done|done|done].
    eapply member_at_weaken; [exact Hr|done|]. apply round_bytes; [by apply align_ok_pos, max_align_ok|].
    apply max_width_nonneg.
Qed.

Lemma locate_spec path t r :
  wf t = true -> locate path t = Some r -> member_at (alignof t) (8 * sizeof t) r.
Proof.
  revert t r. induction path as [|n path IH]; intros t r Hw.
  { intros [= <-]. destruct (layout_wf t Hw) as (Ha & Hs & Hd). split_and!; try done.
    - by exists 0. }
  destruct path as [|n' path].
  { apply find_member_spec, Hw. }
  intros Hl. change (match find_member n t with
    | Some (o, t', None) =>
      match locate (n' :: path) t' with Some (o', t'', b) => Some (o + o', t'', b) | None => None end
    | _ => None end = Some r) in Hl.
  destruct (find_member n t) as [[[o t'] [|]]|] eqn:Ef; try done.
  destruct (find_member_spec _ _ _ Hw Ef) as (Hw' & (Ha & _) & Hd & Ho & Hb & Hp).
  destruct (locate (n' :: path) t') as [r'|] eqn:El; [|done]. apply IH in El; [|done].
  destruct r' as [[o' t''] b]. injection Hl as <-.
  eapply member_at_weaken; [apply (member_at_shift _ _ o _ Ho (align_ok_pos _ Ha) Hp El)|done|done].
Qed.

(** ** Bytes and bits *)

Lemma le_value_range bs : Forall is_byte bs -> 0 <= le_value bs < 2 ^ (8 * zlen bs).
Proof.
  induction 1 as [|b bs Hb _ IH]; [done|]. unfold zlen in *. cbn [length le_value].
  rewrite Nat2Z.inj_succ, Z.mul_succ_r, Z.pow_add_r by lia. unfold is_byte in Hb.
  change (2 ^ 8) with 256. lia.
Qed.

Lemma le_bytes_length n v : length (le_bytes n v) = n.
Proof. revert v. induction n; intros; simpl; auto. Qed.

Lemma le_bytes_byte n v : Forall is_byte (le_bytes n v).
Proof.
  revert v. induction n; intros v; constructor; [|done]. unfold is_byte. by apply Z.mod_pos_bound.
Qed.

Lemma le_value_bytes n v : le_value (le_bytes n v) = v mod 2 ^ (8 * Z.of_nat n).
Proof.
  revert v. induction n as [|n IH]; intros v; [by rewrite Z.mod_1_r|]. cbn [le_bytes le_value].
  rewrite IH, Nat2Z.inj_succ, Z.mul_succ_r, Z.add_comm, Z.pow_add_r, (Z.mul_comm (2 ^ _)) by lia.
  change (2 ^ 8) with 256. rewrite Z.rem_mul_r by lia. lia.
Qed.

Lemma le_value_app bs cs : le_value (bs ++ cs) = le_value bs + 2 ^ (8 * zlen bs) * le_value cs.
Proof.
  induction bs as [|b bs IH]; [unfold zlen; simpl; lia|]. unfold zlen in *. cbn [length le_value app].
  rewrite IH, Nat2Z.inj_succ, Z.mul_succ_r, Z.pow_add_r by lia. change (2 ^ 8) with 256. lia.
Qed.

Lemma get_bits_spec v o w i :
  0 <= o -> 0 <= w -> 0 <= i -> Z.testbit (get_bits v o w) i = Z.testbit v (i + o) && (i <? w).
Proof.
  intros. unfold get_bits. rewrite Z.land_spec, Z.shiftr_spec, Z.testbit_ones_nonneg by done. done.
Qed.

Lemma set_bits_spec v o w x i :
  0 <= o -> 0 <= w -> 0 <= i ->
  Z.testbit (set_bits v o w x) i =
    if (o <=? i) && (i <? o + w) then Z.testbit x (i - o) else Z.testbit v i.
Proof.
  intros Ho Hw Hi. unfold set_bits. rewrite Z.lor_spec, Z.ldiff_spec, !Z.shiftl_spec, Z.land_spec by done.
  destruct (Z.leb_spec o i) as [Hoi|Hoi]; cbn [andb].
  - rewrite Z.testbit_ones_nonneg by lia. replace (i - o <? w) with (i <? o + w) by lia.
    destruct (Z.ltb_spec i (o + w)); cbn [negb andb].
    + by rewrite andb_false_r, andb_true_r.
    + by rewrite andb_true_r, andb_false_r, orb_false_r.
  - by rewrite !(Z.testbit_neg_r _ (i - o)), andb_true_r, orb_false_r by lia.
Qed.

Lemma get_bits_mod v w : 0 <= w -> get_bits v 0 w = v mod 2 ^ w.
Proof. intros. unfold get_bits. by rewrite Z.shiftr_0_r, Z.land_ones. Qed.

Lemma get_bits_get v o w p u :
  0 <= o -> 0 <= p -> 0 <= u -> p + u <= w -> get_bits (get_bits v o w) p u = get_bits v (o + p) u.
Proof.
  intros. apply Z.bits_inj'. intros i Hi. rewrite !get_bits_spec by lia.
  replace (i + p + o) with (i + (o + p)) by lia.
  destruct (Z.ltb_spec i u); rewrite ?andb_false_r; [|done].
  destruct (Z.ltb_spec (i + p) w); [by rewrite !andb_true_r|lia].
Qed.

Lemma get_set_bits v o w x : 0 <= o -> 0 <= w -> get_bits (set_bits v o w x) o w = x mod 2 ^ w.
Proof.
  intros. rewrite <-get_bits_mod by done. apply Z.bits_inj'. intros i Hi.
  rewrite !get_bits_spec, set_bits_spec by lia. destruct (Z.ltb_spec i w); rewrite ?andb_false_r; [|done].
  replace (o <=? i + o) with true by lia. replace (i + o <? o + w) with true by lia. cbn [andb].
  by replace (i + o - o) with (i + 0) by lia.
Qed.

Lemma get_set_bits_ne v o w x p u :
  0 <= o -> 0 <= w -> 0 <= p -> 0 <= u -> o + w <= p \/ p + u <= o ->
  get_bits (set_bits v o w x) p u = get_bits v p u.
Proof.
  intros Ho Hw Hp Hu Hd. apply Z.bits_inj'. intros i Hi. rewrite !get_bits_spec, set_bits_spec by lia.
  destruct (Z.ltb_spec i u); rewrite ?andb_false_r; [|done].
  by replace ((o <=? i + p) && (i + p <? o + w)) with false by lia.
Qed.

(** The bits of the first [n] of a number are the bits of the number. *)
Lemma get_bits_low v n o w :
  0 <= o -> 0 <= w -> o + w <= n -> get_bits (v mod 2 ^ n) o w = get_bits v o w.
Proof. intros. rewrite <-get_bits_mod by lia. by rewrite get_bits_get by lia. Qed.

(** ** Reading and writing objects *)

Lemma read_write bs o w x :
  0 <= o -> 0 <= w -> o + w <= 8 * zlen bs -> read_bits (write_bits bs o w x) o w = x mod 2 ^ w.
Proof.
  intros. unfold read_bits, write_bits. rewrite le_value_bytes, get_bits_low by done. by apply get_set_bits.
Qed.

Lemma read_write_ne bs o w x p u :
  0 <= o -> 0 <= w -> 0 <= p -> 0 <= u -> p + u <= 8 * zlen bs -> o + w <= p \/ p + u <= o ->
  read_bits (write_bits bs o w x) p u = read_bits bs p u.
Proof.
  intros. unfold read_bits, write_bits. rewrite le_value_bytes, get_bits_low by done. by apply get_set_bits_ne.
Qed.

(** The bytes [k..k+n) of an object are the bits [8k..8(k+n)) of it. *)
Lemma le_value_slice bs k n :
  Forall is_byte bs -> (k + n <= length bs)%nat ->
  le_value (take n (drop k bs)) = read_bits bs (8 * Z.of_nat k) (8 * Z.of_nat n).
Proof.
  intros Hb Hl. unfold read_bits, get_bits. rewrite Z.land_ones, Z.shiftr_div_pow2 by lia.
  assert (Hk : zlen (take k bs) = Z.of_nat k) by (unfold zlen; rewrite length_take; lia).
  assert (Hn : zlen (take n (drop k bs)) = Z.of_nat n)
    by (unfold zlen; rewrite length_take, length_drop; lia).
  pose proof (le_value_range _ (Forall_take _ k _ Hb)) as Rk. rewrite Hk in Rk.
  pose proof (le_value_range _ (Forall_take _ n _ (Forall_drop _ k _ Hb))) as Rn. rewrite Hn in Rn.
  rewrite <-(take_drop k bs) at 2. rewrite le_value_app, Hk, Z.mul_comm, Z.div_add, Z.div_small by lia.
  rewrite <-(take_drop n (drop k bs)) at 2. rewrite le_value_app, Hn, Z.add_0_l, Z.mul_comm, Z.mod_add by lia.
  by rewrite Z.mod_small.
Qed.

Lemma load_le_ok n block base a :
  base <= a -> a + Z.of_nat n <= base + zlen block ->
  load_le n block base a = Ok (le_value (take n (drop (Z.to_nat (a - base)) block))).
Proof.
  unfold zlen. revert a. induction n as [|n IH]; intros a Ha Hl; [done|]. cbn [load_le].
  destruct (lookup_lt_is_Some_2 block (Z.to_nat (a - base))) as [b Hb]; [lia|].
  rewrite (load_ok _ _ b) by (done || lia). ostep. rewrite IH by lia. ostep.
  rewrite (drop_S _ _ _ Hb). by replace (Z.to_nat (a + 1 - base)) with (S (Z.to_nat (a - base))) by lia.
Qed.

(** A load inside the object at [a] reads its bits. *)
Lemma load_obj block base a k n size :
  Forall is_byte block -> base <= a -> a + size <= base + zlen block -> 0 <= k -> 0 <= n -> k + n <= size ->
  load_le (Z.to_nat n) block base (a + k) =
  Ok (read_bits (take (Z.to_nat size) (drop (Z.to_nat (a - base)) block)) (8 * k) (8 * n)).
Proof.
  intros Hb Ha He Hk Hn Hkn. rewrite load_le_ok by lia. f_equal. unfold zlen in He.
  replace (8 * k) with (8 * Z.of_nat (Z.to_nat k)) by lia.
  replace (8 * n) with (8 * Z.of_nat (Z.to_nat n)) by lia.
  rewrite <-le_value_slice; [|by apply Forall_take, Forall_drop|rewrite length_take, length_drop; lia].
  f_equal. rewrite skipn_firstn_comm, drop_drop, take_take. f_equal; [lia|]. f_equal. lia.
Qed.

(** ** Enumerations *)

(** The values are exactly [0, ..., n - 1]. *)
Definition enum_dense (E : Type) `{CEnum E} (n : nat) : Prop :=
  forall v, is_Some (enum_of (E := E) v) <-> 0 <= v < Z.of_nat n.

Definition enum_dense_b (E : Type) `{CEnum E} (n : nat) : bool :=
  forallb (fun e => (0 <=? enum_value e) && (enum_value e <? Z.of_nat n)) (@enumerators E _) &&
  forallb (fun k => match enum_of (E := E) (Z.of_nat k) with Some _ => true | None => false end) (seq 0 n).

Lemma enum_dense_sound E `{CEnum E} n : enum_dense_b E n = true -> enum_dense E n.
Proof.
  intros [He Hk]%andb_true_iff v. rewrite forallb_forall in He, Hk. split.
  - intros [e Hv]. apply find_some in Hv as [Hin Hv%Z.eqb_eq]. apply He in Hin. lia.
  - intros Hr. specialize (Hk (Z.to_nat v)). rewrite in_seq, Z2Nat.id in Hk by lia.
    destruct (enum_of v) eqn:Hv; [by eexists|]. by discriminate Hk; lia.
Qed.

(** ** Soundness of the layout *)

(** Assigning a member changes that member and nothing else: after
    [p->m_i = x] the object has the same size, reading [m_i] gives [x] truncated
    to the member's width, and every other member, bit-fields of the same storage
    unit included, reads as before. *)
Lemma member_update (ms : list member) (obj : list Z) (i : nat) (s : slot) (o x : Z)
  (Hw : wf (TStruct ms) = true) (Hobj : zlen obj = sizeof (TStruct ms))
  (Hs : map slot_of ms !! i = Some s) (Ho : place 0 (map slot_of ms) !! i = Some o) :
  let obj' := write_bits obj o (slot_width s) x in
  zlen obj' = zlen obj /\ Forall is_byte obj' /\
  read_bits obj' o (slot_width s) = x mod 2 ^ slot_width s /\
  forall j u p, j <> i -> map slot_of ms !! j = Some u -> place 0 (map slot_of ms) !! j = Some p ->
    read_bits obj' p (slot_width u) = read_bits obj p (slot_width u).
Proof.
  intros obj'. pose proof (slots_wf ms Hw) as Hss. pose proof (struct_extent ms Hw) as He.
  destruct (place_lookup _ _ _ _ _ Hss Hs Ho) as (? & ? & _).
  pose proof (slot_width_nonneg s (Forall_lookup_1 _ _ _ _ Hss Hs)).
  split_and!.
  - unfold obj', write_bits, zlen. by rewrite le_bytes_length.
  - apply le_bytes_byte.
  - apply read_write; lia.
  - intros j u p Hij Hu Hp. destruct (place_lookup _ _ _ _ _ Hss Hu Hp) as (? & ? & _).
    pose proof (slot_width_nonneg u (Forall_lookup_1 _ _ _ _ Hss Hu)).
    apply read_write_ne; try lia.
    destruct (decide (i < j)%nat); [left|right]; eapply place_ordered; [..|eassumption|eassumption]; eauto; lia.
Qed.

(** A member access through a pointer is safe once the whole object is known
    to lie in the block, which is what the bounds checks of the eBPF programs
    establish: for every well-formed type and every integer member or bit-field
    that a path of names reaches, the load succeeds and gives the member's bits of
    the object. *)
Lemma load_member_safe (t : ctype) (path : list string) (o : Z) (sg : bool) (n : Z) (b : option Z)
  (block : list Z) (base a : Z)
  (Hw : wf t = true) (Hl : locate path t = Some (o, TInt sg n, b)) (Hb : Forall is_byte block)
  (Ha : base <= a) (He : a + sizeof t <= base + zlen block) :
  let obj := take (Z.to_nat (sizeof t)) (drop (Z.to_nat (a - base)) block) in
  load_member t path block base a = Ok (read_bits obj o (default (8 * n) b)).
Proof.
  intros obj. unfold load_member. rewrite Hl.
  destruct (locate_spec _ _ _ Hw Hl) as (Hwn & (Han & _ & _ & Hbits) & [al Hal] & Ho & Hbound & Hp).
  cbn [fst snd] in *. destruct (layout_wf t Hw) as (Hat & Hst & [k Hk]).
  change (sizeof (TInt sg n)) with n in *. change (alignof (TInt sg n)) with n in *.
  change (layout t).1 with (sizeof t) in *. change (layout t).2 with (alignof t) in *.
  apply align_ok_pos in Han as Hn. apply align_ok_pos in Hat as Hpt.
  cbn [s_align s_size s_bits] in *.
  destruct b as [w|]; cbn [default].
  - destruct (Hbits w eq_refl) as [_ Hww]. unfold well_placed in Hp. cbn [s_bits s_size] in Hp.
    pose proof (Z.div_mod o (8 * n) ltac:(lia)) as Hdm. pose proof (Z.mod_pos_bound o (8 * n) ltac:(lia)).
    set (q := o / (8 * n)) in *. assert (0 <= q) by (unfold q; apply Z.div_pos; lia).
    assert (Hq : (q + 1) * n <= sizeof t).
    { cut (8 * ((q + 1) * n) <= 8 * sizeof t); [lia|]. unfold slot_width in Hbound. simpl in Hbound.
      assert (q * n * 8 < 8 * sizeof t) by nia. assert (q < k * al) by nia. nia. }
    rewrite (load_obj block base a (q * n) n (sizeof t)) by (done || nia). ostep. f_equal.
    fold obj. unfold read_bits. rewrite get_bits_get by nia. f_equal. lia.
  - destruct Hp as [q Hq]. cbn [s_align] in Hq. assert (o = 8 * (q * n)) as -> by lia.
    rewrite (Z.mul_comm 8 (q * n)), Z.div_mul, (Z.mul_comm (q * n) 8) by done. unfold slot_width in Hbound. simpl in Hbound.
    rewrite (load_obj block base a (q * n) n (sizeof t)) by (done || nia). done.
Qed.
