(* ===== verification/Core.v ===== *)
(** * Core: the shared vocabulary of the program

    The enums of [include/velora/common.h] and [include/velora/error.h], the
    message table of [src/core/error.c], the implementation-defined size of an
    enum, and the part of the C library the sources use: the allocator and
    [errno].

    The allocator is an oracle ([Libc]): the n-th request is answered by NULL
    or by a block with arbitrary contents, so that every theorem holds for
    every pattern of allocation failures and of uninitialised bytes. *)

From S2P Require Import Prelude CType.
#[local] Open Scope Z_scope.

(** ** include/velora/common.h *)

Inductive State := RUNNING | SHUTDOWN_REQUESTED | EXITED.

Inductive vr_result_t := VR_SUCCESS | VR_ERROR | VR_INTERRUPTED | VR_EMPTY.

#[global] Instance State_eq_dec : EqDecision State.
Proof. solve_decision. Defined.
#[global] Instance vr_result_t_eq_dec : EqDecision vr_result_t.
Proof. solve_decision. Defined.

(** The integer an enumerator of [vr_result_t] denotes in a comparison. *)
Definition vr_result_int (r : vr_result_t) : Z :=
  match r with VR_SUCCESS => 0 | VR_ERROR => 1 | VR_INTERRUPTED => 2 | VR_EMPTY => 3 end.

(** ** include/velora/error.h and src/core/error.c *)

Inductive vr_error_t :=
| VR_OK
| VR_ERR_LOG_INIT
| VR_ERR_MUTEX_INIT
| VR_ERR_SOCKET_CREATE
| VR_ERR_SOCKET_CONNECT
| VR_ERR_SOCKET_ACCEPT
| VR_ERR_SOCKET_BIND
| VR_ERR_SOCKET_LISTEN
| VR_ERR_INVALID_ADDR
| VR_ERR_INVALID_ADDR_FAMILY.

#[global] Instance vr_error_t_eq_dec : EqDecision vr_error_t.
Proof. solve_decision. Defined.

Definition vr_error_int (err : vr_error_t) : Z :=
  match err with
  | VR_OK => 0
  | VR_ERR_LOG_INIT => 1
  | VR_ERR_MUTEX_INIT => 2
  | VR_ERR_SOCKET_CREATE => 3
  | VR_ERR_SOCKET_CONNECT => 4
  | VR_ERR_SOCKET_ACCEPT => 5
  | VR_ERR_SOCKET_BIND => 6
  | VR_ERR_SOCKET_LISTEN => 7
  | VR_ERR_INVALID_ADDR => 8
  | VR_ERR_INVALID_ADDR_FAMILY => 9
  end.

(** The argument is an [enum], so any integer can arrive. *)
Definition vr_error_string (err : Z) : string :=
  match err with
  | 0 => "No error"
  | 1 => "Failed to initialize logger"
  | 2 => "Failed to initialize mutex"
  | 3 => "Failed to create socket"
  | 4 => "Failed to connect to the socket fd"
  | 5 => "Failed to accept queued connection"
  | 6 => "Failed to bind socket"
  | 7 => "Failed to listen on socket"
  | 8 => "Error due to invalid address provided"
  | 9 => "Error due to unsupported address family"
  | _ => "Unknown error"
  end.

(** A description identifies its error code. *)
Lemma error_string_inj (err : vr_error_t) (code : Z) :
  vr_error_string code = vr_error_string (vr_error_int err) -> code = vr_error_int err.
Proof.
  destruct code as [|p|p]; [| |by destruct err].
  - by destruct err.
  - do 4 (destruct p as [p|p|]; try (by destruct err)).
Qed.

(** ** Implementation-defined sizes *)

(** The size of an [enum] object is implementation-defined: one int for gcc
    and clang on Linux, one byte under [-fshort-enums].  The sizes below are
    the ones an implementation can choose for the enums of this program. *)
Class Abi := {
  sizeof_enum : Z;
  sizeof_enum_ok : sizeof_enum = 1 \/ sizeof_enum = 2 \/ sizeof_enum = 4
}.

(** The Makefile builds with gcc and no [-fshort-enums]. *)
#[refine] Definition gcc_abi : Abi := {| sizeof_enum := 4 |}.
Proof. by right; right. Defined.

#[refine] Definition short_enums_abi : Abi := {| sizeof_enum := 1 |}.
Proof. by left. Defined.

(** The type of an enum member. *)
Definition enum `{Abi} : ctype := TInt false sizeof_enum.

(** ** errno *)

Definition EINTR : Z := 4.
Definition EAGAIN : Z := 11.
Definition EWOULDBLOCK : Z := EAGAIN.
Definition ENOMEM : Z := 12.
Definition ENOBUFS : Z := 105.

(** ** The allocator *)

(** Addresses of heap objects that are shared by pointer. *)
Abbreviation loc := positive.

Class Libc := {
  (** the answer to the n-th request, for a number of bytes: NULL, or the bytes
      found in the block *)
  alloc_answer : nat -> Z -> option (Z -> Z);
  (** where the n-th request puts an object, given the addresses in use *)
  alloc_addr : nat -> gset loc -> loc;
  alloc_addr_fresh : forall n X, alloc_addr n X ∉ X
}.

(** The library's state: requests made so far, blocks allocated and not yet
    freed, and [errno]. *)
Record proc := Proc { p_next : nat; p_live : Z; p_errno : Z }.

Definition set_errno (e : Z) (p : proc) : proc := Proc (p_next p) (p_live p) e.

Section Allocator.
Context `{Libc}.

(** A request for [n] bytes of which only the success matters. *)
Definition alloc_obj (n : Z) (p : proc) : bool * proc :=
  match alloc_answer (p_next p) n with
  | None => (false, Proc (S (p_next p)) (p_live p) ENOMEM)
  | Some _ => (true, Proc (S (p_next p)) (p_live p + 1) (p_errno p))
  end.

Definition block_of (f : Z -> Z) (n : Z) : list Z :=
  (fun i : nat => u8 (f (Z.of_nat i))) <$> seq 0 (Z.to_nat n).

(** [malloc(n)]: NULL, or a block of [n] bytes with unspecified contents. *)
Definition malloc (n : Z) (p : proc) : option (list Z) * proc :=
  match alloc_answer (p_next p) n with
  | None => (None, Proc (S (p_next p)) (p_live p) ENOMEM)
  | Some f => (Some (block_of f n), Proc (S (p_next p)) (p_live p + 1) (p_errno p))
  end.

(** [free(q)] of an owned pointer: nothing for NULL. *)
Definition free {A} (q : option A) (p : proc) : proc :=
  match q with
  | None => p
  | Some _ => Proc (p_next p) (p_live p - 1) (p_errno p)
  end.

(** Live blocks an owner accounts for through one pointer. *)
Definition owned {A} (q : option A) : Z := match q with None => 0 | Some _ => 1 end.

(** Requests for [n] bytes never fail. *)
Definition allocates (n : Z) : Prop := forall k, alloc_answer k n <> None.

Lemma block_of_length f n : 0 <= n -> zlen (block_of f n) = n.
Proof. intros. unfold block_of, zlen. rewrite length_fmap, length_seq. lia. Qed.

Lemma block_of_bytes f n : Forall is_byte (block_of f n).
Proof. apply Forall_fmap, Forall_true. intros. apply u8_byte. Qed.

(** The two answers of [malloc]. *)
Lemma malloc_spec n p :
  0 <= n ->
  match malloc n p with
  | (None, p') => p_live p' = p_live p
  | (Some d, p') =>
      zlen d = n /\ Forall is_byte d /\ p_live p' = p_live p + 1 /\ p_errno p' = p_errno p
  end.
Proof.
  intros. unfold malloc. destruct (alloc_answer _ _); simpl; [|done].
  rewrite block_of_length by done. by repeat split; auto using block_of_bytes.
Qed.

Lemma not_allocates k n : alloc_answer k n = None -> ~ allocates n.
Proof. intros E Ha. by destruct (Ha k). Qed.

Lemma free_live {A} (q : option A) p : p_live (free q p) = p_live p - owned q.
Proof. destruct q; simpl; lia. Qed.
End Allocator.

#[global] Arguments block_of : simpl never.
#[global] Arguments malloc : simpl never.

Create Rewrite HintDb live.
#[export] Hint Rewrite @free_live : live.

(** Concrete allocators: one that always succeeds with zeroed blocks, one that
    always succeeds with blocks full of 0xAA, one that always fails. *)
#[refine] Definition libc_fill (v : Z) : Libc :=
  {| alloc_answer := fun _ _ => Some (fun _ => v);
     alloc_addr := fun _ X => fresh X |}.
Proof. intros _ X. apply is_fresh. Defined.

Lemma libc_fill_allocates v n : @allocates (libc_fill v) n.
Proof. by intros k. Qed.

#[refine] Definition libc_fail_from (k : nat) : Libc :=
  {| alloc_answer := fun n _ => if decide (n < k)%nat then Some (fun _ => 0) else None;
     alloc_addr := fun _ X => fresh X |}.
Proof. intros _ X. apply is_fresh. Defined.

Definition proc0 : proc := Proc 0 0 0.
