(* ===== verification/RingBuffer.v ===== *)
(** * RingBuffer: src/conn/ring_buffer.c

    The per-connection byte ring ([vr_connection_ring_buf_t] of
    [include/velora/conn.h]) and its operations, one definition per function.
    The theorems say that every operation keeps the representation invariant
    [ring_wf], never runs into undefined behaviour from a well-formed ring, and
    acts on [ring_contents] as the matching operation of a byte queue.

    The block behind [buf->data] is owned by the ring alone, so it is a value
    of the record ([None] is NULL).  A pointer into it ([&buf->data[i]]) is its
    offset [i].  Every call site passes the address of a member of a live
    connection, so the [buf == NULL] and [data == NULL] guards never fire and
    the arguments are plain values. *)

From S2P Require Import Prelude Core.
#[local] Open Scope Z_scope.

Definition VR_CONNECTION_BUFFER_INITIAL_SIZE : Z := 4096.
Definition VR_CONNECTION_BUFFER_MAX_SIZE : Z := 65536.

Inductive vr_connection_ring_buf_state_t :=
| VR_CONN_RING_BUF_UNALLOC
| VR_CONN_RING_BUF_ACTIVE
| VR_CONN_RING_BUF_FULL.

#[global] Instance ring_buf_state_eq_dec : EqDecision vr_connection_ring_buf_state_t.
Proof. solve_decision. Defined.

Record vr_connection_ring_buf_t := RingBuf {
  rb_data : option (list Z);
  rb_capacity : Z;            (* uint32_t *)
  rb_count : Z;               (* uint32_t *)
  rb_read_pos : Z;            (* uint16_t *)
  rb_write_pos : Z;           (* uint16_t *)
  rb_state : vr_connection_ring_buf_state_t
}.

(** The all-zero struct [memset] leaves in a new connection. *)
Definition zeroed_ring_buf : vr_connection_ring_buf_t :=
  RingBuf None 0 0 0 0 VR_CONN_RING_BUF_UNALLOC.

Definition rb_set_state (st : vr_connection_ring_buf_state_t)
    (b : vr_connection_ring_buf_t) : vr_connection_ring_buf_t :=
  RingBuf (rb_data b) (rb_capacity b) (rb_count b) (rb_read_pos b) (rb_write_pos b) st.

(** [a % n] on unsigned operands. *)
Definition c_mod (a n : Z) : outcome Z := if n =? 0 then Undef else Ok (a mod n).

Section Operations.
Context `{Libc}.
Implicit Types b : vr_connection_ring_buf_t.

Definition vr_conn_ring_buf_init b (p : proc)
    : vr_result_t * vr_connection_ring_buf_t * proc :=
  match rb_data b with
  | Some _ => (VR_ERROR, b, p)
  | None =>
      match malloc VR_CONNECTION_BUFFER_INITIAL_SIZE p with
      | (None, p) =>
          (VR_ERROR,
           RingBuf None 0 (rb_count b) (rb_read_pos b) (rb_write_pos b) (rb_state b), p)
      | (Some d, p) =>
          (VR_SUCCESS,
           RingBuf (Some d) VR_CONNECTION_BUFFER_INITIAL_SIZE 0 0 0 VR_CONN_RING_BUF_ACTIVE, p)
      end
  end.

Definition vr_conn_ring_buf_size b : Z := rb_count b.
Definition vr_conn_ring_buf_free b : Z := u32 (rb_capacity b - rb_count b).
Definition vr_conn_ring_buf_empty b : bool := rb_count b =? 0.
Definition vr_conn_ring_buf_full b : bool := rb_count b =? rb_capacity b.

(** The part of [push] behind the lazy allocation. *)
Definition push_allocated b (x : Z) : outcome (vr_result_t * vr_connection_ring_buf_t) :=
  if rb_count b =? rb_capacity b
  then Ok (VR_ERROR, rb_set_state VR_CONN_RING_BUF_FULL b)
  else
    let count := u32 (rb_count b + 1) in
    d ← deref (rb_data b);
    d ← store d (rb_write_pos b) x;
    w ← c_mod (u32 (rb_write_pos b + 1)) (rb_capacity b);
    Ok (VR_SUCCESS,
        RingBuf (Some d) (rb_capacity b) count (rb_read_pos b) (u16 w) (rb_state b)).

Definition vr_conn_ring_buf_push b (x : Z) (p : proc)
    : outcome (vr_result_t * vr_connection_ring_buf_t * proc) :=
  if rb_capacity b =? 0 then
    match vr_conn_ring_buf_init b p with
    | (VR_ERROR, b, p) => Ok (VR_ERROR, rb_set_state VR_CONN_RING_BUF_UNALLOC b, p)
    | (_, b, p) => '(r, b) ← push_allocated b x; Ok (r, b, p)
    end
  else '(r, b) ← push_allocated b x; Ok (r, b, p).

(** The out parameter of [pop] and [peek] is [None] when it is not written. *)
Definition vr_conn_ring_buf_pop b
    : outcome (vr_result_t * option Z * vr_connection_ring_buf_t) :=
  if rb_count b =? 0 then Ok (VR_ERROR, None, b)
  else
    let count := u32 (rb_count b - 1) in
    d ← deref (rb_data b);
    x ← load d (rb_read_pos b);
    r ← c_mod (u32 (rb_read_pos b + 1)) (rb_capacity b);
    Ok (VR_SUCCESS, Some x,
        RingBuf (Some d) (rb_capacity b) count (u16 r) (rb_write_pos b) (rb_state b)).

Definition vr_conn_ring_buf_peek b : outcome (vr_result_t * option Z) :=
  if rb_count b =? 0 then Ok (VR_ERROR, None)
  else
    d ← deref (rb_data b);
    x ← load d (rb_read_pos b);
    Ok (VR_SUCCESS, Some x).

(** The copy of [grow]: the readable bytes, flattened to the front of [nb]. *)
Definition grow_copy b (nb : list Z) : outcome (list Z) :=
  if 0 <? rb_count b then
    d ← deref (rb_data b);
    if rb_read_pos b <? rb_write_pos b then
      s ← slice d (rb_read_pos b) (rb_count b);
      splice nb 0 s
    else
      let first_chunk := u32 (rb_capacity b - rb_read_pos b) in
      s1 ← slice d (rb_read_pos b) first_chunk;
      nb ← splice nb 0 s1;
      s2 ← slice d 0 (u32 (rb_count b - first_chunk));
      splice nb first_chunk s2
  else Ok nb.

Definition vr_conn_ring_buf_grow b (p : proc)
    : outcome (vr_result_t * vr_connection_ring_buf_t * proc) :=
  if rb_capacity b =? 0 then Ok (vr_conn_ring_buf_init b p)
  else if VR_CONNECTION_BUFFER_MAX_SIZE <=? rb_capacity b
  then Ok (VR_ERROR, b, set_errno ENOMEM p)
  else
    let new_capacity := u32 (rb_capacity b * 2) in
    let new_capacity :=
      if VR_CONNECTION_BUFFER_MAX_SIZE <? new_capacity
      then VR_CONNECTION_BUFFER_MAX_SIZE else new_capacity in
    match malloc new_capacity p with
    | (None, p) => Ok (VR_ERROR, b, p)
    | (Some nb, p) =>
        nb ← grow_copy b nb;
        Ok (VR_SUCCESS,
            RingBuf (Some nb) new_capacity (rb_count b) 0 (u16 (rb_count b))
                    VR_CONN_RING_BUF_ACTIVE,
            free (rb_data b) p)
    end.

(** Length of the first readable region, and its offset in [buf->data]. *)
Definition vr_conn_ring_buf_contiguous_read b : Z * option Z :=
  if rb_count b =? 0 then (0, None)
  else if rb_read_pos b <? rb_write_pos b then (rb_count b, Some (rb_read_pos b))
  else (u32 (rb_capacity b - rb_read_pos b), Some (rb_read_pos b)).

Definition vr_conn_ring_buf_consume b (n : Z)
    : outcome (vr_result_t * vr_connection_ring_buf_t) :=
  if rb_count b <? n then Ok (VR_ERROR, b)
  else
    r ← c_mod (u32 (rb_read_pos b + n)) (rb_capacity b);
    let count := u32 (rb_count b - n) in
    let '(r, w) := if count =? 0 then (0, 0) else (u16 r, rb_write_pos b) in
    let st := match rb_state b with
              | VR_CONN_RING_BUF_FULL => VR_CONN_RING_BUF_ACTIVE
              | st => st
              end in
    Ok (VR_SUCCESS, RingBuf (rb_data b) (rb_capacity b) count r w st).

(** The bytes written to [out]; [None] when nothing is written. *)
Definition vr_conn_ring_buf_peek_n b (len : Z)
    : outcome (vr_result_t * option (list Z)) :=
  if rb_count b <? len then Ok (VR_ERROR, None)
  else if len =? 0 then Ok (VR_SUCCESS, Some [])
  else
    let first_chunk := u32 (rb_capacity b - rb_read_pos b) in
    d ← deref (rb_data b);
    if len <=? first_chunk then
      s ← slice d (rb_read_pos b) len;
      Ok (VR_SUCCESS, Some s)
    else
      s1 ← slice d (rb_read_pos b) first_chunk;
      s2 ← slice d 0 (u32 (len - first_chunk));
      Ok (VR_SUCCESS, Some (s1 ++ s2)).

(** Length of the first writable region, and its offset in [buf->data]. *)
Definition vr_conn_ring_buf_contiguous_write b : Z * option Z :=
  if rb_capacity b =? 0 then (0, None)
  else
    let free_space := u32 (rb_capacity b - rb_count b) in
    if free_space =? 0 then (0, None)
    else if rb_read_pos b <=? rb_write_pos b then
      let region1_len := u32 (rb_capacity b - rb_write_pos b) in
      (if free_space <? region1_len then free_space else region1_len, Some (rb_write_pos b))
    else
      let contiguous := u32 (rb_read_pos b - rb_write_pos b) in
      (if free_space <? contiguous then free_space else contiguous, Some (rb_write_pos b)).

Definition vr_conn_ring_buf_commit b (n : Z)
    : outcome (vr_result_t * vr_connection_ring_buf_t) :=
  if n =? 0 then Ok (VR_SUCCESS, b)
  else if (rb_capacity b =? 0) || (u32 (rb_capacity b - rb_count b) <? n)
  then Ok (VR_ERROR, b)
  else
    w ← c_mod (u32 (rb_write_pos b + n)) (rb_capacity b);
    let count := u32 (rb_count b + n) in
    let st := if count =? rb_capacity b then VR_CONN_RING_BUF_FULL else rb_state b in
    Ok (VR_SUCCESS,
        RingBuf (rb_data b) (rb_capacity b) count (rb_read_pos b) (u16 w) st).

(** The loop of [reserve]. *)
Fixpoint reserve_loop (fuel : nat) b (needed : Z) (p : proc)
    : outcome (vr_result_t * vr_connection_ring_buf_t * proc) :=
  match fuel with
  | O => NoFuel
  | S fuel =>
      if vr_conn_ring_buf_free b <? needed then
        '(r, b, p) ← vr_conn_ring_buf_grow b p;
        match r with
        | VR_ERROR => Ok (VR_ERROR, b, p)
        | _ => reserve_loop fuel b needed p
        end
      else Ok (VR_SUCCESS, b, p)
  end.

(** Each turn doubles a capacity below [VR_CONNECTION_BUFFER_MAX_SIZE], so the
    loop makes at most 19 turns from any starting state. *)
Definition reserve_fuel : nat := 20.

Definition vr_conn_ring_buf_reserve b (needed : Z) (p : proc)
    : outcome (vr_result_t * vr_connection_ring_buf_t * proc) :=
  if rb_capacity b =? 0 then
    match vr_conn_ring_buf_init b p with
    | (VR_ERROR, b, p) => Ok (VR_ERROR, b, p)
    | (_, b, p) => reserve_loop reserve_fuel b needed p
    end
  else reserve_loop reserve_fuel b needed p.

End Operations.

(** A store through a pointer into the ring's block:
    [memcpy(&buf->data[off], bs, length bs)]. *)
Definition rb_memcpy (b : vr_connection_ring_buf_t) (off : Z) (bs : list Z)
    : outcome vr_connection_ring_buf_t :=
  d ← deref (rb_data b);
  d ← splice d off bs;
  Ok (RingBuf (Some d) (rb_capacity b) (rb_count b) (rb_read_pos b) (rb_write_pos b)
              (rb_state b)).

(** ** The representation invariant *)

(** The bytes a ring holds, oldest first. *)
Definition ring_contents (b : vr_connection_ring_buf_t) : list Z :=
  match rb_data b with
  | None => []
  | Some d => window d (Z.to_nat (rb_read_pos b)) (Z.to_nat (rb_count b))
  end.

Inductive ring_wf : vr_connection_ring_buf_t -> Prop :=
| ring_wf_unalloc : ring_wf zeroed_ring_buf
| ring_wf_alloc d cap cnt r w st :
    zlen d = cap ->
    VR_CONNECTION_BUFFER_INITIAL_SIZE <= cap <= VR_CONNECTION_BUFFER_MAX_SIZE ->
    0 <= cnt <= cap ->
    0 <= r < cap ->
    w = wrap cap (r + cnt) ->
    st <> VR_CONN_RING_BUF_UNALLOC ->
    Forall is_byte d ->
    ring_wf (RingBuf (Some d) cap cnt r w st).

#[export] Hint Constructors ring_wf : velora.

(** Bytes that can still be added without growing. *)
Definition ring_room (b : vr_connection_ring_buf_t) : Z := rb_capacity b - rb_count b.

(** Open a well-formed ring and put its constants in reach of [lia]. *)
Ltac ring_open H :=
  destruct H as [|d cap cnt r w st Hlen Hcap Hcnt Hr Hw Hst Hbytes];
  unfold VR_CONNECTION_BUFFER_INITIAL_SIZE, VR_CONNECTION_BUFFER_MAX_SIZE in *;
  cbn [rb_data rb_capacity rb_count rb_read_pos rb_write_pos rb_state ring_contents
       zeroed_ring_buf ring_room rb_set_state] in *.

Ltac ring_simpl :=
  unfold vr_conn_ring_buf_free, ring_room, ring_contents in *;
  cbn [rb_data rb_capacity rb_count rb_read_pos rb_write_pos rb_state
       zeroed_ring_buf rb_set_state deref mbind outcome_bind] in *;
  repeat (rewrite u32_id by lia); repeat (rewrite u16_id by lia).

(** Rebuild the invariant of an allocated ring. *)
Ltac ring_wf_solve :=
  constructor;
  unfold VR_CONNECTION_BUFFER_INITIAL_SIZE, VR_CONNECTION_BUFFER_MAX_SIZE in *;
  try done; try lia;
  first [ match goal with |- _ <> VR_CONN_RING_BUF_UNALLOC => by repeat case_match end
        | subst; unfold wrap; repeat bdestruct_test; lia ].

Lemma zlen_length {A} (d : list A) n : zlen d = n -> length d = Z.to_nat n.
Proof. unfold zlen; lia. Qed.

Lemma c_mod_wrap n i : 0 <= i < 2 * n -> c_mod i n = Ok (wrap n i).
Proof. intros. unfold c_mod. settle_tests. by rewrite mod_wrap by lia. Qed.

Lemma wrap_to_nat n i :
  0 <= i < 2 * n ->
  Z.to_nat (wrap n i)
  = if decide (Z.to_nat i < Z.to_nat n)%nat then Z.to_nat i
    else (Z.to_nat i - Z.to_nat n)%nat.
Proof. intros. unfold wrap. bdestruct_test; case_decide; lia. Qed.

Section Facts.
Context `{Libc}.
Implicit Types b : vr_connection_ring_buf_t.

Lemma ring_wf_count b :
  ring_wf b -> 0 <= rb_count b <= rb_capacity b /\ rb_capacity b <= 65536.
Proof. intros Hb. ring_open Hb; lia. Qed.

Lemma ring_contents_length b : ring_wf b -> zlen (ring_contents b) = rb_count b.
Proof.
  intros Hb. ring_open Hb; [done|]. ring_simpl. unfold zlen in *.
  rewrite window_length; lia.
Qed.

Lemma window_Forall {A} (P : A -> Prop) d r c : Forall P d -> Forall P (window d r c).
Proof. intros. by apply Forall_take, Forall_drop, Forall_app. Qed.

Lemma ring_contents_bytes b : ring_wf b -> Forall is_byte (ring_contents b).
Proof. intros Hb. ring_open Hb; ring_simpl; [done|]. by apply window_Forall. Qed.

Lemma ring_capacity_zero b : ring_wf b -> rb_capacity b = 0 -> b = zeroed_ring_buf.
Proof. intros Hb. ring_open Hb; [done|lia]. Qed.

Lemma ring_unalloc b : ring_wf b -> rb_state b = VR_CONN_RING_BUF_UNALLOC -> b = zeroed_ring_buf.
Proof. intros Hb. by ring_open Hb. Qed.

Lemma ring_owned b : ring_wf b -> rb_capacity b <> 0 -> owned (rb_data b) = 1.
Proof. intros Hb. by ring_open Hb. Qed.

(** *** Allocation *)

Lemma init_zeroed p :
  match vr_conn_ring_buf_init zeroed_ring_buf p with
  | (VR_SUCCESS, b', p') =>
      ring_wf b' /\ ring_contents b' = [] /\ rb_capacity b' = 4096 /\
      p_live p' = p_live p + 1
  | (VR_ERROR, b', p') => b' = zeroed_ring_buf /\ p_live p' = p_live p
  | _ => False
  end.
Proof.
  unfold vr_conn_ring_buf_init, VR_CONNECTION_BUFFER_INITIAL_SIZE. simpl.
  pose proof (malloc_spec 4096 p ltac:(lia)) as Hm.
  destruct (malloc 4096 p) as [[d|] p']; [|done].
  destruct Hm as (Hd & Hby & Hl & _). split_and!; try done.
  by constructor; unfold VR_CONNECTION_BUFFER_INITIAL_SIZE, VR_CONNECTION_BUFFER_MAX_SIZE;
    rewrite ?Hd; try lia.
Qed.

(** *** The regions handed out *)

Lemma contiguous_read_spec b :
  ring_wf b -> 0 < rb_count b ->
  vr_conn_ring_buf_contiguous_read b
  = (Z.min (rb_count b) (rb_capacity b - rb_read_pos b), Some (rb_read_pos b)).
Proof.
  intros Hb Hc. ring_open Hb; [lia|].
  unfold vr_conn_ring_buf_contiguous_read. ring_simpl. settle_tests.
  subst w. unfold wrap. repeat bdestruct_test; f_equal; lia.
Qed.

Lemma contiguous_write_spec b :
  ring_wf b -> 0 < ring_room b ->
  vr_conn_ring_buf_contiguous_write b
  = (Z.min (ring_room b) (rb_capacity b - rb_write_pos b), Some (rb_write_pos b)).
Proof.
  intros Hb Hc. ring_open Hb; ring_simpl; [lia|].
  pose proof (wrap_range cap (r + cnt) ltac:(lia)) as Hwr. rewrite <-Hw in Hwr.
  unfold vr_conn_ring_buf_contiguous_write. ring_simpl. settle_tests.
  unfold wrap in Hw. destruct (Z.ltb_spec (r + cnt) cap); subst w;
    destruct (Z.leb_spec r (r + cnt)); try lia;
    repeat bdestruct_test; f_equal; try lia; rewrite u32_id in *; lia.
Qed.

(** Reading [n] bytes at the read position, inside the first region. *)
Lemma region_read b n :
  ring_wf b -> 0 <= n <= Z.min (rb_count b) (rb_capacity b - rb_read_pos b) ->
  0 < rb_count b ->
  (d ← deref (rb_data b); slice d (rb_read_pos b) n)
  = Ok (take (Z.to_nat n) (ring_contents b)).
Proof.
  intros Hb Hn Hc. ring_open Hb; [lia|]. ring_simpl.
  rewrite slice_ok, window_take, window_straight by (unfold zlen in *; lia). done.
Qed.

(** *** Reading *)

Lemma peek_n_spec b len :
  ring_wf b -> 0 <= len ->
  vr_conn_ring_buf_peek_n b len
  = if rb_count b <? len then Ok (VR_ERROR, None)
    else Ok (VR_SUCCESS, Some (take (Z.to_nat len) (ring_contents b))).
Proof.
  intros Hb Hn. unfold vr_conn_ring_buf_peek_n. bdestruct_test; [done|].
  ring_open Hb; ring_simpl.
  { settle_tests. replace len with 0 by lia. done. }
  destruct (Z.eqb_spec len 0); [by subst len|]. bdestruct_test.
  - rewrite slice_ok by lia. ostep.
    by rewrite window_take, window_straight by (unfold zlen in *; lia).
  - rewrite !slice_ok by (rewrite ?u32_id; lia). ostep.
    rewrite u32_id, window_take, window_wrapped by (unfold zlen in *; lia).
    rewrite take_ge by (rewrite length_drop; unfold zlen in *; lia). rewrite drop_0.
    do 5 f_equal. unfold zlen in *. lia.
Qed.

Lemma peek_spec b :
  ring_wf b ->
  vr_conn_ring_buf_peek b
  = match ring_contents b with
    | [] => Ok (VR_ERROR, None)
    | x :: _ => Ok (VR_SUCCESS, Some x)
    end.
Proof.
  intros Hb. unfold vr_conn_ring_buf_peek.
  pose proof (ring_contents_length b Hb) as Hl.
  destruct (ring_contents b) as [|x q] eqn:E.
  { rewrite <-Hl. done. }
  assert (0 < rb_count b) by (rewrite <-Hl; unfold zlen; simpl; lia).
  settle_tests. ring_open Hb; [lia|]. ring_simpl.
  assert (Hx : window d (Z.to_nat r) (Z.to_nat cnt) !! O = Some x) by by rewrite E.
  rewrite window_lookup, decide_True, Nat.add_0_r in Hx by (unfold zlen in *; lia).
  by rewrite (load_ok _ _ x) by (done || lia).
Qed.

Lemma consume_spec b n :
  ring_wf b -> 0 <= n -> rb_capacity b <> 0 ->
  if rb_count b <? n then vr_conn_ring_buf_consume b n = Ok (VR_ERROR, b)
  else exists b', vr_conn_ring_buf_consume b n = Ok (VR_SUCCESS, b') /\ ring_wf b' /\
    ring_contents b' = drop (Z.to_nat n) (ring_contents b) /\
    rb_capacity b' = rb_capacity b /\ rb_data b' = rb_data b.
Proof.
  intros Hb Hn Hz. unfold vr_conn_ring_buf_consume. bdestruct_test; [done|].
  ring_open Hb; [lia|]. ring_simpl.
  pose proof (wrap_range cap (r + n) ltac:(lia)).
  rewrite c_mod_wrap by lia. ostep. rewrite u16_id by lia.
  rewrite window_drop by (unfold zlen in *; lia).
  bdestruct_test; (eexists; split; [reflexivity|]).
  - split_and!; [| |done|done].
    + ring_wf_solve.
    + simpl. replace (Z.to_nat cnt - Z.to_nat n)%nat with O by lia.
      by replace (Z.to_nat (cnt - n)) with O by lia.
  - split_and!; [| |done|done].
    + ring_wf_solve.
    + simpl. rewrite wrap_to_nat by lia.
      rewrite (zlen_length d cap Hlen), !Z2Nat.inj_add, Z2Nat.inj_sub by lia. done.
Qed.

Lemma pop_spec b :
  ring_wf b ->
  match ring_contents b with
  | [] => vr_conn_ring_buf_pop b = Ok (VR_ERROR, None, b)
  | x :: q => exists b', vr_conn_ring_buf_pop b = Ok (VR_SUCCESS, Some x, b') /\
      ring_wf b' /\ ring_contents b' = q /\ rb_capacity b' = rb_capacity b
  end.
Proof.
  intros Hb. unfold vr_conn_ring_buf_pop.
  pose proof (ring_contents_length b Hb) as Hl.
  destruct (ring_contents b) as [|x q] eqn:E.
  { rewrite <-Hl. done. }
  assert (0 < rb_count b) by (rewrite <-Hl; unfold zlen; simpl; lia).
  settle_tests. ring_open Hb; [lia|]. ring_simpl.
  assert (Hx : window d (Z.to_nat r) (Z.to_nat cnt) !! O = Some x) by by rewrite E.
  rewrite window_lookup, decide_True, Nat.add_0_r in Hx by (unfold zlen in *; lia).
  rewrite (load_ok _ _ x), c_mod_wrap by (done || lia). ostep.
  pose proof (wrap_range cap (r + 1) ltac:(lia)). rewrite u16_id by lia.
  eexists. split; [reflexivity|]. split_and!; [| |done].
  - ring_wf_solve.
  - apply (f_equal (drop 1)) in E. rewrite window_drop in E by (unfold zlen in *; lia).
    simpl in E. rewrite drop_0 in E. rewrite <-E. simpl. rewrite wrap_to_nat by lia.
    rewrite (zlen_length d cap Hlen), !Z2Nat.inj_add, Z2Nat.inj_sub by lia. done.
Qed.

(** *** Writing *)

(** Bytes stored at the write position, up to the end of the first writable
    region, then counted in: the core of push, commit and the socket receive. *)
Lemma append_region d cap cnt r w st st' bs :
  ring_wf (RingBuf (Some d) cap cnt r w st) ->
  st' <> VR_CONN_RING_BUF_UNALLOC -> Forall is_byte bs ->
  zlen bs <= cap - cnt -> zlen bs <= cap - w ->
  exists d', splice d w bs = Ok d' /\ zlen d' = cap /\
    ring_wf (RingBuf (Some d') cap cnt r w st) /\
    let b' := RingBuf (Some d') cap (cnt + zlen bs) r (wrap cap (w + zlen bs)) st' in
    ring_wf b' /\
    ring_contents b' = ring_contents (RingBuf (Some d) cap cnt r w st) ++ bs.
Proof.
  intros Hb Hst' Hbs Hroom Hreg.
  inversion Hb as [|? ? ? ? ? ? Hlen Hcap Hcnt Hr Hw Hst Hbytes]; subst.
  unfold VR_CONNECTION_BUFFER_INITIAL_SIZE, VR_CONNECTION_BUFFER_MAX_SIZE in *.
  set (cap := zlen d) in *. set (w := wrap cap (r + cnt)) in *.
  pose proof (wrap_range cap (r + cnt) ltac:(lia)) as Hwr. fold w in Hwr.
  pose proof (zlen_nonneg bs).
  pose proof (splice_ok d w bs ltac:(lia) ltac:(lia)) as Hs.
  eexists. split; [exact Hs|]. pose proof (splice_zlen _ _ _ _ Hs) as Hl. rewrite Hl.
  assert (Hby : Forall is_byte (take (Z.to_nat w) d ++ bs ++ drop (Z.to_nat w + length bs) d))
    by auto using Forall_app_2, Forall_take, Forall_drop.
  split_and!; [done|ring_wf_solve| |].
  - constructor; try done; try lia.
    subst w. unfold wrap in *. repeat bdestruct_test; lia.
  - unfold ring_contents; simpl. rewrite Z2Nat.inj_add by lia.
    assert (Hzb : Z.to_nat (zlen bs) = length bs) by (unfold zlen; lia). rewrite Hzb.
    apply window_write; unfold zlen in *; try lia.
    subst w. rewrite wrap_to_nat by lia. subst cap.
    by rewrite Nat2Z.id, Z2Nat.inj_add by lia.
Qed.

Lemma push_allocated_spec b x :
  ring_wf b -> is_byte x -> rb_capacity b <> 0 ->
  if rb_count b =? rb_capacity b
  then push_allocated b x = Ok (VR_ERROR, rb_set_state VR_CONN_RING_BUF_FULL b)
  else exists b', push_allocated b x = Ok (VR_SUCCESS, b') /\ ring_wf b' /\
    ring_contents b' = ring_contents b ++ [x] /\ rb_capacity b' = rb_capacity b.
Proof.
  intros Hb Hx Hz. unfold push_allocated. bdestruct_test; [done|].
  pose proof Hb as Hb0. ring_open Hb; [lia|].
  pose proof (wrap_range cap (r + cnt) ltac:(lia)) as Hwr. rewrite <-Hw in Hwr.
  destruct (append_region d cap cnt r w st st [x]) as (d' & Hs & _ & _ & Hwf & Hc);
    [done|done|auto|unfold zlen; simpl; lia|unfold zlen; simpl; lia|].
  change (zlen [x]) with 1 in *. pose proof (wrap_range cap (w + 1) ltac:(lia)).
  ring_simpl. rewrite store_splice, Hs. ostep.
  rewrite c_mod_wrap by lia. ostep. rewrite u16_id by lia.
  by eexists.
Qed.

Lemma contiguous_write_region b n off :
  ring_wf b -> vr_conn_ring_buf_contiguous_write b = (n, Some off) ->
  off = rb_write_pos b /\ 0 < n /\ n = Z.min (ring_room b) (rb_capacity b - off).
Proof.
  intros Hb Hw. destruct (Z.leb_spec (ring_room b) 0).
  - pose proof (ring_wf_count b Hb). unfold ring_room in *.
    unfold vr_conn_ring_buf_contiguous_write in Hw.
    rewrite u32_id in Hw by lia. revert Hw. settle_tests.
    by destruct (Z.eqb_spec (rb_capacity b) 0).
  - rewrite contiguous_write_spec in Hw by done. injection Hw as Hn <-.
    split_and!; try done. ring_open Hb; ring_simpl; [lia|].
    pose proof (wrap_range cap (r + cnt) ltac:(lia)). lia.
Qed.

(** The client idiom: bytes copied into the region [contiguous_write] handed
    out, then committed, are appended to the contents. *)
Lemma write_commit_spec b n off bs :
  ring_wf b -> vr_conn_ring_buf_contiguous_write b = (n, Some off) ->
  0 < zlen bs <= n -> Forall is_byte bs ->
  exists b1 b2, rb_memcpy b off bs = Ok b1 /\
    vr_conn_ring_buf_commit b1 (zlen bs) = Ok (VR_SUCCESS, b2) /\ ring_wf b2 /\
    ring_contents b2 = ring_contents b ++ bs /\ rb_capacity b2 = rb_capacity b /\
    rb_read_pos b2 = rb_read_pos b.
Proof.
  intros Hb Hcw Hn Hbs.
  destruct (contiguous_write_region _ _ _ Hb Hcw) as (-> & _ & ->). clear Hcw.
  pose proof Hb as Hb0. ring_open Hb; ring_simpl; [lia|].
  pose proof (wrap_range cap (r + cnt) ltac:(lia)) as Hwr. rewrite <-Hw in Hwr.
  set (st' := if cnt + zlen bs =? cap then VR_CONN_RING_BUF_FULL else st).
  destruct (append_region d cap cnt r w st st' bs) as (d' & Hs & _ & _ & Hwf & Hc);
    [done|subst st'; by case_match|done|lia|lia|].
  unfold rb_memcpy. simpl. rewrite Hs. ostep.
  pose proof (wrap_range cap (w + zlen bs) ltac:(lia)).
  do 2 eexists. split; [reflexivity|]. unfold vr_conn_ring_buf_commit. ring_simpl.
  settle_tests. simpl. rewrite c_mod_wrap by lia. ostep. rewrite u16_id by lia.
  by split.
Qed.

(** *** Growing *)

Lemma grow_copy_spec b nb :
  ring_wf b -> rb_capacity b <= zlen nb -> Forall is_byte nb ->
  exists nb', grow_copy b nb = Ok nb' /\ zlen nb' = zlen nb /\ Forall is_byte nb' /\
    take (Z.to_nat (rb_count b)) nb' = ring_contents b.
Proof.
  intros Hb Hnb Hby. unfold grow_copy. destruct (Z.ltb_spec 0 (rb_count b)).
  2:{ exists nb. split_and!; try done.
      pose proof (ring_contents_length b Hb). pose proof (ring_wf_count b Hb).
      replace (rb_count b) with 0 in * by lia. symmetry.
      apply length_zero_iff_nil. unfold zlen in *. simpl. lia. }
  assert (Hq : Forall is_byte (ring_contents b)) by by apply ring_contents_bytes.
  assert (Hfront : forall q, q = ring_contents b ->
    let nb' := q ++ drop (length q) nb in
    zlen nb' = zlen nb /\ Forall is_byte nb' /\
    take (Z.to_nat (rb_count b)) nb' = ring_contents b).
  { intros q -> nb'. pose proof (ring_contents_length b Hb). subst nb'.
    pose proof (ring_wf_count b Hb). unfold zlen in *.
    rewrite length_app, length_drop. split_and!; [lia|auto using Forall_app_2, Forall_drop|].
    rewrite take_app_le, take_ge; [done|lia|lia]. }
  ring_open Hb; [lia|]. ring_simpl.
  destruct (Z.ltb_spec r w) as [Hrw|Hrw].
  - assert (r + cnt <= cap) by (subst w; revert Hrw; unfold wrap; bdestruct_test; lia).
    rewrite slice_ok by lia. ostep.
    rewrite splice_ok by (unfold zlen in *; rewrite ?length_take, ?length_drop; lia).
    eexists. split; [reflexivity|]. apply Hfront.
    by rewrite window_straight by (unfold zlen in *; lia).
  - assert (cap <= r + cnt) by (subst w; revert Hrw; unfold wrap; bdestruct_test; lia).
    rewrite (slice_ok d r) by lia. ostep.
    rewrite (take_ge (drop _ _)) by (rewrite length_drop; unfold zlen in *; lia).
    rewrite splice_ok by (unfold zlen in *; rewrite ?length_drop; lia). ostep.
    rewrite u32_id, slice_ok by lia. ostep. rewrite drop_0.
    rewrite splice_ok by (unfold zlen in *; rewrite ?length_app, ?length_drop, ?length_take;
      simpl; rewrite ?length_drop; lia).
    eexists. split; [reflexivity|]. simpl.
    rewrite take_app_length' by (rewrite length_drop; unfold zlen in *; lia).
    rewrite app_assoc.
    rewrite (drop_app_ge (drop _ _)) by (rewrite length_drop, length_take; unfold zlen in *; lia).
    rewrite drop_drop.
    match goal with |- context [drop ?k nb] =>
      replace k with (length (drop (Z.to_nat r) d ++ take (Z.to_nat (cnt - (cap - r))) d))
        by (rewrite length_app, !length_drop, !length_take; unfold zlen in *; lia) end.
    apply Hfront. rewrite window_wrapped by (unfold zlen in *; lia).
    do 2 f_equal. unfold zlen in *. lia.
Qed.

Lemma grow_spec b p :
  ring_wf b ->
  exists r b' p', vr_conn_ring_buf_grow b p = Ok (r, b', p') /\ ring_wf b' /\
    ring_contents b' = ring_contents b /\
    p_live p' = p_live p + owned (rb_data b') - owned (rb_data b) /\
    ((r = VR_SUCCESS /\ rb_capacity b < 65536 /\
      rb_capacity b' = if rb_capacity b =? 0 then 4096 else Z.min (2 * rb_capacity b) 65536)
     \/ (r = VR_ERROR /\ b' = b /\
         (rb_capacity b = 65536 \/ exists n, ~ allocates n))).
Proof.
  intros Hb. unfold vr_conn_ring_buf_grow. destruct (Z.eqb_spec (rb_capacity b) 0) as [Hz|Hz].
  { apply ring_capacity_zero in Hz as ->; [|done]. pose proof (init_zeroed p) as Hi.
    unfold vr_conn_ring_buf_init in *. simpl in *. unfold malloc in *.
    destruct (alloc_answer (p_next p) _) eqn:Ha; do 3 eexists; (split; [reflexivity|]); simpl.
    - destruct Hi as (? & ? & ? & ?). split_and!; try done; [lia|]. left. done.
    - destruct Hi as [Hi ?]. rewrite <-Hi. split_and!; try done; [lia|]. right.
      split_and!; try done. right. eexists. by eapply not_allocates. }
  unfold VR_CONNECTION_BUFFER_MAX_SIZE. destruct (Z.leb_spec 65536 (rb_capacity b)).
  { do 3 eexists. split; [reflexivity|]. pose proof (ring_wf_count b Hb).
    split_and!; try done; [simpl; lia|]. right. split_and!; auto; lia. }
  pose proof (ring_wf_count b Hb).
  set (nc := if 65536 <? u32 (rb_capacity b * 2) then 65536 else u32 (rb_capacity b * 2)).
  assert (Hnc : nc = Z.min (2 * rb_capacity b) 65536).
  { subst nc. rewrite u32_id by lia. bdestruct_test; lia. }
  clearbody nc. subst nc.
  pose proof (malloc_spec (Z.min (2 * rb_capacity b) 65536) p ltac:(lia)) as Hm.
  unfold malloc in *. destruct (alloc_answer (p_next p) _) as [f|] eqn:Ha.
  2:{ do 3 eexists. split; [reflexivity|]. split_and!; try done; [simpl; lia|]. right.
      split_and!; try done. right. eexists. by eapply not_allocates. }
  destruct Hm as (Hd & Hby & _ & _). revert Hd Hby.
  generalize (block_of f (Z.min (2 * rb_capacity b) 65536)). intros nb Hd Hby.
  destruct (grow_copy_spec b nb Hb ltac:(lia) Hby) as (nb' & -> & Hl & Hby' & Hc). ostep.
  do 3 eexists. split; [reflexivity|]. rewrite u16_id by lia. split_and!.
  - ring_open Hb; [lia|]. constructor;
      unfold VR_CONNECTION_BUFFER_INITIAL_SIZE, VR_CONNECTION_BUFFER_MAX_SIZE; try done; try lia.
    unfold wrap. settle_tests. lia.
  - rewrite <-Hc. simpl. unfold ring_contents. simpl. unfold window. rewrite drop_0.
    rewrite take_app_le by (unfold zlen in *; lia). done.
  - rewrite free_live. simpl. lia.
  - left. by settle_tests.
Qed.

(** *** Reserving *)

(** [grow] never loops, and on success it doubles a positive capacity or stops
    at the maximum; from any state, well formed or not. *)
Lemma grow_progress b p :
  0 <= rb_capacity b ->
  match vr_conn_ring_buf_grow b p with
  | Ok (VR_ERROR, _, _) | Undef => True
  | Ok (VR_SUCCESS, b', _) =>
      rb_capacity b < 65536 /\
      rb_capacity b' = if rb_capacity b =? 0 then 4096 else Z.min (2 * rb_capacity b) 65536
  | _ => False
  end.
Proof.
  intros Hc. unfold vr_conn_ring_buf_grow. destruct (Z.eqb_spec (rb_capacity b) 0).
  { unfold vr_conn_ring_buf_init. repeat case_match; simplify_eq; simpl; auto.
    split; [lia|done]. }
  unfold VR_CONNECTION_BUFFER_MAX_SIZE. destruct (Z.leb_spec 65536 (rb_capacity b)); [done|].
  rewrite u32_id by lia. destruct (malloc _ p) as [[nb|] p']; [|done].
  assert (Hg : grow_copy b nb <> NoFuel).
  { unfold grow_copy, deref, slice, splice. repeat (case_match; simpl; try done). }
  destruct (grow_copy b nb); simpl; try done. split; [lia|].
  bdestruct_test; lia.
Qed.

(** The loop of [reserve] leaves within [S k] turns when [k] doublings of the
    capacity reach the maximum. *)
Lemma reserve_loop_terminates k b needed p :
  1 <= rb_capacity b -> 65536 <= rb_capacity b * 2 ^ Z.of_nat k ->
  reserve_loop (S k) b needed p <> NoFuel.
Proof.
  revert b p. induction k as [|k IH]; intros b p Hc Hk;
    cbn [reserve_loop]; (destruct (_ <? needed); [|done]);
    pose proof (grow_progress b p ltac:(lia)) as Hg;
    destruct (vr_conn_ring_buf_grow b p) as [[[[] b'] p']| |]; ostep; try done;
    destruct Hg as [Hlt Hb'].
  - simpl in Hk. lia.
  - apply IH; rewrite Hb'; settle_tests; [lia|].
    rewrite Nat2Z.inj_succ, Z.pow_succ_r in Hk by lia.
    destruct (Z.min_spec (2 * rb_capacity b) 65536) as [[_ ->]|[_ ->]]; [lia|].
    pose proof (Z.pow_pos_nonneg 2 (Z.of_nat k)). lia.
Qed.

Lemma reserve_loop_spec fuel b needed p :
  ring_wf b -> rb_capacity b <> 0 -> 0 <= needed ->
  match reserve_loop fuel b needed p with
  | Ok (r, b', p') =>
      ring_wf b' /\ ring_contents b' = ring_contents b /\ rb_capacity b <= rb_capacity b' /\
      p_live p' = p_live p + owned (rb_data b') - owned (rb_data b) /\
      ((r = VR_SUCCESS /\ needed <= ring_room b') \/
       (r = VR_ERROR /\ ring_room b' < needed /\
        (rb_capacity b' = 65536 \/ exists n, ~ allocates n)))
  | Undef => False
  | NoFuel => True
  end.
Proof.
  revert b p. induction fuel as [|fuel IH]; intros b p Hb Hz Hn; [done|].
  cbn [reserve_loop]. unfold vr_conn_ring_buf_free. pose proof (ring_wf_count b Hb).
  rewrite u32_id by lia. destruct (Z.ltb_spec (rb_capacity b - rb_count b) needed).
  2:{ split_and!; auto; lia. }
  destruct (grow_spec b p Hb) as (r & b' & p' & -> & Hb' & Hq & Hl & Hcase). ostep.
  destruct Hcase as [(-> & Hlt & Hc)|(-> & -> & Hwhy)].
  - revert Hc. settle_tests. intros Hc. specialize (IH b' p' Hb' ltac:(lia) Hn).
    destruct (reserve_loop fuel b' needed p') as [[[r b''] p'']| |]; try done.
    destruct IH as (? & ? & ? & ? & ?). split_and!; try done; try congruence; lia.
  - split_and!; try done; try lia. right. split_and!; [done|unfold ring_room; lia|].
    destruct Hwhy; eauto.
Qed.

(** What [reserve] promises of the ring [b'] it leaves. *)
Definition reserve_post b (needed : Z) (p : proc) (r : vr_result_t) b' (p' : proc) : Prop :=
  ring_wf b' /\ ring_contents b' = ring_contents b /\ rb_capacity b <= rb_capacity b' /\
  p_live p' = p_live p + owned (rb_data b') - owned (rb_data b) /\
  ((r = VR_SUCCESS /\ needed <= ring_room b' /\ rb_capacity b' <> 0) \/
   (r = VR_ERROR /\ ring_room b' < Z.max 1 needed /\
    (rb_capacity b' = 65536 /\ ring_room b' < needed \/ exists n, ~ allocates n))).

Lemma reserve_loop_full b needed p :
  ring_wf b -> rb_capacity b <> 0 -> 0 <= needed ->
  exists r b' p', reserve_loop reserve_fuel b needed p = Ok (r, b', p') /\
    reserve_post b needed p r b' p'.
Proof.
  intros Hb Hz Hn. pose proof (reserve_loop_spec reserve_fuel b needed p Hb Hz Hn) as Hl.
  pose proof (ring_wf_count b Hb).
  pose proof (reserve_loop_terminates 19 b needed p ltac:(lia) ltac:(lia)) as Ht.
  change 20%nat with reserve_fuel in Ht.
  destruct (reserve_loop reserve_fuel b needed p) as [[[r b'] p']| |]; try done.
  destruct Hl as (? & ? & ? & ? & Hr). exists r, b', p'. split; [done|].
  unfold reserve_post. split_and!; try done.
  destruct Hr as [[-> ?]|(-> & ? & [?|?])]; [left|right|right]; split_and!; auto; lia.
Qed.

Lemma reserve_spec b needed p :
  ring_wf b -> 0 <= needed ->
  exists r b' p', vr_conn_ring_buf_reserve b needed p = Ok (r, b', p') /\
    reserve_post b needed p r b' p'.
Proof.
  intros Hb Hn. unfold vr_conn_ring_buf_reserve.
  destruct (Z.eqb_spec (rb_capacity b) 0) as [Hz|Hz]; [|by apply reserve_loop_full].
  apply ring_capacity_zero in Hz as ->; [|done]. pose proof (init_zeroed p) as Hi.
  destruct (vr_conn_ring_buf_init zeroed_ring_buf p) as [[[] b'] p'] eqn:Ei; try done.
  - destruct Hi as (Hb' & Hq & Hc & Hl).
    destruct (reserve_loop_full b' needed p' Hb' ltac:(lia) Hn)
      as (r & b'' & p'' & -> & ? & Hq' & ? & ? & ?).
    exists r, b'', p''. split; [done|]. unfold reserve_post.
    cbn [zeroed_ring_buf rb_capacity rb_data owned]. split_and!; try done; try lia; [by rewrite Hq', Hq|].
    rewrite (ring_owned b') in * by (done || lia). lia.
  - destruct Hi as [-> Hl]. do 3 eexists. split; [reflexivity|]. unfold reserve_post.
    split_and!; try done; [simpl; lia|]. right.
    split_and!; [done|unfold ring_room; simpl; lia|].
    right. unfold vr_conn_ring_buf_init, malloc in Ei. cbn in Ei.
    destruct (alloc_answer (p_next p) _) eqn:Ea; [done|eexists; by eapply not_allocates].
Qed.

Lemma push_spec b x p :
  ring_wf b -> is_byte x ->
  exists r b' p', vr_conn_ring_buf_push b x p = Ok (r, b', p') /\ ring_wf b' /\
    p_live p' = p_live p + owned (rb_data b') - owned (rb_data b) /\
    ((r = VR_SUCCESS /\ ring_contents b' = ring_contents b ++ [x] /\
      rb_capacity b' = if rb_capacity b =? 0 then 4096 else rb_capacity b) \/
     (r = VR_ERROR /\ ring_contents b' = ring_contents b /\ rb_capacity b' = rb_capacity b /\
      rb_count b = rb_capacity b)).
Proof.
  intros Hb Hx. unfold vr_conn_ring_buf_push.
  destruct (Z.eqb_spec (rb_capacity b) 0) as [Hz|Hz].
  - apply ring_capacity_zero in Hz as ->; [|done]. pose proof (init_zeroed p) as Hi.
    destruct (vr_conn_ring_buf_init zeroed_ring_buf p) as [[[] b'] p']; try done.
    + destruct Hi as (Hb' & Hq & Hc & Hlive).
      pose proof (push_allocated_spec b' x Hb' Hx ltac:(lia)) as Hp.
      pose proof (ring_contents_length b' Hb') as Hl. rewrite Hq in Hl.
      rewrite <-Hl, Hc in Hp. simpl in Hp. destruct Hp as (b'' & -> & ? & Hq' & ?). ostep.
      do 3 eexists. split; [reflexivity|]. split; [done|].
      split; [rewrite (ring_owned b'') by (done || lia); simpl; lia|].
      left. split_and!; [done| |lia]. by rewrite Hq', Hq.
    + destruct Hi as [-> ?]. do 3 eexists. split; [reflexivity|].
      split; [by constructor|]. split; [simpl; lia|]. right. done.
  - pose proof (push_allocated_spec b x Hb Hx Hz) as Hp.
    destruct (Z.eqb_spec (rb_count b) (rb_capacity b)) as [He|He].
    + rewrite Hp. ostep. do 3 eexists. split; [reflexivity|].
      split; [ring_open Hb; [done|]; by constructor|]. split; [simpl; lia|]. by right.
    + destruct Hp as (b' & -> & ? & ? & ?). ostep.
      do 3 eexists. split; [reflexivity|]. split; [done|].
      split; [rewrite !ring_owned by (done || lia); lia|]. by left.
Qed.

End Facts.

(** ** A ring of the initial size holding given bytes from position [r] on *)

Definition ring_at (bs : list Z) (r : Z) : vr_connection_ring_buf_t :=
  let k := Z.to_nat (4096 - r) in
  let d := drop k bs ++ replicate (Z.to_nat r - (length bs - k)) 0
           ++ take k bs ++ replicate (k - length bs) 0 in
  RingBuf (Some d) 4096 (zlen bs) r (wrap 4096 (r + zlen bs)) VR_CONN_RING_BUF_ACTIVE.

Lemma ring_at_spec bs r :
  zlen bs <= 4096 -> 0 <= r < 4096 -> Forall is_byte bs ->
  ring_wf (ring_at bs r) /\ ring_contents (ring_at bs r) = bs.
Proof.
  intros Hl Hr Hb. unfold ring_at. remember (Z.to_nat (4096 - r)) as k eqn:Hk.
  assert (Hz : forall n, Forall is_byte (replicate n 0)).
  { intros n. apply Forall_replicate. unfold is_byte. lia. }
  unfold zlen in Hl. set (d := drop k bs ++ _).
  assert (Hd : length d = Z.to_nat 4096).
  { subst d. rewrite !length_app, length_drop, !length_replicate, length_take. lia. }
  split.
  - constructor; try done; unfold VR_CONNECTION_BUFFER_INITIAL_SIZE,
      VR_CONNECTION_BUFFER_MAX_SIZE, zlen; try lia.
    subst d. repeat apply Forall_app_2; auto using Forall_drop, Forall_take.
  - unfold ring_contents. cbn [rb_data rb_read_pos rb_count].
    replace (Z.to_nat (zlen bs)) with (length bs) by (unfold zlen; lia).
    destruct (decide (length bs <= k)%nat).
    + rewrite window_straight by lia. subst d. rewrite (drop_ge bs) by lia. simpl.
      rewrite drop_app_length' by (rewrite length_replicate; lia).
      rewrite take_app_le, take_take by (rewrite length_take; lia).
      by rewrite take_ge by lia.
    + rewrite window_wrapped, Hd by lia. subst d.
      replace (k - length bs)%nat with O by lia. simpl. rewrite app_nil_r, app_assoc.
      rewrite drop_app_length' by (rewrite length_app, length_drop, length_replicate; lia).
      rewrite <-app_assoc, take_app_le by (rewrite length_drop; lia).
      rewrite (take_ge (drop k bs)) by (rewrite length_drop; lia). by rewrite take_drop.
Qed.
