(* ===== verification/RingSpec.v ===== *)
(** * RingSpec: the byte queue a ring buffer implements

    An abstract byte queue with a capacity, the relation its operations step
    by, and the refinement: every sequence of API calls on a ring buffer runs
    without undefined behaviour and answers as the queue allows.  Then the
    contract of [reserve], the call every writer relies on. *)

From S2P Require Import Prelude Core RingBuffer.
#[local] Open Scope Z_scope.

(** ** The API *)

Inductive ring_call :=
| CPush (x : Z)
| CPop
| CPeek
| CPeekN (len : Z)
| CConsume (n : Z)
| CGrow
| CReserve (needed : Z)
| CSize
| CFree
| CEmpty
| CFull
| CRead                    (* the region contiguous_read hands out, read *)
| CWrite (bs : list Z).    (* contiguous_write, memcpy, commit *)

Inductive ring_reply :=
| RStatus (r : vr_result_t)
| RByte (r : vr_result_t) (x : option Z)
| RCount (n : Z)
| RFlag (f : bool)
| RBytes (r : vr_result_t) (bs : option (list Z)).

Section Run.
Context `{Libc}.

(** A write through the first writable region, refused when it does not fit. *)
Definition ring_write (b : vr_connection_ring_buf_t) (bs : list Z)
    : outcome (vr_result_t * vr_connection_ring_buf_t) :=
  match vr_conn_ring_buf_contiguous_write b with
  | (n, Some off) =>
      if n <? zlen bs then Ok (VR_ERROR, b)
      else b ← rb_memcpy b off bs; vr_conn_ring_buf_commit b (zlen bs)
  | (_, None) => Ok (VR_ERROR, b)
  end.

(** The bytes of the first readable region. *)
Definition ring_read (b : vr_connection_ring_buf_t) : outcome (vr_result_t * option (list Z)) :=
  match vr_conn_ring_buf_contiguous_read b with
  | (n, Some off) => d ← deref (rb_data b); bs ← slice d off n; Ok (VR_SUCCESS, Some bs)
  | (_, None) => Ok (VR_ERROR, None)
  end.

Definition ring_exec (c : ring_call) (b : vr_connection_ring_buf_t) (p : proc)
    : outcome (ring_reply * vr_connection_ring_buf_t * proc) :=
  match c with
  | CPush x => '(r, b, p) ← vr_conn_ring_buf_push b x p; Ok (RStatus r, b, p)
  | CPop => '(r, x, b) ← vr_conn_ring_buf_pop b; Ok (RByte r x, b, p)
  | CPeek => '(r, x) ← vr_conn_ring_buf_peek b; Ok (RByte r x, b, p)
  | CPeekN len => '(r, bs) ← vr_conn_ring_buf_peek_n b len; Ok (RBytes r bs, b, p)
  | CConsume n => '(r, b) ← vr_conn_ring_buf_consume b n; Ok (RStatus r, b, p)
  | CGrow => '(r, b, p) ← vr_conn_ring_buf_grow b p; Ok (RStatus r, b, p)
  | CReserve n => '(r, b, p) ← vr_conn_ring_buf_reserve b n p; Ok (RStatus r, b, p)
  | CSize => Ok (RCount (vr_conn_ring_buf_size b), b, p)
  | CFree => Ok (RCount (vr_conn_ring_buf_free b), b, p)
  | CEmpty => Ok (RFlag (vr_conn_ring_buf_empty b), b, p)
  | CFull => Ok (RFlag (vr_conn_ring_buf_full b), b, p)
  | CRead => '(r, bs) ← ring_read b; Ok (RBytes r bs, b, p)
  | CWrite bs => '(r, b) ← ring_write b bs; Ok (RStatus r, b, p)
  end.

Fixpoint ring_run (cs : list ring_call) (b : vr_connection_ring_buf_t) (p : proc)
    : outcome (list ring_reply * vr_connection_ring_buf_t * proc) :=
  match cs with
  | [] => Ok ([], b, p)
  | c :: cs =>
      '(r, b, p) ← ring_exec c b p;
      '(rs, b, p) ← ring_run cs b p;
      Ok (r :: rs, b, p)
  end.

End Run.

(** What a caller may pass.  A count of zero is left out of [consume]: on a
    ring that was never allocated it divides by zero. *)
Definition call_ok (c : ring_call) : Prop :=
  match c with
  | CPush x => is_byte x
  | CPeekN len => 0 <= len
  | CConsume n => 0 < n
  | CReserve n => 0 <= n
  | CWrite bs => Forall is_byte bs /\ bs <> []
  | _ => True
  end.

(** ** The abstract queue *)

Record queue := Queue { q_bytes : list Z; q_cap : Z }.

Definition absr (b : vr_connection_ring_buf_t) : queue :=
  Queue (ring_contents b) (rb_capacity b).

(** The capacity after the allocation a first push makes. *)
Definition lazy_cap (cap : Z) : Z := if cap =? 0 then 4096 else cap.
Definition grown_cap (cap : Z) : Z := if cap =? 0 then 4096 else Z.min (2 * cap) 65536.

Inductive queue_step : queue -> ring_call -> ring_reply -> queue -> Prop :=
| QPush q cap x :
    zlen q < lazy_cap cap ->
    queue_step (Queue q cap) (CPush x) (RStatus VR_SUCCESS) (Queue (q ++ [x]) (lazy_cap cap))
| QPushFull q cap x :
    zlen q = cap ->
    queue_step (Queue q cap) (CPush x) (RStatus VR_ERROR) (Queue q cap)
| QPop q cap x :
    queue_step (Queue (x :: q) cap) CPop (RByte VR_SUCCESS (Some x)) (Queue q cap)
| QPopEmpty cap :
    queue_step (Queue [] cap) CPop (RByte VR_ERROR None) (Queue [] cap)
| QPeek q cap x :
    queue_step (Queue (x :: q) cap) CPeek (RByte VR_SUCCESS (Some x)) (Queue (x :: q) cap)
| QPeekEmpty cap :
    queue_step (Queue [] cap) CPeek (RByte VR_ERROR None) (Queue [] cap)
| QPeekN q cap len :
    len <= zlen q ->
    queue_step (Queue q cap) (CPeekN len)
      (RBytes VR_SUCCESS (Some (take (Z.to_nat len) q))) (Queue q cap)
| QPeekNShort q cap len :
    zlen q < len ->
    queue_step (Queue q cap) (CPeekN len) (RBytes VR_ERROR None) (Queue q cap)
| QConsume q cap n :
    n <= zlen q ->
    queue_step (Queue q cap) (CConsume n) (RStatus VR_SUCCESS)
      (Queue (drop (Z.to_nat n) q) cap)
| QConsumeShort q cap n :
    zlen q < n ->
    queue_step (Queue q cap) (CConsume n) (RStatus VR_ERROR) (Queue q cap)
| QGrow q cap :
    cap < 65536 ->
    queue_step (Queue q cap) CGrow (RStatus VR_SUCCESS) (Queue q (grown_cap cap))
| QGrowFail q cap :
    queue_step (Queue q cap) CGrow (RStatus VR_ERROR) (Queue q cap)
| QReserve q cap cap' n :
    cap <= cap' <= 65536 -> zlen q + n <= cap' ->
    queue_step (Queue q cap) (CReserve n) (RStatus VR_SUCCESS) (Queue q cap')
| QReserveFail q cap cap' n :
    cap <= cap' <= 65536 -> zlen q + Z.max 1 n > cap' ->
    queue_step (Queue q cap) (CReserve n) (RStatus VR_ERROR) (Queue q cap')
| QSize q cap :
    queue_step (Queue q cap) CSize (RCount (zlen q)) (Queue q cap)
| QFree q cap :
    queue_step (Queue q cap) CFree (RCount (cap - zlen q)) (Queue q cap)
| QEmpty q cap :
    queue_step (Queue q cap) CEmpty (RFlag (bool_decide (q = []))) (Queue q cap)
| QFull q cap :
    queue_step (Queue q cap) CFull (RFlag (bool_decide (zlen q = cap))) (Queue q cap)
| QRead q q' cap :
    q <> [] ->
    queue_step (Queue (q ++ q') cap) CRead (RBytes VR_SUCCESS (Some q)) (Queue (q ++ q') cap)
| QReadEmpty cap :
    queue_step (Queue [] cap) CRead (RBytes VR_ERROR None) (Queue [] cap)
| QWrite q cap bs :
    zlen q + zlen bs <= cap ->
    queue_step (Queue q cap) (CWrite bs) (RStatus VR_SUCCESS) (Queue (q ++ bs) cap)
| QWriteFail q cap bs :
    queue_step (Queue q cap) (CWrite bs) (RStatus VR_ERROR) (Queue q cap).

Inductive queue_run : queue -> list ring_call -> list ring_reply -> queue -> Prop :=
| QRunNil q : queue_run q [] [] q
| QRunCons q q' q'' c cs r rs :
    queue_step q c r q' -> queue_run q' cs rs q'' -> queue_run q (c :: cs) (r :: rs) q''.

#[export] Hint Constructors queue_step queue_run : velora.

(** ** The simulation *)

Section Refinement.
Context `{Libc}.
Implicit Types b : vr_connection_ring_buf_t.

Lemma consume_unalloc n :
  0 < n -> vr_conn_ring_buf_consume zeroed_ring_buf n = Ok (VR_ERROR, zeroed_ring_buf).
Proof. intros. unfold vr_conn_ring_buf_consume. simpl. by settle_tests. Qed.

Lemma ring_write_spec b bs :
  ring_wf b -> Forall is_byte bs -> bs <> [] ->
  exists r b', ring_write b bs = Ok (r, b') /\ ring_wf b' /\
    ((r = VR_SUCCESS /\ ring_contents b' = ring_contents b ++ bs /\
      rb_capacity b' = rb_capacity b /\ zlen bs <= ring_room b) \/
     (r = VR_ERROR /\ b' = b)).
Proof.
  intros Hb Hbs Hne. unfold ring_write.
  destruct (vr_conn_ring_buf_contiguous_write b) as [n [off|]] eqn:Hw;
    [|do 2 eexists; split; [reflexivity|]; auto].
  destruct (Z.ltb_spec n (zlen bs)); [do 2 eexists; split; [reflexivity|]; auto|].
  assert (0 < zlen bs) by (destruct bs; [done|unfold zlen; simpl; lia]).
  destruct (contiguous_write_region _ _ _ Hb Hw) as (_ & _ & Hn).
  destruct (write_commit_spec b n off bs Hb Hw ltac:(lia) Hbs)
    as (b1 & b2 & -> & Hc & ? & ? & ? & _). ostep. rewrite Hc.
  do 2 eexists. split; [reflexivity|]. split; [done|]. left. split_and!; try done. lia.
Qed.

Lemma zlen_nil_inv {A} (q : list A) : zlen q = 0 -> q = [].
Proof. destruct q; [done|unfold zlen; simpl; lia]. Qed.

Lemma ring_read_spec b :
  ring_wf b -> exists r bs, ring_read b = Ok (r, bs) /\
    queue_step (absr b) CRead (RBytes r bs) (absr b).
Proof.
  intros Hb. unfold ring_read, absr. pose proof (ring_contents_length b Hb) as Hlen.
  pose proof (ring_wf_count b Hb). destruct (Z.eq_dec (rb_count b) 0) as [Hz|Hz].
  { unfold vr_conn_ring_buf_contiguous_read. settle_tests. do 2 eexists. split; [done|].
    rewrite Hz in Hlen. apply zlen_nil_inv in Hlen as ->. constructor. }
  assert (0 < rb_capacity b - rb_read_pos b) by (clear Hlen; ring_open Hb; ring_simpl; lia).
  rewrite contiguous_read_spec by (done || lia).
  set (n := Z.min _ _). assert (Hn : 0 < n <= rb_count b) by (subst n; lia).
  pose proof (region_read b n Hb ltac:(lia) ltac:(lia)) as Hr.
  destruct (rb_data b) as [d|]; [|done]. revert Hr. ostep. intros ->. ostep.
  do 2 eexists. split; [done|].
  rewrite <-(take_drop (Z.to_nat n) (ring_contents b)) at 1 3. constructor.
  intros Hnil%(f_equal length). rewrite length_take in Hnil. unfold zlen in *. simpl in Hnil. lia.
Qed.

(** The four questions about the number of bytes. *)
Lemma ring_counts b :
  ring_wf b ->
  vr_conn_ring_buf_size b = zlen (ring_contents b) /\
  vr_conn_ring_buf_free b = rb_capacity b - zlen (ring_contents b) /\
  vr_conn_ring_buf_empty b = bool_decide (ring_contents b = []) /\
  vr_conn_ring_buf_full b = bool_decide (zlen (ring_contents b) = rb_capacity b).
Proof.
  intros Hb. pose proof (ring_contents_length b Hb) as Hl. pose proof (ring_wf_count b Hb).
  unfold vr_conn_ring_buf_size, vr_conn_ring_buf_free, vr_conn_ring_buf_empty,
    vr_conn_ring_buf_full. rewrite Hl, u32_id by lia. split_and!; [done|done| |].
  - case_bool_decide as Hq; apply Z.eqb_eq || apply Z.eqb_neq.
    + by rewrite <-Hl, Hq.
    + rewrite <-Hl. contradict Hq. by apply zlen_nil_inv.
  - case_bool_decide; [by apply Z.eqb_eq|by apply Z.eqb_neq].
Qed.

(** One call on a well-formed ring is one step of the queue, and the ring
    accounts for the blocks the call allocated or freed. *)
Definition simulated (c : ring_call) b (p : proc) : Prop :=
  exists r b' p', ring_exec c b p = Ok (r, b', p') /\ ring_wf b' /\
    p_live p' = p_live p + owned (rb_data b') - owned (rb_data b) /\
    queue_step (absr b) c r (absr b').

(** A call that leaves the ring as it is. *)
Lemma simulated_query c b p r :
  ring_wf b -> ring_exec c b p = Ok (r, b, p) -> queue_step (absr b) c r (absr b) ->
  simulated c b p.
Proof. intros. exists r, b, p. split_and!; try done. lia. Qed.

(** A call that works inside the block it finds. *)
Lemma simulated_inside c b p r b' :
  ring_wf b -> ring_wf b' -> rb_capacity b' = rb_capacity b ->
  ring_exec c b p = Ok (r, b', p) -> queue_step (absr b) c r (absr b') ->
  simulated c b p.
Proof.
  intros Hb Hb' Hc He Hs. exists r, b', p. split_and!; try done.
  destruct (Z.eq_dec (rb_capacity b) 0) as [Hz|Hz].
  - rewrite (ring_capacity_zero b), (ring_capacity_zero b') by congruence. lia.
  - rewrite !ring_owned by congruence. lia.
Qed.

Lemma push_simulated b x p : ring_wf b -> is_byte x -> simulated (CPush x) b p.
Proof.
  intros Hb Hx. destruct (push_spec b x p Hb Hx) as (r & b' & p' & He & Hb' & Hl & Hr).
  exists (RStatus r), b', p'. simpl. rewrite He. ostep. split_and!; try done. unfold absr.
  pose proof (ring_contents_length b Hb). pose proof (ring_contents_length b' Hb').
  pose proof (ring_wf_count b' Hb'). destruct Hr as [(-> & Hq & Hcap)|(-> & -> & -> & ?)].
  - rewrite Hq, Hcap in *. apply QPush. unfold zlen in *. rewrite length_app in *.
    unfold lazy_cap. simpl in *. lia.
  - apply QPushFull. lia.
Qed.

Lemma consume_simulated b n p : ring_wf b -> 0 < n -> simulated (CConsume n) b p.
Proof.
  intros Hb Hn. pose proof (ring_contents_length b Hb) as Hlen.
  destruct (Z.eq_dec (rb_capacity b) 0) as [Hz|Hz].
  { apply ring_capacity_zero in Hz as ->; [|done].
    apply (simulated_query _ _ _ (RStatus VR_ERROR)); [done| |].
    - simpl. by rewrite consume_unalloc.
    - constructor. simpl in *. lia. }
  pose proof (consume_spec b n Hb ltac:(lia) Hz) as Hc. revert Hc. bdestruct_test.
  - intros Hc. apply (simulated_query _ _ _ (RStatus VR_ERROR)); [done| |].
    + simpl. by rewrite Hc.
    + constructor. lia.
  - intros (b' & Hc & Hb' & Hq & Hcap & _).
    apply (simulated_inside _ _ _ (RStatus VR_SUCCESS) b'); try done.
    + simpl. by rewrite Hc.
    + unfold absr. rewrite Hq, Hcap. constructor. lia.
Qed.

Lemma pop_simulated b p : ring_wf b -> simulated CPop b p.
Proof.
  intros Hb. pose proof (pop_spec b Hb) as Hp. destruct (ring_contents b) as [|x q] eqn:E.
  - apply (simulated_query _ _ _ (RByte VR_ERROR None)); [done|simpl; by rewrite Hp|].
    unfold absr. rewrite E. constructor.
  - destruct Hp as (b' & Hp & Hb' & Hq & Hcap).
    apply (simulated_inside _ _ _ (RByte VR_SUCCESS (Some x)) b'); try done.
    + simpl. by rewrite Hp.
    + unfold absr. rewrite E, Hq, Hcap. constructor.
Qed.

(** The calls that may allocate a larger ring. *)
Lemma grow_simulated b p : ring_wf b -> simulated CGrow b p.
Proof.
  intros Hb. destruct (grow_spec b p Hb) as (r & b' & p' & He & Hb' & Hq & Hl & Hr).
  exists (RStatus r), b', p'. simpl. rewrite He. ostep. split_and!; try done.
  unfold absr. rewrite Hq. destruct Hr as [(-> & ? & ->)|(-> & -> & _)]; by constructor.
Qed.

Lemma reserve_simulated b n p : ring_wf b -> 0 <= n -> simulated (CReserve n) b p.
Proof.
  intros Hb Hn.
  destruct (reserve_spec b n p Hb Hn) as (r & b' & p' & He & Hb' & Hq & Hcap & Hl & Hr).
  exists (RStatus r), b', p'. simpl. rewrite He. ostep. split_and!; try done.
  pose proof (ring_contents_length b' Hb'). pose proof (ring_wf_count b' Hb').
  unfold ring_room in Hr. unfold absr. rewrite Hq in *.
  destruct Hr as [(-> & ? & _)|(-> & ? & _)]; constructor; lia.
Qed.

Lemma write_simulated b bs p :
  ring_wf b -> Forall is_byte bs -> bs <> [] -> simulated (CWrite bs) b p.
Proof.
  intros Hb Hbs Hne. pose proof (ring_contents_length b Hb).
  destruct (ring_write_spec b bs Hb Hbs Hne) as (r & b' & He & Hb' & Hr).
  assert (Hc : rb_capacity b' = rb_capacity b) by (destruct Hr as [?|[? ->]]; [tauto|done]).
  apply (simulated_inside _ _ _ (RStatus r) b'); try done; [simpl; by rewrite He|].
  unfold ring_room, absr in *. rewrite Hc.
  destruct Hr as [(-> & -> & _ & ?)|(-> & ->)]; constructor. lia.
Qed.

Lemma ring_exec_simulates c b p : ring_wf b -> call_ok c -> simulated c b p.
Proof.
  intros Hb Hc. pose proof (ring_contents_length b Hb) as Hlen.
  destruct (ring_counts b Hb) as (Hs & Hf & He & Hfu).
  destruct c; simpl in Hc; eauto using push_simulated, pop_simulated, consume_simulated,
    grow_simulated, reserve_simulated.
  - pose proof (peek_spec b Hb) as Hp. unfold absr in *. revert Hp.
    destruct (ring_contents b) as [|x q] eqn:E; intros Hp;
      (eapply simulated_query; [done|simpl; by rewrite Hp|unfold absr; rewrite E; constructor]).
  - pose proof (peek_n_spec b len Hb Hc) as Hp. revert Hp. bdestruct_test; intros Hp;
      (eapply simulated_query; [done|simpl; by rewrite Hp|constructor; lia]).
  - eapply simulated_query; [done|simpl; by rewrite Hs|constructor].
  - eapply simulated_query; [done|simpl; by rewrite Hf|constructor].
  - eapply simulated_query; [done|simpl; by rewrite He|constructor].
  - eapply simulated_query; [done|simpl; by rewrite Hfu|constructor].
  - destruct (ring_read_spec b Hb) as (r & bs & Hr & Hq).
    eapply simulated_query; [done|simpl; by rewrite Hr|done].
  - destruct Hc. by apply write_simulated.
Qed.

Lemma ring_run_simulates cs b p :
  ring_wf b -> Forall call_ok cs ->
  exists rs b' p', ring_run cs b p = Ok (rs, b', p') /\ ring_wf b' /\
    p_live p' = p_live p + owned (rb_data b') - owned (rb_data b) /\
    queue_run (absr b) cs rs (absr b').
Proof.
  intros Hb Hcs. revert b p Hb. induction Hcs as [|c cs Hc _ IH]; intros b p Hb; simpl.
  { do 3 eexists. split_and!; eauto with velora. lia. }
  destruct (ring_exec_simulates c b p Hb Hc) as (r & b1 & p1 & -> & Hb1 & Hl1 & Hs). ostep.
  destruct (IH b1 p1 Hb1) as (rs & b2 & p2 & -> & Hb2 & Hl2 & Hr). ostep.
  do 3 eexists. split_and!; eauto with velora. lia.
Qed.
End Refinement.

(** ** Refused requests *)

Section Refusals.
Context `{Libc}.
Implicit Types b : vr_connection_ring_buf_t.

(** The last request between [p] and [p'] was the one for the ring that comes
    after [b'], and the allocator refused it. *)
Definition refused (p : proc) b' (p' : proc) : Prop :=
  (p_next p < p_next p')%nat /\
  alloc_answer (pred (p_next p')) (grown_cap (rb_capacity b')) = None.

Lemma refused_mono p p1 b' p' :
  (p_next p <= p_next p1)%nat -> refused p1 b' p' -> refused p b' p'.
Proof. intros Hle [??]. split; [lia|done]. Qed.

Lemma init_requests p b' p' r :
  vr_conn_ring_buf_init zeroed_ring_buf p = (r, b', p') ->
  (p_next p <= p_next p')%nat /\ (r = VR_ERROR -> refused p b' p').
Proof.
  unfold vr_conn_ring_buf_init, malloc, refused. simpl.
  destruct (alloc_answer _ _) eqn:E; intros; simplify_eq/=; split; try lia; [done|].
  intros _. split; [lia|done].
Qed.

Lemma grow_requests b p r b' p' :
  ring_wf b -> vr_conn_ring_buf_grow b p = Ok (r, b', p') ->
  (p_next p <= p_next p')%nat /\
  (r = VR_ERROR -> rb_capacity b' = 65536 \/ refused p b' p').
Proof.
  intros Hb Hg. pose proof (ring_wf_count b Hb). unfold vr_conn_ring_buf_grow in Hg. revert Hg.
  destruct (Z.eqb_spec (rb_capacity b) 0) as [Hz|Hz].
  { apply ring_capacity_zero in Hz as ->; [|done]. intros [= Hi].
    apply init_requests in Hi as [??]. split; auto. }
  unfold VR_CONNECTION_BUFFER_MAX_SIZE. destruct (Z.leb_spec 65536 (rb_capacity b)).
  { intros; simplify_eq/=. split; [lia|]. left. lia. }
  rewrite u32_id by lia. unfold malloc. destruct (alloc_answer _ _) as [f|] eqn:Ha.
  - destruct (grow_copy b _); simpl; try done. intros; simplify_eq. split; [|done].
    destruct (rb_data b); simpl; lia.
  - intros; simplify_eq/=. split; [lia|]. intros _. right. split; simpl; [lia|].
    unfold grown_cap. settle_tests. rewrite <-Ha. f_equal. bdestruct_test; lia.
Qed.

Lemma reserve_loop_refused fuel b needed p b' p' :
  ring_wf b -> reserve_loop fuel b needed p = Ok (VR_ERROR, b', p') ->
  rb_capacity b' = 65536 /\ vr_conn_ring_buf_free b' < needed \/ refused p b' p'.
Proof.
  revert b p. induction fuel as [|fuel IH]; intros b p Hb; [done|]. cbn [reserve_loop].
  destruct (Z.ltb_spec (vr_conn_ring_buf_free b) needed); [|done].
  destruct (grow_spec b p Hb) as (r & b1 & p1 & Hg & Hb1 & _ & _ & Hcase).
  destruct (grow_requests b p r b1 p1 Hb Hg) as [Hle Hr]. rewrite Hg. ostep.
  destruct Hcase as [(-> & _)|(-> & -> & _)].
  - intros Hl. destruct (IH b1 p1 Hb1 Hl); [by left|]. right. by eapply refused_mono.
  - intros; simplify_eq. destruct (Hr eq_refl); auto.
Qed.

Lemma reserve_refused b needed p b' p' :
  ring_wf b -> vr_conn_ring_buf_reserve b needed p = Ok (VR_ERROR, b', p') ->
  rb_capacity b' = 65536 /\ vr_conn_ring_buf_free b' < needed \/ refused p b' p'.
Proof.
  intros Hb. unfold vr_conn_ring_buf_reserve.
  destruct (Z.eqb_spec (rb_capacity b) 0) as [Hz|Hz]; [|by apply reserve_loop_refused].
  apply ring_capacity_zero in Hz as ->; [|done]. pose proof (init_zeroed p) as Hi.
  destruct (vr_conn_ring_buf_init zeroed_ring_buf p) as [[[] b1] p1] eqn:Ei; try done.
  - apply init_requests in Ei as [Hle _]. intros Hl.
    destruct (reserve_loop_refused _ _ _ _ _ _ (proj1 Hi) Hl); [by left|].
    right. by eapply refused_mono.
  - intros; simplify_eq. right. by apply (init_requests p b' p' VR_ERROR).
Qed.
End Refusals.

(** ** Properties *)

(** C4. Every sequence of ring-buffer API calls on the zeroed struct of a new
    connection, those that ask for counts and the contiguous regions included,
    runs without undefined behaviour, whatever the allocator answers, leaves a
    well-formed ring, and returns replies that a byte queue of the ring's
    capacity can return, in FIFO order.  No block is leaked: what the calls
    left allocated is the one block of the ring, if it has one. *)
Theorem ring_refines_queue `{Libc} cs p :
  Forall call_ok cs ->
  exists rs b' p', ring_run cs zeroed_ring_buf p = Ok (rs, b', p') /\ ring_wf b' /\
    p_live p' = p_live p + owned (rb_data b') /\
    queue_run (Queue [] 0) cs rs (absr b').
Proof.
  intros Hcs. destruct (ring_run_simulates cs zeroed_ring_buf p) as (rs & b' & p' & ? & ? & Hl & ?);
    [constructor|done|]. exists rs, b', p'. split_and!; try done. rewrite Hl. simpl. lia.
Qed.

Lemma ring_refines_queue_witness :
  let cs := [CPop; CPush 7; CReserve 5000; CWrite [1; 2; 3]; CFree; CRead; CPeekN 2;
             CConsume 3; CPop; CEmpty] in
  exists rs b' p', @ring_run (libc_fill 170) cs zeroed_ring_buf proc0 = Ok (rs, b', p') /\
    ring_wf b' /\ p_live p' = p_live proc0 + owned (rb_data b') /\ queue_run (Queue [] 0) cs rs (absr b').
Proof.
  apply (@ring_refines_queue (libc_fill 170)).
  repeat constructor; unfold is_byte; simpl; try lia; try discriminate.
Defined.

(** C25. For any allocator and any well-formed ring, [reserve] keeps the
    contents and never shrinks the ring.  It succeeds with the requested room
    free, which it can only when the bytes held and the bytes asked for fit in
    the maximum ring size together; or it fails because they do not fit, or
    because the last request it made, for the next larger ring, was refused. *)
Theorem reserve_contract `{Libc} b needed p :
  ring_wf b -> 0 <= needed ->
  exists r b' p', vr_conn_ring_buf_reserve b needed p = Ok (r, b', p') /\
    ring_wf b' /\ ring_contents b' = ring_contents b /\ rb_capacity b <= rb_capacity b' /\
    let fits := zlen (ring_contents b) + needed <= VR_CONNECTION_BUFFER_MAX_SIZE in
    (r = VR_SUCCESS /\ fits /\ needed <= vr_conn_ring_buf_free b' \/
     r = VR_ERROR /\ (~ fits \/ refused p b' p')).
Proof.
  intros Hb Hn. destruct (reserve_spec b needed p Hb Hn)
    as (r & b' & p' & He & Hb' & Hq & Hcap & _ & Hr).
  exists r, b', p'. pose proof (ring_contents_length b' Hb') as Hl. rewrite Hq in Hl.
  pose proof (ring_wf_count b' Hb'). destruct (ring_counts b' Hb') as (_ & -> & _).
  unfold VR_CONNECTION_BUFFER_MAX_SIZE, ring_room in *. rewrite Hq.
  split_and!; try done. destruct Hr as [(-> & ? & _)|(-> & ? & _)]; [left|right].
  - split_and!; [done|lia|lia].
  - split; [done|]. destruct (reserve_refused b needed p b' p' Hb He) as [[? ?]|?]; [|by right].
    left. destruct (ring_counts b' Hb') as (_ & Hf & _). rewrite Hq in Hf. lia.
Qed.

(** An allocator that answers two requests: 4096 bytes, 8192 bytes, and no
    ring of 16384. *)
Lemma reserve_contract_witness :
  exists r b' p',
    @vr_conn_ring_buf_reserve (libc_fail_from 2) zeroed_ring_buf 9000 proc0 = Ok (r, b', p') /\
    ring_wf b' /\ ring_contents b' = [] /\ 0 <= rb_capacity b' /\
    (r = VR_SUCCESS /\ 9000 <= 65536 /\ 9000 <= vr_conn_ring_buf_free b' \/
     r = VR_ERROR /\ (~ 9000 <= 65536 \/ @refused (libc_fail_from 2) proc0 b' p')).
Proof.
  apply (@reserve_contract (libc_fail_from 2) zeroed_ring_buf 9000 proc0); [constructor|lia].
Defined.

(** [reserve] terminates: from any struct whatever (well formed or not, the
    capacity being unsigned) its loop leaves within [reserve_fuel] turns. *)
Lemma reserve_terminates `{Libc} b needed p :
  0 <= rb_capacity b -> vr_conn_ring_buf_reserve b needed p <> NoFuel.
Proof.
  intros Hc. unfold vr_conn_ring_buf_reserve.
  assert (Hloop : forall b p, 1 <= rb_capacity b ->
    reserve_loop reserve_fuel b needed p <> NoFuel).
  { clear. intros b p Hb. apply (reserve_loop_terminates 19); [done|].
    change (2 ^ Z.of_nat 19) with 524288. lia. }
  destruct (Z.eqb_spec (rb_capacity b) 0); [|apply Hloop; lia].
  unfold vr_conn_ring_buf_init. repeat case_match; simplify_eq; try done.
  apply Hloop. simpl. unfold VR_CONNECTION_BUFFER_INITIAL_SIZE. lia.
Qed.

(** The comment above [reserve] says that a failure leaves the buffer
    exactly as it was found.  The contents are kept, the buffer is not: a
    request that exceeds the maximum allocates a ring and grows it to the
    maximum before it fails. *)
Lemma reserve_failure_changes_buffer :
  exists b' p',
    @vr_conn_ring_buf_reserve (libc_fill 0) zeroed_ring_buf 65537 proc0
    = Ok (VR_ERROR, b', p') /\
    b' <> zeroed_ring_buf /\ rb_capacity b' = 65536 /\ p_live p' = p_live proc0 + 1.
Proof.
  destruct (@reserve_spec (libc_fill 0) zeroed_ring_buf 65537 proc0
    ring_wf_unalloc ltac:(lia)) as (r & b' & p' & -> & Hb' & Hq & Hc & Hl & Hr).
  pose proof (ring_wf_count b' Hb'). unfold ring_room in Hr.
  destruct Hr as [(-> & ? & _)|(-> & _ & [[Hcap _]|[n []]])]; [lia| |apply libc_fill_allocates].
  exists b', p'. split; [done|]. rewrite Hl, (ring_owned b') by (done || lia).
  split_and!; try done; intros ->; done.
Qed.
