(* ===== verification/Packet.v ===== *)
(** * Packet: include/velora/packet.h and src/protocol/packet.c

    The packet record, its big-endian wire form and the two codecs.  A buffer
    argument is a block and the offset the C pointer has in it, so that writing
    into the middle of a ring ([reactor_enqueue_response]) and into a staging
    buffer are the same function, and every byte access is bounds-checked.

    [header_bytes] is the wire format as the README documents it; the theorems
    relate the codecs to it, and compare its 8 bytes with
    [sizeof(vr_packet_header_t)], which the parser and the reactor use. *)

From S2P Require Import Prelude CType Core.
#[local] Open Scope Z_scope.

Definition VR_MAGIC : Z := 0x5789.
Definition VR_PROTOCOL_VERSION : Z := 1.

Inductive vr_packet_type_t :=
| VR_PKT_CONNECT
| VR_PKT_CONNECT_ACK
| VR_PKT_PING
| VR_PKT_PONG
| VR_PKT_STREAM_OPEN
| VR_PKT_STREAM_OPEN_ACK
| VR_PKT_STREAM_CLOSE
| VR_PKT_PUBLISH
| VR_PKT_ERROR.

#[global] Instance vr_packet_type_t_eq_dec : EqDecision vr_packet_type_t.
Proof. solve_decision. Defined.

(** The value of an enumerator ([VR_PKT_CONNECT = 1] and counting). *)
Definition pkt_int (t : vr_packet_type_t) : Z :=
  match t with
  | VR_PKT_CONNECT => 1
  | VR_PKT_CONNECT_ACK => 2
  | VR_PKT_PING => 3
  | VR_PKT_PONG => 4
  | VR_PKT_STREAM_OPEN => 5
  | VR_PKT_STREAM_OPEN_ACK => 6
  | VR_PKT_STREAM_CLOSE => 7
  | VR_PKT_PUBLISH => 8
  | VR_PKT_ERROR => 9
  end.

(** The enumerator a [switch] selects for a value, if any. *)
Definition pkt_of_int (z : Z) : option vr_packet_type_t :=
  match z with
  | 1 => Some VR_PKT_CONNECT
  | 2 => Some VR_PKT_CONNECT_ACK
  | 3 => Some VR_PKT_PING
  | 4 => Some VR_PKT_PONG
  | 5 => Some VR_PKT_STREAM_OPEN
  | 6 => Some VR_PKT_STREAM_OPEN_ACK
  | 7 => Some VR_PKT_STREAM_CLOSE
  | 8 => Some VR_PKT_PUBLISH
  | 9 => Some VR_PKT_ERROR
  | _ => None
  end.

Definition VR_FLAG_NONE : Z := 0.
Definition VR_FLAG_COMPRESSED : Z := Z.shiftl 1 0.
Definition VR_FLAG_ACK_REQ : Z := Z.shiftl 1 1.
Definition VR_PACKET_VALID_FLAGS : Z := Z.lor VR_FLAG_COMPRESSED VR_FLAG_ACK_REQ.

(** [type] is an enum object: it holds whatever integer is stored in it. *)
Record vr_packet_header_t := Header {
  h_magic : Z;         (* uint16_t *)
  h_version : Z;       (* uint8_t *)
  h_type : Z;          (* vr_packet_type_t *)
  h_stream_id : Z;     (* uint8_t *)
  h_flags : Z;         (* uint8_t *)
  h_payload_len : Z    (* uint16_t *)
}.

#[global] Instance vr_packet_header_t_eq_dec : EqDecision vr_packet_header_t.
Proof. solve_decision. Defined.

Definition zeroed_header : vr_packet_header_t := Header 0 0 0 0 0 0.

Record vr_packet_t := Packet {
  pk_header : vr_packet_header_t;
  pk_payload : option (list Z)
}.

(** [vr_packet_t pkt = {0}] *)
Definition zeroed_packet : vr_packet_t := Packet zeroed_header None.

(** The two structs as C lays them out. *)
Definition vr_packet_header_type `{Abi} : ctype := TStruct
  ["magic" ∷ uint16; "version" ∷ uint8; "type" ∷ enum; "stream_id" ∷ uint8; "flags" ∷ uint8;
   "payload_len" ∷ uint16].

Definition vr_packet_type `{Abi} : ctype := TStruct
  ["header" ∷ vr_packet_header_type; "payload" ∷ TPtr].

Definition sizeof_vr_packet_header_t `{Abi} : Z := sizeof vr_packet_header_type.
Definition sizeof_vr_packet_t `{Abi} : Z := sizeof vr_packet_type.

(** ** The codecs *)

Definition vr_encode_u16 (buf : list Z) (off value : Z) : outcome (list Z) :=
  buf ← store buf off (u8 (Z.land (Z.shiftr value 8) 0xFF));
  store buf (off + 1) (u8 (Z.land value 0xFF)).

Definition vr_decode_u16 (buf : list Z) (off : Z) : outcome Z :=
  b0 ← load buf off;
  b1 ← load buf (off + 1);
  Ok (u16 (Z.lor (u16 (Z.shiftl b0 8)) (u16 b1))).

(** [packet = None] is the NULL the function refuses. *)
Definition vr_packet_serialize (packet : option vr_packet_t) (buff : list Z) (off : Z)
    : outcome (list Z) :=
  match packet with
  | None => Ok buff
  | Some packet =>
      let h := pk_header packet in
      buff ← vr_encode_u16 buff off (h_magic h);
      buff ← store buff (off + 2) (u8 (h_version h));
      buff ← store buff (off + 3) (u8 (h_type h));
      buff ← store buff (off + 4) (u8 (h_stream_id h));
      buff ← store buff (off + 5) (u8 (h_flags h));
      buff ← vr_encode_u16 buff (off + 6) (h_payload_len h);
      if 0 <? h_payload_len h then
        payload ← deref (pk_payload packet);
        s ← slice payload 0 (h_payload_len h);
        splice buff (off + 8) s
      else Ok buff
  end.

Definition vr_packet_header_deserialize (data : list Z) (off : Z)
    : outcome vr_packet_header_t :=
  magic ← vr_decode_u16 data off;
  version ← load data (off + 2);
  type ← load data (off + 3);
  stream_id ← load data (off + 4);
  flags ← load data (off + 5);
  payload_len ← vr_decode_u16 data (off + 6);
  Ok (Header magic version type stream_id flags payload_len).

(** ** The wire format *)

Definition u16_bytes (v : Z) : list Z := [v / 256; v mod 256].

Definition header_bytes (h : vr_packet_header_t) : list Z :=
  u16_bytes (h_magic h) ++ [h_version h; h_type h; h_stream_id h; h_flags h]
  ++ u16_bytes (h_payload_len h).

(** The members hold values of their C types, and the type fits its wire byte. *)
Record header_fits (h : vr_packet_header_t) : Prop := {
  hf_magic : 0 <= h_magic h < 65536;
  hf_version : is_byte (h_version h);
  hf_type : is_byte (h_type h);
  hf_stream_id : is_byte (h_stream_id h);
  hf_flags : is_byte (h_flags h);
  hf_payload_len : 0 <= h_payload_len h < 65536
}.

(** What the serializer asks of its caller: the payload block holds at least
    [payload_len] bytes. *)
Definition payload_fits (pk : vr_packet_t) : Prop :=
  h_payload_len (pk_header pk) = 0 \/
  exists d, pk_payload pk = Some d /\ h_payload_len (pk_header pk) <= zlen d /\
    Forall is_byte d.

Definition payload_bytes (pk : vr_packet_t) : list Z :=
  match pk_payload pk with
  | Some d => take (Z.to_nat (h_payload_len (pk_header pk))) d
  | None => []
  end.

Definition packet_bytes (pk : vr_packet_t) : list Z :=
  header_bytes (pk_header pk) ++ payload_bytes pk.

(** ** Facts *)

Lemma land_255 v : Z.land v 0xFF = v mod 256.
Proof. apply (Z.land_ones v 8). lia. Qed.

Lemma u16_split v : 0 <= v < 65536 -> u8 (Z.land (Z.shiftr v 8) 0xFF) = v / 256.
Proof.
  intros. rewrite land_255, Z.shiftr_div_pow2 by lia. change (2 ^ 8) with 256.
  unfold u8. rewrite !Z.mod_small; Z.div_mod_to_equations; lia.
Qed.

Lemma lor_shifted a b : 0 <= b < 256 -> Z.lor (a * 256) b = a * 256 + b.
Proof.
  intros Hb. symmetry. apply Z.add_nocarry_lor, Z.bits_inj'. intros n Hn.
  rewrite Z.land_spec, Z.bits_0. destruct (Z.ltb_spec n 8).
  - change 256 with (2 ^ 8). by rewrite Z.mul_pow2_bits_low.
  - replace (Z.testbit b n) with false; [by rewrite andb_false_r|].
    rewrite <-(Z.mod_small b 256) by done. symmetry.
    apply (Z.mod_pow2_bits_high b 8 n). lia.
Qed.

Lemma u16_join b0 b1 :
  is_byte b0 -> is_byte b1 ->
  u16 (Z.lor (u16 (Z.shiftl b0 8)) (u16 b1)) = b0 * 256 + b1.
Proof.
  unfold is_byte. intros. rewrite Z.shiftl_mul_pow2 by lia. change (2 ^ 8) with 256.
  by rewrite (u16_id (b0 * 256)), (u16_id b1), lor_shifted, u16_id by lia.
Qed.

(** Adjacent writes are one write. *)
Lemma splice_splice {A} (d d' : list A) off bs bs' :
  splice d off bs = Ok d' ->
  splice d' (off + zlen bs) bs' = splice d off (bs ++ bs').
Proof.
  intros Hs. pose proof (splice_zlen _ _ _ _ Hs) as Hl. revert Hs. unfold splice.
  rewrite Hl. destruct (in_range off (zlen bs) (zlen d)) eqn:E; [|done].
  apply in_range_true in E as (? & ? & ?). intros [= <-].
  assert (Hz : zlen (bs ++ bs') = zlen bs + zlen bs') by (unfold zlen; rewrite length_app; lia).
  rewrite Hz. pose proof (zlen_nonneg bs').
  replace (in_range (off + zlen bs) (zlen bs') (zlen d))
    with (in_range off (zlen bs + zlen bs') (zlen d)) by (unfold in_range; lia).
  destruct (in_range off _ _) eqn:E; [|done]. f_equal.
  apply in_range_true in E. unfold zlen in *.
  assert (Hn : Z.to_nat (off + Z.of_nat (length bs)) = (Z.to_nat off + length bs)%nat) by lia.
  rewrite Hn, (app_assoc (take (Z.to_nat off) d) bs (drop _ _)).
  rewrite take_app_length' by (rewrite length_app, length_take; lia).
  rewrite drop_app_ge by (rewrite length_app, length_take; lia).
  rewrite drop_drop, length_app, length_take, <-!app_assoc, length_app.
  do 4 f_equal. lia.
Qed.

Lemma splice_bind {A B} (d : list A) off off' bs bs' (K : list A -> outcome B) :
  off' = off + zlen bs ->
  (d' ← splice d off bs; d'' ← splice d' off' bs'; K d'')
  = (d'' ← splice d off (bs ++ bs'); K d'').
Proof.
  intros ->. destruct (splice d off bs) as [d'| |] eqn:E; ostep.
  - by rewrite (splice_splice d d' off bs bs').
  - replace (splice d off (bs ++ bs')) with (@Undef (list A)); [done|].
    revert E. unfold splice, in_range, zlen. rewrite length_app.
    repeat bdestruct_test; simpl; try done; lia.
  - unfold splice in E. by case_match.
Qed.

Lemma outcome_bind_ret {A} (m : outcome A) : (x ← m; Ok x) = m.
Proof. by destruct m. Qed.

Lemma encode_u16_splice buf off v :
  0 <= v < 65536 -> vr_encode_u16 buf off v = splice buf off (u16_bytes v).
Proof.
  intros. unfold vr_encode_u16. rewrite u16_split, land_255 by done.
  unfold u8 at 1. rewrite Zmod_mod, store_splice.
  rewrite <-(outcome_bind_ret (splice buf off (u16_bytes v))).
  change (u16_bytes v) with ([v / 256] ++ [v mod 256]).
  rewrite <-(splice_bind _ _ (off + 1)) by done.
  destruct (splice buf off [v / 256]); ostep; [|done|done].
  by rewrite store_splice, outcome_bind_ret.
Qed.

Lemma decode_u16_bytes buf off b0 b1 :
  0 <= off -> buf !! Z.to_nat off = Some b0 -> buf !! S (Z.to_nat off) = Some b1 ->
  is_byte b0 -> is_byte b1 ->
  vr_decode_u16 buf off = Ok (b0 * 256 + b1).
Proof.
  intros ? H0 H1 ? ?. unfold vr_decode_u16.
  rewrite (load_ok _ off b0) by done.
  rewrite (load_ok _ (off + 1) b1);
    [|lia|by replace (Z.to_nat (off + 1)) with (S (Z.to_nat off)) by lia].
  ostep. by rewrite u16_join.
Qed.

Lemma splice_bind_store {A B} (d : list A) off off' bs x (K : list A -> outcome B) :
  off' = off + zlen bs ->
  (d' ← splice d off bs; d'' ← store d' off' x; K d'')
  = (d'' ← splice d off (bs ++ [x]); K d'').
Proof.
  intros. rewrite <-(splice_bind _ _ off') by done.
  destruct (splice d off bs); ostep; try done. by rewrite store_splice.
Qed.

Lemma splice_bind_u16 {B} d off off' bs v (K : list Z -> outcome B) :
  0 <= v < 65536 -> off' = off + zlen bs ->
  (d' ← splice d off bs; d'' ← vr_encode_u16 d' off' v; K d'')
  = (d'' ← splice d off (bs ++ u16_bytes v); K d'').
Proof.
  intros. rewrite <-(splice_bind _ _ off') by done.
  destruct (splice d off bs); ostep; try done. by rewrite encode_u16_splice.
Qed.

(** The serializer is one write of the packet's wire bytes. *)
Lemma serialize_splice pk buff off :
  header_fits (pk_header pk) -> payload_fits pk ->
  vr_packet_serialize (Some pk) buff off = splice buff off (packet_bytes pk).
Proof.
  intros [? ? ? ? ? ?] Hp. unfold vr_packet_serialize, packet_bytes, is_byte in *.
  rewrite encode_u16_splice, !u8_id by done. rewrite !splice_bind_store by done.
  rewrite splice_bind_u16 by done.
  match goal with |- context [splice buff off (?l ++ u16_bytes ?v)] =>
    change (l ++ u16_bytes v) with (header_bytes (pk_header pk)) end.
  destruct (Z.ltb_spec 0 (h_payload_len (pk_header pk))) as [Hl|Hl].
  - destruct Hp as [?|(d & Hd & ? & _)]; [lia|]. unfold payload_bytes. rewrite Hd. ostep.
    ostep. rewrite slice_ok, drop_0 by lia. ostep.
    rewrite <-(outcome_bind_ret (splice _ _ (_ ++ _))), <-(splice_bind _ _ (off + 8)) by done.
    destruct (splice _ _ (header_bytes _)); ostep; try done. by rewrite outcome_bind_ret.
  - replace (payload_bytes pk) with (@nil Z); [by rewrite app_nil_r, outcome_bind_ret|].
    unfold payload_bytes. case_match; [|done].
    by replace (Z.to_nat _) with O by lia.
Qed.

(** Eight bytes are read back as the header they spell. *)
Lemma deserialize_bytes data off h :
  0 <= off -> header_fits h ->
  take 8 (drop (Z.to_nat off) data) = header_bytes h ->
  vr_packet_header_deserialize data off = Ok h.
Proof.
  intros Hoff [? Hv Ht Hs Hf ?] Hb. unfold is_byte in *.
  assert (Hlk : forall k x, 0 <= k < 8 -> header_bytes h !! Z.to_nat k = Some x ->
    data !! Z.to_nat (off + k) = Some x).
  { intros k x Hk Hx. rewrite <-Hb, lookup_take_lt, lookup_drop in Hx by lia.
    by rewrite Z2Nat.inj_add by lia. }
  assert (Hld : forall k x, 0 <= k < 8 -> header_bytes h !! Z.to_nat k = Some x ->
    load data (off + k) = Ok x).
  { intros k x Hk Hx. apply load_ok; [lia|auto]. }
  assert (Hdec : forall k v, 0 <= v < 65536 -> 0 <= k < 7 ->
    header_bytes h !! Z.to_nat k = Some (v / 256) ->
    header_bytes h !! Z.to_nat (k + 1) = Some (v mod 256) ->
    vr_decode_u16 data (off + k) = Ok v).
  { intros k v Hr Hk H0 H1.
    rewrite (decode_u16_bytes _ _ (v / 256) (v mod 256)); unfold is_byte;
      try (Z.div_mod_to_equations; lia).
    - f_equal. Z.div_mod_to_equations; lia.
    - apply Hlk; [lia|done].
    - replace (S (Z.to_nat (off + k))) with (Z.to_nat (off + (k + 1))) by lia.
      apply Hlk; [lia|done]. }
  unfold vr_packet_header_deserialize. rewrite <-(Z.add_0_r off) at 1.
  rewrite (Hdec 0 (h_magic h)) by (done || lia). ostep.
  rewrite (Hld 2 (h_version h)), (Hld 3 (h_type h)), (Hld 4 (h_stream_id h)),
    (Hld 5 (h_flags h)) by (done || lia). ostep.
  rewrite (Hdec 6 (h_payload_len h)) by (done || lia). ostep. by destruct h.
Qed.

Lemma header_bytes_length h : length (header_bytes h) = 8%nat.
Proof. done. Qed.

Lemma header_bytes_bytes h : header_fits h -> Forall is_byte (header_bytes h).
Proof.
  intros [? ? ? ? ? ?]. unfold header_bytes, u16_bytes, is_byte in *. simpl.
  repeat (apply Forall_cons; split; [unfold is_byte; Z.div_mod_to_equations; lia|]).
  by apply Forall_nil.
Qed.

(** Any eight bytes spell a header. *)
Definition header_of_bytes (bs : list Z) : vr_packet_header_t :=
  match bs with
  | b0 :: b1 :: ver :: ty :: sid :: fl :: b6 :: b7 :: _ =>
      Header (b0 * 256 + b1) ver ty sid fl (b6 * 256 + b7)
  | _ => zeroed_header
  end.

Lemma header_of_bytes_spec bs :
  (8 <= length bs)%nat -> Forall is_byte bs ->
  header_fits (header_of_bytes bs) /\ header_bytes (header_of_bytes bs) = take 8 bs.
Proof.
  intros Hl Hb.
  do 8 (destruct bs as [|? bs]; [simpl in Hl; lia|]; apply Forall_cons in Hb as [? Hb]).
  unfold is_byte in *. split; [constructor; unfold is_byte; simpl; lia|].
  unfold header_bytes, u16_bytes. simpl. unfold take.
  repeat f_equal; Z.div_mod_to_equations; lia.
Qed.

Lemma deserialize_header_of_bytes data off :
  0 <= off -> off + 8 <= zlen data -> Forall is_byte data ->
  vr_packet_header_deserialize data off
  = Ok (header_of_bytes (drop (Z.to_nat off) data)).
Proof.
  intros Hoff Hl Hb. unfold zlen in *.
  destruct (header_of_bytes_spec (drop (Z.to_nat off) data)) as [Hf Hbs];
    [rewrite length_drop; lia|by apply Forall_drop|].
  by apply deserialize_bytes.
Qed.

Lemma header_of_bytes_app bs bs' :
  (8 <= length bs)%nat -> header_of_bytes (bs ++ bs') = header_of_bytes bs.
Proof.
  intros Hl. by do 8 (destruct bs as [|? bs]; [simpl in Hl; lia|]).
Qed.

Lemma header_of_bytes_bytes h : header_fits h -> header_of_bytes (header_bytes h) = h.
Proof.
  intros [? ? ? ? ? ?]. destruct h. unfold header_bytes, u16_bytes. simpl in *.
  f_equal; Z.div_mod_to_equations; lia.
Qed.

Lemma header_of_bytes_take (k : nat) bs :
  (8 <= k)%nat -> header_of_bytes (take k bs) = header_of_bytes bs.
Proof.
  intros Hk. do 8 (destruct k as [|k]; [lia|]).
  by do 8 (destruct bs as [|? bs]; [done|]).
Qed.

Lemma sizeof_header_cases `{Abi} :
  (sizeof_enum = 1 /\ sizeof_vr_packet_header_t = 8) \/
  (sizeof_enum = 2 /\ sizeof_vr_packet_header_t = 10) \/
  (sizeof_enum = 4 /\ sizeof_vr_packet_header_t = 12).
Proof.
  unfold sizeof_vr_packet_header_t, vr_packet_header_type, enum.
  destruct sizeof_enum_ok as [-> | [-> | ->]]; [left|right; left|right; right]; done.
Qed.

Lemma sizeof_header_range `{Abi} : 8 <= sizeof_vr_packet_header_t <= 12.
Proof. destruct sizeof_header_cases as [[_ ->]|[[_ ->]|[_ ->]]]; lia. Qed.

(** Only the range above is needed from here on. *)
#[global] Opaque sizeof_vr_packet_header_t.

(** ** Properties *)

(** C21. Round trip.  Serializing a packet into a block that has room for it
    writes the documented wire bytes and nothing else: the header read back at
    the same place is the packet's header, the bytes behind it are its payload,
    and every other byte of the block is unchanged. *)
Theorem packet_roundtrip pk buff off :
  header_fits (pk_header pk) -> payload_fits pk ->
  0 <= off -> off + 8 + zlen (payload_bytes pk) <= zlen buff ->
  exists buff', vr_packet_serialize (Some pk) buff off = Ok buff' /\
    vr_packet_header_deserialize buff' off = Ok (pk_header pk) /\
    slice buff' (off + 8) (zlen (payload_bytes pk)) = Ok (payload_bytes pk) /\
    zlen buff' = zlen buff /\
    take (Z.to_nat off) buff' = take (Z.to_nat off) buff /\
    drop (Z.to_nat off + 8 + length (payload_bytes pk)) buff'
    = drop (Z.to_nat off + 8 + length (payload_bytes pk)) buff.
Proof.
  intros Hh Hp Hoff Hroom. rewrite serialize_splice by done. unfold packet_bytes.
  pose proof (header_bytes_length (pk_header pk)) as Hhl.
  set (hb := header_bytes (pk_header pk)) in *. set (pb := payload_bytes pk) in *.
  assert (Hl : length (hb ++ pb) = (8 + length pb)%nat) by (rewrite length_app; lia).
  pose proof (splice_ok buff off (hb ++ pb) ltac:(done)
    ltac:(unfold zlen in *; rewrite Hl; lia)) as Hs.
  eexists. split; [exact Hs|]. rewrite (splice_zlen _ _ _ _ Hs).
  assert (Ht : length (take (Z.to_nat off) buff) = Z.to_nat off)
    by (rewrite length_take; unfold zlen in *; lia).
  split_and!.
  - apply deserialize_bytes; [done|done|].
    rewrite drop_app_length' by done. rewrite <-app_assoc. by apply take_app_length'.
  - rewrite slice_ok; [|lia|unfold zlen; lia|].
    2:{ rewrite (splice_zlen _ _ _ _ Hs). done. }
    f_equal. replace (Z.to_nat (off + 8)) with (Z.to_nat off + 8)%nat by lia.
    rewrite <-drop_drop, drop_app_length' by done. rewrite <-app_assoc.
    rewrite drop_app_length' by done. apply take_app_length'. unfold zlen. lia.
  - done.
  - by apply take_app_length'.
  - rewrite app_assoc, drop_app_length'; [by rewrite Hl, Nat.add_assoc|].
    rewrite length_app. lia.
Qed.

Lemma packet_roundtrip_witness :
  let pk := Packet (Header VR_MAGIC 1 8 3 2 2) (Some [10; 20; 30]) in
  exists buff', vr_packet_serialize (Some pk) (replicate 16 7) 4 = Ok buff' /\
    vr_packet_header_deserialize buff' 4 = Ok (pk_header pk) /\
    slice buff' 12 2 = Ok [10; 20] /\ zlen buff' = 16 /\
    take 4 buff' = replicate 4 7 /\ drop 14 buff' = replicate 2 7.
Proof.
  apply (packet_roundtrip (Packet (Header VR_MAGIC 1 8 3 2 2) (Some [10; 20; 30]))
    (replicate 16 7) 4).
  - constructor; unfold is_byte, VR_MAGIC; simpl; lia.
  - right. exists [10; 20; 30]. unfold zlen. simpl.
    split_and!; [done|lia|]. repeat constructor; unfold is_byte; lia.
  - lia.
  - vm_compute. discriminate.
Defined.

(** The header decoder is total on bytes and loses nothing: any eight bytes
    decode to a header whose members are in range, and encoding that header
    gives the eight bytes back. *)
Lemma deserialize_total data off :
  Forall is_byte data -> 0 <= off -> off + 8 <= zlen data ->
  exists h, vr_packet_header_deserialize data off = Ok h /\ header_fits h /\
    header_bytes h = take 8 (drop (Z.to_nat off) data).
Proof.
  intros Hb Hoff Hl. eexists. split; [by apply deserialize_header_of_bytes|].
  apply header_of_bytes_spec; [rewrite length_drop; unfold zlen in *; lia|].
  by apply Forall_drop.
Qed.
