(* ===== verification/Parser.v ===== *)
(** * Parser: src/protocol/parser.c

    The incremental header/payload state machine.  The parser only reads the
    connection's ring, so it is written against an interface ([RingReads]) with
    the promises it relies on ([RingReadsOk]); the ring buffer of
    [RingBuffer] discharges them at the end.

    [parse_spec] is what the parser does to a byte queue, with no ring, no
    regions and no copying; [poll_refines] says the two agree on every branch,
    so the contiguous and the wrapped paths cannot differ. *)

From S2P Require Import Prelude Core RingBuffer Packet.
#[local] Open Scope Z_scope.

Inductive vr_parser_state_t := VR_PARSER_HEADER_WAIT | VR_PARSER_PAYLOAD_WAIT.

#[global] Instance vr_parser_state_t_eq_dec : EqDecision vr_parser_state_t.
Proof. solve_decision. Defined.

Record vr_parser_t := ParserSt {
  ps_state : vr_parser_state_t;
  ps_header : vr_packet_header_t
}.

Definition zeroed_parser : vr_parser_t := ParserSt VR_PARSER_HEADER_WAIT zeroed_header.

(** ** The ring as the parser sees it *)

Class RingReads (R : Type) := {
  rr_size : R -> Z;
  (** length and offset of the first readable region *)
  rr_contiguous_read : R -> Z * option Z;
  (** the block the offset points into *)
  rr_block : R -> outcome (list Z);
  rr_peek_n : R -> Z -> outcome (vr_result_t * option (list Z));
  rr_consume : R -> Z -> outcome (vr_result_t * R);
  (** the model: validity and the queued bytes *)
  rr_wf : R -> Prop;
  rr_bytes : R -> list Z;
  (** blocks the ring owns *)
  rr_owned : R -> Z
}.

Class RingReadsOk (R : Type) `{RingReads R} : Prop := {
  rr_bytes_ok r : rr_wf r -> Forall is_byte (rr_bytes r);
  rr_size_ok r : rr_wf r -> rr_size r = zlen (rr_bytes r);
  rr_contiguous_ok r :
    rr_wf r -> 0 < zlen (rr_bytes r) ->
    exists n off d, rr_contiguous_read r = (n, Some off) /\ rr_block r = Ok d /\
      0 <= off /\ off + n <= zlen d /\ Forall is_byte d /\
      0 < n <= zlen (rr_bytes r) /\
      take (Z.to_nat n) (drop (Z.to_nat off) d) = take (Z.to_nat n) (rr_bytes r);
  rr_peek_ok r len :
    rr_wf r -> 0 <= len <= zlen (rr_bytes r) ->
    rr_peek_n r len = Ok (VR_SUCCESS, Some (take (Z.to_nat len) (rr_bytes r)));
  rr_consume_ok r n :
    rr_wf r -> 0 < n <= zlen (rr_bytes r) ->
    exists r', rr_consume r n = Ok (VR_SUCCESS, r') /\ rr_wf r' /\
      rr_bytes r' = drop (Z.to_nat n) (rr_bytes r) /\ rr_owned r' = rr_owned r
}.

(** ** vr_parser_poll *)

(** The four tests of the validation block. *)
Definition header_valid (h : vr_packet_header_t) : bool :=
  let validated := true in
  let validated := if negb (h_magic h =? VR_MAGIC) then false else validated in
  let validated := if negb (h_version h =? VR_PROTOCOL_VERSION) then false else validated in
  let validated := if pkt_int VR_PKT_ERROR <? h_type h then false else validated in
  let validated :=
    if negb (Z.land (h_flags h) (Z.lnot VR_PACKET_VALID_FLAGS) =? 0) then false else validated in
  validated.

Section Poll.
Context {R : Type} `{RingReads R} `{Libc} `{Abi}.

(** What a poll returns: the result, and the parser, the ring, the packet
    [out] and the library state it leaves. *)
Definition polled : Type := vr_result_t * vr_parser_t * R * vr_packet_t * proc.

(** Lines 75-120: the payload state. *)
Definition poll_payload (parser : vr_parser_t) (r : R) (out : vr_packet_t) (p : proc)
    : outcome polled :=
  let payload_len := h_payload_len (ps_header parser) in
  if rr_size r <? payload_len then Ok (VR_EMPTY, parser, r, out, p)
  else
    match malloc payload_len p with
    | (None, p) => Ok (VR_ERROR, parser, r, Packet (pk_header out) None, p)
    | (Some blk, p) =>
        let '(contig_len, contig) := rr_contiguous_read r in
        filled ←
          (if payload_len <=? contig_len then
             (* fast path: one memcpy from the ring *)
             d ← rr_block r;
             off ← deref contig;
             s ← slice d off payload_len;
             blk ← splice blk 0 s;
             Ok (Some blk)
           else
             (* wrap path *)
             '(res, s) ← rr_peek_n r payload_len;
             match res with
             | VR_ERROR => Ok None
             | _ => s ← deref s; blk ← splice blk 0 s; Ok (Some blk)
             end);
        match filled with
        | None => Ok (VR_ERROR, parser, r, Packet (pk_header out) None, free (Some blk) p)
        | Some blk =>
            '(res, r) ← rr_consume r payload_len;
            match res with
            | VR_ERROR => Ok (VR_ERROR, parser, r, Packet (pk_header out) None, free (Some blk) p)
            | _ => Ok (VR_SUCCESS, zeroed_parser, r, Packet (ps_header parser) (Some blk), p)
            end
        end
    end.

(** Lines 12-29: the header, straight from the ring or through a flat copy. *)
Definition poll_header (r : R) : outcome (option vr_packet_header_t) :=
  let '(contig_len, contig) := rr_contiguous_read r in
  if sizeof_vr_packet_header_t <=? contig_len then
    d ← rr_block r;
    off ← deref contig;
    h ← vr_packet_header_deserialize d off;
    Ok (Some h)
  else
    '(res, bs) ← rr_peek_n r sizeof_vr_packet_header_t;
    match res with
    | VR_ERROR => Ok None
    | _ => bs ← deref bs; h ← vr_packet_header_deserialize bs 0; Ok (Some h)
    end.

Definition vr_parser_poll (parser : vr_parser_t) (r : R) (out : vr_packet_t) (p : proc)
    : outcome polled :=
  match ps_state parser with
  | VR_PARSER_PAYLOAD_WAIT => poll_payload parser r out p
  | VR_PARSER_HEADER_WAIT =>
      if rr_size r <? sizeof_vr_packet_header_t then Ok (VR_EMPTY, parser, r, out, p)
      else
        header ← poll_header r;
        match header with
        | None => Ok (VR_ERROR, parser, r, out, p)
        | Some h =>
            '(res, r) ← rr_consume r sizeof_vr_packet_header_t;
            match res with
            | VR_ERROR => Ok (VR_ERROR, ParserSt VR_PARSER_HEADER_WAIT h, r, out, p)
            | _ =>
                if header_valid h then
                  if h_payload_len h =? 0
                  then Ok (VR_SUCCESS, zeroed_parser, r, Packet h (pk_payload out), p)
                  else poll_payload (ParserSt VR_PARSER_PAYLOAD_WAIT h) r out p
                else Ok (VR_ERROR, zeroed_parser, r, out, p)
            end
        end
  end.

(** ** The specification *)

(** The payload state on a queue; [mem n] says whether an allocation of [n]
    bytes succeeds. *)
Definition spec_payload (mem : Z -> bool) (parser : vr_parser_t) (q : list Z)
    : vr_result_t * vr_parser_t * list Z * vr_packet_t :=
  let n := h_payload_len (ps_header parser) in
  if zlen q <? n then (VR_EMPTY, parser, q, zeroed_packet)
  else if mem n then
    (VR_SUCCESS, zeroed_parser, drop (Z.to_nat n) q,
     Packet (ps_header parser) (Some (take (Z.to_nat n) q)))
  else (VR_ERROR, parser, q, zeroed_packet).

(** No allocation fails. *)
Definition mem_ok : Z -> bool := fun _ => true.

Definition parse_spec (mem : Z -> bool) (parser : vr_parser_t) (q : list Z)
    : vr_result_t * vr_parser_t * list Z * vr_packet_t :=
  match ps_state parser with
  | VR_PARSER_PAYLOAD_WAIT => spec_payload mem parser q
  | VR_PARSER_HEADER_WAIT =>
      if zlen q <? sizeof_vr_packet_header_t then (VR_EMPTY, parser, q, zeroed_packet)
      else
        let h := header_of_bytes q in
        let q := drop (Z.to_nat sizeof_vr_packet_header_t) q in
        if header_valid h then
          if h_payload_len h =? 0 then (VR_SUCCESS, zeroed_parser, q, Packet h None)
          else spec_payload mem (ParserSt VR_PARSER_PAYLOAD_WAIT h) q
        else (VR_ERROR, zeroed_parser, q, zeroed_packet)
  end.

Lemma parse_spec_ext mem mem' parser q :
  (forall n, mem n = mem' n) -> parse_spec mem parser q = parse_spec mem' parser q.
Proof. intros E. unfold parse_spec, spec_payload. by rewrite !E. Qed.

(** A parser that waits for a payload holds a header it has validated. *)
Definition parser_wf (parser : vr_parser_t) : Prop :=
  match ps_state parser with
  | VR_PARSER_HEADER_WAIT => True
  | VR_PARSER_PAYLOAD_WAIT =>
      header_fits (ps_header parser) /\ header_valid (ps_header parser) = true /\
      0 < h_payload_len (ps_header parser)
  end.

End Poll.

Section PollFacts.
Context {R : Type} `{RingReadsOk R} `{Libc} `{Abi}.
Implicit Types r : R.

Lemma deserialize_region q d off n :
  0 <= off -> off + n <= zlen d -> Forall is_byte d -> 8 <= n ->
  take (Z.to_nat n) (drop (Z.to_nat off) d) = take (Z.to_nat n) q ->
  vr_packet_header_deserialize d off = Ok (header_of_bytes q).
Proof.
  intros ? ? ? ? Ht. rewrite deserialize_header_of_bytes by (done || lia). f_equal.
  rewrite <-(header_of_bytes_take (Z.to_nat n)), Ht by lia.
  by rewrite header_of_bytes_take by lia.
Qed.

Lemma deserialize_flat q n :
  8 <= n <= zlen q -> Forall is_byte q ->
  vr_packet_header_deserialize (take (Z.to_nat n) q) 0 = Ok (header_of_bytes q).
Proof.
  intros Hn Hq. apply (deserialize_region q _ 0 n); try lia.
  - unfold zlen in *. rewrite length_take. lia.
  - by apply Forall_take.
  - change (Z.to_nat 0) with O. by rewrite drop_0, take_take, Nat.min_id.
Qed.

Lemma poll_header_ok r :
  rr_wf r -> sizeof_vr_packet_header_t <= zlen (rr_bytes r) ->
  poll_header r = Ok (Some (header_of_bytes (rr_bytes r))).
Proof.
  intros Hr. unfold poll_header. pose proof sizeof_header_range as Hs. revert Hs.
  generalize sizeof_vr_packet_header_t. intros sz Hs Hl.
  destruct (rr_contiguous_ok r Hr ltac:(lia)) as (n & off & d & -> & -> & ? & ? & Hd & ? & Ht).
  destruct (Z.leb_spec sz n); ostep.
  - by rewrite (deserialize_region (rr_bytes r) d off n) by (done || lia).
  - rewrite rr_peek_ok by (done || lia). ostep.
    by rewrite deserialize_flat by (lia || by apply rr_bytes_ok).
Qed.

Lemma splice_whole {A} (d bs : list A) :
  length bs = length d -> splice d 0 bs = Ok bs.
Proof.
  intros Hl. rewrite splice_ok by (unfold zlen; lia). simpl.
  by rewrite Hl, drop_all, app_nil_r.
Qed.

(** The allocator's next answer, as the specification's oracle. *)
Definition next_alloc (p : proc) (n : Z) : bool :=
  match alloc_answer (p_next p) n with Some _ => true | None => false end.

Lemma poll_payload_ok parser r p :
  rr_wf r -> 0 < h_payload_len (ps_header parser) ->
  exists r' p',
    let '(res, parser', q', out) := spec_payload (next_alloc p) parser (rr_bytes r) in
    poll_payload parser r zeroed_packet p = Ok (res, parser', r', out, p') /\
    rr_wf r' /\ rr_bytes r' = q' /\ rr_owned r' = rr_owned r /\
    p_live p' = p_live p + owned (pk_payload out).
Proof.
  intros Hr Hn. unfold poll_payload, spec_payload. rewrite rr_size_ok by done.
  set (n := h_payload_len (ps_header parser)) in *.
  destruct (Z.ltb_spec (zlen (rr_bytes r)) n) as [Hs|Hs].
  { do 2 eexists. split_and!; try done. simpl. lia. }
  pose proof (malloc_spec n p ltac:(lia)) as Hm. unfold malloc, next_alloc in *.
  destruct (alloc_answer (p_next p) n) as [f|].
  2:{ do 2 eexists. split_and!; try done. simpl in *. lia. }
  destruct Hm as (Hbl & _). revert Hbl. generalize (block_of f n). intros blk Hbl.
  destruct (rr_contiguous_ok r Hr ltac:(lia)) as (k & off & d & -> & Hd & ? & ? & _ & ? & Ht).
  destruct (rr_consume_ok r n Hr ltac:(lia)) as (r' & Hc & Hr' & Hq' & Ho').
  assert (Hfill : forall s, s = take (Z.to_nat n) (rr_bytes r) -> splice blk 0 s = Ok s).
  { intros s ->. apply splice_whole. rewrite length_take. unfold zlen in *. lia. }
  exists r', (Proc (S (p_next p)) (p_live p + 1) (p_errno p)).
  split_and!; try done.
  destruct (Z.leb_spec n k).
  - rewrite Hd. ostep. rewrite slice_ok by lia. ostep.
    assert (E : take (Z.to_nat n) (drop (Z.to_nat off) d) = take (Z.to_nat n) (rr_bytes r)).
    { apply (f_equal (take (Z.to_nat n))) in Ht. rewrite !take_take in Ht.
      by rewrite !Nat.min_l in Ht by lia. }
    rewrite E, Hfill by done. ostep. rewrite Hc. by ostep.
  - rewrite rr_peek_ok by (done || lia). ostep.
    rewrite Hfill by done. ostep. rewrite Hc. by ostep.
Qed.

(** The parser does to the ring what [parse_spec] does to its bytes. *)
Lemma poll_refines parser r p :
  rr_wf r -> parser_wf parser ->
  exists r' p',
    let '(res, parser', q', out) := parse_spec (next_alloc p) parser (rr_bytes r) in
    vr_parser_poll parser r zeroed_packet p = Ok (res, parser', r', out, p') /\
    rr_wf r' /\ rr_bytes r' = q' /\ rr_owned r' = rr_owned r /\
    p_live p' = p_live p + owned (pk_payload out).
Proof.
  intros Hr Hp. unfold vr_parser_poll, parse_spec, parser_wf in *.
  pose proof sizeof_header_range.
  destruct (ps_state parser); [|by apply poll_payload_ok; destruct_and?].
  rewrite rr_size_ok by done.
  destruct (Z.ltb_spec (zlen (rr_bytes r)) sizeof_vr_packet_header_t).
  { do 2 eexists. split_and!; try done. simpl. lia. }
  rewrite poll_header_ok by done. ostep.
  assert (Hsz : 0 < sizeof_vr_packet_header_t <= zlen (rr_bytes r)) by lia.
  destruct (rr_consume_ok _ _ Hr Hsz) as (r' & -> & Hr' & Hq' & Ho').
  ostep. set (h := header_of_bytes (rr_bytes r)).
  destruct (header_valid h).
  - destruct (Z.eqb_spec (h_payload_len h) 0).
    + do 2 eexists. split_and!; try done. simpl. lia.
    + rewrite <-Hq', <-Ho'. apply poll_payload_ok; [done|]. simpl.
      destruct (header_of_bytes_spec (rr_bytes r)) as [[] _];
        [unfold zlen in *; lia|by apply rr_bytes_ok|]. unfold h in *; lia.
  - do 2 eexists. split_and!; try done. simpl. lia.
Qed.

End PollFacts.

(** ** Facts about the specification *)

Ltac solve_lengths :=
  split_and!; auto; try done;
  unfold zlen in *; rewrite ?length_drop in *; first [lia | intros _; lia].

Section SpecFacts.
Context `{Abi}.

Lemma parse_spec_wf mem parser q :
  Forall is_byte q -> parser_wf parser ->
  let '(res, parser', q', out) := parse_spec mem parser q in
  parser_wf parser' /\ Forall is_byte q' /\
  (res = VR_SUCCESS ->
   header_fits (pk_header out) /\ header_valid (pk_header out) = true /\
   zlen (payload_bytes out) = h_payload_len (pk_header out) /\
   owned (pk_payload out) = if h_payload_len (pk_header out) =? 0 then 0 else 1).
Proof.
  intros Hq Hp. pose proof sizeof_header_range.
  assert (Hpay : forall h q, Forall is_byte q -> header_fits h -> header_valid h = true ->
    0 < h_payload_len h ->
    let '(res, parser', q', out) :=
      spec_payload mem (ParserSt VR_PARSER_PAYLOAD_WAIT h) q in
    parser_wf parser' /\ Forall is_byte q' /\
    (res = VR_SUCCESS ->
     header_fits (pk_header out) /\ header_valid (pk_header out) = true /\
     zlen (payload_bytes out) = h_payload_len (pk_header out) /\
     owned (pk_payload out) = if h_payload_len (pk_header out) =? 0 then 0 else 1)).
  { clear q Hq. intros h q Hq Hf Hv Hl. unfold spec_payload. simpl.
    bdestruct_test; [done|]. destruct (mem _); [|done].
    split_and!; [done|by apply Forall_drop|]. intros _. simpl. settle_tests.
    split_and!; try done. unfold payload_bytes, zlen in *. simpl.
    rewrite !length_take. lia. }
  unfold parse_spec. unfold parser_wf in Hp. destruct parser as [[] h]; simpl in *.
  2:{ by apply Hpay; destruct_and?. }
  bdestruct_test; [done|].
  destruct (header_of_bytes_spec q) as [Hf _]; [unfold zlen in *; lia|done|].
  destruct (header_valid (header_of_bytes q)) eqn:Hv; [|by split_and!; auto using Forall_drop].
  destruct (Z.eqb_spec (h_payload_len (header_of_bytes q)) 0) as [E|E].
  - split_and!; [done|by apply Forall_drop|]. intros _. simpl. rewrite E. done.
  - apply Hpay; auto using Forall_drop. destruct Hf. lia.
Qed.

(** Progress: a packet or an error costs bytes; so does going over to the
    payload state. *)
Lemma parse_spec_consumes mem parser q :
  parser_wf parser ->
  let '(res, parser', q', out) := parse_spec mem parser q in
  zlen q' <= zlen q /\ (res = VR_SUCCESS -> zlen q' < zlen q) /\
  (res = VR_SUCCESS \/ res = VR_ERROR \/ res = VR_EMPTY).
Proof.
  intros Hp. pose proof sizeof_header_range.
  unfold parse_spec, spec_payload, parser_wf in *. destruct parser as [[] h]; simpl in *.
  - bdestruct_test; [solve_lengths|].
    destruct (header_valid _); [|solve_lengths].
    destruct (_ =? 0); [solve_lengths|]. bdestruct_test; [solve_lengths|].
    destruct (mem _); solve_lengths.
  - destruct Hp as (? & ? & ?). bdestruct_test; [solve_lengths|].
    destruct (mem _); solve_lengths.
Qed.

Lemma zlen_app {A} (l l' : list A) : zlen (l ++ l') = zlen l + zlen l'.
Proof. unfold zlen. rewrite length_app. lia. Qed.

Lemma spec_payload_app parser q e :
  0 <= h_payload_len (ps_header parser) ->
  let '(res, parser', q', out) := spec_payload mem_ok parser q in
  spec_payload mem_ok parser (q ++ e)
  = match res with
    | VR_EMPTY => spec_payload mem_ok parser (q ++ e)
    | _ => (res, parser', q' ++ e, out)
    end.
Proof.
  intros. unfold spec_payload at 1. bdestruct_test; [done|]. unfold spec_payload.
  rewrite zlen_app. pose proof (zlen_nonneg e). settle_tests. unfold zlen in *.
  by rewrite drop_app_le, take_app_le by lia.
Qed.

(** Bytes that arrive later do not change what the earlier bytes meant: a poll
    that completed gives the same packet with more bytes behind it, and a poll
    that ran out continues where it stopped. *)
Lemma parse_spec_app parser q e :
  parser_wf parser -> Forall is_byte q ->
  let '(res, parser', q', out) := parse_spec mem_ok parser q in
  parse_spec mem_ok parser (q ++ e)
  = match res with
    | VR_EMPTY => parse_spec mem_ok parser' (q' ++ e)
    | _ => (res, parser', q' ++ e, out)
    end.
Proof.
  intros Hp Hq. pose proof sizeof_header_range.
  assert (Hpay : forall h q, 0 <= h_payload_len h ->
    let '(res, parser', q', out) := spec_payload mem_ok (ParserSt VR_PARSER_PAYLOAD_WAIT h) q in
    spec_payload mem_ok (ParserSt VR_PARSER_PAYLOAD_WAIT h) (q ++ e)
    = match res with
      | VR_EMPTY => parse_spec mem_ok parser' (q' ++ e)
      | _ => (res, parser', q' ++ e, out)
      end).
  { clear. intros h q Hl. pose proof (spec_payload_app (ParserSt VR_PARSER_PAYLOAD_WAIT h) q e Hl) as E.
    unfold spec_payload at 1 in E. unfold spec_payload at 1. simpl in *.
    destruct (zlen q <? h_payload_len h); [done|]. exact E. }
  unfold parse_spec at 1. destruct parser as [[] h] eqn:Ep; cbn [ps_state].
  2:{ pose proof (Hpay h q) as E. unfold parser_wf in Hp. simpl in Hp.
      unfold parse_spec at 1. cbn [ps_state]. apply E. lia. }
  bdestruct_test; [done|]. unfold parse_spec at 1. cbn [ps_state].
  rewrite zlen_app. pose proof (zlen_nonneg e). settle_tests.
  rewrite header_of_bytes_app by (unfold zlen in *; lia).
  rewrite drop_app_le by (unfold zlen in *; lia).
  destruct (header_valid (header_of_bytes q)); [|done].
  destruct (h_payload_len (header_of_bytes q) =? 0) eqn:E0; [done|]. apply Hpay.
  destruct (header_of_bytes_spec q) as [[] _]; [unfold zlen in *; lia|done|]. lia.
Qed.

End SpecFacts.

(** ** The ring buffer keeps the promises *)

#[global] Instance ring_reads : RingReads vr_connection_ring_buf_t := {
  rr_size := vr_conn_ring_buf_size;
  rr_contiguous_read := vr_conn_ring_buf_contiguous_read;
  rr_block := fun b => deref (rb_data b);
  rr_peek_n := vr_conn_ring_buf_peek_n;
  rr_consume := vr_conn_ring_buf_consume;
  rr_wf := ring_wf;
  rr_bytes := ring_contents;
  rr_owned := fun b => owned (rb_data b)
}.

#[global] Instance ring_reads_ok : RingReadsOk vr_connection_ring_buf_t.
Proof.
  constructor; cbn [rr_wf rr_bytes rr_size rr_contiguous_read rr_block rr_peek_n rr_consume
    rr_owned ring_reads].
  - apply ring_contents_bytes.
  - intros b Hb. by rewrite ring_contents_length.
  - intros b Hb Hl. rewrite ring_contents_length in * by done.
    pose proof (region_read b (Z.min (rb_count b) (rb_capacity b - rb_read_pos b)) Hb) as Hrr.
    rewrite contiguous_read_spec by done. ring_open Hb; [lia|].
    specialize (Hrr ltac:(lia) ltac:(lia)). ring_simpl. rewrite slice_ok in Hrr by lia.
    injection Hrr as Hrr. do 3 eexists. split; [reflexivity|]. split; [reflexivity|].
    split_and!; try done; lia.
  - intros b len Hb Hl. rewrite ring_contents_length in Hl by done.
    rewrite peek_n_spec by (done || lia). by settle_tests.
  - intros b n Hb Hl. rewrite ring_contents_length in Hl by done.
    pose proof (ring_wf_count b Hb).
    pose proof (consume_spec b n Hb ltac:(lia) ltac:(lia)) as Hc. revert Hc. settle_tests.
    intros (b' & -> & ? & ? & _ & Hd). exists b'. rewrite Hd. done.
Qed.

(** ** Streams of packets *)

Section Streams.
Context {R : Type} `{RingReads R} `{Libc} `{Abi}.

(** Poll until the parser reports something else than a packet, as
    [reactor_process_packets] does, and collect the packets. *)
Fixpoint poll_all (fuel : nat) (parser : vr_parser_t) (r : R) (p : proc)
    : outcome (list vr_packet_t * vr_result_t * vr_parser_t * R * proc) :=
  match fuel with
  | O => NoFuel
  | S fuel =>
      '(res, parser, r, out, p) ← vr_parser_poll parser r zeroed_packet p;
      match res with
      | VR_SUCCESS =>
          '(pks, res, parser, r, p) ← poll_all fuel parser r p;
          Ok (out :: pks, res, parser, r, p)
      | _ => Ok ([], res, parser, r, p)
      end
  end.

(** A packet costs at least a byte, so this many turns are enough. *)
Definition poll_fuel (r : R) : nat := S (length (rr_bytes r)).

Fixpoint stream_spec (fuel : nat) (parser : vr_parser_t) (q : list Z)
    : list vr_packet_t * vr_result_t * vr_parser_t * list Z :=
  match fuel with
  | O => ([], VR_INTERRUPTED, parser, q)
  | S fuel =>
      let '(res, parser, q, out) := parse_spec mem_ok parser q in
      match res with
      | VR_SUCCESS =>
          let '(pks, res, parser, q) := stream_spec fuel parser q in
          (out :: pks, res, parser, q)
      | _ => ([], res, parser, q)
      end
  end.

End Streams.

Section StreamFacts.
Context {R : Type} `{RingReadsOk R} `{Libc} `{Abi}.
Hypothesis alloc_total : forall n, allocates n.

Lemma parse_next_alloc_total p parser q :
  parse_spec (next_alloc p) parser q = parse_spec mem_ok parser q.
Proof.
  apply parse_spec_ext. intros n. unfold next_alloc, mem_ok.
  pose proof (alloc_total n (p_next p)). by case_match.
Qed.

Lemma poll_all_refines fuel parser (r : R) p :
  rr_wf r -> parser_wf parser -> (length (rr_bytes r) < fuel)%nat ->
  exists r' p',
    let '(pks, res, parser', q') := stream_spec fuel parser (rr_bytes r) in
    poll_all fuel parser r p = Ok (pks, res, parser', r', p') /\
    rr_wf r' /\ rr_bytes r' = q' /\ parser_wf parser'.
Proof.
  revert parser r p. induction fuel as [|fuel IH]; intros parser r p Hr Hp Hf; [lia|].
  cbn [stream_spec poll_all]. destruct (poll_refines parser r p Hr Hp) as (r1 & p1 & Hpoll).
  rewrite parse_next_alloc_total in Hpoll.
  pose proof (parse_spec_wf mem_ok parser (rr_bytes r) (rr_bytes_ok r Hr) Hp) as Hwf.
  pose proof (parse_spec_consumes mem_ok parser (rr_bytes r) Hp) as Hcons.
  destruct (parse_spec mem_ok parser (rr_bytes r)) as [[[res parser1] q1] out].
  destruct Hpoll as (-> & Hr1 & Hq1 & _ & _), Hwf as (Hp1 & _ & _), Hcons as (_ & Hlt & _).
  ostep. destruct res; try (by do 2 eexists; split_and!).
  specialize (Hlt eq_refl). subst q1.
  destruct (IH parser1 r1 p1 Hr1 Hp1) as (r2 & p2 & IH'); [unfold zlen in *; lia|].
  destruct (stream_spec fuel parser1 (rr_bytes r1)) as [[[pks res] parser2] q2].
  destruct IH' as (-> & ? & ? & ?). ostep. by do 2 eexists; split_and!.
Qed.

(** One poll of the specification, with what the stream lemmas need of it. *)
Lemma parse_spec_step parser q :
  parser_wf parser -> Forall is_byte q ->
  let '(res, parser', q', out) := parse_spec mem_ok parser q in
  parser_wf parser' /\ Forall is_byte q' /\ (length q' <= length q)%nat /\
  (res = VR_SUCCESS -> (length q' < length q)%nat).
Proof.
  intros Hp Hq. pose proof (parse_spec_wf mem_ok parser q Hq Hp) as Hwf.
  pose proof (parse_spec_consumes mem_ok parser q Hp) as Hcons.
  destruct (parse_spec mem_ok parser q) as [[[res parser'] q'] out].
  destruct Hwf as (? & ? & _), Hcons as (? & Hlt & _). unfold zlen in *.
  split_and!; try done; [lia|]. intros E. specialize (Hlt E). lia.
Qed.

Lemma stream_spec_fuel f f' parser q :
  parser_wf parser -> Forall is_byte q -> (length q < f)%nat -> (length q < f')%nat ->
  stream_spec f parser q = stream_spec f' parser q.
Proof.
  revert f' parser q. induction f as [|f IH]; intros f' parser q Hp Hq Hf Hf'; [lia|].
  destruct f' as [|f']; [lia|]. cbn [stream_spec].
  pose proof (parse_spec_step parser q Hp Hq) as Hs.
  destruct (parse_spec mem_ok parser q) as [[[res parser'] q'] out].
  destruct Hs as (? & ? & _ & Hlt). destruct res; try done. specialize (Hlt eq_refl).
  by rewrite (IH f' parser' q') by (done || lia).
Qed.

Lemma stream_spec_app fuel1 parser q e :
  parser_wf parser -> Forall is_byte q -> Forall is_byte e -> (length q < fuel1)%nat ->
  let '(pks1, res1, parser1, q1) := stream_spec fuel1 parser q in
  res1 = VR_EMPTY ->
  forall fuel2 fuel12, (length (q1 ++ e) < fuel2)%nat -> (length (q ++ e) < fuel12)%nat ->
  let '(pks2, res2, parser2, q2) := stream_spec fuel2 parser1 (q1 ++ e) in
  stream_spec fuel12 parser (q ++ e) = (pks1 ++ pks2, res2, parser2, q2).
Proof.
  revert parser q. induction fuel1 as [|f IH]; intros parser q Hp Hq He Hf; [lia|].
  cbn [stream_spec]. pose proof (parse_spec_step parser q Hp Hq) as Hs.
  pose proof (parse_spec_app parser q e Hp Hq) as Happ.
  destruct (parse_spec mem_ok parser q) as [[[res parser'] q'] out].
  destruct Hs as (Hp' & Hq' & Hle & Hlt). destruct res; try done.
  - specialize (Hlt eq_refl). specialize (IH parser' q' Hp' Hq' He ltac:(lia)).
    destruct (stream_spec f parser' q') as [[[pks1 res1] parser1] q1].
    intros E fuel2 fuel12 Hf2 Hf12. specialize (IH E fuel2 (pred fuel12) Hf2).
    destruct fuel12 as [|f12]; [lia|]. cbn [stream_spec pred] in *. rewrite Happ.
    rewrite length_app in Hf12, IH. specialize (IH ltac:(lia)).
    destruct (stream_spec fuel2 parser1 (q1 ++ e)) as [[[pks2 res2] parser2] q2].
    by rewrite IH.
  - intros _ fuel2 fuel12 Hf2 Hf12. rewrite length_app in Hf12.
    assert (stream_spec fuel12 parser (q ++ e) = stream_spec fuel2 parser' (q' ++ e)) as ->.
    { rewrite (stream_spec_fuel fuel2 fuel12); [|done|by apply Forall_app|done|
        rewrite length_app; lia].
      destruct fuel12 as [|f12]; [lia|]. cbn [stream_spec]. by rewrite Happ. }
    by destruct (stream_spec fuel2 parser' (q' ++ e)) as [[[? ?] ?] ?].
Qed.
End StreamFacts.

(** ** Properties *)

(** C5. On every branch the parser does to the connection's ring exactly what
    [parse_spec] does to the queued bytes: same result, same parser state, same
    packet, same bytes left.  Neither the position of the bytes in the ring nor
    the choice between the contiguous and the wrapped path is observable; there
    is no undefined behaviour; and the only block that changes hands is the
    emitted payload. *)
Theorem parser_refines_spec `{Libc} `{Abi} parser (b : vr_connection_ring_buf_t) p :
  ring_wf b -> parser_wf parser ->
  exists b' p',
    let '(res, parser', q', out) := parse_spec (next_alloc p) parser (ring_contents b) in
    vr_parser_poll parser b zeroed_packet p = Ok (res, parser', b', out, p') /\
    ring_wf b' /\ ring_contents b' = q' /\ parser_wf parser' /\
    owned (rb_data b') = owned (rb_data b) /\
    p_live p' = p_live p + owned (pk_payload out).
Proof.
  intros Hb Hp. destruct (@poll_refines _ ring_reads ring_reads_ok _ _ parser b p Hb Hp)
    as (b' & p' & Hpoll).
  pose proof (parse_spec_wf (next_alloc p) parser _ (ring_contents_bytes b Hb) Hp) as Hwf.
  exists b', p'. change (rr_bytes b) with (ring_contents b) in *.
  destruct (parse_spec _ parser (ring_contents b)) as [[[? ?] ?] ?].
  by destruct Hpoll as (? & ? & ? & ? & ?), Hwf as (? & _).
Qed.

Lemma parser_refines_spec_witness :
  let bs := header_bytes (Header VR_MAGIC 1 8 5 0 3) ++ [0; 0; 0; 0; 1; 2; 3; 9] in
  exists b' p',
    let '(res, parser', q', out) :=
      @parse_spec gcc_abi (@next_alloc (libc_fill 0) proc0) zeroed_parser
        (ring_contents (ring_at bs 4090)) in
    @vr_parser_poll _ ring_reads (libc_fill 0) gcc_abi zeroed_parser (ring_at bs 4090)
      zeroed_packet proc0 = Ok (res, parser', b', out, p') /\
    ring_wf b' /\ ring_contents b' = q' /\ parser_wf parser' /\
    owned (rb_data b') = owned (rb_data (ring_at bs 4090)) /\
    p_live p' = p_live proc0 + owned (pk_payload out).
Proof.
  intros bs. apply (@parser_refines_spec (libc_fill 0) gcc_abi).
  - apply ring_at_spec; [vm_compute; discriminate|lia|].
    solve_bytes.
  - done.
Defined.

(** The pure parser on the bytes of a valid packet. *)
Lemma parse_spec_packet `{Abi} mem h payload pad rest :
  header_fits h -> header_valid h = true ->
  zlen payload = h_payload_len h -> zlen pad = sizeof_vr_packet_header_t - 8 ->
  mem (h_payload_len h) = true ->
  parse_spec mem zeroed_parser (header_bytes h ++ pad ++ payload ++ rest)
  = (VR_SUCCESS, zeroed_parser, rest,
     Packet h (if h_payload_len h =? 0 then None else Some payload)).
Proof.
  intros Hf Hv Hpl Hpad Hmem.
  unfold parse_spec. cbn [ps_state zeroed_parser]. pose proof sizeof_header_range as Hsz.
  revert Hsz Hpad. generalize sizeof_vr_packet_header_t. intros sz Hsz Hpad.
  pose proof (header_bytes_length h) as Hhl. pose proof (hf_payload_len h Hf) as Hlen.
  rewrite !zlen_app. pose proof (zlen_nonneg rest).
  replace (zlen (header_bytes h)) with 8 by (unfold zlen; rewrite Hhl; done).
  settle_tests. rewrite header_of_bytes_app, header_of_bytes_bytes by (done || lia).
  rewrite Hv, app_assoc, drop_app_length' by (rewrite length_app; unfold zlen in *; lia).
  destruct (Z.eqb_spec (h_payload_len h) 0) as [E|E].
  { destruct payload; [done|unfold zlen in *; simpl in *; lia]. }
  unfold spec_payload. cbn [ps_header]. rewrite Hmem, zlen_app, Hpl. settle_tests.
  by rewrite take_app_length', drop_app_length' by (unfold zlen in *; lia).
Qed.

(** Wire round trip.  A ring that starts with the wire form of a valid
    packet, in which the payload follows the header at the distance
    [sizeof(vr_packet_header_t)], is parsed to that packet, and exactly the bytes
    behind it are left. *)
Lemma parser_roundtrip `{Libc} `{Abi} h payload pad rest (b : vr_connection_ring_buf_t) p :
  ring_wf b -> header_fits h -> header_valid h = true ->
  zlen payload = h_payload_len h -> zlen pad = sizeof_vr_packet_header_t - 8 ->
  ring_contents b = header_bytes h ++ pad ++ payload ++ rest ->
  allocates (h_payload_len h) ->
  exists b' p',
    vr_parser_poll zeroed_parser b zeroed_packet p
    = Ok (VR_SUCCESS, zeroed_parser, b',
          Packet h (if h_payload_len h =? 0 then None else Some payload), p') /\
    ring_wf b' /\ ring_contents b' = rest.
Proof.
  intros Hb Hf Hv Hpl Hpad Hq Ha.
  destruct (@poll_refines _ ring_reads ring_reads_ok _ _ zeroed_parser b p Hb I)
    as (b' & p' & Hpoll). exists b', p'. revert Hpoll.
  change (rr_bytes b) with (ring_contents b). rewrite Hq, parse_spec_packet; try done.
  - by intros (-> & ? & ? & _).
  - unfold next_alloc. specialize (Ha (p_next p)). by case_match.
Qed.

Lemma parser_roundtrip_witness :
  let h := Header VR_MAGIC 1 8 5 1 3 in
  exists b' p',
    @vr_parser_poll _ ring_reads (libc_fill 0) gcc_abi zeroed_parser
      (ring_at (header_bytes h ++ [0; 0; 0; 0] ++ [1; 2; 3] ++ [77]) 4094) zeroed_packet proc0
    = Ok (VR_SUCCESS, zeroed_parser, b', Packet h (Some [1; 2; 3]), p') /\
    ring_wf b' /\ ring_contents b' = [77].
Proof.
  intros h.
  assert (Hr : ring_wf (ring_at (header_bytes h ++ [0; 0; 0; 0] ++ [1; 2; 3] ++ [77]) 4094) /\
    ring_contents (ring_at (header_bytes h ++ [0; 0; 0; 0] ++ [1; 2; 3] ++ [77]) 4094)
    = header_bytes h ++ [0; 0; 0; 0] ++ [1; 2; 3] ++ [77]).
  { apply ring_at_spec; [vm_compute; discriminate|lia|].
    solve_bytes. }
  destruct Hr as [Hw Hc].
  apply (@parser_roundtrip (libc_fill 0) gcc_abi h [1; 2; 3] [0; 0; 0; 0] [77]);
    [exact Hw| |done|done|vm_compute; reflexivity|exact Hc|done].
  constructor; vm_compute; intuition discriminate.
Defined.

(** C24. Fragmentation does not matter.  When the allocator does not fail,
    polling a ring finishes within its fuel; and when it ended because the rest is
    no whole packet (it did not meet an invalid header), polling again after more
    bytes have arrived yields the packets, the result and the parser state that
    one pass over all the bytes yields, both within their fuel. *)
Theorem fragmentation_invariant `{Libc} `{Abi} parser (b b12 : vr_connection_ring_buf_t) e p p12 :
  (forall n, allocates n) -> parser_wf parser -> ring_wf b -> ring_wf b12 ->
  ring_contents b12 = ring_contents b ++ e ->
  exists pks1 res1 parser1 b1 p1,
    poll_all (poll_fuel b) parser b p = Ok (pks1, res1, parser1, b1, p1) /\
    (res1 = VR_EMPTY -> forall b2 p2, ring_wf b2 -> ring_contents b2 = ring_contents b1 ++ e ->
     exists pks2 res2 parser2 b2' p2' b12' p12',
       poll_all (poll_fuel b2) parser1 b2 p2 = Ok (pks2, res2, parser2, b2', p2') /\
       poll_all (poll_fuel b12) parser b12 p12 = Ok (pks1 ++ pks2, res2, parser2, b12', p12') /\
       ring_contents b12' = ring_contents b2').
Proof.
  intros Ha Hp Hb Hb12 Hq12. pose proof (ring_contents_bytes b12 Hb12) as He.
  rewrite Hq12 in He. apply Forall_app in He as [Hbs He].
  assert (Hall : forall parser b p, ring_wf b -> parser_wf parser -> exists b' p',
    let '(pks, res, parser', q') := stream_spec (poll_fuel b) parser (ring_contents b) in
    poll_all (poll_fuel b) parser b p = Ok (pks, res, parser', b', p') /\
    ring_wf b' /\ ring_contents b' = q' /\ parser_wf parser').
  { intros. apply (@poll_all_refines _ ring_reads ring_reads_ok); try done.
    unfold poll_fuel. lia. }
  destruct (Hall parser b p Hb Hp) as (b1 & p1 & H1).
  assert (Hf1 : (length (ring_contents b) < poll_fuel b)%nat) by (unfold poll_fuel; simpl; lia).
  pose proof (stream_spec_app _ parser _ e Hp Hbs He Hf1) as Happ.
  destruct (stream_spec (poll_fuel b) parser (ring_contents b)) as [[[pks1 res1] parser1] q1].
  destruct H1 as (H1 & _ & Hq1 & Hp1). exists pks1, res1, parser1, b1, p1. split; [done|].
  intros E b2 p2 Hb2 Hq2. specialize (Happ E (poll_fuel b2) (poll_fuel b12)).
  rewrite Hq1 in Hq2.
  assert (Hf2 : (length (q1 ++ e) < poll_fuel b2)%nat)
    by (unfold poll_fuel; simpl; rewrite Hq2; lia).
  assert (Hf12 : (length (ring_contents b ++ e) < poll_fuel b12)%nat)
    by (unfold poll_fuel; simpl; rewrite Hq12; lia).
  specialize (Happ Hf2 Hf12).
  destruct (Hall parser1 b2 p2 Hb2 Hp1) as (b2' & p2' & H2).
  destruct (Hall parser b12 p12 Hb12 Hp) as (b12' & p12' & H12).
  rewrite Hq2 in H2. rewrite Hq12 in H12.
  destruct (stream_spec (poll_fuel b2) parser1 (q1 ++ e)) as [[[pks2 res2] parser2] q2].
  rewrite Happ in H12. destruct H2 as (-> & _ & Hc2 & _), H12 as (-> & _ & Hc12 & _).
  exists pks2, res2, parser2, b2', p2', b12', p12'. split_and!; try done.
  congruence.
Qed.

Lemma fragmentation_invariant_witness :
  let h := Header VR_MAGIC 1 8 5 0 3 in
  let q := header_bytes h ++ [0; 0; 0; 0; 1] in
  exists pks1 res1 parser1 b1 p1,
    @poll_all _ ring_reads (libc_fill 0) gcc_abi (poll_fuel (ring_at q 4090)) zeroed_parser
      (ring_at q 4090) proc0 = Ok (pks1, res1, parser1, b1, p1) /\
    (res1 = VR_EMPTY -> forall b2 p2, ring_wf b2 -> ring_contents b2 = ring_contents b1 ++ [2; 3] ->
     exists pks2 res2 parser2 b2' p2' b12' p12',
       @poll_all _ ring_reads (libc_fill 0) gcc_abi (poll_fuel b2) parser1 b2 p2
       = Ok (pks2, res2, parser2, b2', p2') /\
       @poll_all _ ring_reads (libc_fill 0) gcc_abi (poll_fuel (ring_at (q ++ [2; 3]) 7))
         zeroed_parser (ring_at (q ++ [2; 3]) 7) proc0
       = Ok (pks1 ++ pks2, res2, parser2, b12', p12') /\
       ring_contents b12' = ring_contents b2').
Proof.
  intros h q.
  assert (H1 : ring_wf (ring_at q 4090) /\ ring_contents (ring_at q 4090) = q).
  { apply ring_at_spec; [vm_compute; discriminate|lia|].
    solve_bytes. }
  assert (H2 : ring_wf (ring_at (q ++ [2; 3]) 7) /\
    ring_contents (ring_at (q ++ [2; 3]) 7) = q ++ [2; 3]).
  { apply ring_at_spec; [vm_compute; discriminate|lia|].
    solve_bytes. }
  destruct H1 as [Hw1 Hc1], H2 as [Hw2 Hc2].
  apply (@fragmentation_invariant (libc_fill 0) gcc_abi zeroed_parser
    (ring_at q 4090) (ring_at (q ++ [2; 3]) 7) [2; 3] proc0 proc0); try done.
Defined.

Lemma header_valid_spec h :
  header_fits h -> header_valid h = true ->
  h_magic h = VR_MAGIC /\ h_version h = VR_PROTOCOL_VERSION /\ 0 <= h_type h <= 9 /\
  0 <= h_flags h <= VR_PACKET_VALID_FLAGS.
Proof.
  intros [_ _ Ht _ Hf _]. unfold header_valid, is_byte in *. simpl.
  destruct (Z.eqb_spec (h_magic h) VR_MAGIC); [|by repeat case_match].
  destruct (Z.eqb_spec (h_version h) VR_PROTOCOL_VERSION); [|by repeat case_match].
  destruct (Z.ltb_spec 9 (h_type h)); [by repeat case_match|].
  destruct (Z.eqb_spec (Z.land (h_flags h) (Z.lnot VR_PACKET_VALID_FLAGS)) 0) as [E|];
    [|done]. intros _. split_and!; try done; try lia.
  pose proof (Z.land_lnot_diag VR_PACKET_VALID_FLAGS).
  assert (Hm : h_flags h = Z.land (h_flags h) VR_PACKET_VALID_FLAGS).
  { apply Z.bits_inj'. intros n Hn. apply (f_equal (fun z => Z.testbit z n)) in E.
    rewrite Z.land_spec, Z.lnot_spec, Z.bits_0 in E by done. rewrite Z.land_spec.
    destruct (Z.testbit (h_flags h) n), (Z.testbit VR_PACKET_VALID_FLAGS n); done. }
  rewrite Hm. change VR_PACKET_VALID_FLAGS with (Z.ones 2). rewrite Z.land_ones by lia.
  change (2 ^ 2) with 4. change (Z.ones 2) with 3. pose proof (Z.mod_pos_bound (h_flags h) 4).
  lia.
Qed.

(** Malformed headers never become packets: a packet the parser emits has
    the magic number, the protocol version, a type of at most [VR_PKT_ERROR], no
    unknown flag, and a payload block of exactly the announced length (none for
    a length of zero). *)
Lemma parser_emits_valid `{Libc} `{Abi} parser (b b' : vr_connection_ring_buf_t) p parser' out p' :
  ring_wf b -> parser_wf parser ->
  vr_parser_poll parser b zeroed_packet p = Ok (VR_SUCCESS, parser', b', out, p') ->
  let h := pk_header out in
  h_magic h = VR_MAGIC /\ h_version h = VR_PROTOCOL_VERSION /\
  0 <= h_type h <= pkt_int VR_PKT_ERROR /\ 0 <= h_flags h <= VR_PACKET_VALID_FLAGS /\
  zlen (payload_bytes out) = h_payload_len h /\
  owned (pk_payload out) = (if h_payload_len h =? 0 then 0 else 1).
Proof.
  intros Hb Hp Hpoll.
  destruct (@poll_refines _ ring_reads ring_reads_ok _ _ parser b p Hb Hp) as (b1 & p1 & Href).
  pose proof (parse_spec_wf (next_alloc p) parser _ (ring_contents_bytes b Hb) Hp) as Hwf.
  change (rr_bytes b) with (ring_contents b) in Href.
  destruct (parse_spec _ parser (ring_contents b)) as [[[res ?] ?] out1].
  destruct Href as (Href & _). rewrite Href in Hpoll. injection Hpoll as -> -> -> -> ->.
  destruct Hwf as (_ & _ & Hwf). destruct (Hwf eq_refl) as (Hf & Hv & Hl & Ho).
  destruct (header_valid_spec _ Hf Hv) as (? & ? & ? & ?). simpl. done.
Qed.

(** The header the protocol documents is 8 bytes; the parser waits for
    [sizeof(vr_packet_header_t)], and with gcc's 4-byte enum that is 12.  So the
    complete 8-byte wire form of a packet without payload stays unparsed in the
    ring, whereas an ABI with 1-byte enums parses it. *)
Lemma wire_header_not_parsed `{Libc} h (b : vr_connection_ring_buf_t) p :
  header_fits h -> header_valid h = true -> h_payload_len h = 0 ->
  ring_wf b -> ring_contents b = header_bytes h ->
  @vr_parser_poll _ ring_reads _ gcc_abi zeroed_parser b zeroed_packet p
  = Ok (VR_EMPTY, zeroed_parser, b, zeroed_packet, p) /\
  exists b' p', @vr_parser_poll _ ring_reads _ short_enums_abi zeroed_parser b zeroed_packet p
    = Ok (VR_SUCCESS, zeroed_parser, b', Packet h None, p') /\ ring_contents b' = [].
Proof.
  intros Hf Hv Hl Hb Hq. split.
  - unfold vr_parser_poll. cbn [ps_state zeroed_parser rr_size ring_reads].
    unfold vr_conn_ring_buf_size. rewrite <-ring_contents_length, Hq by done.
    unfold zlen. rewrite header_bytes_length. vm_compute. reflexivity.
  - destruct (@poll_refines _ ring_reads ring_reads_ok _ short_enums_abi zeroed_parser b p Hb I)
      as (b' & p' & Hpoll). exists b', p'. revert Hpoll.
    change (rr_bytes b) with (ring_contents b). rewrite Hq. unfold parse_spec.
    cbn [ps_state zeroed_parser].
    replace (@sizeof_vr_packet_header_t short_enums_abi) with 8 by (vm_compute; reflexivity).
    unfold zlen. rewrite header_bytes_length. simpl Z.of_nat.
    replace (8 <? 8) with false by done.
    rewrite header_of_bytes_bytes, Hv, Hl by done. simpl. by intros (-> & _ & ? & _).
Qed.

Lemma wire_header_not_parsed_witness :
  let h := Header VR_MAGIC 1 (pkt_int VR_PKT_CONNECT) 0 0 0 in
  let b := ring_at (header_bytes h) 0 in
  @vr_parser_poll _ ring_reads (libc_fill 0) gcc_abi zeroed_parser b zeroed_packet proc0
  = Ok (VR_EMPTY, zeroed_parser, b, zeroed_packet, proc0) /\
  exists b' p',
    @vr_parser_poll _ ring_reads (libc_fill 0) short_enums_abi zeroed_parser b zeroed_packet proc0
    = Ok (VR_SUCCESS, zeroed_parser, b', Packet h None, p') /\ ring_contents b' = [].
Proof.
  intros h b.
  assert (Hr : ring_wf b /\ ring_contents b = header_bytes h).
  { apply ring_at_spec; [vm_compute; discriminate|lia|].
    solve_bytes. }
  destruct Hr. apply (@wire_header_not_parsed (libc_fill 0) h b proc0); try done.
Defined.
