(* ===== verification/Protocol.v ===== *)
(** * Protocol: src/protocol/protocol.c

    The server side of the protocol state machine and the stream bookkeeping of
    a connection.  [vr_proto] groups the members of [vr_connection_t] the handler
    reads and writes.  The bitmap is related to the set of open stream ids
    ([stream_bit]); the theorems say which id [STREAM_OPEN] hands out, what the
    8-bit [active_streams] counts, and what every response looks like. *)

From S2P Require Import Prelude Core Packet.
#[local] Open Scope Z_scope.

Inductive vr_protocol_state_t :=
| VR_PROTO_INIT
| VR_PROTO_CONNECTING
| VR_PROTO_ESTABILISHED
| VR_PROTO_CLOSED.

#[global] Instance vr_protocol_state_t_eq_dec : EqDecision vr_protocol_state_t.
Proof. solve_decision. Defined.

(** [proto_state], [active_streams] (uint8_t) and [streams_bitmap] (uint64_t[4]). *)
Record vr_proto := Proto {
  pc_state : vr_protocol_state_t;
  pc_active : Z;
  pc_bitmap : list Z
}.

(** The all-zero struct of a new connection. *)
Definition zeroed_proto : vr_proto := Proto VR_PROTO_INIT 0 [0; 0; 0; 0].

Definition ULLONG_MAX : Z := 18446744073709551615.

(** [__builtin_ctzll(x)]: the number of trailing zero bits of a nonzero [x]. *)
Fixpoint ctz_from (fuel : nat) (x i : Z) : outcome Z :=
  match fuel with
  | O => Undef
  | S fuel => if Z.testbit x i then Ok i else ctz_from fuel x (i + 1)
  end.
Definition ctzll (x : Z) : outcome Z := ctz_from 64 x 0.

(** The [for] loop of [STREAM_OPEN] with [todo] words to go: the index of the
    first clear bit of the first word that is not full and that word's number,
    or [(uint64_t)-1] when all words are full. *)
Fixpoint scan_bitmap (todo : nat) (bitmap : list Z) (offset : Z) : outcome (Z * Z) :=
  match todo with
  | O => Ok (u64 (-1), offset)
  | S todo =>
      w ← load bitmap offset;
      if w =? ULLONG_MAX then scan_bitmap todo bitmap (offset + 1)
      else idx ← ctzll (u64 (Z.lnot w)); Ok (idx, offset)
  end.

Section Handler.
Context `{Libc} `{Abi}.

(** [response = calloc(1, sizeof(vr_packet_t))] followed by a store through
    [response]: the result is not tested. *)
Definition calloc_response (p : proc) : outcome proc :=
  let '(ok, p) := alloc_obj sizeof_vr_packet_t p in if ok then Ok p else Undef.

Definition respond (type stream_id : Z) : option vr_packet_t :=
  Some (Packet (Header VR_MAGIC VR_PROTOCOL_VERSION type stream_id VR_FLAG_NONE 0) None).

(** The [VR_PROTO_ESTABILISHED] case. *)
Definition handle_established (c : vr_proto) (pkt : vr_packet_header_t) (p : proc)
    : outcome (option vr_packet_t * vr_proto * proc) :=
  p ← calloc_response p;
  let release p := free (Some tt) p in
  match pkt_of_int (h_type pkt) with
  | Some VR_PKT_PING => Ok (respond (pkt_int VR_PKT_PONG) (h_stream_id pkt), c, p)
  | Some VR_PKT_STREAM_OPEN =>
      '(idx, offset) ← scan_bitmap 4 (pc_bitmap c) 0;
      if idx =? u64 (-1)
      then Ok (respond (pkt_int VR_PKT_ERROR) (h_stream_id pkt), c, p)
      else
        w ← load (pc_bitmap c) offset;
        bitmap ← store (pc_bitmap c) offset (Z.lor w (u64 (Z.shiftl 1 idx)));
        Ok (respond (pkt_int VR_PKT_STREAM_OPEN_ACK) (u8 (64 * offset + idx)),
            Proto (pc_state c) (u8 (pc_active c + 1)) bitmap, p)
  | Some VR_PKT_STREAM_CLOSE =>
      let bitmap_idx := h_stream_id pkt / 64 in
      let bitmap_offset := h_stream_id pkt mod 64 in
      let bit_neg := u64 (Z.shiftl 1 bitmap_offset) in
      w ← load (pc_bitmap c) bitmap_idx;
      bitmap ← store (pc_bitmap c) bitmap_idx (Z.land w (u64 (Z.lnot bit_neg)));
      let active := u8 (pc_active c - 1) in
      if active =? 0
      then Ok (None, Proto VR_PROTO_CLOSED active bitmap, release p)
      else (* the type is never assigned: it keeps calloc's zero *)
           Ok (respond 0 (h_stream_id pkt), Proto (pc_state c) active bitmap, p)
  | Some VR_PKT_PUBLISH => Ok (None, c, release p)
  | Some VR_PKT_ERROR => Ok (None, c, release p)
  | _ => Ok (respond (pkt_int VR_PKT_ERROR) (h_stream_id pkt), c, p)
  end.

(** The [switch] on [conn->proto_state]. *)
Definition handle_packet (c : vr_proto) (pkt : vr_packet_t) (p : proc)
    : outcome (option vr_packet_t * vr_proto * proc) :=
  match pc_state c with
  | VR_PROTO_INIT =>
      if h_type (pk_header pkt) =? pkt_int VR_PKT_CONNECT then
        p ← calloc_response p;
        w ← load (pc_bitmap c) 0;
        bitmap ← store (pc_bitmap c) 0 (Z.lor w 1);
        Ok (respond (pkt_int VR_PKT_CONNECT_ACK) 0, Proto VR_PROTO_ESTABILISHED 1 bitmap, p)
      else Ok (None, c, p)
  | VR_PROTO_CONNECTING =>
      if h_type (pk_header pkt) =? pkt_int VR_PKT_CONNECT_ACK
      then Ok (None, Proto VR_PROTO_ESTABILISHED (pc_active c) (pc_bitmap c), p)
      else Ok (None, c, p)
  | VR_PROTO_ESTABILISHED => handle_established c (pk_header pkt) p
  | VR_PROTO_CLOSED => Ok (None, Proto VR_PROTO_INIT (pc_active c) (pc_bitmap c), p)
  end.

(** The whole function: [conn] and [pkt] are pointers and may be NULL. *)
Definition vr_protocol_handle_packet (conn : option vr_proto) (pkt : option vr_packet_t)
    (p : proc) : outcome (option vr_packet_t * option vr_proto * proc) :=
  match conn, pkt with
  | Some c, Some k =>
      '(response, c, p) ← handle_packet c k p;
      Ok (response, Some c, p)
  | _, _ => Ok (None, conn, p)
  end.

End Handler.

(** ** The streams a bitmap stands for *)

Definition stream_bit (bitmap : list Z) (sid : Z) : bool :=
  Z.testbit (nth (Z.to_nat (sid / 64)) bitmap 0) (sid mod 64).

(** The bitmap is an array of four uint64_t. *)
Definition bitmap_wf (bitmap : list Z) : Prop :=
  length bitmap = 4%nat /\ Forall (fun w => 0 <= w < 2 ^ 64) bitmap.

Definition stream_ids : list Z := seqZ 0 256.

(** ** Facts about words and bits *)

Lemma testbit_u64 z i : 0 <= i < 64 -> Z.testbit (u64 z) i = Z.testbit z i.
Proof. intros. apply (Z.mod_pow2_bits_low z 64 i). lia. Qed.

Lemma u64_range z : 0 <= u64 z < 2 ^ 64.
Proof. apply Z.mod_pos_bound. lia. Qed.

Lemma word_full w :
  0 <= w < 2 ^ 64 -> (forall i, 0 <= i < 64 -> Z.testbit w i = true) -> w = ULLONG_MAX.
Proof.
  intros Hw Hi. change ULLONG_MAX with (Z.ones 64). apply Z.bits_inj'. intros n Hn.
  rewrite Z.testbit_ones_nonneg by lia. destruct (Z.ltb_spec n 64); [auto|].
  rewrite <-(Z.mod_small w (2 ^ 64)) by done. by apply Z.mod_pow2_bits_high.
Qed.

Lemma ullong_max_bit i : 0 <= i < 64 -> Z.testbit ULLONG_MAX i = true.
Proof.
  intros. change ULLONG_MAX with (Z.ones 64). rewrite Z.testbit_ones_nonneg by lia. lia.
Qed.

Lemma ctz_from_spec fuel x i :
  0 <= i -> (exists k, i <= k < i + Z.of_nat fuel /\ Z.testbit x k = true) ->
  exists k, ctz_from fuel x i = Ok k /\ i <= k < i + Z.of_nat fuel /\
    Z.testbit x k = true /\ forall j, i <= j < k -> Z.testbit x j = false.
Proof.
  revert i. induction fuel as [|fuel IH]; intros i Hi (k & Hk & Hb); [lia|]. cbn [ctz_from].
  destruct (Z.testbit x i) eqn:E.
  { exists i. split_and!; try done; lia. }
  destruct (IH (i + 1)) as (k' & -> & ? & ? & Hlow); [lia| |].
  { exists k. split; [|done]. destruct (Z.eq_dec k i); [congruence|lia]. }
  exists k'. split_and!; try done; try lia. intros j Hj.
  destruct (Z.eq_dec j i) as [->|]; [done|apply Hlow; lia].
Qed.

(** The first clear bit of a word that is not full. *)
Lemma ctzll_first_clear w :
  0 <= w < 2 ^ 64 -> w <> ULLONG_MAX ->
  exists i, ctzll (u64 (Z.lnot w)) = Ok i /\ 0 <= i < 64 /\ Z.testbit w i = false /\
    forall j, 0 <= j < i -> Z.testbit w j = true.
Proof.
  intros Hw Hne. assert (Hbit : forall i, 0 <= i < 64 ->
    Z.testbit (u64 (Z.lnot w)) i = negb (Z.testbit w i)).
  { intros. rewrite testbit_u64, Z.lnot_spec by lia. done. }
  destruct (ctz_from_spec 64 (u64 (Z.lnot w)) 0) as (k & Hc & Hk & Hb & Hlow); [lia| |].
  { destruct (decide (Exists (fun i => Z.testbit w i = false) (seqZ 0 64))) as [He|He].
    - apply Exists_exists in He as (k & Hk%elem_of_seqZ & Hf). exists k.
      split; [lia|]. rewrite Hbit by lia. by rewrite Hf.
    - destruct Hne. apply word_full; [done|]. intros i Hi.
      destruct (Z.testbit w i) eqn:E; [done|]. destruct He. apply Exists_exists.
      exists i. split; [apply elem_of_seqZ; lia|done]. }
  exists k. rewrite Hbit in Hb by lia. split_and!; try done; try lia.
  - by destruct (Z.testbit w k).
  - intros j Hj. specialize (Hlow j ltac:(lia)). rewrite Hbit in Hlow by lia.
    by destruct (Z.testbit w j).
Qed.

Section Bitmap.
Implicit Types bitmap : list Z.

Lemma sid_word sid : 0 <= sid < 256 -> 0 <= sid / 64 < 4.
Proof. intros. Z.div_mod_to_equations; lia. Qed.

Lemma sid_bit sid : 0 <= sid mod 64 < 64.
Proof. apply Z.mod_pos_bound. lia. Qed.

Lemma bitmap_load bitmap off :
  bitmap_wf bitmap -> 0 <= off < 4 ->
  exists w, load bitmap off = Ok w /\ 0 <= w < 2 ^ 64 /\
    forall s, s / 64 = off -> stream_bit bitmap s = Z.testbit w (s mod 64).
Proof.
  intros [Hl Hw] Hoff.
  destruct (lookup_lt_is_Some_2 bitmap (Z.to_nat off)) as [w Hlk]; [lia|].
  exists w. split; [by apply load_ok; [lia|]|]. rewrite Forall_lookup in Hw.
  split; [apply (Hw _ _ Hlk)|]. intros s <-. unfold stream_bit.
  by rewrite (nth_lookup_Some _ _ _ _ Hlk).
Qed.

(** Replacing one word changes the bits of its 64 streams only. *)
Lemma bitmap_store bitmap off v :
  bitmap_wf bitmap -> 0 <= off < 4 -> 0 <= v < 2 ^ 64 ->
  exists bitmap', store bitmap off v = Ok bitmap' /\ bitmap_wf bitmap' /\
    forall s, 0 <= s -> stream_bit bitmap' s
      = if s / 64 =? off then Z.testbit v (s mod 64) else stream_bit bitmap s.
Proof.
  intros [Hl Hws] Hoff Hv. exists (<[Z.to_nat off := v]> bitmap). split_and!.
  - unfold store. by rewrite (proj2 (in_range_true _ _ _)) by (unfold zlen; lia).
  - split; [by rewrite length_insert|by apply Forall_insert].
  - intros s Hs. unfold stream_bit. rewrite !nth_lookup.
    assert (0 <= s / 64) by (Z.div_mod_to_equations; lia).
    destruct (Z.eqb_spec (s / 64) off) as [->|].
    + by rewrite list_lookup_insert_eq by lia.
    + by rewrite list_lookup_insert_ne by lia.
Qed.

Lemma testbit_shiftl_1 k i : 0 <= k < 64 -> 0 <= i < 64 ->
  Z.testbit (u64 (Z.shiftl 1 k)) i = (i =? k).
Proof.
  intros. rewrite testbit_u64, Z.shiftl_1_l by done.
  destruct (Z.eqb_spec i k) as [->|]; [by rewrite Z.pow2_bits_true by lia|].
  by rewrite Z.pow2_bits_false by lia.
Qed.

Lemma word_range v :
  0 <= v -> (forall i, 64 <= i -> Z.testbit v i = false) -> 0 <= v < 2 ^ 64.
Proof.
  intros Hv Hi. split; [done|]. apply Z.nle_gt. intros Hge.
  assert (Hl : 64 <= Z.log2 v) by (apply Z.log2_le_pow2; lia).
  specialize (Hi _ Hl). rewrite Z.bit_log2 in Hi by lia. done.
Qed.

Lemma testbit_high w i : 0 <= w < 2 ^ 64 -> 64 <= i -> Z.testbit w i = false.
Proof.
  intros. rewrite <-(Z.mod_small w (2 ^ 64)) by done. by apply Z.mod_pow2_bits_high.
Qed.

Lemma same_stream s sid : (s =? sid) = (s / 64 =? sid / 64) && (s mod 64 =? sid mod 64).
Proof.
  apply eq_true_iff_eq. rewrite andb_true_iff, !Z.eqb_eq.
  split; [by intros ->|]. intros [Hd Hm].
  by rewrite (Z.div_mod s 64), (Z.div_mod sid 64), Hd, Hm by lia.
Qed.

(** Marking a stream open. *)
Lemma bitmap_set bitmap sid w :
  bitmap_wf bitmap -> 0 <= sid < 256 -> load bitmap (sid / 64) = Ok w ->
  exists bitmap',
    store bitmap (sid / 64) (Z.lor w (u64 (Z.shiftl 1 (sid mod 64)))) = Ok bitmap' /\
    bitmap_wf bitmap' /\
    forall s, 0 <= s -> stream_bit bitmap' s = (s =? sid) || stream_bit bitmap s.
Proof.
  intros Hb Hsid Hw.
  destruct (bitmap_load bitmap (sid / 64) Hb (sid_word sid Hsid)) as (w' & Hw' & Hr & Hbits).
  assert (w' = w) as -> by congruence. pose proof (u64_range (Z.shiftl 1 (sid mod 64))) as Hu.
  destruct (bitmap_store bitmap (sid / 64) (Z.lor w (u64 (Z.shiftl 1 (sid mod 64)))))
    as (bm' & Hs & Hb' & Hbit'); [done|by apply sid_word| |].
  { apply word_range; [apply Z.lor_nonneg; lia|]. intros i Hi.
    by rewrite Z.lor_spec, !testbit_high by done. }
  exists bm'. split_and!; [done|done|]. intros s Hs0. rewrite (same_stream s sid), Hbit' by done.
  destruct (Z.eqb_spec (s / 64) (sid / 64)) as [E|]; [|done].
  rewrite Z.lor_spec, testbit_shiftl_1, Hbits by (done || apply sid_bit).
  apply orb_comm.
Qed.

(** Marking a stream closed. *)
Lemma bitmap_clear bitmap sid w :
  bitmap_wf bitmap -> 0 <= sid < 256 -> load bitmap (sid / 64) = Ok w ->
  exists bitmap',
    store bitmap (sid / 64) (Z.land w (u64 (Z.lnot (u64 (Z.shiftl 1 (sid mod 64))))))
    = Ok bitmap' /\ bitmap_wf bitmap' /\
    forall s, 0 <= s -> stream_bit bitmap' s = negb (s =? sid) && stream_bit bitmap s.
Proof.
  intros Hb Hsid Hw.
  destruct (bitmap_load bitmap (sid / 64) Hb (sid_word sid Hsid)) as (w' & Hw' & Hr & Hbits).
  assert (w' = w) as -> by congruence.
  set (m := u64 (Z.lnot (u64 (Z.shiftl 1 (sid mod 64))))).
  destruct (bitmap_store bitmap (sid / 64) (Z.land w m))
    as (bm' & Hs & Hb' & Hbit'); [done|by apply sid_word| |].
  { apply word_range; [apply Z.land_nonneg; lia|]. intros i Hi.
    by rewrite Z.land_spec, testbit_high by done. }
  exists bm'. split_and!; [done|done|]. intros s Hs0. rewrite (same_stream s sid), Hbit' by done.
  destruct (Z.eqb_spec (s / 64) (sid / 64)) as [E|]; [|done]. unfold m.
  rewrite Z.land_spec, testbit_u64, Z.lnot_spec, testbit_shiftl_1, Hbits
    by (done || apply sid_bit).
  apply andb_comm.
Qed.

(** The scan finds the least stream id that is not open, or sees that all are. *)
Lemma scan_bitmap_spec bitmap todo off :
  bitmap_wf bitmap -> 0 <= off -> off + Z.of_nat todo = 4 ->
  (forall s, 0 <= s < 64 * off -> stream_bit bitmap s = true) ->
  (exists sid, scan_bitmap todo bitmap off = Ok (sid mod 64, sid / 64) /\ 0 <= sid < 256 /\
     stream_bit bitmap sid = false /\ forall s, 0 <= s < sid -> stream_bit bitmap s = true) \/
  (scan_bitmap todo bitmap off = Ok (u64 (-1), 4) /\
     forall s, 0 <= s < 256 -> stream_bit bitmap s = true).
Proof.
  intros Hb. revert off. induction todo as [|todo IH]; intros off Hoff E Hlow; cbn [scan_bitmap].
  { right. assert (off = 4) as -> by lia. done. }
  destruct (bitmap_load bitmap off Hb) as (w & -> & Hw & Hbits); [lia|]. ostep.
  destruct (Z.eqb_spec w ULLONG_MAX) as [->|Hne].
  - apply IH; [lia|lia|]. intros s Hs. destruct (Z.lt_decidable s (64 * off)); [apply Hlow; lia|].
    rewrite Hbits by (Z.div_mod_to_equations; lia). apply ullong_max_bit, sid_bit.
  - left. destruct (ctzll_first_clear w Hw Hne) as (i & -> & Hi & Hc & Hlo). ostep.
    assert (Hq : (64 * off + i) / 64 = off) by (Z.div_mod_to_equations; lia).
    assert (Hm : (64 * off + i) mod 64 = i) by (Z.div_mod_to_equations; lia).
    exists (64 * off + i). rewrite (Hbits _ Hq), Hq, Hm. split_and!; [done|lia|lia|done|].
    intros s Hs. destruct (Z.lt_decidable s (64 * off)); [apply Hlow; lia|].
    rewrite Hbits by (Z.div_mod_to_equations; lia). apply Hlo.
    Z.div_mod_to_equations; lia.
Qed.
End Bitmap.

(** ** The session a client sees

    [Live X] is a session whose open streams are exactly [X]; [Ended] is the
    state after the last stream closed, which the next packet turns into
    [Idle]. *)

Inductive session :=
| Idle
| Live (streams : gset Z)
| Ended.

Definition least_free (X : gset Z) : option Z :=
  head (filter (fun sid => sid ∉ X) stream_ids).

Definition session_step (a : session) (h : vr_packet_header_t)
    : option vr_packet_t * session :=
  match a with
  | Idle =>
      if h_type h =? pkt_int VR_PKT_CONNECT
      then (respond (pkt_int VR_PKT_CONNECT_ACK) 0, Live {[0]}) else (None, Idle)
  | Ended => (None, Idle)
  | Live X =>
      match pkt_of_int (h_type h) with
      | Some VR_PKT_PING => (respond (pkt_int VR_PKT_PONG) (h_stream_id h), a)
      | Some VR_PKT_STREAM_OPEN =>
          match least_free X with
          | Some sid => (respond (pkt_int VR_PKT_STREAM_OPEN_ACK) sid, Live ({[sid]} ∪ X))
          | None => (respond (pkt_int VR_PKT_ERROR) (h_stream_id h), a)
          end
      | Some VR_PKT_STREAM_CLOSE =>
          let X' := X ∖ {[h_stream_id h]} in
          if decide (X' = ∅) then (None, Ended) else (respond 0 (h_stream_id h), Live X')
      | Some VR_PKT_PUBLISH | Some VR_PKT_ERROR => (None, a)
      | _ => (respond (pkt_int VR_PKT_ERROR) (h_stream_id h), a)
      end
  end.

(** A client that only closes streams that are open. *)
Definition polite (a : session) (h : vr_packet_header_t) : bool :=
  match a with
  | Live X => negb (h_type h =? pkt_int VR_PKT_STREAM_CLOSE) || bool_decide (h_stream_id h ∈ X)
  | _ => true
  end.

Fixpoint session_run (a : session) (hs : list vr_packet_header_t)
    : list (option vr_packet_t) * session :=
  match hs with
  | [] => ([], a)
  | h :: hs =>
      let '(reply, a) := session_step a h in
      let '(replies, a) := session_run a hs in (reply :: replies, a)
  end.

Fixpoint polite_run (a : session) (hs : list vr_packet_header_t) : bool :=
  match hs with
  | [] => true
  | h :: hs => polite a h && polite_run (session_step a h).2 hs
  end.

Fixpoint handler_run `{Libc} `{Abi} (c : vr_proto) (pkts : list vr_packet_t) (p : proc)
    : outcome (list (option vr_packet_t) * vr_proto * proc) :=
  match pkts with
  | [] => Ok ([], c, p)
  | pkt :: pkts =>
      '(reply, c, p) ← handle_packet c pkt p;
      '(replies, c, p) ← handler_run c pkts p;
      Ok (reply :: replies, c, p)
  end.

(** The open streams of a bitmap. *)
Definition has_streams (bitmap : list Z) (X : gset Z) : Prop :=
  bitmap_wf bitmap /\ forall s, s ∈ X <-> 0 <= s < 256 /\ stream_bit bitmap s = true.

(** The members of the connection that represent a session. *)
Definition in_session (c : vr_proto) (a : session) : Prop :=
  match a with
  | Idle => pc_state c = VR_PROTO_INIT /\ has_streams (pc_bitmap c) ∅
  | Live X => pc_state c = VR_PROTO_ESTABILISHED /\ has_streams (pc_bitmap c) X /\
      X <> ∅ /\ pc_active c = u8 (Z.of_nat (size X))
  | Ended => pc_state c = VR_PROTO_CLOSED /\ has_streams (pc_bitmap c) ∅
  end.

Lemma elem_of_stream_ids s : s ∈ stream_ids <-> 0 <= s < 256.
Proof. unfold stream_ids. rewrite elem_of_seqZ. lia. Qed.

Lemma head_filter_seqZ (P : Z -> Prop) `{!forall x, Decision (P x)} n m k :
  0 <= k < m -> P (n + k) -> (forall s, n <= s < n + k -> ~ P s) ->
  head (filter P (seqZ n m)) = Some (n + k).
Proof.
  intros Hk HP Hlow. revert n m Hk HP Hlow.
  induction (Z.to_nat k) as [k' IH] eqn:E using (well_founded_induction lt_wf) in k |- *.
  intros n m Hk HP Hlow. rewrite seqZ_cons by lia. rewrite filter_cons.
  destruct (Z.eq_dec k 0) as [->|].
  { rewrite Z.add_0_r in HP |- *. destruct (decide (P n)); done. }
  destruct (decide (P n)) as [Hn|_]; [by destruct (Hlow n ltac:(lia))|].
  rewrite (IH (Z.to_nat (k - 1)) ltac:(lia) (k - 1) eq_refl (Z.succ n)); [f_equal; lia|lia| |].
  - by replace (Z.succ n + (k - 1)) with (n + k) by lia.
  - intros s Hs. apply Hlow. lia.
Qed.

(** What [STREAM_OPEN] scans for is the least free id of the represented set. *)
Lemma scan_least_free bitmap X :
  has_streams bitmap X ->
  (exists sid, least_free X = Some sid /\ 0 <= sid < 256 /\ (sid ∉ X) /\
     scan_bitmap 4 bitmap 0 = Ok (sid mod 64, sid / 64)) \/
  (least_free X = None /\ scan_bitmap 4 bitmap 0 = Ok (u64 (-1), 4)).
Proof.
  intros [Hb HX]. unfold least_free, stream_ids.
  destruct (scan_bitmap_spec bitmap 4 0) as [(sid & -> & Hs & Hf & Hlow)|[-> Hall]];
    [done|lia|lia|intros; lia|left|right].
  - exists sid. assert (sid ∉ X) by (rewrite HX; intros [_ ?]; congruence).
    split_and!; try done; try lia. apply (head_filter_seqZ _ 0 256 sid); [lia|done|].
    intros s Hsr Hn. apply Hn, HX. split; [lia|apply Hlow; lia].
  - split; [|done]. destruct (filter _ _) as [|s l] eqn:E; [done|].
    assert (Hin : s ∈ filter (fun s => s ∉ X) (seqZ 0 256)) by (rewrite E; left).
    apply list_elem_of_filter in Hin as [Hn Hs%elem_of_seqZ]. destruct Hn.
    apply HX. split; [lia|apply Hall; lia].
Qed.

Lemma has_streams_set bitmap X sid w :
  has_streams bitmap X -> 0 <= sid < 256 -> load bitmap (sid / 64) = Ok w ->
  exists bitmap',
    store bitmap (sid / 64) (Z.lor w (u64 (Z.shiftl 1 (sid mod 64)))) = Ok bitmap' /\
    has_streams bitmap' ({[sid]} ∪ X).
Proof.
  intros [Hb HX] Hs Hw. destruct (bitmap_set bitmap sid w Hb Hs Hw) as (bm & Hst & Hb' & Hbit).
  exists bm. split; [done|]. split; [done|]. intros s.
  rewrite elem_of_union, elem_of_singleton, HX. split.
  - intros [-> |[Hr Ht]]; (split; [done|]); rewrite Hbit by lia.
    + by rewrite Z.eqb_refl.
    + by rewrite Ht, orb_true_r.
  - intros [Hr Ht]. rewrite Hbit in Ht by lia.
    destruct (Z.eqb_spec s sid); [by left|by right].
Qed.

Lemma has_streams_clear bitmap X sid w :
  has_streams bitmap X -> 0 <= sid < 256 -> load bitmap (sid / 64) = Ok w ->
  exists bitmap',
    store bitmap (sid / 64) (Z.land w (u64 (Z.lnot (u64 (Z.shiftl 1 (sid mod 64))))))
    = Ok bitmap' /\ has_streams bitmap' (X ∖ {[sid]}).
Proof.
  intros [Hb HX] Hs Hw. destruct (bitmap_clear bitmap sid w Hb Hs Hw) as (bm & Hst & Hb' & Hbit).
  exists bm. split; [done|]. split; [done|]. intros s.
  rewrite elem_of_difference, elem_of_singleton, HX. split.
  - intros [[Hr Ht] Hne]. split; [done|]. rewrite Hbit, Ht by lia.
    by rewrite (proj2 (Z.eqb_neq _ _) Hne).
  - intros [Hr Ht]. rewrite Hbit in Ht by lia.
    destruct (Z.eqb_spec s sid); [done|]. by split.
Qed.

Lemma has_streams_size bitmap X : has_streams bitmap X -> (size X <= 256)%nat.
Proof.
  intros [_ HX]. transitivity (size (list_to_set stream_ids : gset Z)).
  - apply subseteq_size. intros s Hs%HX. apply elem_of_list_to_set, elem_of_stream_ids, Hs.
  - by vm_compute.
Qed.

Lemma u8_succ_idemp z : u8 (u8 z + 1) = u8 (z + 1).
Proof. apply Z.add_mod_idemp_l. lia. Qed.

Lemma u8_pred_idemp z : u8 (u8 z - 1) = u8 (z - 1).
Proof. unfold u8. by rewrite Zminus_mod_idemp_l. Qed.

Section Sessions.
Context `{Libc} `{Abi}.
Implicit Types (c : vr_proto) (p : proc) (pkt : vr_packet_t).

Lemma calloc_response_ok p :
  allocates sizeof_vr_packet_t ->
  exists p', calloc_response p = Ok p' /\ p_live p' = p_live p + 1 /\ p_errno p' = p_errno p.
Proof.
  intros Ha. unfold calloc_response, alloc_obj. specialize (Ha (p_next p)).
  destruct (alloc_answer _ _); [|done]. by eexists.
Qed.

(** Stream ids are handed out in increasing order of the free ones. *)
Lemma handle_open_spec c h p X :
  allocates sizeof_vr_packet_t -> has_streams (pc_bitmap c) X -> pkt_of_int (h_type h) = Some VR_PKT_STREAM_OPEN ->
  exists p', p_live p' = p_live p + 1 /\
  match least_free X with
  | Some sid => exists bitmap,
      handle_established c h p = Ok (respond (pkt_int VR_PKT_STREAM_OPEN_ACK) sid,
        Proto (pc_state c) (u8 (pc_active c + 1)) bitmap, p') /\
      (sid ∉ X) /\ has_streams bitmap ({[sid]} ∪ X)
  | None => handle_established c h p
      = Ok (respond (pkt_int VR_PKT_ERROR) (h_stream_id h), c, p')
  end.
Proof.
  intros Ha HX Ht. destruct (calloc_response_ok p Ha) as (p' & Hp & Hl & _).
  exists p'. split; [done|]. unfold handle_established. rewrite Hp, Ht. ostep.
  destruct (scan_least_free _ X HX) as [(sid & -> & Hs & Hn & ->)|[-> ->]]; ostep; [|done].
  pose proof (sid_bit sid). rewrite (proj2 (Z.eqb_neq _ _)) by (change (u64 (-1)) with ULLONG_MAX;
    unfold ULLONG_MAX; lia).
  destruct (bitmap_load _ (sid / 64) (proj1 HX) (sid_word sid Hs)) as (w & Hw & _).
  rewrite Hw. ostep. destruct (has_streams_set _ X sid w HX Hs Hw) as (bm & -> & HX').
  ostep. exists bm. replace (64 * (sid / 64) + sid mod 64) with sid
    by (apply Z.div_mod; lia). by rewrite u8_id.
Qed.

(** Closing any stream, open or not. *)
Lemma handle_close_spec c h p X :
  allocates sizeof_vr_packet_t -> has_streams (pc_bitmap c) X -> is_byte (h_stream_id h) ->
  pkt_of_int (h_type h) = Some VR_PKT_STREAM_CLOSE ->
  exists bitmap p', has_streams bitmap (X ∖ {[h_stream_id h]}) /\
    let active := u8 (pc_active c - 1) in
    if active =? 0
    then handle_established c h p = Ok (None, Proto VR_PROTO_CLOSED active bitmap, p') /\
         p_live p' = p_live p
    else handle_established c h p
         = Ok (respond 0 (h_stream_id h), Proto (pc_state c) active bitmap, p') /\
         p_live p' = p_live p + 1.
Proof.
  intros Ha HX Hs Ht. destruct (calloc_response_ok p Ha) as (p' & Hp & Hl & _).
  unfold handle_established. rewrite Hp, Ht. ostep.
  destruct (bitmap_load _ (h_stream_id h / 64) (proj1 HX) (sid_word _ Hs)) as (w & Hw & _).
  rewrite Hw. ostep.
  destruct (has_streams_clear _ X _ w HX Hs Hw) as (bm & -> & HX'). ostep.
  exists bm. destruct (_ =? 0); eexists; (split; [done|]); (split; [done|]); simpl; lia.
Qed.

Lemma has_streams_exists bitmap : bitmap_wf bitmap -> exists X, has_streams bitmap X.
Proof.
  intros Hb. exists (list_to_set (filter (fun s => stream_bit bitmap s = true) stream_ids)).
  split; [done|]. intros s.
  rewrite elem_of_list_to_set, list_elem_of_filter, elem_of_stream_ids. tauto.
Qed.

(** What the members look like whatever the client sent. *)
Definition proto_wf (c : vr_proto) : Prop := bitmap_wf (pc_bitmap c) /\ is_byte (pc_active c).

(** The shape of a response: a bare header the wire format can carry. *)
Definition response_ok (r : option vr_packet_t) : Prop :=
  match r with
  | None => True
  | Some k => exists t sid, r = respond t sid /\ 0 <= t <= 9 /\ is_byte sid
  end.

Lemma respond_ok t sid : 0 <= t <= 9 -> is_byte sid -> response_ok (respond t sid).
Proof. intros. by exists t, sid. Qed.

Lemma least_free_byte X sid : least_free X = Some sid -> is_byte sid.
Proof.
  unfold least_free. intros Hh. apply head_Some_elem_of in Hh.
  apply list_elem_of_filter in Hh as [_ Hs%elem_of_stream_ids]. done.
Qed.

Lemma handle_established_safe c h p :
  allocates sizeof_vr_packet_t -> proto_wf c -> header_fits h ->
  exists r c' p', handle_established c h p = Ok (r, c', p') /\ proto_wf c' /\ response_ok r /\
    p_live p' = p_live p + owned r.
Proof.
  intros Ha [Hb Hact] Hh. destruct (has_streams_exists _ Hb) as [X HX].
  pose proof (hf_stream_id _ Hh) as Hs.
  destruct (decide (pkt_of_int (h_type h) = Some VR_PKT_STREAM_OPEN)) as [Ho|Hno].
  { destruct (handle_open_spec c h p X Ha HX Ho) as (p' & Hl & Hm).
    destruct (least_free X) as [sid|] eqn:Ef.
    - destruct Hm as (bm & -> & _ & HX'). do 3 eexists. split; [done|]. split_and!; simpl.
      + split; [apply HX'|apply u8_byte].
      + apply respond_ok; [lia|by eapply least_free_byte].
      + done.
    - rewrite Hm. do 3 eexists. split; [done|]. split_and!; [done|by apply respond_ok|done]. }
  destruct (decide (pkt_of_int (h_type h) = Some VR_PKT_STREAM_CLOSE)) as [Hc|Hnc].
  { destruct (handle_close_spec c h p X Ha HX Hs Hc) as (bm & p' & HX' & Hm).
    assert (proto_wf (Proto (pc_state c) (u8 (pc_active c - 1)) bm) /\
            proto_wf (Proto VR_PROTO_CLOSED (u8 (pc_active c - 1)) bm)) as [??]
      by (split; split; (apply (proj1 HX') || apply u8_byte)).
    cbv zeta in Hm. destruct (_ =? 0); destruct Hm as [-> Hl]; do 3 eexists;
      (split; [done|]); split_and!; simpl; try done; [lia|by apply respond_ok]. }
  destruct (calloc_response_ok p Ha) as (p' & Hp & Hl & _).
  unfold handle_established. rewrite Hp. ostep.
  destruct (pkt_of_int (h_type h)) as [[]|]; try done; do 3 eexists; (split; [done|]);
    split_and!; simpl; try done; try lia; by apply respond_ok.
Qed.

Lemma handle_packet_safe c pkt p :
  allocates sizeof_vr_packet_t -> proto_wf c -> header_fits (pk_header pkt) ->
  exists r c' p', handle_packet c pkt p = Ok (r, c', p') /\ proto_wf c' /\ response_ok r /\
    p_live p' = p_live p + owned r.
Proof.
  intros Ha Hc Hh. unfold handle_packet. destruct (pc_state c).
  - destruct (_ =? _); [|do 3 eexists; (split; [done|]); split_and!; try done; simpl; lia].
    destruct (calloc_response_ok p Ha) as (p' & -> & Hl & _). ostep.
    destruct (bitmap_load _ 0 (proj1 Hc)) as (w & Hw & _); [lia|]. rewrite Hw. ostep.
    destruct (bitmap_set (pc_bitmap c) 0 w (proj1 Hc)) as (bm & Hst & Hb & _); [lia|done|].
    change (store (pc_bitmap c) 0 (Z.lor w 1) = Ok bm) in Hst. rewrite Hst. ostep.
    do 3 eexists. split; [done|]. split_and!; [by split| |done].
    by apply respond_ok.
  - destruct (_ =? _); do 3 eexists; (split; [done|]); split_and!; try done; simpl; lia.
  - by apply handle_established_safe.
  - do 3 eexists. split; [done|]. split_and!; try done; simpl; lia.
Qed.

Lemma pkt_of_int_Some z t : pkt_of_int z = Some t -> z = pkt_int t.
Proof.
  unfold pkt_of_int. intros. repeat case_match; simplify_eq; done.
Qed.

Lemma session_sim_connect c p :
  allocates sizeof_vr_packet_t -> in_session c Idle ->
  exists w bm p', calloc_response p = Ok p' /\ load (pc_bitmap c) 0 = Ok w /\
    store (pc_bitmap c) 0 (Z.lor w 1) = Ok bm /\
    in_session (Proto VR_PROTO_ESTABILISHED 1 bm) (Live {[0]}).
Proof.
  intros Ha [_ HX]. destruct (calloc_response_ok p Ha) as (p' & Hp & _).
  destruct (bitmap_load _ 0 (proj1 HX)) as (w & Hw & _); [lia|].
  destruct (has_streams_set (pc_bitmap c) ∅ 0 w HX) as (bm & Hst & HX'); [lia|done|].
  change (store (pc_bitmap c) 0 (Z.lor w 1) = Ok bm) in Hst.
  rewrite (right_id_L ∅ (∪)) in HX'. exists w, bm, p'. split_and!; try done.
Qed.

Lemma session_sim_open c h p X :
  allocates sizeof_vr_packet_t -> in_session c (Live X) -> pkt_of_int (h_type h) = Some VR_PKT_STREAM_OPEN ->
  exists c' p', handle_established c h p = Ok ((session_step (Live X) h).1, c', p') /\
    in_session c' (session_step (Live X) h).2.
Proof.
  intros Ha (Hst & HX & Hne & Hact) Ho. cbn [session_step]. rewrite Ho.
  destruct (handle_open_spec c h p X Ha HX Ho) as (p' & Hl & Hm).
  destruct (least_free X) as [sid|]; [|do 2 eexists; by split_and!].
  destruct Hm as (bm & -> & Hn & HX'). do 2 eexists. split; [done|]. simpl.
  split_and!; [done|done|set_solver|].
  rewrite Hact, u8_succ_idemp, size_union, size_singleton by set_solver. f_equal. lia.
Qed.

Lemma session_sim_close c h p X :
  allocates sizeof_vr_packet_t -> in_session c (Live X) -> is_byte (h_stream_id h) -> h_stream_id h ∈ X ->
  pkt_of_int (h_type h) = Some VR_PKT_STREAM_CLOSE ->
  exists c' p', handle_established c h p = Ok ((session_step (Live X) h).1, c', p') /\
    in_session c' (session_step (Live X) h).2.
Proof.
  intros Ha (Hst & HX & Hne & Hact) Hb Hmem Hc. cbn [session_step]. rewrite Hc.
  destruct (handle_close_spec c h p X Ha HX Hb Hc) as (bm & p' & HX' & Hm).
  assert (Hsz : size X = S (size (X ∖ {[h_stream_id h]}))).
  { rewrite size_difference, size_singleton by set_solver.
    assert (size X <> 0%nat) by (by rewrite size_empty_iff, leibniz_equiv_iff). lia. }
  pose proof (has_streams_size _ _ HX) as Hmax.
  rewrite Hact, u8_pred_idemp, Hsz, Nat2Z.inj_succ, <-Z.add_1_r, Z.add_simpl_r, u8_id in Hm
    by lia. cbv zeta in Hm.
  destruct (decide (X ∖ {[h_stream_id h]} = ∅)) as [E|E].
  - rewrite E, size_empty in Hm. destruct Hm as [-> _]. do 2 eexists. split; [done|].
    simpl. by rewrite <-E.
  - rewrite (proj2 (Z.eqb_neq _ _)) in Hm.
    2:{ rewrite <-leibniz_equiv_iff, <-size_empty_iff in E. lia. }
    destruct Hm as [-> _]. do 2 eexists. split; [done|]. simpl. split_and!; try done.
    rewrite u8_id; [done|lia].
Qed.

(** One packet of a polite client. *)
Lemma session_sim c a pkt p :
  allocates sizeof_vr_packet_t -> in_session c a -> header_fits (pk_header pkt) ->
  polite a (pk_header pkt) = true ->
  exists c' p', handle_packet c pkt p = Ok ((session_step a (pk_header pkt)).1, c', p') /\
    in_session c' (session_step a (pk_header pkt)).2.
Proof.
  intros Ha Hin Hh Hpol. unfold handle_packet. destruct a as [|X|].
  - rewrite (proj1 Hin). cbn [session_step]. destruct (_ =? _); [|do 2 eexists; by split].
    destruct (session_sim_connect c p Ha Hin) as (w & bm & p' & -> & -> & Hs & Hin').
    ostep. rewrite Hs. ostep. do 2 eexists. by split.
  - rewrite (proj1 Hin).
    destruct (decide (pkt_of_int (h_type (pk_header pkt)) = Some VR_PKT_STREAM_OPEN));
      [by apply session_sim_open|].
    destruct (decide (pkt_of_int (h_type (pk_header pkt)) = Some VR_PKT_STREAM_CLOSE)) as [Hc|].
    { apply session_sim_close; try done; [apply Hh|].
      cbn [polite] in Hpol. rewrite (pkt_of_int_Some _ _ Hc) in Hpol.
      by apply bool_decide_eq_true in Hpol. }
    destruct (calloc_response_ok p Ha) as (p' & Hp & _).
    unfold handle_established. rewrite Hp. cbn [session_step]. ostep.
    destruct (pkt_of_int _) as [[]|]; try done; do 2 eexists; by split.
  - rewrite (proj1 Hin). do 2 eexists. split; [done|]. split; [done|apply Hin].
Qed.

Lemma connect_new p sid :
  allocates sizeof_vr_packet_t ->
  exists p', handle_packet zeroed_proto
      (Packet (Header VR_MAGIC VR_PROTOCOL_VERSION (pkt_int VR_PKT_CONNECT) sid 0 0) None) p
    = Ok (respond (pkt_int VR_PKT_CONNECT_ACK) 0, Proto VR_PROTO_ESTABILISHED 1 [1; 0; 0; 0], p').
Proof.
  intros Ha. destruct (calloc_response_ok p Ha) as (p' & Hp & _). exists p'.
  unfold handle_packet. simpl. by rewrite Hp.
Qed.

Lemma in_session_new : in_session zeroed_proto Idle.
Proof.
  split; [done|]. split; [split; [done|by repeat constructor]|]. intros s.
  split; [by intros ?%not_elem_of_empty|]. intros [Hs Hb]. exfalso.
  unfold stream_bit in Hb. simpl in Hb.
  destruct (Z.to_nat (s / 64)) as [|[|[|[|[|]]]]]; by rewrite Z.bits_0 in Hb.
Qed.
End Sessions.

(** ** Properties *)

Section Properties.
Context `{Libc} `{Abi}.

(** C6.  Seen from a client that only closes streams it has open, and as long as
    response objects can be allocated (the code does not test it), the handler is
    the session machine: whatever such packets arrive on a new connection, every
    reply and the session that results are the ones of [session_run], where the
    open streams form a set and the session ends exactly when the set becomes
    empty.  In particular the 8-bit [active_streams], which wraps to 0 with all
    256 streams open, never ends a session early. *)
Theorem protocol_refines_session (pkts : list vr_packet_t) (p : proc)
  (Ha : allocates sizeof_vr_packet_t) (Hf : Forall (fun k => header_fits (pk_header k)) pkts)
  (Hp : polite_run Idle (pk_header <$> pkts) = true) :
  exists c p', handler_run zeroed_proto pkts p
      = Ok ((session_run Idle (pk_header <$> pkts)).1, c, p') /\
    in_session c (session_run Idle (pk_header <$> pkts)).2.
Proof.
  generalize in_session_new, Hp. clear Hp. generalize zeroed_proto, Idle. revert p.
  induction Hf as [|k pkts Hk Hks IH]; intros p c a Hin Hp; [by exists c, p|].
  cbn in Hp. apply andb_prop in Hp as [Hpk Hp]. cbn [handler_run fmap list_fmap session_run].
  destruct (session_sim c a k p Ha Hin Hk Hpk) as (c' & p' & -> & Hin'). ostep.
  destruct (session_step a (pk_header k)) as [reply a']. cbn [fst snd] in *.
  destruct (IH p' c' a' Hin' Hp) as (c'' & p'' & -> & Hin''). ostep.
  unfold fmap in *. destruct (session_run a' _) as [replies a'']. by exists c'', p''.
Qed.

(** STREAM_OPEN on any connection state a server can be in: if some id is
    free, the least free one is acknowledged, its bit and no other is set and
    the counter goes up by one; with all 256 streams open the answer is an
    ERROR packet and nothing changes. *)
Lemma stream_open_least_free (c : vr_proto) (pkt : vr_packet_t) (p : proc)
  (Ha : allocates sizeof_vr_packet_t) (Hst : pc_state c = VR_PROTO_ESTABILISHED)
  (Hb : bitmap_wf (pc_bitmap c)) (Ht : h_type (pk_header pkt) = pkt_int VR_PKT_STREAM_OPEN) :
  exists r c' p', handle_packet c pkt p = Ok (r, c', p') /\
    ((exists sid, r = respond (pkt_int VR_PKT_STREAM_OPEN_ACK) sid /\ 0 <= sid < 256 /\
        stream_bit (pc_bitmap c) sid = false /\
        (forall s, 0 <= s < sid -> stream_bit (pc_bitmap c) s = true) /\
        (forall s, 0 <= s < 256 ->
           stream_bit (pc_bitmap c') s = (s =? sid) || stream_bit (pc_bitmap c) s) /\
        pc_active c' = u8 (pc_active c + 1) /\ pc_state c' = pc_state c) \/
     ((forall s, 0 <= s < 256 -> stream_bit (pc_bitmap c) s = true) /\
        r = respond (pkt_int VR_PKT_ERROR) (h_stream_id (pk_header pkt)) /\ c' = c)).
Proof.
  destruct (calloc_response_ok p Ha) as (p' & Hp & _).
  unfold handle_packet, handle_established. rewrite Hst, Ht, Hp. cbn [pkt_of_int pkt_int]. ostep.
  destruct (scan_bitmap_spec (pc_bitmap c) 4 0) as [(sid & -> & Hs & Hf & Hlow)|[-> Hall]];
    [done|lia|lia|intros; lia| |]; ostep; [|do 3 eexists; split; [done|by right]].
  pose proof (sid_bit sid). rewrite (proj2 (Z.eqb_neq _ _)) by (change (u64 (-1)) with ULLONG_MAX;
    unfold ULLONG_MAX; lia).
  destruct (bitmap_load _ (sid / 64) Hb (sid_word sid Hs)) as (w & Hw & _). rewrite Hw. ostep.
  destruct (bitmap_set _ sid w Hb Hs Hw) as (bm & -> & _ & Hbits). ostep.
  do 3 eexists. split; [done|]. left. exists sid.
  rewrite <-(Z.div_mod sid 64), u8_id by lia.
  split_and!; try done; try lia. intros s Hsr. apply Hbits. lia.
Qed.

(** C27.  Whatever a client sends, in whatever order, and as long as response
    objects can be allocated (the code does not test it), the handler stays inside
    the bitmap, leaks no block, keeps its 64-bit words and 8-bit counter in
    range, and answers, if at all, with a payload-less packet whose header fits
    the wire format. *)
Theorem handler_safe (pkts : list vr_packet_t) (p : proc) (Ha : allocates sizeof_vr_packet_t)
  (Hf : Forall (fun k => header_fits (pk_header k)) pkts) :
  exists replies c p', handler_run zeroed_proto pkts p = Ok (replies, c, p') /\
    proto_wf c /\ Forall response_ok replies /\
    p_live p' = p_live p + foldr Z.add 0 (owned <$> replies).
Proof.
  assert (Hc : proto_wf zeroed_proto) by (split; [split; [done|by repeat constructor]|done]).
  revert p Hc. generalize zeroed_proto.
  induction Hf as [|k pkts Hk Hks IH]; intros c p Hc; cbn [handler_run].
  { exists [], c, p. split_and!; try apply Hc; try done. simpl. lia. }
  destruct (handle_packet_safe c k p Ha Hc Hk) as (r & c' & p' & -> & Hc' & Hr & Hl). ostep.
  destruct (IH c' p' Hc') as (rs & c'' & p'' & -> & Hc'' & Hrs & Hl'). ostep.
  exists (r :: rs), c'', p''. split_and!; try apply Hc''; [done|by constructor|].
  rewrite fmap_cons. simpl. lia.
Qed.

(** C39.  A STREAM_CLOSE that names a stream which was never opened still
    decrements the counter: one such packet after CONNECT ends the session
    without a reply although stream 0 is open. *)
Theorem close_unopened_ends_session (Ha : allocates sizeof_vr_packet_t) (p : proc) (sid : Z)
  (Hs : 1 <= sid < 256) :
  exists c p', handler_run zeroed_proto
      [Packet (Header VR_MAGIC VR_PROTOCOL_VERSION (pkt_int VR_PKT_CONNECT) 0 0 0) None;
       Packet (Header VR_MAGIC VR_PROTOCOL_VERSION (pkt_int VR_PKT_STREAM_CLOSE) sid 0 0) None] p
      = Ok ([respond (pkt_int VR_PKT_CONNECT_ACK) 0; None], c, p') /\
    pc_state c = VR_PROTO_CLOSED /\ stream_bit (pc_bitmap c) 0 = true.
Proof.
  destruct (connect_new p 0 Ha) as (p' & Hc). cbn [handler_run]. rewrite Hc. ostep.
  set (c1 := Proto VR_PROTO_ESTABILISHED 1 [1; 0; 0; 0]).
  unfold handle_packet. cbn [pc_state pk_header c1].
  set (h := Header _ _ _ sid _ _).
  destruct (has_streams_exists (pc_bitmap c1)) as [X HX]; [split; [done|by repeat constructor]|].
  destruct (handle_close_spec c1 h p' X Ha HX) as (bm & p'' & HX' & -> & _);
    [unfold is_byte; simpl; lia|done|]. ostep.
  do 2 eexists. split; [done|]. split; [done|]. apply HX'. simpl.
  apply elem_of_difference. split; [by apply HX|]. rewrite elem_of_singleton. lia.
Qed.

(**  Neither calloc of the handler is checked: when the allocator returns
    NULL, an established connection crashes on its next packet, whatever it is,
    and a new connection on CONNECT. *)
Lemma unchecked_calloc_crashes (c : vr_proto) (pkt : vr_packet_t) (p : proc)
  (Hn : alloc_answer (p_next p) sizeof_vr_packet_t = None)
  (Hc : pc_state c = VR_PROTO_ESTABILISHED \/
        pc_state c = VR_PROTO_INIT /\ h_type (pk_header pkt) = pkt_int VR_PKT_CONNECT) :
  handle_packet c pkt p = Undef.
Proof.
  unfold handle_packet, handle_established, calloc_response, alloc_obj. rewrite Hn.
  by destruct Hc as [-> | [-> ->]].
Qed.
End Properties.

(** ** Witnesses *)

(** A short polite session: connect, open stream 1, ping, close both streams. *)
Definition session_packets : list vr_packet_t :=
  (fun '(t, sid) => Packet (Header VR_MAGIC VR_PROTOCOL_VERSION (pkt_int t) sid 0 0) None) <$>
  [(VR_PKT_CONNECT, 0); (VR_PKT_STREAM_OPEN, 0); (VR_PKT_PING, 1);
   (VR_PKT_STREAM_CLOSE, 1); (VR_PKT_STREAM_CLOSE, 0)].

Lemma session_packets_fit : Forall (fun k => header_fits (pk_header k)) session_packets.
Proof.
  unfold session_packets. cbn. repeat apply Forall_cons_2; [..|apply Forall_nil_2];
    (constructor; by vm_compute).
Qed.

Lemma protocol_refines_session_witness :
  exists c p', @handler_run (libc_fill 0) gcc_abi zeroed_proto session_packets proc0
      = Ok ([respond 2 0; respond 6 1; respond 4 1; respond 0 1; None], c, p') /\
    in_session c Ended.
Proof.
  exact (@protocol_refines_session (libc_fill 0) gcc_abi session_packets proc0
    (libc_fill_allocates 0 _) session_packets_fit eq_refl).
Defined.

Lemma handler_safe_witness :
  exists replies c p', @handler_run (libc_fill 0) gcc_abi zeroed_proto (rev session_packets) proc0
    = Ok (replies, c, p') /\ Forall response_ok replies.
Proof.
  destruct (@handler_safe (libc_fill 0) gcc_abi (rev session_packets) proc0 (libc_fill_allocates 0 _))
    as (rs & c & p' & E & _ & Hr & _); [apply Forall_rev, session_packets_fit|by exists rs, c, p'].
Defined.

Lemma close_unopened_ends_session_witness :
  exists c p', @handler_run (libc_fill 0) gcc_abi zeroed_proto
      [Packet (Header VR_MAGIC VR_PROTOCOL_VERSION 1 0 0 0) None;
       Packet (Header VR_MAGIC VR_PROTOCOL_VERSION 7 200 0 0) None] proc0
      = Ok ([respond 2 0; None], c, p') /\ pc_state c = VR_PROTO_CLOSED /\
    stream_bit (pc_bitmap c) 0 = true.
Proof.
  apply (@close_unopened_ends_session (libc_fill 0) gcc_abi (libc_fill_allocates 0 _) proc0 200). lia.
Defined.

Lemma unchecked_calloc_crashes_witness :
  @handle_packet (libc_fail_from 0) gcc_abi zeroed_proto
    (Packet (Header VR_MAGIC VR_PROTOCOL_VERSION 1 0 0 0) None) proc0 = Undef.
Proof.
  apply (@unchecked_calloc_crashes (libc_fail_from 0) gcc_abi); [done|by right].
Defined.
