(* ===== verification/Machine.v ===== *)
(** * Machine: what the protocol handler does, for every client

    The session machine of Protocol is what a well-behaved client sees.  The
    machine of this file has no such proviso: it is the handler of
    src/protocol/protocol.c with the bitmap replaced by the set of stream ids it
    stands for and without the allocator, for clients that send anything.  The
    handler refines it packet by packet; for polite clients it gives the answers
    of the session machine. *)

From S2P Require Import Prelude Core Packet Protocol.
#[local] Open Scope Z_scope.

(** [proto_state], the streams whose bit is set, and [active_streams], which need
    not be their number. *)
Record machine := Machine {
  m_state : vr_protocol_state_t;
  m_open : gset Z;
  m_active : Z
}.

Definition machine_start : machine := Machine VR_PROTO_INIT ∅ 0.

Definition machine_step (m : machine) (h : vr_packet_header_t) : option vr_packet_t * machine :=
  let 'Machine st X n := m in
  match st with
  | VR_PROTO_INIT =>
      if h_type h =? pkt_int VR_PKT_CONNECT
      then (respond (pkt_int VR_PKT_CONNECT_ACK) 0, Machine VR_PROTO_ESTABILISHED ({[0]} ∪ X) 1)
      else (None, m)
  | VR_PROTO_CONNECTING =>
      (None, if h_type h =? pkt_int VR_PKT_CONNECT_ACK then Machine VR_PROTO_ESTABILISHED X n else m)
  | VR_PROTO_ESTABILISHED =>
      match pkt_of_int (h_type h) with
      | Some VR_PKT_PING => (respond (pkt_int VR_PKT_PONG) (h_stream_id h), m)
      | Some VR_PKT_STREAM_OPEN =>
          match least_free X with
          | Some sid => (respond (pkt_int VR_PKT_STREAM_OPEN_ACK) sid, Machine st ({[sid]} ∪ X) (u8 (n + 1)))
          | None => (respond (pkt_int VR_PKT_ERROR) (h_stream_id h), m)
          end
      | Some VR_PKT_STREAM_CLOSE =>
          let X := X ∖ {[h_stream_id h]} in
          let n := u8 (n - 1) in
          if n =? 0 then (None, Machine VR_PROTO_CLOSED X n)
          else (respond 0 (h_stream_id h), Machine st X n)
      | Some VR_PKT_PUBLISH | Some VR_PKT_ERROR => (None, m)
      | _ => (respond (pkt_int VR_PKT_ERROR) (h_stream_id h), m)
      end
  | VR_PROTO_CLOSED => (None, Machine VR_PROTO_INIT X n)
  end.

(** The state after packets [hs], and the answers to them. *)
Fixpoint machine_after (m : machine) (hs : list vr_packet_header_t) : machine :=
  match hs with
  | [] => m
  | h :: hs => machine_after (machine_step m h).2 hs
  end.

Fixpoint machine_answers (m : machine) (hs : list vr_packet_header_t) : list vr_packet_t :=
  match hs with
  | [] => []
  | h :: hs => option_list (machine_step m h).1 ++ machine_answers (machine_step m h).2 hs
  end.

Lemma machine_after_app m hs1 hs2 :
  machine_after m (hs1 ++ hs2) = machine_after (machine_after m hs1) hs2.
Proof. revert m. induction hs1 as [|h hs1 IH]; intros m; [done|]. apply IH. Qed.

Lemma machine_answers_app m hs1 hs2 :
  machine_answers m (hs1 ++ hs2) = machine_answers m hs1 ++ machine_answers (machine_after m hs1) hs2.
Proof.
  revert m. induction hs1 as [|h hs1 IH]; intros m; [done|]. simpl. by rewrite IH, app_assoc.
Qed.

(** The members of the connection in state [m]. *)
Definition represents (c : vr_proto) (m : machine) : Prop :=
  pc_state c = m_state m /\ has_streams (pc_bitmap c) (m_open m) /\ pc_active c = m_active m.

Lemma represents_start : represents zeroed_proto machine_start.
Proof. by destruct in_session_new. Qed.

Section Refinement.
Context `{Libc} `{Abi}.
Hypothesis Hresp : allocates sizeof_vr_packet_t.
Implicit Types (c : vr_proto) (m : machine) (p : proc) (pkt : vr_packet_t).

Lemma established_sim c m h p :
  represents c m -> m_state m = VR_PROTO_ESTABILISHED -> header_fits h ->
  exists c' p', handle_established c h p = Ok ((machine_step m h).1, c', p') /\
    represents c' (machine_step m h).2.
Proof.
  destruct m as [st X n]. intros (Hst & HX & Hn) [= ->] Hh. simpl in Hst, HX, Hn.
  cbn [machine_step].
  destruct (decide (pkt_of_int (h_type h) = Some VR_PKT_STREAM_OPEN)) as [Ho|].
  { rewrite Ho. destruct (handle_open_spec c h p X Hresp HX Ho) as (p' & _ & Hm).
    destruct (least_free X) as [sid|]; [|by do 2 eexists].
    destruct Hm as (bm & -> & _ & HX'). do 2 eexists. split; [done|].
    split_and!; [done|done|]. simpl. by rewrite Hn. }
  destruct (decide (pkt_of_int (h_type h) = Some VR_PKT_STREAM_CLOSE)) as [Hc|].
  { rewrite Hc. destruct (handle_close_spec c h p X Hresp HX (hf_stream_id _ Hh) Hc)
      as (bm & p' & HX' & Hm). rewrite Hn in Hm. cbv zeta in *.
    destruct (_ =? 0); destruct Hm as [-> _]; do 2 eexists; (split; [done|]); by split_and!. }
  destruct (calloc_response_ok p Hresp) as (p' & Hp & _). unfold handle_established. rewrite Hp. ostep.
  destruct (pkt_of_int _) as [[]|]; try done; do 2 eexists; (split; [done|]); by split_and!.
Qed.

(** Every packet of every client. *)
Lemma machine_sim c m pkt p :
  represents c m -> header_fits (pk_header pkt) ->
  exists c' p', handle_packet c pkt p = Ok ((machine_step m (pk_header pkt)).1, c', p') /\
    represents c' (machine_step m (pk_header pkt)).2.
Proof.
  intros Hr Hh. pose proof Hr as (Hst & HX & Hn). unfold handle_packet. rewrite Hst.
  destruct m as [[] X n]; cbn [m_state m_open m_active] in *; [..|by apply established_sim|by do 2 eexists];
    cbn [machine_step].
  - destruct (_ =? _); [|by do 2 eexists].
    destruct (calloc_response_ok p Hresp) as (p' & -> & _). ostep.
    destruct (bitmap_load _ 0 (proj1 HX)) as (w & Hw & _); [lia|]. rewrite Hw. ostep.
    destruct (has_streams_set (pc_bitmap c) X 0 w HX) as (bm & Hs & HX'); [lia|done|].
    change (store (pc_bitmap c) 0 (Z.lor w 1) = Ok bm) in Hs. rewrite Hs. ostep. by do 2 eexists.
  - destruct (_ =? _); by do 2 eexists.
Qed.

(** For polite clients it is the session machine. *)
Lemma machine_polite (pkts : list vr_packet_t) :
  Forall (fun k => header_fits (pk_header k)) pkts -> polite_run Idle (pk_header <$> pkts) = true ->
  machine_answers machine_start (pk_header <$> pkts) = omap id (session_run Idle (pk_header <$> pkts)).1.
Proof.
  intros Hf. generalize in_session_new, represents_start. generalize zeroed_proto, machine_start, Idle.
  induction Hf as [|k pkts Hk Hks IH]; intros c m a Hin Hr Hp; [done|].
  cbn [fmap list_fmap polite_run session_run machine_answers] in *. apply andb_prop in Hp as [Hpk Hp].
  destruct (session_sim c a k proc0 Hresp Hin Hk Hpk) as (c1 & p1 & E1 & Hin1).
  destruct (machine_sim c m k proc0 Hr Hk) as (c2 & p2 & E2 & Hr2).
  rewrite E1 in E2. injection E2 as <- <- <-. specialize (IH c1 _ _ Hin1 Hr2 Hp). rewrite IH.
  destruct (session_step a (pk_header k)) as [[r|] a1]; cbn [fst snd];
    by destruct (session_run a1 _) as [rs a2].
Qed.
End Refinement.
