(* ===== verification/Connection.v ===== *)
(** * Connection: include/velora/conn.h, src/conn/conn.c, src/shared/utilities.c

    The connection object, the heap of connection objects and the connection
    manager: an array of pointers kept dense by moving the last entry into the
    slot of the one that goes away.  Connections are shared by pointer (the
    manager's array, epoll's user data), so they live in an explicit heap.  The
    invariant [manager_wf] relates the array to the list of managed objects; the
    theorems say that every operation keeps it, which object each operation
    touches and that no block is lost or freed twice. *)

From S2P Require Import Prelude CType Core RingBuffer Packet Parser Protocol.
#[local] Open Scope Z_scope.

(** ** Data *)

Definition VR_MAX_CONNECTIONS : Z := 65536.

Inductive vr_connection_status_t := VR_ACTIVE | VR_CLOSING | VR_CLOSED.
Inductive vr_connection_type_t := VR_CONN_LISTENER | VR_CONN_CLIENT.

#[global] Instance vr_connection_type_t_eq_dec : EqDecision vr_connection_type_t.
Proof. solve_decision. Defined.

(** [struct sockaddr_in]; port and address are in network byte order. *)
Record sockaddr_in := SockaddrIn { sin_family : Z; sin_port : Z; sin_addr : Z }.
Definition zeroed_sockaddr : sockaddr_in := SockaddrIn 0 0 0.

Record vr_net_conn_t := NetConn { nc_fd : Z; nc_addr : sockaddr_in }.

Record vr_connection_t := Conn {
  c_net_conn : vr_net_conn_t;
  c_status : vr_connection_status_t;
  c_type : vr_connection_type_t;
  c_slot : Z;
  c_read_buf : vr_connection_ring_buf_t;
  c_write_buf : vr_connection_ring_buf_t;
  c_parser : vr_parser_t;
  c_proto : vr_proto
}.

(** [memset(conn, 0, sizeof(vr_connection_t))]. *)
Definition zeroed_connection : vr_connection_t :=
  Conn (NetConn 0 zeroed_sockaddr) VR_ACTIVE VR_CONN_LISTENER 0
    zeroed_ring_buf zeroed_ring_buf zeroed_parser zeroed_proto.

Definition c_fd (c : vr_connection_t) : Z := nc_fd (c_net_conn c).

Definition set_net_conn (n : vr_net_conn_t) (c : vr_connection_t) : vr_connection_t :=
  Conn n (c_status c) (c_type c) (c_slot c) (c_read_buf c) (c_write_buf c) (c_parser c) (c_proto c).
Definition set_status (s : vr_connection_status_t) (c : vr_connection_t) : vr_connection_t :=
  Conn (c_net_conn c) s (c_type c) (c_slot c) (c_read_buf c) (c_write_buf c) (c_parser c) (c_proto c).
Definition set_type (t : vr_connection_type_t) (c : vr_connection_t) : vr_connection_t :=
  Conn (c_net_conn c) (c_status c) t (c_slot c) (c_read_buf c) (c_write_buf c) (c_parser c) (c_proto c).
Definition set_slot (n : Z) (c : vr_connection_t) : vr_connection_t :=
  Conn (c_net_conn c) (c_status c) (c_type c) n (c_read_buf c) (c_write_buf c) (c_parser c) (c_proto c).
Definition set_read_buf (b : vr_connection_ring_buf_t) (c : vr_connection_t) : vr_connection_t :=
  Conn (c_net_conn c) (c_status c) (c_type c) (c_slot c) b (c_write_buf c) (c_parser c) (c_proto c).
Definition set_write_buf (b : vr_connection_ring_buf_t) (c : vr_connection_t) : vr_connection_t :=
  Conn (c_net_conn c) (c_status c) (c_type c) (c_slot c) (c_read_buf c) b (c_parser c) (c_proto c).
Definition set_parser (k : vr_parser_t) (c : vr_connection_t) : vr_connection_t :=
  Conn (c_net_conn c) (c_status c) (c_type c) (c_slot c) (c_read_buf c) (c_write_buf c) k (c_proto c).
Definition set_proto (s : vr_proto) (c : vr_connection_t) : vr_connection_t :=
  Conn (c_net_conn c) (c_status c) (c_type c) (c_slot c) (c_read_buf c) (c_write_buf c) (c_parser c) s.

(** The object as C lays it out, with the structs it contains. *)
Definition sockaddr_in_type : ctype := TStruct
  ["sin_family" ∷ uint16; "sin_port" ∷ uint16; "sin_addr" ∷ uint32; "sin_zero" ∷ TArray uint8 8].

Definition vr_net_conn_type : ctype := TStruct ["fd" ∷ int32; "addr" ∷ sockaddr_in_type].

Definition vr_connection_ring_buf_type : ctype := TStruct
  ["data" ∷ TPtr; "capacity" ∷ uint32; "count" ∷ uint32; "read_pos" ∷ uint16; "write_pos" ∷ uint16;
   "state" ∷ uint8].

Definition vr_parser_type `{Abi} : ctype := TStruct ["state" ∷ enum; "current_header" ∷ vr_packet_header_type].

Definition vr_connection_type `{Abi} : ctype := TStruct
  ["net_conn" ∷ vr_net_conn_type; "status" ∷ enum; "type" ∷ enum; "slot" ∷ uint64;
   "read_buf" ∷ vr_connection_ring_buf_type; "write_buf" ∷ vr_connection_ring_buf_type;
   "parser" ∷ vr_parser_type; "proto_state" ∷ enum; "active_streams" ∷ uint8;
   "streams_bitmap" ∷ TArray uint64 4].

Definition vr_connection_manager_type : ctype := TStruct
  ["slots" ∷ TPtr; "count" ∷ uint64; "capacity" ∷ uint64].

Definition sizeof_vr_connection_t `{Abi} : Z := sizeof vr_connection_type.

(** The connection objects that are allocated. *)
Abbreviation heap := (gmap loc vr_connection_t).

Record vr_connection_manager_t := Manager {
  mg_slots : option (list (option loc));
  mg_count : Z;
  mg_capacity : Z
}.

(** ** Operations *)

Section Operations.
Context `{Libc} `{Abi}.

(** [realloc(array, new_capacity * element_size)] of an array of [element_size]
    bytes per element: the elements that fit are kept, new ones hold [filler]. *)
Definition vr_util_array_extend {A} (filler : A) (array : list A) (new_capacity element_size : Z)
    (p : proc) : vr_result_t * list A * proc :=
  let bytes := u64 (new_capacity * element_size) in
  match alloc_answer (p_next p) bytes with
  | None => (VR_ERROR, array, Proc (S (p_next p)) (p_live p) ENOMEM)
  | Some _ =>
      (VR_SUCCESS, resize (Z.to_nat (bytes / element_size)) filler array,
       Proc (S (p_next p)) (p_live p) (p_errno p))
  end.

Definition sizeof_ptr : Z := 8.

(** [calloc] refuses a product that overflows. *)
Definition vr_connection_manager_init (capacity : Z) (p : proc)
    : vr_result_t * vr_connection_manager_t * proc :=
  let '(ok, p) :=
    if 2 ^ 64 <=? capacity * sizeof_ptr then (false, set_errno ENOMEM p)
    else alloc_obj (capacity * sizeof_ptr) p in
  if ok
  then (VR_SUCCESS, Manager (Some (replicate (Z.to_nat capacity) None)) 0 capacity, p)
  else (VR_ERROR, Manager None 0 capacity, p).

(** The blocks of one connection, released. *)
Definition free_connection (c : vr_connection_t) (p : proc) : proc :=
  free (Some tt) (free (rb_data (c_write_buf c)) (free (rb_data (c_read_buf c)) p)).

(** The body of the [for] loop of manager_destroy, for the slots [i], [i+1], ... *)
Fixpoint destroy_slots (n : nat) (slots : list (option loc)) (i : Z) (h : heap) (p : proc)
    : outcome (heap * proc) :=
  match n with
  | O => Ok (h, p)
  | S n =>
      s ← load slots i;
      l ← deref s;
      c ← deref (h !! l);
      destroy_slots n slots (i + 1) (delete l h) (free_connection c p)
  end.

Definition vr_connection_manager_destroy (m : vr_connection_manager_t) (h : heap) (p : proc)
    : outcome (vr_result_t * vr_connection_manager_t * heap * proc) :=
  '(h, p) ← destroy_slots (Z.to_nat (mg_count m)) (default [] (mg_slots m)) 0 h p;
  Ok (VR_SUCCESS, Manager None 0 0, h, free (mg_slots m) p).

(** Lines 38-46: make room for one more pointer. *)
Definition manager_room (m : vr_connection_manager_t) (slots : list (option loc)) (p : proc)
    : vr_result_t * vr_connection_manager_t * proc :=
  if mg_count m =? mg_capacity m then
    let new_capacity := if mg_capacity m =? 0 then 16 else u64 (mg_capacity m * 2) in
    match vr_util_array_extend None slots new_capacity sizeof_ptr p with
    | (VR_ERROR, _, p) => (VR_ERROR, m, p)
    | (res, slots, p) => (res, Manager (Some slots) (mg_count m) new_capacity, p)
    end
  else (VR_SUCCESS, m, p).

Definition vr_connection_create (m : vr_connection_manager_t) (conn : vr_net_conn_t)
    (h : heap) (p : proc) : outcome (option loc * vr_connection_manager_t * heap * proc) :=
  match mg_slots m with
  | None => Ok (None, m, h, p)
  | Some slots =>
      match manager_room m slots p with
      | (VR_ERROR, m, p) => Ok (None, m, h, p)
      | (_, m, p) =>
          let new_connection := alloc_addr (p_next p) (dom h) in
          let '(ok, p) := alloc_obj sizeof_vr_connection_t p in
          if ok then
            slots ← deref (mg_slots m);
            slots ← store slots (mg_count m) (Some new_connection);
            let m := Manager (Some slots) (u64 (mg_count m + 1)) (mg_capacity m) in
            let c := set_net_conn conn zeroed_connection in
            let c := set_slot (u64 (mg_count m - 1)) c in
            let c := set_status VR_ACTIVE c in
            let c := set_parser (ParserSt VR_PARSER_HEADER_WAIT (ps_header (c_parser c))) c in
            Ok (Some new_connection, m, <[new_connection := c]> h, p)
          else Ok (None, m, h, p)
      end
  end.

(** Lines 69-75: the last pointer moves into the slot that becomes free. *)
Definition swap_last (m : vr_connection_manager_t) (slot : Z) (h : heap)
    : outcome (vr_connection_manager_t * heap) :=
  let last := u64 (mg_count m - 1) in
  if slot =? last then Ok (m, h)
  else
    slots ← deref (mg_slots m);
    moved ← load slots last;
    slots ← store slots slot moved;
    moved ← load slots slot;
    l ← deref moved;
    c ← deref (h !! l);
    Ok (Manager (Some slots) (mg_count m) (mg_capacity m), <[l := set_slot slot c]> h).

Definition vr_connection_destroy (m : vr_connection_manager_t) (conn : option loc)
    (h : heap) (p : proc) : outcome (vr_result_t * vr_connection_manager_t * heap * proc) :=
  match conn with
  | None => Ok (VR_ERROR, m, h, p)
  | Some l =>
      c ← deref (h !! l);
      '(m, h) ← swap_last m (c_slot c) h;
      c ← deref (h !! l);
      Ok (VR_SUCCESS, Manager (mg_slots m) (u64 (mg_count m - 1)) (mg_capacity m),
          delete l h, free_connection c p)
  end.

End Operations.

(** ** The invariant *)

(** [m] manages exactly the objects [ls], in this order.  A manager whose array
    could not be allocated manages nothing. *)
Record manager_wf (m : vr_connection_manager_t) (ls : list loc) (h : heap) : Prop := {
  mw_array :
    match mg_slots m with
    | Some slots => mg_capacity m = zlen slots /\ take (length ls) slots = Some <$> ls
    | None => ls = []
    end;
  mw_count : mg_count m = zlen ls;
  mw_capacity : mg_capacity m <= 2 ^ 33;
  mw_objs : forall i l, ls !! i = Some l ->
    exists c, h !! l = Some c /\ c_slot c = Z.of_nat i
}.

(** The blocks a connection owns: itself and its two rings. *)
Definition conn_blocks (c : vr_connection_t) : Z :=
  1 + owned (rb_data (c_read_buf c)) + owned (rb_data (c_write_buf c)).

Definition heap_blocks (h : heap) : Z := map_fold (fun _ c n => conn_blocks c + n) 0 h.

(** The object [vr_connection_create] returns. *)
Definition new_connection (n : vr_net_conn_t) (slot : Z) : vr_connection_t :=
  set_slot slot (set_net_conn n zeroed_connection).

(** The list of objects after the [i]-th went away: the last takes its place. *)
Definition swap_remove {A} (i : nat) (ls : list A) : list A :=
  match last ls with
  | Some x => take (pred (length ls)) (<[i := x]> ls)
  | None => []
  end.

Lemma swap_remove_snoc {A} i (ls : list A) x :
  swap_remove i (ls ++ [x]) = if decide (i < length ls)%nat then <[i := x]> ls else ls.
Proof.
  unfold swap_remove. rewrite last_snoc, length_app. cbn [length].
  rewrite Nat.add_1_r. cbn [pred]. destruct (decide _).
  - rewrite insert_app_l by done. by rewrite take_app_length' by (by rewrite length_insert).
  - destruct (decide (i = length ls)) as [->|].
    + rewrite list_insert_id, take_app_length; [done|]. apply list_lookup_middle. done.
    + rewrite list_insert_ge by (rewrite length_app; simpl; lia). by rewrite take_app_length.
Qed.

Lemma swap_remove_Permutation {A} i (ls : list A) l :
  ls !! i = Some l -> l :: swap_remove i ls ≡ₚ ls.
Proof.
  destruct ls as [|x ls _] using rev_ind; [done|]. rewrite swap_remove_snoc. intros Hi.
  destruct (decide _) as [Hlt|Hge].
  - rewrite lookup_app_l in Hi by done.
    rewrite (insert_take_drop _ _ _ Hlt), <-Permutation_cons_append, <-Permutation_middle.
    rewrite Permutation_swap. f_equiv.
    by rewrite Permutation_middle, (take_drop_middle ls i l Hi).
  - apply lookup_app_Some in Hi as [Hi|[_ Hi]]; [by apply lookup_lt_Some in Hi|].
    destruct (i - length ls)%nat; [|done]. simplify_eq/=. apply Permutation_cons_append.
Qed.

Lemma swap_remove_set i (ls : list loc) l :
  NoDup ls -> ls !! i = Some l ->
  list_to_set (C := gset loc) (swap_remove i ls) = list_to_set ls ∖ {[l]}.
Proof.
  intros Hnd Hi. pose proof (swap_remove_Permutation i ls l Hi) as Hp.
  revert Hp. generalize (swap_remove i ls). intros ls' Hp.
  rewrite <-Hp in Hnd. apply NoDup_cons in Hnd as [Hn _]. apply set_eq. intros x.
  rewrite elem_of_difference, elem_of_singleton, !elem_of_list_to_set, <-Hp, elem_of_cons.
  split; [intros ?; split; [by right|by intros ->]|by intros [[?|?] ?]].
Qed.

Section ManagerFacts.
Implicit Types (h : heap) (ls : list loc).

Lemma mw_some m ls h slots :
  manager_wf m ls h -> mg_slots m = Some slots ->
  mg_capacity m = zlen slots /\ take (length ls) slots = Some <$> ls.
Proof. intros Hm Hs. pose proof (mw_array _ _ _ Hm) as Ha. by rewrite Hs in Ha. Qed.

Lemma mw_slots m ls h :
  manager_wf m ls h -> ls <> [] -> exists slots, mg_slots m = Some slots /\ mg_capacity m = zlen slots /\
    take (length ls) slots = Some <$> ls.
Proof.
  intros Hm Hne. pose proof (mw_array _ _ _ Hm) as Ha.
  destruct (mg_slots m) as [slots|]; [by exists slots|done].
Qed.

Lemma manager_NoDup m ls h : manager_wf m ls h -> NoDup ls.
Proof.
  intros Hm. apply NoDup_alt. intros i j l Hi Hj.
  destruct (mw_objs _ _ _ Hm i l Hi) as (c & Hc & Hs).
  destruct (mw_objs _ _ _ Hm j l Hj) as (c' & Hc' & Hs'). simplify_eq. lia.
Qed.

Lemma heap_blocks_insert h l c :
  h !! l = None -> heap_blocks (<[l := c]> h) = conn_blocks c + heap_blocks h.
Proof.
  intros Hl. unfold heap_blocks.
  rewrite (map_fold_insert_L (fun _ c n => conn_blocks c + n)); [done|intros; lia|done].
Qed.

Lemma heap_blocks_delete h l c :
  h !! l = Some c -> heap_blocks (delete l h) = heap_blocks h - conn_blocks c.
Proof.
  intros Hl. rewrite <-(insert_delete_id h l c Hl) at 2.
  rewrite heap_blocks_insert by apply lookup_delete_eq. lia.
Qed.

Lemma heap_blocks_update h l c c' :
  h !! l = Some c -> heap_blocks (<[l := c']> h) = heap_blocks h + conn_blocks c' - conn_blocks c.
Proof.
  intros Hl. rewrite <-insert_delete_eq, heap_blocks_insert by apply lookup_delete_eq.
  rewrite (heap_blocks_delete h l c Hl). lia.
Qed.

Lemma heap_blocks_empty : heap_blocks ∅ = 0.
Proof. apply map_fold_empty. Qed.

(** Changes of an object that leave its slot alone. *)
Lemma manager_wf_update m ls h l c c' :
  manager_wf m ls h -> h !! l = Some c -> c_slot c' = c_slot c ->
  manager_wf m ls (<[l := c']> h).
Proof.
  intros [Hs Hc Hcap Ho] Hl Hsl. constructor; [done|done|done|]. intros i l' Hi.
  destruct (decide (l = l')) as [->|Hne].
  - destruct (Ho i l' Hi) as (c0 & ? & ?). exists c'. rewrite lookup_insert_eq. simplify_eq.
    by rewrite Hsl.
  - rewrite lookup_insert_ne by done. by apply Ho.
Qed.

End ManagerFacts.

Section ManagerSpecs.
Context `{Libc} `{Abi}.
Implicit Types (h : heap) (ls : list loc) (m : vr_connection_manager_t) (p : proc).

Lemma alloc_obj_spec n p :
  match alloc_obj n p with
  | (true, p') => p_live p' = p_live p + 1
  | (false, p') => p_live p' = p_live p
  end.
Proof. unfold alloc_obj. by destruct (alloc_answer _ _). Qed.

Lemma manager_init_spec capacity p h :
  0 <= capacity <= 2 ^ 33 ->
  match vr_connection_manager_init capacity p with
  | (VR_SUCCESS, m, p') => manager_wf m [] h /\ is_Some (mg_slots m) /\ p_live p' = p_live p + 1
  | (_, m, p') => manager_wf m [] h /\ p_live p' = p_live p
  end.
Proof.
  intros Hc. unfold vr_connection_manager_init.
  rewrite (proj2 (Z.leb_gt _ _)) by (unfold sizeof_ptr; lia).
  pose proof (alloc_obj_spec (capacity * sizeof_ptr) p) as Ha.
  destruct (alloc_obj _ p) as [[] p']; simpl; (split_and!; [constructor; simpl; [|done|lia|done]|done..]); [|done].
  split; [|done]. unfold zlen. rewrite length_replicate. lia.
Qed.

(** The array after [manager_room] has room for one more pointer. *)
Lemma manager_room_spec m ls h slots p :
  manager_wf m ls h -> mg_slots m = Some slots -> zlen ls < 2 ^ 32 ->
  match manager_room m slots p with
  | (VR_SUCCESS, m', p') => manager_wf m' ls h /\ is_Some (mg_slots m') /\ zlen ls < mg_capacity m' /\
      p_live p' = p_live p
  | (VR_ERROR, m', p') => m' = m /\ p_live p' = p_live p
  | _ => False
  end.
Proof.
  intros Hm Hsl Hlen. pose proof (mw_count _ _ _ Hm) as Hcnt.
  destruct (mw_some _ _ _ _ Hm Hsl) as [Hcap Htake].
  assert (Hle : zlen ls <= zlen slots).
  { apply (f_equal length) in Htake. rewrite length_take, length_fmap in Htake.
    unfold zlen. lia. }
  unfold manager_room. destruct (Z.eqb_spec (mg_count m) (mg_capacity m)) as [E|E];
    [|split_and!; [done|by rewrite Hsl|lia|done]].
  set (nc := if mg_capacity m =? 0 then 16 else u64 (mg_capacity m * 2)).
  assert (Hnc : nc = if mg_capacity m =? 0 then 16 else mg_capacity m * 2).
  { unfold nc. case_match; [done|]. apply u64_id. pose proof (zlen_nonneg ls). lia. }
  clearbody nc. assert (zlen ls < nc <= 2 ^ 33).
  { rewrite Hnc. pose proof (zlen_nonneg ls).
    destruct (Z.eqb_spec (mg_capacity m) 0); lia. }
  unfold vr_util_array_extend, sizeof_ptr. rewrite u64_id by (pose proof (zlen_nonneg ls); lia).
  destruct (alloc_answer _ _); [|done]. rewrite Z.div_mul by lia.
  split_and!; [|done|simpl; lia|done]. constructor; simpl; [|done|lia|apply (mw_objs _ _ _ Hm)]. split.
  - unfold zlen in *. rewrite length_resize. lia.
  - rewrite take_resize_le by (unfold zlen in *; lia). rewrite <-Htake.
    rewrite resize_le by (unfold zlen in *; lia). done.
Qed.

Lemma store_take {A} (sl : list A) i x :
  0 <= i < zlen sl ->
  exists sl', store sl i x = Ok sl' /\ zlen sl' = zlen sl /\
    take (S (Z.to_nat i)) sl' = take (Z.to_nat i) sl ++ [x].
Proof.
  intros Hi. exists (<[Z.to_nat i := x]> sl). unfold store.
  rewrite (proj2 (in_range_true _ _ _)) by lia. split_and!; [done| |].
  - unfold zlen. by rewrite length_insert.
  - assert (Z.to_nat i < length sl)%nat by (unfold zlen in *; lia).
    rewrite (take_S_r _ _ x) by (by rewrite list_lookup_insert_eq).
    by rewrite take_insert_ge by lia.
Qed.

Lemma create_spec m ls h n p :
  manager_wf m ls h -> zlen ls < 2 ^ 32 ->
  exists r m' h' p', vr_connection_create m n h p = Ok (r, m', h', p') /\
    match r with
    | None => h' = h /\ manager_wf m' ls h /\ p_live p' = p_live p
    | Some l => (l ∉ dom h) /\ h' = <[l := new_connection n (zlen ls)]> h /\
        manager_wf m' (ls ++ [l]) h' /\ p_live p' = p_live p + 1
    end.
Proof.
  intros Hm Hlen. unfold vr_connection_create.
  destruct (mg_slots m) as [slots0|] eqn:Hsl; [|by do 4 eexists].
  pose proof (manager_room_spec m ls h slots0 p Hm Hsl Hlen) as Hroom.
  destruct (manager_room m slots0 p) as [[[] m1] p1]; try done;
    [|destruct Hroom as [-> ?]; by do 4 eexists].
  destruct Hroom as (Hm1 & [slots Hsl1] & Hroom & Hl1).
  pose proof (alloc_obj_spec sizeof_vr_connection_t p1) as Ha.
  pose proof (alloc_addr_fresh (p_next p1) (dom h)) as Hfresh.
  set (l := alloc_addr (p_next p1) (dom h)) in *.
  destruct (alloc_obj _ p1) as [[] p2]; [|do 4 eexists; split; [done|]; split_and!; [done|done|lia]].
  destruct (mw_some _ _ _ _ Hm1 Hsl1) as [Hcap Htake]. rewrite Hsl1. ostep.
  rewrite (mw_count _ _ _ Hm1). pose proof (zlen_nonneg ls).
  destruct (store_take slots (zlen ls) (Some l)) as (slots' & -> & Hlen' & Htake'); [lia|]. ostep.
  cbn [mg_count]. rewrite !u64_id by lia. do 4 eexists. split; [done|]. rewrite Z.add_simpl_r.
  split_and!; [done|done| |lia].
  constructor; simpl.
  - split; [lia|]. rewrite length_app, fmap_app. cbn [length fmap list_fmap].
    rewrite Nat.add_1_r. unfold zlen in Htake'. rewrite Nat2Z.id in Htake'. by rewrite Htake', Htake.
  - unfold zlen. rewrite length_app. simpl. lia.
  - apply (mw_capacity _ _ _ Hm1).
  - intros i l' Hi. apply lookup_app_Some in Hi as [Hi|[Hge Hi]].
    + destruct (mw_objs _ _ _ Hm i l' Hi) as (c & Hc & Hs). exists c.
      rewrite lookup_insert_ne; [done|]. intros ->. by apply Hfresh, elem_of_dom.
    + destruct (i - length ls)%nat eqn:Ei; [|done]. simplify_eq/=.
      rewrite lookup_insert_eq. eexists. split; [done|]. simpl. unfold zlen. lia.
Qed.

Lemma free_connection_live c p : p_live (free_connection c p) = p_live p - conn_blocks c.
Proof. unfold free_connection, conn_blocks. autorewrite with live. simpl. lia. Qed.

(** The pointers behind the [i]-th are the ones of the list. *)
Lemma manager_load m ls h slots i l :
  manager_wf m ls h -> mg_slots m = Some slots -> ls !! i = Some l ->
  slots !! i = Some (Some l) /\ load slots (Z.of_nat i) = Ok (Some l).
Proof.
  intros Hm Hs Hi. destruct (mw_some _ _ _ _ Hm Hs) as [_ Htake].
  assert (Hlk : slots !! i = Some (Some l)).
  { apply lookup_lt_Some in Hi as Hlt.
    rewrite <-(lookup_take_lt slots (length ls) i Hlt), Htake, list_lookup_fmap, Hi. done. }
  split; [done|]. apply load_ok; [lia|]. by rewrite Nat2Z.id.
Qed.

(** What [swap_last] leaves behind when the [i]-th object [l] goes away. *)
Record swapped m ls h (i : nat) (l : loc) m' h' : Prop := {
  sw_count : mg_count m' = mg_count m;
  sw_capacity : mg_capacity m' = mg_capacity m;
  sw_slots : exists slots', mg_slots m' = Some slots' /\ mg_capacity m = zlen slots' /\
    take (pred (length ls)) slots' = Some <$> swap_remove i ls;
  sw_victim : h' !! l = h !! l;
  sw_dom : dom h' = dom h;
  sw_blocks : heap_blocks h' = heap_blocks h;
  sw_others : forall l', set_slot 0 <$> h' !! l' = set_slot 0 <$> h !! l';
  sw_frame : forall l', l' ∉ ls -> h' !! l' = h !! l';
  sw_objs : forall j l', swap_remove i ls !! j = Some l' ->
    exists c, h' !! l' = Some c /\ c_slot c = Z.of_nat j
}.

Lemma swapped_last m ls x h :
  manager_wf m (ls ++ [x]) h -> swapped m (ls ++ [x]) h (length ls) x m h.
Proof.
  intros Hm. destruct (mw_slots _ _ _ Hm) as (slots & Hsl & Hcap & Htake); [by destruct ls|].
  constructor; try done; rewrite swap_remove_snoc, decide_False by lia.
  - exists slots. split_and!; [done|done|]. rewrite length_app, Nat.add_1_r. cbn [length pred].
    rewrite fmap_app, length_app in Htake. apply (f_equal (take (length ls))) in Htake.
    rewrite take_take, Nat.min_l in Htake by lia.
    by rewrite Htake, take_app_length' by (by rewrite length_fmap).
  - intros j l' Hj. apply (mw_objs _ _ _ Hm). by apply lookup_app_l_Some.
Qed.

Lemma swapped_move m ls x h i l slots c :
  manager_wf m (ls ++ [x]) h -> ls !! i = Some l -> mg_slots m = Some slots -> h !! x = Some c ->
  swapped m (ls ++ [x]) h i l
    (Manager (Some (<[i := Some x]> slots)) (mg_count m) (mg_capacity m))
    (<[x := set_slot (Z.of_nat i) c]> h).
Proof.
  intros Hm Hi Hsl Hx. apply lookup_lt_Some in Hi as Hlt.
  destruct (mw_some _ _ _ _ Hm Hsl) as [Hcap Htake].
  assert (Hnx : x ∉ ls).
  { apply manager_NoDup, NoDup_app in Hm as (_ & Hd & _). intros ?. by apply (Hd x); [|left]. }
  assert (Hlx : l <> x) by (intros ->; by apply list_elem_of_lookup_2, Hnx in Hi).
  constructor; try done; rewrite ?swap_remove_snoc, ?decide_True by lia; cbn [mg_slots].
  - eexists. split_and!; [done|by unfold zlen; rewrite length_insert|].
    rewrite length_app, Nat.add_1_r, list_fmap_insert. cbn [length pred].
    rewrite fmap_app, length_app in Htake. apply (f_equal (take (length ls))) in Htake.
    rewrite take_take, Nat.min_l, take_app_length' in Htake by (rewrite ?length_fmap; lia).
    by rewrite <-Htake, take_insert_lt by lia.
  - by rewrite lookup_insert_ne.
  - apply dom_insert_lookup_L. by exists c.
  - rewrite (heap_blocks_update h x c) by done. unfold conn_blocks. simpl. lia.
  - intros l'. destruct (decide (l' = x)) as [->|]; [by rewrite lookup_insert_eq, Hx|].
    by rewrite lookup_insert_ne.
  - intros l' Hl'. rewrite lookup_insert_ne; [done|]. intros ->. apply Hl'.
    apply elem_of_app. right. by left.
  - intros j l' Hj. destruct (decide (i = j)) as [->|Hne].
    + rewrite list_lookup_insert_eq in Hj by done. simplify_eq.
      rewrite lookup_insert_eq. by eexists.
    + rewrite list_lookup_insert_ne in Hj by done.
      rewrite lookup_insert_ne by (intros ->; by apply list_elem_of_lookup_2, Hnx in Hj).
      apply (mw_objs _ _ _ Hm). by apply lookup_app_l_Some.
Qed.

Lemma swap_last_spec m ls h i l :
  manager_wf m ls h -> ls !! i = Some l -> zlen ls <= 2 ^ 33 ->
  exists m' h', swap_last m (Z.of_nat i) h = Ok (m', h') /\ swapped m ls h i l m' h'.
Proof.
  intros Hm Hi Hmax. destruct ls as [|x ls _] using rev_ind; [done|].
  destruct (mw_slots _ _ _ Hm) as (slots & Hsl & Hcap & Htake); [by destruct ls|].
  assert (Hlen : zlen (ls ++ [x]) = Z.of_nat (length ls) + 1)
    by (unfold zlen; rewrite length_app; simpl; lia).
  unfold swap_last. rewrite (mw_count _ _ _ Hm), Hlen, Z.add_simpl_r, u64_id by lia.
  destruct (Z.eqb_spec (Z.of_nat i) (Z.of_nat (length ls))) as [E|E].
  { exists m, h. split; [done|]. assert (i = length ls) as -> by lia.
    rewrite list_lookup_middle in Hi by done. simplify_eq. by apply swapped_last. }
  apply lookup_lt_Some in Hi as Hlt. rewrite length_app in Hlt. cbn [length] in Hlt.
  rewrite lookup_app_l in Hi by lia. rewrite Hsl. ostep.
  destruct (manager_load m _ h slots (length ls) x Hm Hsl) as [_ ->];
    [by rewrite list_lookup_middle|]. ostep.
  assert (Hin : (i < length slots)%nat).
  { apply (f_equal length) in Htake. rewrite length_take, length_fmap, length_app in Htake.
    simpl in Htake. lia. }
  unfold store. rewrite (proj2 (in_range_true _ _ _)) by (unfold zlen; lia). ostep.
  rewrite Nat2Z.id, (load_ok _ (Z.of_nat i) (Some x))
    by (lia || by rewrite Nat2Z.id; apply list_lookup_insert_eq). ostep.
  destruct (mw_objs _ _ _ Hm (length ls) x) as (c & Hx & _); [by rewrite list_lookup_middle|].
  rewrite Hx. ostep. rewrite <-Hlen, <-(mw_count _ _ _ Hm).
  do 2 eexists. split; [done|]. by apply swapped_move.
Qed.

Lemma destroy_spec m ls h i l c p :
  manager_wf m ls h -> ls !! i = Some l -> h !! l = Some c -> zlen ls <= 2 ^ 33 ->
  exists m' h' p', vr_connection_destroy m (Some l) h p = Ok (VR_SUCCESS, m', h', p') /\
    manager_wf m' (swap_remove i ls) h' /\ dom h' = dom h ∖ {[l]} /\
    (forall l', l' <> l -> set_slot 0 <$> h' !! l' = set_slot 0 <$> h !! l') /\
    (forall l', l' ∉ ls -> h' !! l' = h !! l') /\
    heap_blocks h' = heap_blocks h - conn_blocks c /\
    p_live p' = p_live p - conn_blocks c.
Proof.
  intros Hm Hi Hl Hmax. unfold vr_connection_destroy. rewrite Hl. ostep.
  destruct (mw_objs _ _ _ Hm i l Hi) as (c' & Hl' & Hs). simplify_eq. rewrite Hs.
  destruct (swap_last_spec m ls h i l Hm Hi Hmax) as (m1 & h1 & -> & Hsw). ostep.
  rewrite (sw_victim _ _ _ _ _ _ _ Hsw), Hl. ostep. do 3 eexists. split; [done|].
  pose proof (swap_remove_Permutation i ls l Hi) as Hperm.
  assert (Hnl : l ∉ swap_remove i ls).
  { pose proof (manager_NoDup _ _ _ Hm) as Hnd. rewrite <-Hperm in Hnd.
    by apply NoDup_cons in Hnd as [? _]. }
  assert (Hlen : length ls = S (length (swap_remove i ls))) by (symmetry; apply (Permutation_length Hperm)).
  split_and!.
  - destruct Hsw as [Hc1 Hcap1 (sl & Hsl & Hz & Htk) _ _ _ _ _ Hobj].
    constructor; simpl.
    + rewrite Hsl, Hcap1. split; [done|]. by rewrite Hlen in Htk.
    + rewrite Hc1, (mw_count _ _ _ Hm). unfold zlen in *. rewrite u64_id; lia.
    + rewrite Hcap1. apply (mw_capacity _ _ _ Hm).
    + intros j l' Hj. rewrite lookup_delete_ne; [by apply Hobj|].
      intros <-. by apply list_elem_of_lookup_2, Hnl in Hj.
  - rewrite dom_delete_L. by rewrite (sw_dom _ _ _ _ _ _ _ Hsw).
  - intros l' Hne. rewrite lookup_delete_ne by done. apply (sw_others _ _ _ _ _ _ _ Hsw).
  - intros l' Hn. rewrite lookup_delete_ne; [by apply (sw_frame _ _ _ _ _ _ _ Hsw)|].
    intros <-. by apply list_elem_of_lookup_2, Hn in Hi.
  - rewrite (heap_blocks_delete h1 l c) by (by rewrite (sw_victim _ _ _ _ _ _ _ Hsw)).
    by rewrite (sw_blocks _ _ _ _ _ _ _ Hsw).
  - apply free_connection_live.
Qed.
End ManagerSpecs.

(** ** Everything a manager goes through

    [reachable capacity p0] are the states a program can bring a manager of
    initial capacity [capacity] into: it creates connections, destroys any
    connection that is allocated, and uses connections, which changes their
    buffers and the blocks they own but not the slot. *)

Section Reachable.
Context `{Libc} `{Abi}.

Definition mstate : Type := vr_connection_manager_t * heap * proc.

Inductive mgr_step : mstate -> mstate -> Prop :=
| step_create m h p n r m' h' p' :
    mg_count m < 2 ^ 32 ->
    vr_connection_create m n h p = Ok (r, m', h', p') ->
    mgr_step (m, h, p) (m', h', p')
| step_destroy m h p l c m' h' p' :
    h !! l = Some c ->
    vr_connection_destroy m (Some l) h p = Ok (VR_SUCCESS, m', h', p') ->
    mgr_step (m, h, p) (m', h', p')
| step_use m h p l c c' p' :
    h !! l = Some c -> c_slot c' = c_slot c ->
    p_live p' = p_live p + conn_blocks c' - conn_blocks c ->
    mgr_step (m, h, p) (m, <[l := c']> h, p').

Inductive reachable (capacity : Z) (p0 : proc) : mstate -> Prop :=
| reach_init m p :
    vr_connection_manager_init capacity p0 = (VR_SUCCESS, m, p) ->
    reachable capacity p0 (m, ∅, p)
| reach_step s s' :
    reachable capacity p0 s -> mgr_step s s' -> reachable capacity p0 s'.

Definition manager_inv (p0 : proc) (s : mstate) : Prop :=
  let '(m, h, p) := s in
  exists ls, manager_wf m ls h /\ is_Some (mg_slots m) /\ dom h = list_to_set ls /\
    p_live p = p_live p0 + 1 + heap_blocks h.

Lemma manager_bound m ls h : manager_wf m ls h -> zlen ls <= 2 ^ 33.
Proof.
  intros Hm. pose proof (mw_array _ _ _ Hm) as Ha. destruct (mg_slots m) as [sl|]; [|by subst].
  destruct Ha as [Hc Ht]. pose proof (mw_capacity _ _ _ Hm). apply (f_equal length) in Ht.
  rewrite length_take, length_fmap in Ht. unfold zlen in *. lia.
Qed.

(** Neither operation gives the array up. *)
Lemma create_array m n h p r m' h' p' :
  vr_connection_create m n h p = Ok (r, m', h', p') -> is_Some (mg_slots m) -> is_Some (mg_slots m').
Proof.
  unfold vr_connection_create, manager_room, vr_util_array_extend, store.
  intros Hc [slots Hs]. rewrite Hs in Hc.
  repeat (case_match; simplify_eq/=; rewrite ?Hs in *; cbn [deref mbind outcome_bind] in *); by eexists.
Qed.

Lemma destroy_array m l h p r m' h' p' :
  vr_connection_destroy m (Some l) h p = Ok (r, m', h', p') -> is_Some (mg_slots m) -> is_Some (mg_slots m').
Proof.
  unfold vr_connection_destroy, swap_last, deref, mbind, outcome_bind. intros Hd [slots Hs].
  rewrite Hs in Hd. repeat (case_match; simplify_eq/=); by eexists.
Qed.

Lemma manager_inv_step p0 s s' : manager_inv p0 s -> mgr_step s s' -> manager_inv p0 s'.
Proof.
  intros Hinv Hstep. destruct Hstep as [m h p n r m' h' p' Hcnt E|m h p l c m' h' p' Hl E
    |m h p l c c' p' Hl Hs Hp]; destruct Hinv as (ls & Hm & Har & Hdom & Hlive).
  - rewrite (mw_count _ _ _ Hm) in Hcnt.
    destruct (create_spec m ls h n p Hm Hcnt) as (r' & m1 & h1 & p1 & E' & Hr).
    rewrite E' in E. simplify_eq. destruct r as [l|]; simpl.
    + destruct Hr as (Hf & -> & Hm' & Hp'). exists (ls ++ [l]). split_and!; [done|by eapply create_array| |].
      { rewrite dom_insert_L, Hdom, list_to_set_app_L, list_to_set_singleton_L. apply union_comm_L. }
      rewrite heap_blocks_insert by (by apply not_elem_of_dom). rewrite Hp', Hlive.
      unfold conn_blocks. simpl. lia.
    + destruct Hr as (-> & Hm' & Hp'). exists ls. split_and!; [done|by eapply create_array|done|lia].
  - assert (Hin : l ∈ ls) by (rewrite <-(elem_of_list_to_set (C:=gset loc)), <-Hdom; by apply elem_of_dom).
    apply list_elem_of_lookup in Hin as [i Hi].
    destruct (destroy_spec m ls h i l c p Hm Hi Hl (manager_bound _ _ _ Hm))
      as (m1 & h1 & p1 & E' & Hm' & Hd & _ & _ & Hb & Hp'). rewrite E' in E. simplify_eq.
    exists (swap_remove i ls). split_and!; [done|by eapply destroy_array| |lia].
    rewrite Hd, Hdom. by rewrite (swap_remove_set i ls l (manager_NoDup _ _ _ Hm) Hi).
  - exists ls. split_and!; [by eapply manager_wf_update|done| |].
    + rewrite dom_insert_lookup_L by (by eexists). done.
    + rewrite (heap_blocks_update h l c c' Hl). lia.
Qed.

Lemma reachable_inv capacity p0 s :
  0 <= capacity <= 2 ^ 33 -> reachable capacity p0 s -> manager_inv p0 s.
Proof.
  intros Hc. induction 1 as [m p E|s s' _ IH Hs]; [|by eapply manager_inv_step].
  pose proof (manager_init_spec capacity p0 ∅ Hc) as Hi. rewrite E in Hi.
  destruct Hi as (Hm & Har & Hp). exists []. split_and!; [done|done|done|].
  rewrite heap_blocks_empty. lia.
Qed.

(** The teardown loop, from slot [i]. *)
Lemma destroy_slots_spec slots ls i h p :
  (forall j l, ls !! j = Some l -> slots !! (i + j)%nat = Some (Some l)) ->
  NoDup ls -> dom h = list_to_set ls ->
  exists p', destroy_slots (length ls) slots (Z.of_nat i) h p = Ok (∅, p') /\
    p_live p' = p_live p - heap_blocks h.
Proof.
  revert i h p. induction ls as [|l ls IH]; intros i h p Hs Hnd Hd; cbn [destroy_slots length].
  { exists p. assert (h = ∅) as -> by (by apply dom_empty_inv_L). split; [done|].
    rewrite heap_blocks_empty. lia. }
  apply NoDup_cons in Hnd as [Hn Hnd].
  rewrite (load_ok _ _ (Some l)) by (lia || rewrite Nat2Z.id; by rewrite <-(Hs 0%nat l) by done;
    rewrite Nat.add_0_r). ostep.
  assert (is_Some (h !! l)) as [c Hc] by (apply elem_of_dom; rewrite Hd; apply elem_of_list_to_set; left). rewrite Hc. ostep.
  destruct (IH (S i) (delete l h) (free_connection c p)) as (p' & E & Hp').
  - intros j l' Hj. rewrite <-(Hs (S j) l') by done. f_equal. lia.
  - done.
  - rewrite dom_delete_L, Hd. apply set_eq. intros x.
    rewrite elem_of_difference, !elem_of_list_to_set, elem_of_cons, elem_of_singleton.
    split; [by intros [[?|?] ?]|]. intros ?. split; [by right|by intros ->].
  - rewrite Nat2Z.inj_succ, <-Z.add_1_r in E. exists p'. split; [done|].
    rewrite Hp', (heap_blocks_delete h l c Hc), free_connection_live. lia.
Qed.
End Reachable.

(** ** Properties *)

Section Properties.
Context `{Libc} `{Abi}.

(** C9.  In every state a manager can reach, the first [count] entries of the
    array point to distinct allocated connections, each of which records its own
    index; no other connection is allocated; and the blocks the library has
    handed out are the array and the blocks the connections own: create, destroy
    and the growth of the array leak nothing and free nothing twice. *)
Theorem manager_invariant (capacity : Z) (p0 : proc) (m : vr_connection_manager_t) (h : heap)
  (p : proc) (Hc : 0 <= capacity <= 2 ^ 33) (Hr : reachable capacity p0 (m, h, p)) :
  exists slots ls, mg_slots m = Some slots /\ mg_count m = zlen ls /\
    zlen ls <= mg_capacity m /\ mg_capacity m = zlen slots /\
    take (Z.to_nat (mg_count m)) slots = Some <$> ls /\ NoDup ls /\
    dom h = list_to_set ls /\
    (forall i l, ls !! i = Some l -> exists c, h !! l = Some c /\ c_slot c = Z.of_nat i) /\
    p_live p = p_live p0 + 1 + heap_blocks h.
Proof.
  destruct (reachable_inv capacity p0 _ Hc Hr) as (ls & Hm & [slots Hs] & Hd & Hp).
  destruct (mw_some _ _ _ _ Hm Hs) as [Hcap Ht]. exists slots, ls.
  rewrite (mw_count _ _ _ Hm). replace (Z.to_nat (zlen ls)) with (length ls) by (unfold zlen; lia).
  split_and!; try done.
  - apply (f_equal length) in Ht. rewrite length_take, length_fmap in Ht. unfold zlen in *. lia.
  - by eapply manager_NoDup.
  - apply (mw_objs _ _ _ Hm).
Qed.

(** In every reachable state both operations run to completion: create
    never touches memory outside the array, and destroying any allocated
    connection removes that object and no other; the rest keep everything but
    possibly their index. *)
Lemma manager_progress (capacity : Z) (p0 : proc) (m : vr_connection_manager_t) (h : heap)
  (p : proc) (n : vr_net_conn_t) (l : loc) (c : vr_connection_t)
  (Hc : 0 <= capacity <= 2 ^ 33) (Hr : reachable capacity p0 (m, h, p))
  (Hn : mg_count m < 2 ^ 32) (Hl : h !! l = Some c) :
  (exists r m' h' p', vr_connection_create m n h p = Ok (r, m', h', p') /\
     match r with
     | Some l' => h !! l' = None /\ h' = <[l' := new_connection n (mg_count m)]> h
     | None => h' = h
     end) /\
  (exists m' h' p', vr_connection_destroy m (Some l) h p = Ok (VR_SUCCESS, m', h', p') /\
     h' !! l = None /\ mg_count m' = mg_count m - 1 /\
     forall l', l' <> l -> set_slot 0 <$> h' !! l' = set_slot 0 <$> h !! l').
Proof.
  destruct (reachable_inv capacity p0 _ Hc Hr) as (ls & Hm & _ & Hd & Hp).
  rewrite (mw_count _ _ _ Hm) in *. split.
  - destruct (create_spec m ls h n p Hm Hn) as (r & m' & h' & p' & -> & Hres).
    exists r, m', h', p'. split; [done|]. destruct r as [l'|]; [|apply Hres].
    destruct Hres as (Hf & -> & _). split; [by apply not_elem_of_dom|done].
  - assert (Hin : l ∈ ls) by (rewrite <-(elem_of_list_to_set (C:=gset loc)), <-Hd; by apply elem_of_dom).
    apply list_elem_of_lookup in Hin as [i Hi].
    destruct (destroy_spec m ls h i l c p Hm Hi Hl (manager_bound _ _ _ Hm))
      as (m' & h' & p' & -> & Hm' & Hdom & Ho & _). exists m', h', p'.
    split; [done|]. split_and!; [apply not_elem_of_dom; rewrite Hdom, elem_of_difference, elem_of_singleton;
      by intros []| |done].
    rewrite (mw_count _ _ _ Hm'). unfold zlen.
    rewrite <-(Permutation_length (swap_remove_Permutation i ls l Hi)). simpl. lia.
Qed.

(** C30. Tearing a manager down from any reachable state frees every connection
    with both rings and the array: no connection is left and the library has
    exactly the blocks it had before the manager was initialised. *)
Theorem manager_teardown (capacity : Z) (p0 : proc) (m : vr_connection_manager_t) (h : heap)
  (p : proc) (Hc : 0 <= capacity <= 2 ^ 33) (Hr : reachable capacity p0 (m, h, p)) :
  exists p', vr_connection_manager_destroy m h p = Ok (VR_SUCCESS, Manager None 0 0, ∅, p') /\
    p_live p' = p_live p0.
Proof.
  destruct (reachable_inv capacity p0 _ Hc Hr) as (ls & Hm & [slots Hs] & Hd & Hp).
  unfold vr_connection_manager_destroy.
  rewrite (mw_count _ _ _ Hm), Hs. unfold zlen. rewrite Nat2Z.id. cbn [default from_option id].
  destruct (destroy_slots_spec slots ls 0 h p) as (p' & E & Hp').
  - intros j l Hj. by destruct (manager_load m ls h slots j l Hm Hs Hj).
  - by eapply manager_NoDup.
  - done.
  - change (Z.of_nat 0) with 0 in E. rewrite E. ostep. eexists. split; [done|]. simpl. lia.
Qed.
End Properties.

(** ** Witnesses: a manager of capacity 1 that has to grow, three connections,
    the first of which is destroyed. *)

Section Witness.
#[local] Existing Instance gcc_abi.
#[local] Instance wl : Libc := libc_fill 0.

Definition fd_conn (fd : Z) : vr_net_conn_t := NetConn fd zeroed_sockaddr.

Definition grown : outcome mstate :=
  let '(_, m, p) := vr_connection_manager_init 1 proc0 in
  '(l, m, h, p) ← vr_connection_create m (fd_conn 5) ∅ p;
  '(_, m, h, p) ← vr_connection_create m (fd_conn 6) h p;
  '(_, m, h, p) ← vr_connection_create m (fd_conn 7) h p;
  '(_, m, h, p) ← vr_connection_destroy m l h p;
  Ok (m, h, p).

Lemma grown_reachable :
  exists m h p, grown = Ok (m, h, p) /\ reachable 1 proc0 (m, h, p) /\
    mg_count m = 2 /\ mg_capacity m = 4 /\ exists c, h !! 2%positive = Some c /\ c_fd c = 6.
Proof.
  do 3 eexists. split; [vm_compute; reflexivity|]. split_and!; try done.
  - eapply reach_step; [eapply reach_step; [eapply reach_step; [eapply reach_step|]|]|].
    + by apply reach_init.
    + apply (step_create _ _ _ (fd_conn 5) (Some 1%positive)); [done|vm_compute; reflexivity].
    + apply (step_create _ _ _ (fd_conn 6) (Some 2%positive)); [done|vm_compute; reflexivity].
    + apply (step_create _ _ _ (fd_conn 7) (Some 3%positive)); [done|vm_compute; reflexivity].
    + eapply (step_destroy _ _ _ 1%positive); [vm_compute; reflexivity|vm_compute; reflexivity].
  - eexists. split; [vm_compute; reflexivity|done].
Qed.

Lemma manager_invariant_witness :
  exists m h p slots ls, grown = Ok (m, h, p) /\ mg_slots m = Some slots /\ mg_count m = 2 /\
    take 2 slots = Some <$> ls /\ NoDup ls /\ dom h = list_to_set ls.
Proof.
  destruct grown_reachable as (m & h & p & E & Hr & Hn & _).
  destruct (manager_invariant 1 proc0 m h p ltac:(lia) Hr)
    as (slots & ls & Hs & _ & _ & _ & Ht & Hnd & Hd & _).
  exists m, h, p, slots, ls. rewrite Hn in Ht. by split_and!.
Defined.

Lemma manager_teardown_witness :
  exists m h p p', grown = Ok (m, h, p) /\
    vr_connection_manager_destroy m h p = Ok (VR_SUCCESS, Manager None 0 0, ∅, p') /\
    p_live p' = 0.
Proof.
  destruct grown_reachable as (m & h & p & E & Hr & _).
  destruct (manager_teardown 1 proc0 m h p ltac:(lia) Hr) as (p' & Hd & Hp).
  exists m, h, p, p'. by split_and!.
Defined.
End Witness.
