(* ===== verification/World.v ===== *)
(** * World: the operating system, the program's state, and programs over it

    The kernel is a parameter: [Kernel] lists the system calls src/net and
    src/event_loop make, each an arbitrary function of an abstract kernel state.
    [KernelLaws] states what the manual pages promise about them in terms of what
    a process can observe of the kernel ([kview]): which descriptors are open,
    what each epoll instance watches, and the bytes accepted from and delivered
    to each descriptor.  [world] puts the kernel state beside the program's own
    state; [io] is the monad of programs over it, [wp] total correctness and
    [wlp] correctness up to running out of fuel. *)

From S2P Require Import Prelude Core Connection.
#[local] Open Scope Z_scope.

(** ** Constants of the system headers *)

Definition EPOLLIN : Z := 1.
Definition EPOLLOUT : Z := 4.
Definition EPOLLET : Z := Z.shiftl 1 31.
Definition MSG_NOSIGNAL : Z := 16384.
Definition AF_INET : Z := 2.
Definition INADDR_ANY : Z := 0.
Definition O_NONBLOCK : Z := 2048.

(** ** The system calls *)

(** A call returns a value, or -1 with an error number. *)
Inductive answer (A : Type) := Done (x : A) | Fail (e : Z).
Arguments Done {A} _.
Arguments Fail {A} _.

(** The operations of epoll_ctl with the event they pass. *)
Inductive ctl_op :=
| EPOLL_CTL_ADD (events : Z) (ptr : loc)
| EPOLL_CTL_DEL
| EPOLL_CTL_MOD (events : Z) (ptr : loc).

Class Kernel := {
  kst : Type;
  (** socket(AF_INET, SOCK_STREAM, IPPROTO_TCP) *)
  k_socket : kst -> answer Z * kst;
  (** setsockopt(fd, SOL_SOCKET, SO_REUSEADDR, 1) *)
  k_reuseaddr : Z -> kst -> answer unit * kst;
  k_bind : Z -> sockaddr_in -> kst -> answer unit * kst;
  k_listen : Z -> kst -> answer unit * kst;
  k_accept : Z -> kst -> answer (Z * sockaddr_in) * kst;
  (** recv(fd, buf, len) and recvmsg(fd, iov) with [len] bytes of room in all:
      the bytes delivered; none at the end of the stream *)
  k_recv : Z -> Z -> kst -> answer (list Z) * kst;
  (** send(fd, bytes, flags): how many were accepted *)
  k_send : Z -> list Z -> Z -> kst -> answer Z * kst;
  k_getfl : Z -> kst -> answer Z * kst;
  k_setfl : Z -> Z -> kst -> answer unit * kst;
  k_close : Z -> kst -> answer unit * kst;
  k_epoll_create1 : kst -> answer Z * kst;
  k_epoll_ctl : Z -> ctl_op -> Z -> kst -> answer unit * kst;
  (** epoll_wait(epfd, events, maxevents, timeout): events with their user data *)
  k_epoll_wait : Z -> Z -> Z -> kst -> answer (list (Z * loc)) * kst;
  (** inet_ntop(sin_family, sin_addr, ...) succeeds *)
  k_inet_ntop : sockaddr_in -> bool;
  (** SIGINT or SIGTERM has been delivered *)
  k_signalled : kst -> bool;
  (** what writing a log line leaves in errno; the release build writes none *)
  k_log_errno : Z -> Z
}.

(** What a process can observe of the kernel. *)
Record kview := KView {
  v_open : gset Z;                          (* open descriptors *)
  v_epoll : gmap Z (gmap Z loc);            (* epoll instance -> fd -> user data *)
  v_sent : gmap Z (list Z);                 (* bytes accepted by send, per fd *)
  v_rcvd : gmap Z (list Z)                  (* bytes delivered by recv, per fd *)
}.

Definition log_of (m : gmap Z (list Z)) (fd : Z) : list Z := default [] (m !! fd).
Definition log_add (fd : Z) (bs : list Z) (m : gmap Z (list Z)) : gmap Z (list Z) :=
  <[fd := log_of m fd ++ bs]> m.

(** The bytes received and sent through a descriptor. *)
Definition traffic (v : kview) (fd : Z) : list Z * list Z := (log_of (v_rcvd v) fd, log_of (v_sent v) fd).

(** Nothing passed through any descriptor but [fd]. *)
Definition quiet (fd : Z) (v v' : kview) : Prop :=
  forall fd', fd' <> fd -> traffic v' fd' = traffic v fd'.

Lemma quiet_trans fd v1 v2 v3 : quiet fd v1 v2 -> quiet fd v2 v3 -> quiet fd v1 v3.
Proof. intros H12 H23 fd' Hne. by rewrite H23, H12. Qed.

Definition v_opened (fd : Z) (v : kview) : kview :=
  KView ({[fd]} ∪ v_open v) (v_epoll v) (<[fd := []]> (v_sent v)) (<[fd := []]> (v_rcvd v)).
Definition v_closed (fd : Z) (v : kview) : kview :=
  KView (v_open v ∖ {[fd]}) (delete fd <$> delete fd (v_epoll v)) (v_sent v) (v_rcvd v).
Definition v_received (fd : Z) (bs : list Z) (v : kview) : kview :=
  KView (v_open v) (v_epoll v) (v_sent v) (log_add fd bs (v_rcvd v)).
Definition v_accepted (fd : Z) (bs : list Z) (v : kview) : kview :=
  KView (v_open v) (v_epoll v) (log_add fd bs (v_sent v)) (v_rcvd v).
Definition v_ctl (ep : Z) (op : ctl_op) (fd : Z) (v : kview) : kview :=
  let change := match op with
    | EPOLL_CTL_ADD _ ptr | EPOLL_CTL_MOD _ ptr => <[fd := ptr]>
    | EPOLL_CTL_DEL => delete fd
    end in
  KView (v_open v) (alter change ep (v_epoll v)) (v_sent v) (v_rcvd v).
Definition v_epoll_opened (fd : Z) (v : kview) : kview :=
  KView ({[fd]} ∪ v_open v) (<[fd := ∅]> (v_epoll v)) (v_sent v) (v_rcvd v).

Class KernelLaws `{Kernel} := {
  k_view : kst -> kview;
  (** descriptors are non-negative ints *)
  law_range k fd : fd ∈ v_open (k_view k) -> 0 <= fd < 2 ^ 31;
  law_socket k : match k_socket k with
    | (Done fd, k') => (fd ∉ v_open (k_view k)) /\ k_view k' = v_opened fd (k_view k)
    | (Fail _, k') => k_view k' = k_view k end;
  law_epoll_create1 k : match k_epoll_create1 k with
    | (Done fd, k') => (fd ∉ v_open (k_view k)) /\ k_view k' = v_epoll_opened fd (k_view k)
    | (Fail _, k') => k_view k' = k_view k end;
  law_accept k fd : match k_accept fd k with
    | (Done (nfd, addr), k') => (nfd ∉ v_open (k_view k)) /\ k_view k' = v_opened nfd (k_view k)
    | (Fail _, k') => k_view k' = k_view k end;
  law_recv k fd len : match k_recv fd len k with
    | (Done bs, k') => Forall is_byte bs /\ zlen bs <= Z.max 0 len /\
        k_view k' = v_received fd bs (k_view k)
    | (Fail _, k') => k_view k' = k_view k end;
  law_send k fd bs flags : match k_send fd bs flags k with
    | (Done n, k') => 0 <= n <= zlen bs /\
        k_view k' = v_accepted fd (take (Z.to_nat n) bs) (k_view k)
    | (Fail _, k') => k_view k' = k_view k end;
  (** the descriptor is released even when close reports an error *)
  law_close k fd : k_view (k_close fd k).2 = v_closed fd (k_view k);
  law_epoll_ctl k ep op fd : match k_epoll_ctl ep op fd k with
    | (Done _, k') => k_view k' = v_ctl ep op fd (k_view k)
    | (Fail _, k') => k_view k' = k_view k end;
  (** at most [maxevents] events, of distinct watched descriptors *)
  law_epoll_wait k ep max timeout : k_view (k_epoll_wait ep max timeout k).2 = k_view k /\
    forall evs, (k_epoll_wait ep max timeout k).1 = Done evs ->
      zlen evs <= max /\ exists fds interest, v_epoll (k_view k) !! ep = Some interest /\
        NoDup fds /\ Forall2 (fun fd ev => interest !! fd = Some ev.2) fds evs;
  law_reuseaddr k fd : k_view (k_reuseaddr fd k).2 = k_view k;
  (** EBADF *)
  law_reuseaddr_badf k fd : fd ∉ v_open (k_view k) -> exists e, (k_reuseaddr fd k).1 = Fail e;
  law_bind k fd a : k_view (k_bind fd a k).2 = k_view k;
  law_listen k fd : k_view (k_listen fd k).2 = k_view k;
  law_getfl k fd : k_view (k_getfl fd k).2 = k_view k;
  law_setfl k fd fl : k_view (k_setfl fd fl k).2 = k_view k
}.

(** ** The program's state *)

(** [vr_reactor_t]. *)
Record vr_reactor_t := Reactor { re_epoll_fd : Z; re_events : list (Z * loc); re_ready : Z }.

Section World.
Context `{Kernel}.

Record world := World {
  w_kern : kst;
  w_proc : proc;
  w_heap : heap;
  w_mgr : vr_connection_manager_t;
  w_reactor : vr_reactor_t
}.

Definition io (A : Type) : Type := world -> outcome (A * world).

#[global] Instance io_ret : MRet io := fun A x w => Ok (x, w).
#[global] Instance io_bind : MBind io := fun A B k m w =>
  match m w with
  | Ok (x, w') => k x w'
  | Undef => Undef
  | NoFuel => NoFuel
  end.

Definition set_kern (k : kst) (w : world) : world :=
  World k (w_proc w) (w_heap w) (w_mgr w) (w_reactor w).
Definition set_proc (p : proc) (w : world) : world :=
  World (w_kern w) p (w_heap w) (w_mgr w) (w_reactor w).
Definition set_heap (h : heap) (w : world) : world :=
  World (w_kern w) (w_proc w) h (w_mgr w) (w_reactor w).
Definition set_mgr (m : vr_connection_manager_t) (w : world) : world :=
  World (w_kern w) (w_proc w) (w_heap w) m (w_reactor w).
Definition set_reactor (r : vr_reactor_t) (w : world) : world :=
  World (w_kern w) (w_proc w) (w_heap w) (w_mgr w) r.

Definition out_of_fuel {A} : io A := fun _ => NoFuel.

(** A system call: the value, or nothing and errno. *)
Definition syscall {A} (f : kst -> answer A * kst) : io (option A) := fun w =>
  match f (w_kern w) with
  | (Done x, k) => Ok (Some x, set_kern k w)
  | (Fail e, k) => Ok (None, set_proc (set_errno e (w_proc w)) (set_kern k w))
  end.

Definition get_errno : io Z := fun w => Ok (p_errno (w_proc w), w).
Definition put_errno (e : Z) : io unit := fun w => Ok (tt, set_proc (set_errno e (w_proc w)) w).

(** [vr_perror] and [vr_log], as far as they matter here: errno. *)
Definition vr_log : io unit := fun w =>
  Ok (tt, set_proc (set_errno (k_log_errno (p_errno (w_proc w))) (w_proc w)) w).
Definition vr_perror : io unit := vr_log.

(** Operations on the allocator's state. *)
Definition with_proc {A} (f : proc -> A * proc) : io A := fun w =>
  let '(x, p) := f (w_proc w) in Ok (x, set_proc p w).
Definition try_proc {A} (f : proc -> outcome (A * proc)) : io A := fun w =>
  match f (w_proc w) with
  | Ok (x, p) => Ok (x, set_proc p w)
  | Undef => Undef
  | NoFuel => NoFuel
  end.
Definition lift {A} (m : outcome A) : io A := fun w =>
  match m with Ok x => Ok (x, w) | Undef => Undef | NoFuel => NoFuel end.

(** [*l] and [*l = c]: undefined when [l] is not an allocated object. *)
Definition get_conn (l : loc) : io vr_connection_t := fun w =>
  match w_heap w !! l with Some c => Ok (c, w) | None => Undef end.
Definition put_conn (l : loc) (c : vr_connection_t) : io unit := fun w =>
  match w_heap w !! l with
  | Some _ => Ok (tt, set_heap (<[l := c]> (w_heap w)) w)
  | None => Undef
  end.

Definition get_reactor : io vr_reactor_t := fun w => Ok (w_reactor w, w).
Definition put_reactor (r : vr_reactor_t) : io unit := fun w => Ok (tt, set_reactor r w).
Definition get_mgr : io vr_connection_manager_t := fun w => Ok (w_mgr w, w).

(** The manager's operations, on the state they share. *)
Definition with_mgr {A}
    (f : vr_connection_manager_t -> heap -> proc -> outcome (A * vr_connection_manager_t * heap * proc))
    : io A := fun w =>
  match f (w_mgr w) (w_heap w) (w_proc w) with
  | Ok (x, m, h, p) => Ok (x, World (w_kern w) p h m (w_reactor w))
  | Undef => Undef
  | NoFuel => NoFuel
  end.

(** ** Correctness *)

(** [m] returns, in a state where [Q] holds. *)
Definition wp {A} (m : io A) (Q : A -> world -> Prop) (w : world) : Prop :=
  match m w with Ok (x, w') => Q x w' | Undef | NoFuel => False end.

(** [m] does nothing undefined and, if its fuel is enough, [Q] holds. *)
Definition wlp {A} (m : io A) (Q : A -> world -> Prop) (w : world) : Prop :=
  match m w with Ok (x, w') => Q x w' | Undef => False | NoFuel => True end.

(** One or the other. *)
Definition wx (total : bool) {A} (m : io A) (Q : A -> world -> Prop) (w : world) : Prop :=
  if total then wp m Q w else wlp m Q w.

End World.

#[global] Arguments io {_} _%_type_scope.

Section Rules.
Context `{Kernel}.
Context {A B : Type}.
Implicit Types (m : io A) (Q : A -> world -> Prop) (w : world).

Lemma wp_ret x Q w : Q x w -> wp (mret x) Q w.
Proof. done. Qed.

Lemma wp_bind m (k : A -> io B) (R : B -> world -> Prop) w :
  wp m (fun x w' => wp (k x) R w') w -> wp (m ≫= k) R w.
Proof. unfold wp, mbind, io_bind. destruct (m w) as [[x w']| |]; done. Qed.

Lemma wp_mono m Q Q' w : wp m Q w -> (forall x w', Q x w' -> Q' x w') -> wp m Q' w.
Proof. unfold wp. destruct (m w) as [[x w']| |]; auto. Qed.

Lemma wp_syscall (f : kst -> answer A * kst) (Q : option A -> world -> Prop) w :
  match f (w_kern w) with
  | (Done x, k) => Q (Some x) (set_kern k w)
  | (Fail e, k) => Q None (set_proc (set_errno e (w_proc w)) (set_kern k w))
  end -> wp (syscall f) Q w.
Proof. unfold wp, syscall. destruct (f _) as [[|] ?]; done. Qed.

Lemma wp_with_proc (f : proc -> A * proc) Q w :
  (let '(x, p) := f (w_proc w) in Q x (set_proc p w)) -> wp (with_proc f) Q w.
Proof. unfold wp, with_proc. by destruct (f _). Qed.

Lemma wp_try_proc (f : proc -> outcome (A * proc)) Q w x p :
  f (w_proc w) = Ok (x, p) -> Q x (set_proc p w) -> wp (try_proc f) Q w.
Proof. intros E. unfold wp, try_proc. by rewrite E. Qed.

Lemma wp_lift (o : outcome A) Q w x : o = Ok x -> Q x w -> wp (lift o) Q w.
Proof. by intros ->. Qed.

Lemma wp_with_mgr f Q w x mg h p :
  f (w_mgr w) (w_heap w) (w_proc w) = Ok (x, mg, h, p) ->
  Q x (World (w_kern w) p h mg (w_reactor w)) -> wp (with_mgr f) Q w.
Proof. intros E. unfold wp, with_mgr. by rewrite E. Qed.

Lemma wlp_ret x Q w : Q x w -> wlp (mret x) Q w.
Proof. done. Qed.

Lemma wlp_bind m (k : A -> io B) (R : B -> world -> Prop) w :
  wlp m (fun x w' => wlp (k x) R w') w -> wlp (m ≫= k) R w.
Proof. unfold wlp, mbind, io_bind. destruct (m w) as [[x w']| |]; done. Qed.

Lemma wlp_mono m Q Q' w : wlp m Q w -> (forall x w', Q x w' -> Q' x w') -> wlp m Q' w.
Proof. unfold wlp. destruct (m w) as [[x w']| |]; auto. Qed.

Lemma wp_wlp m Q w : wp m Q w -> wlp m Q w.
Proof. unfold wp, wlp. by destruct (m w) as [[x w']| |]. Qed.

Lemma wp_wx total m Q w : wp m Q w -> wx total m Q w.
Proof. destruct total; [done|apply wp_wlp]. Qed.

Lemma wx_ret total x Q w : Q x w -> wx total (mret x) Q w.
Proof. by destruct total. Qed.

Lemma wx_bind total m (k : A -> io B) (R : B -> world -> Prop) w :
  wx total m (fun x w' => wx total (k x) R w') w -> wx total (m ≫= k) R w.
Proof. destruct total; [apply wp_bind|apply wlp_bind]. Qed.

Lemma wx_mono total m Q Q' w : wx total m Q w -> (forall x w', Q x w' -> Q' x w') -> wx total m Q' w.
Proof. destruct total; [apply wp_mono|apply wlp_mono]. Qed.
End Rules.

Section ConnRules.
Context `{Kernel}.

Lemma wp_get_conn l c (Q : vr_connection_t -> world -> Prop) w :
  w_heap w !! l = Some c -> Q c w -> wp (get_conn l) Q w.
Proof. intros E. unfold wp, get_conn. by rewrite E. Qed.

Lemma wp_put_conn l c c' (Q : unit -> world -> Prop) w :
  w_heap w !! l = Some c -> Q tt (set_heap (<[l := c']> (w_heap w)) w) -> wp (put_conn l c') Q w.
Proof. intros E. unfold wp, put_conn. by rewrite E. Qed.
End ConnRules.

(** Steps through a program: binds and the operations that cannot fail. *)
Ltac io_step :=
  repeat first
    [ apply wp_bind
    | apply wp_ret
    | progress change (wp get_errno) with
        (fun (Q : Z -> world -> Prop) w => Q (p_errno (w_proc w)) w)
    | progress cbv beta ].

(** Projections of the state after an operation. *)
Ltac world_simpl :=
  cbn [w_kern w_proc w_heap w_mgr w_reactor set_kern set_proc set_heap set_mgr set_reactor
       p_live p_errno p_next set_errno] in *.
