(* ===== verification/Sim.v ===== *)
(** * Sim: a kernel that follows a script

    A concrete instance of [Kernel] with its laws proved.  It shows that the laws
    can hold, and the witnesses of the theorems about the network code run on it.
    Each descriptor has bytes waiting to be received and a number of bytes it is
    willing to take; epoll_wait answers from a list of prepared event sets and
    reports an interrupting signal when the list is used up. *)

From S2P Require Import Prelude Core Connection World.
#[local] Open Scope Z_scope.

Record sim := Sim {
  sm_open : gset Z;
  sm_epoll : gmap Z (gmap Z loc);
  sm_sent : gmap Z (list Z);
  sm_rcvd : gmap Z (list Z);
  sm_next : Z;                      (* the next descriptor number *)
  sm_backlog : list sockaddr_in;    (* connections waiting to be accepted *)
  sm_rx : gmap Z (list Z);          (* bytes waiting, per descriptor *)
  sm_eof : gset Z;                  (* descriptors whose peer has finished *)
  sm_room : gmap Z Z;               (* bytes send will still accept *)
  sm_script : list (gmap Z Z)       (* fd -> events, per epoll_wait *)
}.

Definition sim_start (next : Z) (backlog : list sockaddr_in) (rx : gmap Z (list Z))
    (eof : gset Z) (room : gmap Z Z) (script : list (gmap Z Z)) : sim :=
  Sim ∅ ∅ ∅ ∅ next backlog rx eof room script.

Definition fd_range (fd : Z) : Prop := 0 <= fd < 2 ^ 31.
#[global] Instance fd_range_dec fd : Decision (fd_range fd).
Proof. unfold fd_range. apply _. Defined.

Definition sim_view (s : sim) : kview :=
  KView (filter fd_range (sm_open s)) (sm_epoll s) (sm_sent s) (sm_rcvd s).

(** Replace what the process can observe. *)
Definition sim_obs (op : gset Z) (ep : gmap Z (gmap Z loc)) (se rc : gmap Z (list Z)) (next : Z)
    (s : sim) : sim :=
  Sim op ep se rc next (sm_backlog s) (sm_rx s) (sm_eof s) (sm_room s) (sm_script s).

Definition EMFILE : Z := 24.
Definition EBADF : Z := 9.
Definition EINVAL : Z := 22.

(** A new descriptor, as [f] makes it. *)
Definition sim_new_fd (f : Z -> sim -> sim) (s : sim) : answer Z * sim :=
  let fd := sm_next s in
  if decide (fd_range fd /\ fd ∉ sm_open s) then (Done fd, f fd s) else (Fail EMFILE, s).

Definition sim_opened (fd : Z) (s : sim) : sim :=
  sim_obs ({[fd]} ∪ sm_open s) (sm_epoll s) (<[fd := []]> (sm_sent s)) (<[fd := []]> (sm_rcvd s))
    (fd + 1) s.
Definition sim_epoll_opened (fd : Z) (s : sim) : sim :=
  sim_obs ({[fd]} ∪ sm_open s) (<[fd := ∅]> (sm_epoll s)) (sm_sent s) (sm_rcvd s) (fd + 1) s.
Definition sim_close (fd : Z) (s : sim) : answer unit * sim :=
  (Done tt, sim_obs (sm_open s ∖ {[fd]}) (delete fd <$> delete fd (sm_epoll s)) (sm_sent s)
    (sm_rcvd s) (sm_next s) s).

Definition sim_accept (fd : Z) (s : sim) : answer (Z * sockaddr_in) * sim :=
  match sm_backlog s with
  | [] => (Fail EAGAIN, s)
  | addr :: rest =>
      match sim_new_fd sim_opened s with
      | (Done nfd, s) =>
          (Done (nfd, addr), Sim (sm_open s) (sm_epoll s) (sm_sent s) (sm_rcvd s) (sm_next s) rest
             (sm_rx s) (sm_eof s) (sm_room s) (sm_script s))
      | (Fail e, s) => (Fail e, s)
      end
  end.

Definition sim_recv (fd len : Z) (s : sim) : answer (list Z) * sim :=
  let waiting := default [] (sm_rx s !! fd) in
  let bs := u8 <$> take (Z.to_nat len) waiting in
  match waiting with
  | [] =>
      if decide (fd ∈ sm_eof s) then
        (Done [], sim_obs (sm_open s) (sm_epoll s) (sm_sent s) (log_add fd [] (sm_rcvd s)) (sm_next s) s)
      else (Fail EAGAIN, s)
  | _ =>
      (Done bs, Sim (sm_open s) (sm_epoll s) (sm_sent s) (log_add fd bs (sm_rcvd s)) (sm_next s)
         (sm_backlog s) (<[fd := drop (Z.to_nat len) waiting]> (sm_rx s)) (sm_eof s) (sm_room s)
         (sm_script s))
  end.

Definition sim_send (fd : Z) (bs : list Z) (flags : Z) (s : sim) : answer Z * sim :=
  let n := Z.min (default 0 (sm_room s !! fd)) (zlen bs) in
  if n <=? 0 then (Fail EAGAIN, s)
  else (Done n, Sim (sm_open s) (sm_epoll s) (log_add fd (take (Z.to_nat n) bs) (sm_sent s))
          (sm_rcvd s) (sm_next s) (sm_backlog s) (sm_rx s) (sm_eof s)
          (<[fd := default 0 (sm_room s !! fd) - n]> (sm_room s)) (sm_script s)).

Definition sim_epoll_ctl (ep : Z) (op : ctl_op) (fd : Z) (s : sim) : answer unit * sim :=
  let v := v_ctl ep op fd (sim_view s) in
  (Done tt, sim_obs (sm_open s) (v_epoll v) (sm_sent s) (sm_rcvd s) (sm_next s) s).

(** The scripted events of descriptors that are watched. *)
Definition sim_events (interest : gmap Z loc) (evs : gmap Z Z) : list (Z * (Z * loc)) :=
  omap (fun '(fd, ev) => (fun l => (fd, (ev, l))) <$> interest !! fd) (map_to_list evs).

Definition sim_epoll_wait (ep max timeout : Z) (s : sim) : answer (list (Z * loc)) * sim :=
  match sm_epoll s !! ep, sm_script s with
  | Some interest, evs :: rest =>
      if max <=? 0 then (Fail EINVAL, s) else
      (Done (take (Z.to_nat max) (sim_events interest evs)).*2,
       Sim (sm_open s) (sm_epoll s) (sm_sent s) (sm_rcvd s) (sm_next s) (sm_backlog s) (sm_rx s)
         (sm_eof s) (sm_room s) rest)
  | Some _, [] => (Fail EINTR, s)
  | None, _ => (Fail EBADF, s)
  end.

Definition sim_kernel : Kernel := {|
  kst := sim;
  k_socket := sim_new_fd sim_opened;
  k_reuseaddr := fun fd s =>
    if decide (fd_range fd /\ fd ∈ sm_open s) then (Done tt, s) else (Fail EBADF, s);
  k_bind := fun _ _ s => (Done tt, s);
  k_listen := fun _ s => (Done tt, s);
  k_accept := sim_accept;
  k_recv := sim_recv;
  k_send := sim_send;
  k_getfl := fun _ s => (Done 2, s);
  k_setfl := fun _ _ s => (Done tt, s);
  k_close := sim_close;
  k_epoll_create1 := sim_new_fd sim_epoll_opened;
  k_epoll_ctl := sim_epoll_ctl;
  k_epoll_wait := sim_epoll_wait;
  k_inet_ntop := fun a => sin_family a =? AF_INET;
  k_signalled := fun s => match sm_script s with [] => true | _ => false end;
  k_log_errno := fun e => e
|}.

(** ** The laws *)

Lemma sim_view_open fd s :
  fd_range fd -> filter fd_range ({[fd]} ∪ sm_open s) = {[fd]} ∪ filter fd_range (sm_open s).
Proof.
  intros Hr. apply set_eq. intros x.
  rewrite elem_of_union, !elem_of_filter, elem_of_union, elem_of_singleton.
  split; [tauto|]. intros [-> |?]; tauto.
Qed.

Lemma sim_new_fd_ok f g s :
  (forall fd, fd_range fd -> sim_view (f fd s) = g fd (sim_view s)) ->
  match sim_new_fd f s with
  | (Done fd, s') => (fd ∉ v_open (sim_view s)) /\ sim_view s' = g fd (sim_view s)
  | (Fail _, s') => sim_view s' = sim_view s
  end.
Proof.
  intros Hf. unfold sim_new_fd. destruct (decide _) as [[Hr Hn]|]; [|done].
  split; [|by apply Hf]. simpl. rewrite elem_of_filter. by intros [_ ?].
Qed.

Lemma sim_opened_view fd s : fd_range fd -> sim_view (sim_opened fd s) = v_opened fd (sim_view s).
Proof. intros. unfold sim_view, sim_opened, v_opened. simpl. by rewrite sim_view_open. Qed.

Lemma sim_events_ok interest evs n :
  let l := take n (sim_events interest evs) in
  NoDup l.*1 /\ Forall2 (fun fd ev => interest !! fd = Some ev.2) l.*1 l.*2.
Proof.
  unfold sim_events. pose proof (NoDup_fst_map_to_list evs) as Hnd.
  revert Hnd. generalize (map_to_list evs). intros kvs Hnd.
  assert (Hsub : forall kvs, (omap (fun '(fd, ev) => (fun l => (fd, (ev, l))) <$> interest !! fd)
    kvs : list (Z * (Z * loc))).*1 `sublist_of` kvs.*1).
  { clear. intros kvs. induction kvs as [|[fd ev] kvs IH]; [done|]. simpl.
    destruct (interest !! fd); simpl; by constructor. }
  split.
  - eapply sublist_NoDup; [exact Hnd|]. etransitivity; [|apply Hsub].
    rewrite fmap_take. apply sublist_take.
  - apply Forall2_fmap, Forall_Forall2_diag, Forall_take.
    clear. induction kvs as [|[fd ev] kvs IH]; simpl; [done|].
    destruct (interest !! fd) as [l|] eqn:E; simpl; [by constructor|done].
Qed.

#[refine] Definition sim_laws : @KernelLaws sim_kernel := {| k_view := sim_view : @kst sim_kernel -> kview |}.
Proof.
  - intros k fd. simpl. by rewrite elem_of_filter; intros [? _].
  - intros k. apply sim_new_fd_ok. intros. by apply sim_opened_view.
  - intros k. apply sim_new_fd_ok. intros fd Hr.
    unfold sim_view, sim_epoll_opened, v_epoll_opened. simpl. by rewrite sim_view_open.
  - intros k fd. simpl. unfold sim_accept. destruct (sm_backlog k) as [|a rest]; [done|].
    pose proof (sim_new_fd_ok sim_opened v_opened k (fun fd => sim_opened_view fd k)) as Hnew.
    destruct (sim_new_fd _ k) as [[nfd|e] k']; [|done]. destruct Hnew as [? Hv]. split; [done|].
    by rewrite <-Hv.
  - intros k fd len. simpl. unfold sim_recv. destruct (default [] _) as [|x bs] eqn:E.
    { destruct (decide _); [|done]. split_and!; [done|unfold zlen; simpl; lia|done]. }
    rewrite <-E. split_and!; [|unfold zlen; rewrite length_fmap, length_take; lia|done].
    apply Forall_fmap, Forall_true. intros. apply u8_byte.
  - intros k fd bs flags. simpl. unfold sim_send. destruct (Z.leb_spec (Z.min (default 0 (sm_room k !! fd)) (zlen bs)) 0);
      [done|]. split; [lia|done].
  - intros k fd. simpl. unfold sim_view, v_closed. simpl. f_equal. apply set_eq. intros x.
    rewrite elem_of_difference, !elem_of_filter, elem_of_difference. tauto.
  - intros k ep op fd. done.
  - intros k ep max timeout. simpl. unfold sim_epoll_wait.
    destruct (sm_epoll k !! ep) as [interest|] eqn:E; [|done].
    destruct (sm_script k) as [|evs rest]; [done|].
    destruct (Z.leb_spec max 0); [done|]. split; [done|]. intros ? [= <-].
    destruct (sim_events_ok interest evs (Z.to_nat max)) as [Hnd Hf2]. split.
    + unfold zlen. rewrite length_fmap, length_take. lia.
    + by exists (take (Z.to_nat max) (sim_events interest evs)).*1, interest.
  - intros k fd. simpl. by destruct (decide _).
  - intros k fd. simpl. rewrite elem_of_filter. intros Hn.
    destruct (decide _); [done|by eexists].
  - done.
  - done.
  - done.
  - done.
Defined.
