(* ===== verification/SocketUtils.v ===== *)
(** * SocketUtils: src/net/socket_utils.c and src/net/tcp_server.c

    The wrappers around the socket calls.  The central one is
    [vr_socket_recv_ring_buf], which receives straight into the free space of a
    ring, in one or two regions: its theorem says that the bytes the kernel
    delivered are appended to the ring's contents, in order, whatever the layout
    of the ring. *)

From S2P Require Import Prelude Core RingBuffer Connection World Sim.
#[local] Open Scope Z_scope.

(** ** Byte order of the host: little-endian *)

Definition htons (v : Z) : Z := (u16 v mod 256) * 256 + u16 v / 256.
Definition htonl (v : Z) : Z := htons (u32 v mod 65536) * 65536 + htons (u32 v / 65536).

Section SocketUtils.
Context `{Kernel}.

(** [errno == EAGAIN || errno == EWOULDBLOCK] *)
Definition would_block (e : Z) : bool := (e =? EAGAIN) || (e =? EWOULDBLOCK).

(** ** socket_utils.c *)

Definition vr_server_addr_init (port : Z) : sockaddr_in :=
  SockaddrIn AF_INET (htons port) (htonl INADDR_ANY).

Definition vr_socket_create : io Z :=
  fd ← syscall k_socket;
  match fd with
  | None => vr_perror;; mret (-1)
  | Some fd => mret fd
  end.

(** A call of which only success matters. *)
Definition status_call (f : kst -> answer unit * kst) : io vr_result_t :=
  res ← syscall f;
  match res with
  | None => vr_perror;; mret VR_ERROR
  | Some _ => mret VR_SUCCESS
  end.

Definition vr_socket_bind (addr : sockaddr_in) (fd : Z) : io vr_result_t :=
  status_call (k_bind fd addr).

Definition vr_socket_listen (fd : Z) : io vr_result_t := status_call (k_listen fd).

Definition vr_socket_set_reuseaddr (fd : Z) : io vr_result_t := status_call (k_reuseaddr fd).

(** What a failed reception does besides returning -1. *)
Definition recv_failed : io unit :=
  e ← get_errno;
  if would_block e then mret tt else vr_perror.

(** The bytes received, and the return value. *)
Definition vr_socket_recv (fd len flags : Z) : io (Z * list Z) :=
  received ← syscall (k_recv fd len);
  match received with
  | None => recv_failed;; mret (-1, [])
  | Some bs => mret (zlen bs, bs)
  end.

(** [write_pos] and [count] after [n] bytes were received. *)
Definition recv_advance (b : vr_connection_ring_buf_t) (d : list Z) (n : Z)
    : outcome vr_connection_ring_buf_t :=
  w ← c_mod (rb_write_pos b + n) (rb_capacity b);
  Ok (RingBuf (Some d) (rb_capacity b) (u32 (rb_count b + n)) (rb_read_pos b) (u16 w) (rb_state b)).

(** The kernel fills the first region, then the second. *)
Definition iov_fill (d : list Z) (off1 len1 off2 : Z) (bs : list Z) : outcome (list Z) :=
  d ← splice d off1 (take (Z.to_nat len1) bs);
  splice d off2 (drop (Z.to_nat len1) bs).

(** The common end of both branches of recv_ring_buf. *)
Definition recv_done (b : vr_connection_ring_buf_t) (off1 len1 off2 : Z)
    (received : option (list Z)) : io (Z * vr_connection_ring_buf_t) :=
  match received with
  | None => recv_failed;; mret (-1, b)
  | Some [] => mret (0, b)
  | Some bs =>
      d ← lift (deref (rb_data b));
      d ← lift (iov_fill d off1 len1 off2 bs);
      b ← lift (recv_advance b d (zlen bs));
      mret (zlen bs, b)
  end.

Definition vr_socket_recv_ring_buf (fd : Z) (b : vr_connection_ring_buf_t) (flags : Z)
    : io (Z * vr_connection_ring_buf_t) :=
  if rb_count b =? rb_capacity b then
    vr_log;; put_errno ENOBUFS;; mret (-1, b)
  else
    let free_space := u32 (rb_capacity b - rb_count b) in
    if rb_read_pos b <=? rb_write_pos b then
      let region1_len := Z.min (u32 (rb_capacity b - rb_write_pos b)) free_space in
      let region2_len := Z.min (u64 (free_space - region1_len)) (rb_read_pos b) in
      received ← syscall (k_recv fd (region1_len + region2_len));
      recv_done b (rb_write_pos b) region1_len 0 received
    else
      let contiguous := Z.min (rb_read_pos b - rb_write_pos b) free_space in
      received ← syscall (k_recv fd contiguous);
      recv_done b (rb_write_pos b) contiguous 0 received.

Definition vr_socket_send (fd : Z) (bs : list Z) (flags : Z) : io Z :=
  sent ← syscall (k_send fd bs flags);
  match sent with
  | None => vr_perror;; mret (-1)
  | Some n => mret n
  end.

(** The loop of send_all over a buffer of [len] bytes, [total] of them sent:
    the return value and the final [*len]. *)
Fixpoint send_all_loop (fuel : nat) (fd : Z) (bs : list Z) (len total flags : Z) : io (Z * Z) :=
  match fuel with
  | O => out_of_fuel
  | S fuel =>
      if total <? len then
        bytes ← lift (slice bs total (len - total));
        n ← vr_socket_send fd bytes flags;
        if n =? -1 then mret (-1, len)
        else if n =? 0 then mret (total, len)
        else send_all_loop fuel fd bs len (total + n) flags
      else mret (total, total)
  end.

Definition vr_socket_send_all (fd : Z) (bs : list Z) (len flags : Z) : io (Z * Z) :=
  send_all_loop (S (Z.to_nat len)) fd bs len 0 flags.

Definition vr_socket_set_non_blocking (fd : Z) : io vr_result_t :=
  flags ← syscall (k_getfl fd);
  match flags with
  | None => vr_perror;; mret VR_ERROR
  | Some flags => status_call (k_setfl fd (Z.lor flags O_NONBLOCK))
  end.

(** ** tcp_server.c *)

(** [close(fd)], the result of which the program never tests. *)
Definition close (fd : Z) : io unit := _ ← syscall (k_close fd); mret tt.

(** The result and [*socket_fd].  The failure of [vr_socket_create] is -1, but
    it is compared with [VR_ERROR], which is 1. *)
Definition vr_tcp_server_create (port : Z) : io (vr_result_t * Z) :=
  let addr := vr_server_addr_init port in
  fd ← vr_socket_create;
  if fd =? vr_result_int VR_ERROR then mret (VR_ERROR, fd)
  else
    res ← vr_socket_set_reuseaddr fd;
    match res with
    | VR_ERROR => close fd;; mret (VR_ERROR, fd)
    | _ =>
        res ← vr_socket_bind addr fd;
        match res with
        | VR_ERROR => close fd;; mret (VR_ERROR, fd)
        | _ =>
            res ← vr_socket_listen fd;
            match res with
            | VR_ERROR => close fd;; mret (VR_ERROR, fd)
            | _ => mret (VR_SUCCESS, fd)
            end
        end
    end.

(** The result and, on success, the new [vr_net_conn_t]. *)
Definition vr_tcp_accept (server_fd : Z) : io (vr_result_t * option vr_net_conn_t) :=
  res ← syscall (k_accept server_fd);
  match res with
  | None =>
      e ← get_errno;
      if would_block e then mret (VR_EMPTY, None) else mret (VR_ERROR, None)
  | Some (client_fd, client_addr) =>
      if k_inet_ntop client_addr then mret (VR_SUCCESS, Some (NetConn client_fd client_addr))
      else close client_fd;; mret (VR_ERROR, None)
  end.

End SocketUtils.

(** ** Specifications *)

(** Two states that differ at most in the kernel and in errno. *)
Record same_prog `{Kernel} (w w' : world) : Prop := {
  sp_heap : w_heap w' = w_heap w;
  sp_mgr : w_mgr w' = w_mgr w;
  sp_reactor : w_reactor w' = w_reactor w;
  sp_live : p_live (w_proc w') = p_live (w_proc w);
  sp_next : p_next (w_proc w') = p_next (w_proc w)
}.

#[global] Instance same_prog_preorder `{Kernel} : PreOrder same_prog.
Proof.
  split; [by constructor|]. intros w1 w2 w3 [? ? ? ? ?] [? ? ? ? ?]. constructor; congruence.
Qed.

#[export] Hint Extern 1 (same_prog _ _) => by constructor : velora.

Lemma splice_empty {A} (d : list A) off :
  0 <= off <= zlen d -> splice d off [] = Ok d.
Proof.
  intros. rewrite splice_ok by (unfold zlen in *; simpl; lia). simpl.
  by rewrite Nat.add_0_r, take_drop.
Qed.

(** Bytes placed behind the contents, around the end of the block if need be. *)
Lemma iov_fill_spec d cap cnt r w st len1 bs :
  ring_wf (RingBuf (Some d) cap cnt r w st) -> st <> VR_CONN_RING_BUF_UNALLOC ->
  Forall is_byte bs -> zlen bs <= cap - cnt ->
  0 <= len1 <= cap - w -> zlen bs <= len1 \/ len1 = cap - w ->
  exists d', iov_fill d w len1 0 bs = Ok d' /\
    let b' := RingBuf (Some d') cap (cnt + zlen bs) r (wrap cap (w + zlen bs)) st in
    ring_wf b' /\ ring_contents b' = ring_contents (RingBuf (Some d) cap cnt r w st) ++ bs.
Proof.
  intros Hb Hst Hbs Hroom Hlen1 Hcase. unfold iov_fill.
  assert (Hdims : cap = zlen d /\ 0 <= cnt /\ 0 <= w < cap).
  { inversion Hb as [|? ? ? ? ? ? Hlen Hcap Hcnt Hr Hw]; subst. split; [done|].
    unfold VR_CONNECTION_BUFFER_INITIAL_SIZE in *. split; [lia|]. apply wrap_range. lia. }
  destruct (Z.le_gt_cases (zlen bs) len1) as [Hle|Hgt].
  - rewrite take_ge, drop_ge by (unfold zlen in *; lia).
    destruct (append_region d cap cnt r w st st bs) as (d' & -> & Hl & _ & Hwf & Hc);
      [done..|lia|]. ostep. exists d'. rewrite splice_empty by lia. done.
  - destruct Hcase as [?|Hl1]; [lia|].
    assert (H1 : zlen (take (Z.to_nat len1) bs) = len1)
      by (unfold zlen in *; rewrite length_take; lia).
    assert (H2 : zlen (drop (Z.to_nat len1) bs) = zlen bs - len1)
      by (unfold zlen in *; rewrite length_drop; lia).
    destruct (append_region d cap cnt r w st st (take (Z.to_nat len1) bs))
      as (d1 & -> & Hl & _ & Hwf & Hc); [done|done|by apply Forall_take|lia|lia|]. ostep.
    rewrite H1 in *. replace (w + len1) with cap in * by lia.
    assert (Hw0 : wrap cap cap = 0) by (unfold wrap; bdestruct_test; lia). rewrite Hw0 in *.
    destruct (append_region d1 cap (cnt + len1) r 0 st st (drop (Z.to_nat len1) bs))
      as (d2 & -> & _ & _ & Hwf2 & Hc2); [done|done|by apply Forall_drop|lia|lia|].
    exists d2. split; [done|]. rewrite H2 in *.
    replace (wrap cap (w + zlen bs)) with (wrap cap (0 + (zlen bs - len1)))
      by (unfold wrap; repeat bdestruct_test; lia).
    replace (cnt + zlen bs) with (cnt + len1 + (zlen bs - len1)) by lia.
    split; [done|]. rewrite Hc2, Hc, <-app_assoc. by rewrite take_drop.
Qed.

Section RecvSpec.
Context `{KernelLaws}.

Definition view (w : world) : kview := k_view (w_kern w).

(** What the reception into a ring leaves behind, in the three cases of its
    return value. *)
Definition recv_post (fd : Z) (b : vr_connection_ring_buf_t) (w : world)
    (res : Z * vr_connection_ring_buf_t) (w' : world) : Prop :=
  let '(n, b') := res in
  same_prog w w' /\
  ((n = -1 /\ b' = b /\ view w' = view w /\
    (rb_count b = rb_capacity b -> p_errno (w_proc w') = ENOBUFS)) \/
   (n = 0 /\ b' = b /\ rb_count b < rb_capacity b /\ view w' = v_received fd [] (view w)) \/
   (exists bs, n = zlen bs /\ 0 < n /\ ring_wf b' /\ ring_contents b' = ring_contents b ++ bs /\
    rb_capacity b' = rb_capacity b /\ owned (rb_data b') = owned (rb_data b) /\
    rb_state b' = rb_state b /\ view w' = v_received fd bs (view w))).

Lemma recv_failed_post (b : vr_connection_ring_buf_t) w Q :
  (forall w', same_prog w w' -> view w' = view w -> Q (-1, b) w') ->
  wp (recv_failed;; mret (-1, b)) Q w.
Proof.
  intros HQ. apply wp_bind. unfold recv_failed, wp, mbind, io_bind, get_errno. cbn.
  destruct (would_block _); cbn; apply HQ; auto with velora.
Qed.

(** Receiving at most [len] bytes, of which [len1] fit behind the contents. *)
Lemma recv_done_spec fd b s len len1 :
  ring_wf b -> rb_count b < rb_capacity b ->
  0 <= len <= rb_capacity b - rb_count b ->
  0 <= len1 <= rb_capacity b - rb_write_pos b ->
  len <= len1 \/ len1 = rb_capacity b - rb_write_pos b ->
  wp (received ← syscall (k_recv fd len); recv_done b (rb_write_pos b) len1 0 received)
     (recv_post fd b s) s.
Proof.
  intros Hb Hfull Hmax Hlen1 Hcase. apply wp_bind, wp_syscall.
  pose proof (law_recv (w_kern s) fd len) as Hlaw.
  destruct (k_recv fd len (w_kern s)) as [[bs|e] k].
  2:{ apply recv_failed_post. intros s' Hsp Hv. split; [|left].
      - transitivity (set_proc (set_errno e (w_proc s)) (set_kern k s)); auto with velora.
      - split_and!; [done|done|by rewrite Hv|lia]. }
  destruct Hlaw as (Hbs & Hn & Hv). destruct bs as [|x bs].
  { apply wp_ret. split; [auto with velora|]. right; left. done. }
  set (bs' := x :: bs) in *. unfold recv_done. fold bs'.
  change (match bs' with [] => _ | _ => ?k end) with k.
  pose proof Hb as Hb'. ring_open Hb; [lia|].
  apply wp_bind, (wp_lift _ _ _ d eq_refl).
  destruct (iov_fill_spec d cap cnt r w st len1 bs') as (d' & Hfill & Hwf & Hc);
    [done|done|done|lia|lia|lia|].
  apply wp_bind, (wp_lift _ _ _ d' Hfill).
  assert (Hpos : 0 < zlen bs') by (unfold zlen; simpl; lia).
  assert (Hwr : 0 <= w < cap) by (subst w; apply wrap_range; lia).
  pose proof (wrap_range cap (w + zlen bs') ltac:(lia)).
  apply wp_bind. eapply wp_lift.
  { unfold recv_advance. cbn [rb_write_pos rb_capacity rb_count rb_read_pos rb_state].
    rewrite c_mod_wrap by lia. ostep. rewrite u32_id, u16_id by lia. reflexivity. }
  apply wp_ret. split; [auto with velora|]. right; right. exists bs'. by split_and!.
Qed.

Lemma recv_ring_buf_spec fd b flags s :
  ring_wf b -> wp (vr_socket_recv_ring_buf fd b flags) (recv_post fd b s) s.
Proof.
  intros Hb. unfold vr_socket_recv_ring_buf.
  destruct (Z.eqb_spec (rb_count b) (rb_capacity b)) as [Hfull|Hfull].
  { split; [auto with velora|]. left. by split_and!. }
  pose proof Hb as Hb'. ring_open Hb; [done|].
  assert (Hwr : 0 <= w < cap) by (subst w; apply wrap_range; lia).
  assert (Hpos : w = r + cnt /\ r + cnt < cap \/ w = r + cnt - cap /\ cap <= r + cnt).
  { subst w. unfold wrap. bdestruct_test; lia. }
  rewrite (u32_id (cap - cnt)) by lia.
  destruct (Z.leb_spec r w).
  - assert (E1 : Z.min (u32 (cap - w)) (cap - cnt) = cap - w) by (rewrite u32_id by lia; lia).
    cbv zeta. rewrite E1, (u64_id (cap - cnt - (cap - w))) by lia.
    apply recv_done_spec; cbn [rb_count rb_capacity rb_write_pos]; try done; lia.
  - apply recv_done_spec; cbn [rb_count rb_capacity rb_write_pos]; try done; lia.
Qed.
End RecvSpec.

(** ** Sending *)

(** [bs] was accepted on [fd], and nothing else happened. *)
Record sent_on (fd : Z) (bs : list Z) (v v' : kview) : Prop := {
  so_open : v_open v' = v_open v;
  so_epoll : v_epoll v' = v_epoll v;
  so_rcvd : v_rcvd v' = v_rcvd v;
  so_log : log_of (v_sent v') fd = log_of (v_sent v) fd ++ bs;
  so_other : forall fd', fd' <> fd -> log_of (v_sent v') fd' = log_of (v_sent v) fd'
}.

Lemma log_of_add fd bs m : log_of (log_add fd bs m) fd = log_of m fd ++ bs.
Proof. unfold log_of at 1, log_add. by rewrite lookup_insert_eq. Qed.

Lemma log_of_add_ne fd fd' bs m : fd' <> fd -> log_of (log_add fd bs m) fd' = log_of m fd'.
Proof. intros. unfold log_of at 1, log_add. by rewrite lookup_insert_ne. Qed.

Lemma sent_on_nil fd v : sent_on fd [] v v.
Proof. constructor; rewrite ?app_nil_r; done. Qed.

Lemma sent_on_accepted fd bs v : sent_on fd bs v (v_accepted fd bs v).
Proof. constructor; simpl; auto using log_of_add, log_of_add_ne. Qed.

Lemma sent_on_trans fd bs1 bs2 v1 v2 v3 :
  sent_on fd bs1 v1 v2 -> sent_on fd bs2 v2 v3 -> sent_on fd (bs1 ++ bs2) v1 v3.
Proof.
  intros [? ? ? E Ho] [? ? ? E' Ho']. constructor; try congruence.
  - by rewrite E', E, app_assoc.
  - intros fd' Hne. by rewrite Ho', Ho.
Qed.

Section SendSpec.
Context `{KernelLaws}.

Lemma socket_send_spec fd bs flags w Q :
  (forall n w', same_prog w w' ->
     (n = -1 /\ view w' = view w) \/
     (0 <= n <= zlen bs /\ view w' = v_accepted fd (take (Z.to_nat n) bs) (view w)) ->
     Q n w') ->
  wp (vr_socket_send fd bs flags) Q w.
Proof.
  intros HQ. apply wp_bind, wp_syscall.
  pose proof (law_send (w_kern w) fd bs flags) as Hlaw.
  destruct (k_send fd bs flags (w_kern w)) as [[n|e] k].
  - apply wp_ret, HQ; [auto with velora|]. right. done.
  - apply wp_bind. apply HQ; [auto with velora|]. left. done.
Qed.

(** [total] bytes went out before; all of the rest goes out, or the loop stops
    at an error or an empty send. *)
Lemma send_all_loop_spec fuel fd bs len total flags w :
  0 <= total <= len -> len <= zlen bs -> (Z.to_nat (len - total) < fuel)%nat ->
  wp (send_all_loop fuel fd bs len total flags) (fun '(r, len') w' =>
      len' = len /\ same_prog w w' /\
      exists k, total <= k <= len /\ (r = k \/ r = -1) /\ (r = len -> k = len) /\
        sent_on fd (take (Z.to_nat (k - total)) (drop (Z.to_nat total) bs)) (view w) (view w')) w.
Proof.
  revert total w. induction fuel as [|fuel IH]; intros total w Ht Hl Hf; [lia|].
  cbn [send_all_loop]. destruct (Z.ltb_spec total len) as [Hlt|Hge].
  2:{ apply wp_ret. split_and!; [lia|done|]. exists total. split_and!; [lia|lia|by left|lia|].
      rewrite Z.sub_diag. apply sent_on_nil. }
  apply wp_bind. eapply wp_lift; [apply slice_ok; lia|].
  apply wp_bind, socket_send_spec. intros n w' Hsp Hn.
  destruct (Z.eqb_spec n (-1)) as [->|Hn1].
  { apply wp_ret. split_and!; [done|done|]. exists total. split_and!; [lia|lia|by right|lia|].
    destruct Hn as [[_ ->]|[? _]]; [|lia]. rewrite Z.sub_diag. apply sent_on_nil. }
  destruct Hn as [[-> _]|[Hn Hv]]; [done|].
  set (chunk := take (Z.to_nat (len - total)) (drop (Z.to_nat total) bs)) in *.
  assert (Hchunk : zlen chunk = len - total).
  { subst chunk. unfold zlen in *. rewrite length_take, length_drop. lia. }
  assert (Htk : forall k, 0 <= k <= len - total ->
    take (Z.to_nat k) chunk = take (Z.to_nat k) (drop (Z.to_nat total) bs)).
  { intros k Hk. subst chunk. rewrite take_take, Nat.min_l by lia. done. }
  rewrite Htk in Hv by lia.
  destruct (Z.eqb_spec n 0) as [->|Hn0].
  { apply wp_ret. split_and!; [done|done|]. exists total. split_and!; [lia|lia|by left|lia|].
    rewrite Z.sub_diag. rewrite Hv. apply sent_on_accepted. }
  eapply wp_mono; [apply IH; lia|]. intros [r len'] w'' (-> & Hsp' & k & Hk & Hr & Hfull & Hso).
  split_and!; [done|by etransitivity|]. exists k. split_and!; [lia|lia|done|done|].
  replace (take (Z.to_nat (k - total)) (drop (Z.to_nat total) bs))
    with (take (Z.to_nat n) (drop (Z.to_nat total) bs) ++
          take (Z.to_nat (k - (total + n))) (drop (Z.to_nat (total + n)) bs)).
  { eapply sent_on_trans; [|exact Hso]. rewrite Hv. apply sent_on_accepted. }
  replace (Z.to_nat (k - total)) with (Z.to_nat n + Z.to_nat (k - (total + n)))%nat by lia.
  rewrite Z2Nat.inj_add by lia. rewrite <-drop_drop. apply take_take_drop.
Qed.
End SendSpec.

(** ** Calls that only report a status, and descriptors *)

Section DescriptorSpec.
Context `{KernelLaws}.

Lemma perror_spec w Q :
  (forall w', same_prog w w' -> view w' = view w -> Q tt w') -> wp vr_perror Q w.
Proof. intros HQ. apply HQ; auto with velora. Qed.

Lemma status_call_spec f w Q :
  (forall k, k_view (f k).2 = k_view k) ->
  (forall r w', (r = VR_SUCCESS \/ r = VR_ERROR) -> same_prog w w' -> view w' = view w -> Q r w') ->
  wp (status_call f) Q w.
Proof.
  intros Hf HQ. apply wp_bind, wp_syscall. specialize (Hf (w_kern w)).
  destruct (f (w_kern w)) as [[x|e] k]; simpl in Hf.
  - apply wp_ret, HQ; [by left|auto with velora|done].
  - apply wp_bind. apply HQ; [by right|auto with velora|done].
Qed.

Lemma close_spec fd w Q :
  (forall w', same_prog w w' -> view w' = v_closed fd (view w) -> Q tt w') -> wp (close fd) Q w.
Proof.
  intros HQ. apply wp_bind, wp_syscall. pose proof (law_close (w_kern w) fd) as Hlaw.
  destruct (k_close fd (w_kern w)) as [[x|e] k]; apply wp_ret, HQ; (done || auto with velora).
Qed.

Lemma set_non_blocking_spec fd w Q :
  (forall r w', (r = VR_SUCCESS \/ r = VR_ERROR) -> same_prog w w' -> view w' = view w -> Q r w') ->
  wp (vr_socket_set_non_blocking fd) Q w.
Proof.
  intros HQ. apply wp_bind, wp_syscall. pose proof (law_getfl (w_kern w) fd) as Hlaw.
  destruct (k_getfl fd (w_kern w)) as [[fl|e] k]; simpl in Hlaw.
  - apply status_call_spec; [intros; apply law_setfl|]. intros r w' Hr Hsp Hv.
    apply HQ; [done| |by rewrite Hv].
    transitivity (set_kern k w); auto with velora.
  - apply wp_bind. apply HQ; [by right|auto with velora|done].
Qed.

Lemma socket_create_spec w Q :
  (forall fd w', same_prog w w' ->
     (fd = -1 /\ view w' = view w) \/
     ((fd ∉ v_open (view w)) /\ view w' = v_opened fd (view w)) -> Q fd w') ->
  wp vr_socket_create Q w.
Proof.
  intros HQ. apply wp_bind, wp_syscall. pose proof (law_socket (w_kern w)) as Hlaw.
  destruct (k_socket (w_kern w)) as [[fd|e] k].
  - apply wp_ret, HQ; [auto with velora|by right].
  - apply wp_bind. apply HQ; [auto with velora|by left].
Qed.

(** The descriptor is gone again after a failed setup step. *)
Lemma fail_close_spec fd w Q :
  (forall w', same_prog w w' -> view w' = v_closed fd (view w) -> Q (VR_ERROR, fd) w') ->
  wp (close fd;; mret (VR_ERROR, fd)) Q w.
Proof. intros HQ. apply wp_bind, close_spec. intros. by apply wp_ret, HQ. Qed.

Lemma tcp_accept_spec fd w Q :
  (forall r c w', same_prog w w' ->
     match r, c with
     | VR_SUCCESS, Some n =>
         (nc_fd n ∉ v_open (view w)) /\ view w' = v_opened (nc_fd n) (view w)
     | VR_EMPTY, None => view w' = view w
     | VR_ERROR, None => view w' = view w \/
         exists nfd, (nfd ∉ v_open (view w)) /\ view w' = v_closed nfd (v_opened nfd (view w))
     | _, _ => False
     end -> Q (r, c) w') ->
  wp (vr_tcp_accept fd) Q w.
Proof.
  intros HQ. apply wp_bind, wp_syscall. pose proof (law_accept (w_kern w) fd) as Hlaw.
  destruct (k_accept fd (w_kern w)) as [[[nfd addr]|e] k].
  - destruct Hlaw as [Hn Hv]. destruct (k_inet_ntop addr).
    + apply wp_ret, HQ; [auto with velora|done].
    + apply wp_bind, close_spec. intros w' Hsp Hv'. apply wp_ret, HQ.
      * transitivity (set_kern k w); auto with velora.
      * right. exists nfd. split; [done|]. rewrite Hv'. unfold view at 1. simpl. by rewrite Hv.
  - apply wp_bind. unfold wp at 1, get_errno. cbn.
    destruct (would_block e); apply wp_ret, HQ; auto with velora.
Qed.

(** The two ends of a setup step. *)
Lemma setup_step_spec f fd w (k : io (vr_result_t * Z)) Q :
  (forall k, k_view (f k).2 = k_view k) ->
  (forall w', same_prog w w' -> view w' = v_closed fd (view w) -> Q (VR_ERROR, fd) w') ->
  ((exists x, (f (w_kern w)).1 = Done x) ->
   forall w', same_prog w w' -> view w' = view w -> wp k Q w') ->
  wp (res ← status_call f;
      match res with
      | VR_ERROR => close fd;; mret (VR_ERROR, fd)
      | _ => k
      end) Q w.
Proof.
  intros Hf Hfail Hk. apply wp_bind, wp_bind, wp_syscall. specialize (Hf (w_kern w)).
  destruct (f (w_kern w)) as [[x|e] k'] eqn:E; simpl in Hf.
  - apply wp_ret, Hk; [by exists x|auto with velora|done].
  - apply wp_bind. apply fail_close_spec. intros w' Hsp Hv. apply Hfail.
    + etransitivity; [|exact Hsp]. auto with velora.
    + rewrite Hv. unfold view. simpl. by rewrite Hf.
Qed.

Lemma v_open_closed fd v : v_open (v_closed fd (v_opened fd v)) = v_open v ∖ {[fd]}.
Proof.
  simpl. apply set_eq. intros x. rewrite !elem_of_difference, elem_of_union. tauto.
Qed.

Lemma v_open_notin fd v : fd ∉ v_open v -> v_open v ∖ {[fd]} = v_open v.
Proof.
  intros Hn. apply set_eq. intros x. rewrite elem_of_difference, elem_of_singleton.
  split; [tauto|]. intros Hx. split; [done|]. by intros ->.
Qed.

(** What vr_tcp_server_create leaves behind. *)
Definition server_post (w : world) (res : vr_result_t * Z) (w' : world) : Prop :=
  let '(r, fd) := res in
  same_prog w w' /\
  ((r = VR_SUCCESS /\ (fd ∉ v_open (view w)) /\ view w' = v_opened fd (view w)) \/
   (r = VR_ERROR /\ fd = 1 /\ (1 ∉ v_open (view w)) /\ view w' = v_opened 1 (view w)) \/
   (r = VR_ERROR /\ exists fd', (fd' ∉ v_open (view w)) /\
      (view w' = v_closed fd' (view w) \/ view w' = v_closed fd' (v_opened fd' (view w))))).

Lemma server_create_spec port w : wp (vr_tcp_server_create port) (server_post w) w.
Proof.
  apply wp_bind, socket_create_spec. intros fd w1 Hsp1 Hfd.
  change (vr_result_int VR_ERROR) with 1. destruct (Z.eqb_spec fd 1) as [->|Hne].
  { apply wp_ret. split; [done|]. right; left. by destruct Hfd as [[? ?]|[? ?]]. }
  set (Q := server_post w).
  assert (Hfail : forall w', same_prog w1 w' -> view w' = v_closed fd (view w1) ->
    Q (VR_ERROR, fd) w').
  { intros w' Hsp Hv. split; [by transitivity w1|]. right; right. split; [done|]. exists fd.
    destruct Hfd as [[-> Hv1]|[Hn Hv1]]; rewrite Hv, Hv1; (split; [|by auto]); [|done].
    intros Hin%law_range. lia. }
  unfold vr_socket_set_reuseaddr, vr_socket_bind, vr_socket_listen.
  apply setup_step_spec; [intros; apply law_reuseaddr|done|]. intros [x Hx] w2 Hsp2 Hv2.
  destruct Hfd as [[-> Hv1]|[Hn Hv1]].
  { destruct (law_reuseaddr_badf (w_kern w1) (-1)) as [e He]; [|congruence].
    intros Hin%law_range. lia. }
  apply setup_step_spec; [intros; apply law_bind| |].
  { intros w' Hsp Hv. apply Hfail; [by transitivity w2|by rewrite Hv, Hv2]. }
  intros _ w3 Hsp3 Hv3. apply setup_step_spec; [intros; apply law_listen| |].
  { intros w' Hsp Hv. apply Hfail; [transitivity w2; [done|by transitivity w3]|].
    by rewrite Hv, Hv3, Hv2. }
  intros _ w4 Hsp4 Hv4. apply wp_ret. split.
  - transitivity w1; [done|]. transitivity w2; [done|]. by transitivity w3.
  - left. split_and!; [done|done|]. by rewrite Hv4, Hv3, Hv2.
Qed.
End DescriptorSpec.

(** ** Properties *)

Section Properties.
Context `{KernelLaws}.

(** Receiving into a ring, whatever its layout and whatever the kernel
    does: it never writes outside the block; a full or unallocated ring gives -1
    with ENOBUFS; a return value of 0 or -1 leaves the ring as it was; otherwise
    the bytes the kernel delivered, and only they, are appended to the contents,
    across the end of the block if need be. *)
Lemma recv_ring_buf_appends (fd flags : Z) (b : vr_connection_ring_buf_t) (w : world)
  (Hb : ring_wf b) :
  exists n b' w', vr_socket_recv_ring_buf fd b flags w = Ok ((n, b'), w') /\
    same_prog w w' /\ -1 <= n /\
    (rb_count b = rb_capacity b -> n = -1 /\ p_errno (w_proc w') = ENOBUFS) /\
    (n <= 0 -> b' = b) /\
    (0 < n -> exists bs, zlen bs = n /\ ring_wf b' /\
       ring_contents b' = ring_contents b ++ bs /\ rb_capacity b' = rb_capacity b /\
       log_of (v_rcvd (view w')) fd = log_of (v_rcvd (view w)) fd ++ bs).
Proof.
  pose proof (recv_ring_buf_spec fd b flags w Hb) as Hwp. unfold wp in Hwp.
  destruct (vr_socket_recv_ring_buf fd b flags w) as [[[n b'] w']| |]; [|done..].
  exists n, b', w'. split; [done|]. destruct Hwp as [Hsp Hcase].
  destruct Hcase as [(-> & -> & Hv & He)|[(-> & -> & Hc & Hv)|
    (bs & -> & Hpos & Hwf & Hc & Hcap & _ & _ & Hv)]].
  - split_and!; try done; lia.
  - split_and!; try done; lia.
  - split_and!; [done|lia| |lia|].
    + intros E. pose proof (ring_contents_length b' Hwf) as Hl. rewrite Hc in Hl.
      pose proof (ring_contents_length b Hb). pose proof (ring_wf_count b' Hwf).
      unfold zlen in *. rewrite length_app in Hl. lia.
    + intros _. exists bs. rewrite Hv. split_and!; try done. apply log_of_add.
Qed.

(** C28.  [vr_socket_send_all] stops, and what the kernel accepted is a prefix of
    the buffer, all of it when it returns the length.  The out-parameter [*len]
    has the value it had before the call in every case. *)
Theorem send_all_prefix (fd flags len : Z) (bs : list Z) (w : world)
  (Hl : 0 <= len <= zlen bs) :
  exists r w' k, vr_socket_send_all fd bs len flags w = Ok ((r, len), w') /\
    0 <= k <= len /\ (r = k \/ r = -1) /\ (r = len -> k = len) /\
    sent_on fd (take (Z.to_nat k) bs) (view w) (view w').
Proof.
  pose proof (send_all_loop_spec (S (Z.to_nat len)) fd bs len 0 flags w) as Hwp.
  unfold wp in Hwp. fold (vr_socket_send_all fd bs len flags) in Hwp.
  destruct (vr_socket_send_all fd bs len flags w) as [[[r len'] w']| |];
    [|by exfalso; apply Hwp; lia..].
  destruct Hwp as (-> & _ & k & Hk & Hr & Hfull & Hso); [lia..|]. exists r, w', k.
  rewrite Z.sub_0_r in Hso. split_and!; (done || lia).
Qed.

(** C31.  Setting up the listening socket: success leaves exactly one new
    descriptor open, the one returned; failure leaves none, unless the system
    chose the number 1. *)
Theorem server_create_descriptors (port : Z) (w : world) :
  exists r fd w', vr_tcp_server_create port w = Ok ((r, fd), w') /\ same_prog w w' /\
    (r = VR_SUCCESS /\ (fd ∉ v_open (view w)) /\ v_open (view w') = {[fd]} ∪ v_open (view w) \/
     r = VR_ERROR /\ fd <> 1 /\ v_open (view w') = v_open (view w) \/
     r = VR_ERROR /\ fd = 1).
Proof.
  pose proof (server_create_spec port w) as Hwp. unfold wp in Hwp.
  destruct (vr_tcp_server_create port w) as [[[r fd] w']| |]; [|done..].
  exists r, fd, w'. split; [done|]. destruct Hwp as [Hsp Hcase]. split; [done|].
  destruct Hcase as [(-> & Hn & ->)|[(-> & -> & _)|(-> & fd' & Hn & Hv)]].
  - left. done.
  - right; right. done.
  - destruct (decide (fd = 1)); [by auto|]. right; left. split_and!; [done|done|].
    destruct Hv as [-> | ->]; [|rewrite v_open_closed]; by apply v_open_notin.
Qed.

(** The error value of [vr_socket_create] is -1 but it is compared with
    [VR_ERROR], which is 1: a process whose standard output is closed, so that
    the new socket gets number 1, reports failure and leaks the socket. *)
Lemma server_create_leaks_fd_1 (port : Z) (w : world) (k : kst)
  (Hs : k_socket (w_kern w) = (Done 1, k)) :
  vr_tcp_server_create port w = Ok ((VR_ERROR, 1), set_kern k w) /\
  (1 ∉ v_open (view w)) /\ 1 ∈ v_open (k_view k).
Proof.
  pose proof (law_socket (w_kern w)) as Hlaw. rewrite Hs in Hlaw. destruct Hlaw as [Hn Hv].
  split_and!; [|done|rewrite Hv; simpl; set_solver+].
  unfold vr_tcp_server_create, vr_socket_create, syscall, mbind, io_bind. by rewrite Hs.
Qed.
End Properties.

(** ** Witnesses *)

Section Witness.
#[local] Existing Instance sim_kernel.
#[local] Existing Instance sim_laws.

Definition sim_world (s : sim) : world :=
  World (s : kst) proc0 ∅ (Manager None 0 0) (Reactor (-1) [] 0).

Definition result {A} (o : outcome ((Z * A) * world)) : Z :=
  match o with Ok ((n, _), _) => n | _ => -2 end.

Lemma send_all_prefix_witness :
  exists r w' k, vr_socket_send_all 7 [1; 2; 3; 4] 4 0
      (sim_world (sim_start 3 [] ∅ ∅ {[7 := 3]} [])) = Ok ((r, 4), w') /\
    0 <= k <= 4 /\ r = -1.
Proof.
  destruct (send_all_prefix 7 0 4 [1; 2; 3; 4] (sim_world (sim_start 3 [] ∅ ∅ {[7 := 3]} [])))
    as (r & w' & k & E & Hk & _); [unfold zlen; simpl; lia|].
  exists r, w', k. split_and!; [done|lia|lia|].
  symmetry. apply (f_equal result) in E. by vm_compute in E.
Defined.
End Witness.
