(* ===== verification/Enqueue.v ===== *)
(** * Enqueue: reactor_enqueue_response of src/event_loop/reactor.c

    Queueing a response into the write ring of a connection: reserve the whole
    packet, then serialize straight into the ring when one region is long enough,
    or into a staging block that is copied in two parts.  The theorems say which
    bytes the ring gains in either case and that failure gains it none.  The
    packet is reserved and committed with [sizeof(vr_packet_header_t)] bytes of
    header while the serializer writes eight, so what is queued is the wire form
    of the packet followed by bytes that happened to be in the memory behind it. *)

From S2P Require Import Prelude Core RingBuffer Packet.
#[local] Open Scope Z_scope.

Definition UINT32_MAX : Z := 4294967295.

Section Enqueue.
Context `{Libc} `{Abi}.
Implicit Types b : vr_connection_ring_buf_t.

(** [free(response->payload); free(response);] *)
Definition release_response (response : vr_packet_t) (p : proc) : proc :=
  free (Some tt) (free (pk_payload response) p).

(** Lines 340-380: serialize into the region the ring handed out. *)
Definition enqueue_fast b (response : vr_packet_t) (region1 packet_size : Z) (p : proc)
    : outcome (bool * vr_connection_ring_buf_t * proc) :=
  d ← deref (rb_data b);
  d ← vr_packet_serialize (Some response) d region1;
  let b := RingBuf (Some d) (rb_capacity b) (rb_count b) (rb_read_pos b) (rb_write_pos b)
                   (rb_state b) in
  '(res, b) ← vr_conn_ring_buf_commit b (u32 packet_size);
  match res with
  | VR_ERROR => Ok (false, b, release_response response p)
  | _ => Ok (true, b, release_response response p)
  end.

(** Lines 475-560: copy the staged packet in two parts. *)
Definition enqueue_copy b (response : vr_packet_t) (serialized : list Z)
    (region1 first_part remaining : Z) (p : proc)
    : outcome (bool * vr_connection_ring_buf_t * proc) :=
  let release p := release_response response (free (Some serialized) p) in
  s ← slice serialized 0 first_part;
  b ← rb_memcpy b region1 s;
  '(res, b) ← vr_conn_ring_buf_commit b first_part;
  match res with
  | VR_ERROR => Ok (false, b, release p)
  | _ =>
      match vr_conn_ring_buf_contiguous_write b with
      | (_, None) => Ok (false, b, release p)
      | (region2_len, Some region2) =>
          if region2_len <? remaining then Ok (false, b, release p)
          else
            s ← slice serialized first_part remaining;
            b ← rb_memcpy b region2 s;
            '(res, b) ← vr_conn_ring_buf_commit b remaining;
            match res with
            | VR_ERROR => Ok (false, b, release p)
            | _ => Ok (true, b, release p)
            end
      end
  end.

(** Lines 403-456: compute the parts and stage the packet. *)
Definition enqueue_wrap b (response : vr_packet_t) (region1 region1_len packet_size : Z) (p : proc)
    : outcome (bool * vr_connection_ring_buf_t * proc) :=
  let first_part := if packet_size <? region1_len then u32 packet_size else region1_len in
  let remaining := u32 (packet_size - first_part) in
  if remaining =? 0 then Ok (false, b, release_response response p)
  else
    match malloc packet_size p with
    | (None, p) => Ok (false, b, release_response response p)
    | (Some serialized, p) =>
        serialized ← vr_packet_serialize (Some response) serialized 0;
        enqueue_copy b response serialized region1 first_part remaining p
    end.

(** Lines 259-329: size, reservation and the first writable region of a
    response for the ring [b] of a connection. *)
Definition enqueue_ring b (response : vr_packet_t) (p : proc)
    : outcome (bool * vr_connection_ring_buf_t * proc) :=
  let packet_size := sizeof_vr_packet_header_t + h_payload_len (pk_header response) in
  if UINT32_MAX <? packet_size then Ok (false, b, release_response response p)
  else
    '(res, b, p) ← vr_conn_ring_buf_reserve b (u32 packet_size) p;
    match res with
    | VR_ERROR => Ok (false, b, release_response response p)
    | _ =>
        match vr_conn_ring_buf_contiguous_write b with
        | (_, None) => Ok (false, b, release_response response p)
        | (region1_len, Some region1) =>
            if region1_len =? 0 then Ok (false, b, release_response response p)
            else if packet_size <=? region1_len
            then enqueue_fast b response region1 packet_size p
            else enqueue_wrap b response region1 region1_len packet_size p
        end
    end.

(** ** Specification *)

Lemma release_response_live response p :
  p_live (release_response response p) = p_live p - 1 - owned (pk_payload response).
Proof. unfold release_response. autorewrite with live. simpl. lia. Qed.


Lemma ring_write_pos b :
  ring_wf b -> rb_capacity b <> 0 ->
  rb_write_pos b = wrap (rb_capacity b) (rb_read_pos b + rb_count b) /\
  0 <= rb_read_pos b < rb_capacity b /\ 0 <= rb_write_pos b < rb_capacity b.
Proof.
  intros Hb. ring_open Hb; [done|]. intros _. subst w.
  split_and!; try lia; apply wrap_range; lia.
Qed.

Lemma ring_block b :
  ring_wf b -> rb_capacity b <> 0 ->
  exists d, rb_data b = Some d /\ zlen d = rb_capacity b /\ Forall is_byte d.
Proof. intros Hb. ring_open Hb; [done|]. intros _. by exists d. Qed.

(** Storing what is there already changes nothing. *)
Lemma splice_extend {A} (d bs : list A) off k :
  0 <= off -> 0 <= k -> off + zlen bs + k <= zlen d ->
  splice d off bs
  = splice d off (bs ++ take (Z.to_nat k) (drop (Z.to_nat off + length bs) d)).
Proof.
  intros Ho Hk Hl. unfold zlen in *.
  assert (Hlen : length (take (Z.to_nat k) (drop (Z.to_nat off + length bs) d)) = Z.to_nat k)
    by (rewrite length_take, length_drop; lia).
  rewrite !splice_ok by (unfold zlen; rewrite ?length_app, ?Hlen; lia).
  do 2 f_equal. rewrite length_app, Hlen, <-app_assoc. f_equal.
  rewrite <-(take_drop (Z.to_nat k) (drop (Z.to_nat off + length bs) d)) at 1.
  f_equal. rewrite drop_drop. f_equal. lia.
Qed.

Lemma packet_bytes_length response :
  header_fits (pk_header response) -> payload_fits response ->
  zlen (packet_bytes response) = 8 + h_payload_len (pk_header response) /\
  Forall is_byte (packet_bytes response).
Proof.
  intros Hh Hp. unfold packet_bytes, payload_bytes. pose proof (hf_payload_len _ Hh).
  assert (Hpay : zlen (payload_bytes response) = h_payload_len (pk_header response) /\
    Forall is_byte (payload_bytes response)).
  { unfold payload_bytes. destruct Hp as [-> | (d & -> & Hd & Hby)].
    - change (Z.to_nat 0) with O. by destruct (pk_payload response).
    - split; [unfold zlen in *; rewrite length_take; lia|by apply Forall_take]. }
  destruct Hpay as [Hpl Hpb]. unfold payload_bytes in *. split.
  - unfold zlen in *. rewrite length_app, header_bytes_length. lia.
  - apply Forall_app. split; [by apply header_bytes_bytes|done].
Qed.

(** The bytes of a block [d] that follow a packet written at [off], as many as
    the frame counts and the serializer does not write. *)
Definition behind (response : vr_packet_t) (off : Z) (d : list Z) : list Z :=
  take (Z.to_nat (sizeof_vr_packet_header_t - 8))
       (drop (Z.to_nat off + length (packet_bytes response)) d).

(** What enqueueing leaves behind. *)
Definition enqueue_post b (response : vr_packet_t) (p : proc)
    (ok : bool) (b' : vr_connection_ring_buf_t) (p' : proc) : Prop :=
  ring_wf b' /\
  p_live p' = p_live p - 1 - owned (pk_payload response)
              + owned (rb_data b') - owned (rb_data b) /\
  if ok then
    exists stale, zlen stale = sizeof_vr_packet_header_t - 8 /\ Forall is_byte stale /\
      ring_contents b' = ring_contents b ++ packet_bytes response ++ stale
  else
    ring_contents b' = ring_contents b /\
    (VR_CONNECTION_BUFFER_MAX_SIZE < zlen (ring_contents b) + sizeof_vr_packet_header_t
       + h_payload_len (pk_header response) \/ exists n, ~ allocates n).

Lemma enqueue_fast_spec b response region1_len region1 size p :
  ring_wf b -> header_fits (pk_header response) -> payload_fits response ->
  size = sizeof_vr_packet_header_t + h_payload_len (pk_header response) ->
  vr_conn_ring_buf_contiguous_write b = (region1_len, Some region1) -> size <= region1_len ->
  exists b' p' d, enqueue_fast b response region1 size p = Ok (true, b', p') /\
    enqueue_post b response p true b' p' /\ rb_data b = Some d /\
    ring_contents b' = ring_contents b ++ packet_bytes response ++ behind response region1 d.
Proof.
  intros Hb Hh Hpl Hsz Hcw Hfit. pose proof sizeof_header_range as Hsr.
  destruct (packet_bytes_length response Hh Hpl) as [Hlen Hby].
  pose proof (hf_payload_len _ Hh).
  destruct (contiguous_write_region _ _ _ Hb Hcw) as (-> & Hpos & Hreg).
  pose proof (ring_wf_count b Hb). unfold ring_room in *.
  destruct (ring_block b Hb) as (d & Ed & Hd & Hdb); [lia|].
  destruct (ring_write_pos b Hb) as (_ & _ & Hw0 & _); [lia|].
  set (stale := behind response (rb_write_pos b) d).
  assert (Hstale : zlen stale = sizeof_vr_packet_header_t - 8).
  { subst stale. unfold behind, zlen in *. rewrite length_take, length_drop. lia. }
  assert (Hsb : Forall is_byte stale) by (by apply Forall_take, Forall_drop).
  destruct (write_commit_spec b region1_len (rb_write_pos b) (packet_bytes response ++ stale))
    as (b1 & b2 & Hm & Hc & Hwf & Hq & Hcap & _);
    [done|done|unfold zlen in *; rewrite length_app; lia|by apply Forall_app|].
  unfold enqueue_fast. rewrite Ed. ostep.
  rewrite serialize_splice, (splice_extend _ _ _ (sizeof_vr_packet_header_t - 8)) by (done || lia).
  fold (behind response (rb_write_pos b) d). fold stale. unfold rb_memcpy in Hm. rewrite Ed in Hm. cbn [mbind outcome_bind deref] in Hm.
  destruct (splice d (rb_write_pos b) (packet_bytes response ++ stale)) as [d'| |]; try done.
  injection Hm as Hm. cbn [mbind outcome_bind]. rewrite Hm.
  replace (zlen (packet_bytes response ++ stale)) with size in Hc
    by (unfold zlen in *; rewrite length_app; lia).
  rewrite u32_id, Hc by lia. cbn [mbind outcome_bind]. do 2 eexists. exists d. split; [done|].
  split_and!; [split_and!; [done| |by exists stale]|done|done].
  rewrite release_response_live, Ed, (ring_owned b2) by (done || lia). simpl. lia.
Qed.

(** The second region, once the first has been filled to the end of the block. *)
Lemma second_region b n :
  ring_wf b -> rb_capacity b <> 0 -> rb_write_pos b = 0 -> 0 < n <= ring_room b ->
  exists len, vr_conn_ring_buf_contiguous_write b = (len, Some 0) /\ n <= len.
Proof.
  intros Hb Hc Hw Hn. pose proof (ring_wf_count b Hb).
  rewrite contiguous_write_spec, Hw by (done || lia). unfold ring_room in *.
  eexists. split; [done|]. lia.
Qed.

Lemma enqueue_copy_spec b response serialized first remaining p :
  ring_wf b -> Forall is_byte serialized ->
  vr_conn_ring_buf_contiguous_write b = (first, Some (rb_write_pos b)) ->
  zlen serialized = first + remaining -> 0 < remaining -> first + remaining <= ring_room b ->
  exists b' p', enqueue_copy b response serialized (rb_write_pos b) first remaining p
      = Ok (true, b', p') /\ ring_wf b' /\
    ring_contents b' = ring_contents b ++ serialized /\
    p_live p' = p_live p - 2 - owned (pk_payload response) /\
    owned (rb_data b') = 1 /\ owned (rb_data b) = 1.
Proof.
  intros Hb Hser Hcw Hsum Hrem Hroom. unfold enqueue_copy.
  pose proof (ring_wf_count b Hb). assert (Hroom' := Hroom). unfold ring_room in Hroom'.
  destruct (contiguous_write_region _ _ _ Hb Hcw) as (_ & Hpos & Hreg).
  destruct (ring_write_pos b Hb) as (Hw & Hr & Hwr); [lia|]. unfold ring_room in Hreg.
  rewrite (slice_ok serialized 0 first) by lia. ostep. change (Z.to_nat 0) with O. rewrite drop_0.
  set (s1 := take (Z.to_nat first) serialized).
  assert (Hs1 : zlen s1 = first) by (subst s1; unfold zlen in *; rewrite length_take; lia).
  destruct (write_commit_spec b first (rb_write_pos b) s1) as (b1 & b2 & -> & Hc & Hwf & Hq & Hcap & Hrp);
    [done|done|lia|by apply Forall_take|]. ostep. rewrite Hs1 in Hc. rewrite Hc. ostep.
  assert (Hcnt : rb_count b2 = rb_count b + first).
  { rewrite <-(ring_contents_length b2 Hwf), <-(ring_contents_length b Hb), Hq.
    unfold zlen in *. rewrite length_app. lia. }
  destruct (ring_write_pos b2 Hwf) as (Hw2 & _ & _); [lia|].
  assert (Hw20 : rb_write_pos b2 = 0).
  { rewrite Hw2, Hcap, Hrp, Hcnt. rewrite Hw in Hreg. unfold wrap in *.
    destruct (Z.ltb_spec (rb_read_pos b + rb_count b) (rb_capacity b)); bdestruct_test; lia. }
  destruct (second_region b2 remaining Hwf) as (len2 & Hcw2 & Hlen2);
    [lia|done|unfold ring_room; lia|]. rewrite Hcw2.
  rewrite (proj2 (Z.ltb_ge _ _)) by lia. rewrite slice_ok by lia. ostep.
  set (s2 := take (Z.to_nat remaining) (drop (Z.to_nat first) serialized)).
  assert (Hs2 : zlen s2 = remaining)
    by (subst s2; unfold zlen in *; rewrite length_take, length_drop; lia).
  destruct (write_commit_spec b2 len2 0 s2) as (b3 & b4 & -> & Hc4 & Hwf4 & Hq4 & Hcap4 & _);
    [done|done|lia|by apply Forall_take, Forall_drop|]. ostep. rewrite Hs2 in Hc4. rewrite Hc4. ostep.
  do 2 eexists. split; [done|]. split_and!; [done| | |apply ring_owned; [done|lia]..].
  - rewrite Hq4, Hq, <-app_assoc. f_equal. subst s1 s2. rewrite take_ge with (n := Z.to_nat remaining)
      by (unfold zlen in *; rewrite length_drop; lia). apply take_drop.
  - rewrite release_response_live. simpl. lia.
Qed.

Lemma enqueue_wrap_spec b response region1 first size p :
  ring_wf b -> header_fits (pk_header response) -> payload_fits response ->
  size = sizeof_vr_packet_header_t + h_payload_len (pk_header response) ->
  vr_conn_ring_buf_contiguous_write b = (first, Some region1) -> first < size ->
  size <= ring_room b ->
  exists ok b' p', enqueue_wrap b response region1 first size p = Ok (ok, b', p') /\
    enqueue_post b response p ok b' p' /\
    (ok = true -> exists f, alloc_answer (p_next p) size = Some f /\
       ring_contents b' = ring_contents b ++ packet_bytes response
                          ++ behind response 0 (block_of f size)).
Proof.
  intros Hb Hh Hpl Hsz Hcw Hfit Hroom. pose proof sizeof_header_range as Hsr.
  destruct (packet_bytes_length response Hh Hpl) as [Hlen Hby]. pose proof (hf_payload_len _ Hh).
  destruct (contiguous_write_region _ _ _ Hb Hcw) as (-> & Hpos & Hreg).
  pose proof (ring_wf_count b Hb). assert (Hroom' := Hroom). unfold ring_room in Hroom'.
  unfold enqueue_wrap. rewrite (proj2 (Z.ltb_ge _ _)) by lia. cbv zeta.
  rewrite u32_id by lia. rewrite (proj2 (Z.eqb_neq _ _)) by lia.
  pose proof (malloc_spec size p ltac:(lia)) as Hm.
  destruct (malloc size p) as [[blk|] p1] eqn:Em.
  2:{ do 3 eexists. split; [done|]. split; [|done]. split_and!; [done| |done|].
      - rewrite release_response_live. lia.
      - right. exists size. unfold malloc in Em. destruct (alloc_answer _ _) eqn:Ea; [done|].
        by eapply not_allocates. }
  assert (exists f, alloc_answer (p_next p) size = Some f /\ blk = block_of f size) as (f & Ef & Hblk).
  { unfold malloc in Em. destruct (alloc_answer _ _) as [f|]; simplify_eq. by exists f. }
  destruct Hm as (Hbl & Hblb & Hl & _). rewrite serialize_splice by done.
  rewrite splice_ok by lia. ostep. change (Z.to_nat 0) with O.
  rewrite take_0, app_nil_l, Nat.add_0_l.
  set (stale := drop (length (packet_bytes response)) blk).
  assert (Hst : zlen stale = sizeof_vr_packet_header_t - 8)
    by (subst stale; unfold zlen in *; rewrite length_drop; lia).
  assert (Hstb : Forall is_byte stale) by (by apply Forall_drop).
  destruct (enqueue_copy_spec b response (packet_bytes response ++ stale) first (size - first) p1)
    as (b' & p' & -> & Hwf & Hq & Hl' & Ho' & Ho);
    [done|by apply Forall_app|done|unfold zlen in *; rewrite length_app; lia|lia|lia|].
  do 3 eexists. split; [done|]. split; [split_and!; [done|lia|by exists stale]|].
  intros _. exists f. split; [done|]. rewrite Hq, <-Hblk. do 2 f_equal. unfold behind.
  change (Z.to_nat 0) with O. rewrite Nat.add_0_l. fold stale.
  by rewrite take_ge by (unfold zlen in *; lia).
Qed.

(** Where the bytes behind a queued packet come from: the ring [b1] the
    reservation left when one region takes the packet, the staging block
    otherwise. *)
Definition stale_source (response : vr_packet_t) b1 (p1 : proc) (stale : list Z) : Prop :=
  let size := sizeof_vr_packet_header_t + h_payload_len (pk_header response) in
  if size <=? (vr_conn_ring_buf_contiguous_write b1).1
  then exists d, rb_data b1 = Some d /\ stale = behind response (rb_write_pos b1) d
  else exists f, alloc_answer (p_next p1) size = Some f /\
         stale = behind response 0 (block_of f size).

Lemma enqueue_full_spec b response p :
  ring_wf b -> header_fits (pk_header response) -> payload_fits response ->
  exists ok b' p', enqueue_ring b response p = Ok (ok, b', p') /\
    enqueue_post b response p ok b' p' /\
    (ok = true -> exists b1 p1 stale,
       vr_conn_ring_buf_reserve b
         (sizeof_vr_packet_header_t + h_payload_len (pk_header response)) p
       = Ok (VR_SUCCESS, b1, p1) /\
       stale_source response b1 p1 stale /\
       ring_contents b' = ring_contents b ++ packet_bytes response ++ stale).
Proof.
  intros Hb Hh Hpl. unfold enqueue_ring, stale_source. pose proof sizeof_header_range as Hsr.
  pose proof (hf_payload_len _ Hh) as Hplen.
  set (size := sizeof_vr_packet_header_t + h_payload_len (pk_header response)).
  assert (Hsize : size = sizeof_vr_packet_header_t + h_payload_len (pk_header response)) by done.
  clearbody size. rewrite (proj2 (Z.ltb_ge _ _)) by (unfold UINT32_MAX; lia).
  rewrite u32_id by lia.
  destruct (reserve_spec b size p Hb) as (r & b1 & p1 & -> & Hb1 & Hq & Hcap & Hl & Hr); [lia|].
  ostep. destruct Hr as [(-> & Hroom & Hcz)|(-> & Hroom & Hwhy)].
  2:{ do 3 eexists. split; [done|]. split; [|done]. split_and!; [done| |done|].
      - rewrite release_response_live. lia.
      - destruct Hwhy as [[Hc Hr]|?]; [left|by right]. rewrite <-Hq, ring_contents_length by done.
        unfold ring_room, VR_CONNECTION_BUFFER_MAX_SIZE in *. lia. }
  destruct (ring_write_pos b1 Hb1 Hcz) as (_ & _ & Hw).
  rewrite contiguous_write_spec by (done || lia).
  assert (Hcw := contiguous_write_spec b1 Hb1 ltac:(lia)).
  set (first := Z.min _ _) in *. rewrite (proj2 (Z.eqb_neq _ _)) by lia.
  assert (Hpost : forall ok b' p', enqueue_post b1 response p1 ok b' p' ->
    enqueue_post b response p ok b' p').
  { intros ok b' p' (? & Hl' & Hok). split_and!; [done|lia|].
    rewrite Hq in Hok. done. }
  destruct (Z.leb_spec size first).
  - destruct (enqueue_fast_spec b1 response first (rb_write_pos b1) size p1)
      as (b' & p' & d & -> & Hp & Hd & Hc); [done..|].
    exists true, b', p'. split_and!; [done|auto|]. intros _.
    do 3 eexists. split; [done|]. rewrite Hcw, <-Hq. cbn [fst].
    rewrite (proj2 (Z.leb_le _ _)) by done. split; [by exists d|done].
  - destruct (enqueue_wrap_spec b1 response (rb_write_pos b1) first size p1)
      as (ok & b' & p' & -> & Hp & Hc); [done..|].
    exists ok, b', p'. split_and!; [done|auto|]. intros Hok. destruct (Hc Hok) as (f & Hf & Hc').
    do 3 eexists. split; [done|]. rewrite Hcw, <-Hq. cbn [fst].
    rewrite (proj2 (Z.leb_gt _ _)) by done. split; [by exists f|done].
Qed.

Lemma enqueue_spec b response p :
  ring_wf b -> header_fits (pk_header response) -> payload_fits response ->
  exists ok b' p', enqueue_ring b response p = Ok (ok, b', p') /\ enqueue_post b response p ok b' p'.
Proof.
  intros Hb Hh Hpl. destruct (enqueue_full_spec b response p Hb Hh Hpl)
    as (ok & b' & p' & ? & ? & _). by exists ok, b', p'.
Qed.
End Enqueue.

(** ** Properties *)

(** C7.  Queueing a response never touches memory outside the ring, frees the
    response whatever happens, and either appends the whole wire form of the
    packet, followed by [sizeof(vr_packet_header_t) - 8] further bytes, behind
    everything queued before, on the contiguous and on the wrap-around path; or
    leaves the queued bytes as they were, and then only because the packet does
    not fit below the maximum size or an allocation failed. *)
Theorem enqueue_appends_packet `{Libc} `{Abi} (b : vr_connection_ring_buf_t)
  (response : vr_packet_t) (p : proc)
  (Hb : ring_wf b) (Hh : header_fits (pk_header response)) (Hp : payload_fits response) :
  exists ok b' p', enqueue_ring b response p = Ok (ok, b', p') /\ ring_wf b' /\
    p_live p' = p_live p - 1 - owned (pk_payload response)
                + owned (rb_data b') - owned (rb_data b) /\
    if ok then
      exists stale, zlen stale = sizeof_vr_packet_header_t - 8 /\
        ring_contents b' = ring_contents b ++ packet_bytes response ++ stale
    else
      ring_contents b' = ring_contents b /\
      (VR_CONNECTION_BUFFER_MAX_SIZE < zlen (ring_contents b) + sizeof_vr_packet_header_t
         + h_payload_len (pk_header response) \/ exists n, ~ allocates n).
Proof.
  destruct (enqueue_spec b response p Hb Hh Hp) as (ok & b' & p' & -> & Hwf & Hl & Hok).
  exists ok, b', p'. split_and!; try done. destruct ok; [|done].
  destruct Hok as (stale & ? & _ & ?). by exists stale.
Qed.

Definition pong : vr_packet_t :=
  Packet (Header VR_MAGIC VR_PROTOCOL_VERSION (pkt_int VR_PKT_PONG) 0 VR_FLAG_NONE 0) None.

Lemma pong_fits : header_fits (pk_header pong) /\ payload_fits pong.
Proof. split; [constructor; by vm_compute|by left]. Qed.

Lemma enqueue_appends_packet_witness :
  exists ok b' p', @enqueue_ring (libc_fill 0) gcc_abi (ring_at [1; 2; 3] 4090) pong proc0
      = Ok (ok, b', p') /\ ring_wf b'.
Proof.
  destruct (ring_at_spec [1; 2; 3] 4090) as [Hwf _]; [vm_compute; discriminate|lia|solve_bytes|].
  destruct (@enqueue_appends_packet (libc_fill 0) gcc_abi (ring_at [1; 2; 3] 4090) pong proc0
    Hwf (proj1 pong_fits) (proj2 pong_fits)) as (ok & b' & p' & E & Hb & _).
  exists ok, b', p'. split; [exact E|exact Hb].
Defined.

(** C36.  Every queued response carries bytes the program did not write for it,
    four of them with gcc's enums.  With memory and room, the ring gains the
    wire form of the response and behind it [sizeof(vr_packet_header_t) - 8]
    bytes that were in memory before: those of the ring's own block behind the
    packet, left there by an earlier packet or by malloc, when one region takes
    it, and those at the end of the staging block as malloc returned it
    otherwise. *)
Theorem response_leaks_memory `{Libc} `{Abi} (b : vr_connection_ring_buf_t)
  (response : vr_packet_t) (p : proc)
  (Hb : ring_wf b) (Hh : header_fits (pk_header response)) (Hp : payload_fits response)
  (Hm : forall n, allocates n)
  (Hroom : zlen (ring_contents b) + sizeof_vr_packet_header_t
           + h_payload_len (pk_header response) <= VR_CONNECTION_BUFFER_MAX_SIZE) :
  exists b1 p1 b' p' stale,
    vr_conn_ring_buf_reserve b
      (sizeof_vr_packet_header_t + h_payload_len (pk_header response)) p
    = Ok (VR_SUCCESS, b1, p1) /\
    enqueue_ring b response p = Ok (true, b', p') /\
    ring_contents b' = ring_contents b ++ packet_bytes response ++ stale /\
    stale_source response b1 p1 stale /\
    zlen stale = sizeof_vr_packet_header_t - 8 /\ (sizeof_enum = 4 -> zlen stale = 4).
Proof.
  destruct (enqueue_full_spec b response p Hb Hh Hp)
    as (ok & b' & p' & He & (_ & _ & Hok) & Hsrc). destruct ok.
  2:{ destruct Hok as [_ [?|[n Hn]]]; [lia|by destruct (Hn (Hm n))]. }
  destruct (Hsrc eq_refl) as (b1 & p1 & stale & Hr & Hs & Hc).
  destruct Hok as (stale' & Hlen & _ & Hc'). rewrite Hc in Hc'.
  apply app_inv_head, app_inv_head in Hc' as ->.
  exists b1, p1, b', p', stale'. split_and!; try done.
  intros He4. destruct sizeof_header_cases as [[??]|[[??]|[??]]]; lia.
Qed.

(** On a new connection, whose write ring is fresh from malloc, the four bytes
    are those malloc found in the block. *)
Lemma response_leaks_memory_witness :
  exists b1 p1 b' p' stale,
    @vr_conn_ring_buf_reserve (libc_fill 170) zeroed_ring_buf 12 proc0
    = Ok (VR_SUCCESS, b1, p1) /\
    @enqueue_ring (libc_fill 170) gcc_abi zeroed_ring_buf pong proc0 = Ok (true, b', p') /\
    ring_contents b' = [87; 137; 1; 4; 0; 0; 0; 0] ++ stale /\
    @stale_source (libc_fill 170) gcc_abi pong b1 p1 stale /\
    zlen stale = 4 /\ (4 = 4 -> zlen stale = 4).
Proof.
  apply (@response_leaks_memory (libc_fill 170) gcc_abi zeroed_ring_buf pong proc0).
  - constructor.
  - apply pong_fits.
  - apply pong_fits.
  - discriminate.
  - by vm_compute.
Defined.
