(* ===== verification/Reactor.v ===== *)
(** * Reactor: src/event_loop/reactor.c

    The event loop, over the kernel interface: registration with epoll, the
    handlers of readable, writable and listening descriptors, start-up, shutdown
    and the loop itself.  Connections are heap objects reached through the
    pointers epoll hands back; reading one that has been freed is undefined. *)

From S2P Require Import Prelude Core RingBuffer Packet Parser Protocol Connection World.
From S2P Require Import SocketUtils Enqueue.
#[local] Open Scope Z_scope.

Definition VR_REACTOR_MAX_EVENTS : Z := 1024.

Section Reactor.
Context `{Libc} `{Abi} `{Kernel}.

(** ** The epoll wrappers *)

Definition vr_reactor_create : io vr_result_t :=
  e_fd ← syscall k_epoll_create1;
  match e_fd with
  | None =>
      e ← get_errno;
      if e =? EINTR then mret VR_INTERRUPTED else vr_perror;; mret VR_ERROR
  | Some e_fd =>
      r ← get_reactor;
      put_reactor (Reactor e_fd (re_events r) (re_ready r));;
      mret VR_SUCCESS
  end.

Definition vr_reactor_destroy : io vr_result_t :=
  r ← get_reactor;
  res ← syscall (k_close (re_epoll_fd r));
  match res with
  | None => vr_perror;; mret VR_ERROR
  | Some _ => put_reactor (Reactor (-1) (re_events r) (re_ready r));; mret VR_SUCCESS
  end.

(** [epoll_ctl] on the descriptor of a connection. *)
Definition conn_ctl (op : ctl_op) (conn : loc) : io vr_result_t :=
  r ← get_reactor;
  c ← get_conn conn;
  status_call (k_epoll_ctl (re_epoll_fd r) op (c_fd c)).

Definition vr_reactor_add (conn : loc) (events : Z) : io vr_result_t :=
  conn_ctl (EPOLL_CTL_ADD events conn) conn.

Definition vr_reactor_remove (conn : loc) : io vr_result_t := conn_ctl EPOLL_CTL_DEL conn.

Definition vr_reactor_modify (conn : loc) (events : Z) : io vr_result_t :=
  conn_ctl (EPOLL_CTL_MOD events conn) conn.

Definition vr_reactor_wait (timeout : Z) : io vr_result_t :=
  r ← get_reactor;
  res ← syscall (k_epoll_wait (re_epoll_fd r) VR_REACTOR_MAX_EVENTS timeout);
  match res with
  | None =>
      e ← get_errno;
      if e =? EINTR then mret VR_ERROR else vr_perror;; mret VR_ERROR
  | Some evs => put_reactor (Reactor (re_epoll_fd r) evs (zlen evs));; mret VR_SUCCESS
  end.

(** ** Closing a connection *)

Definition destroy_connection (conn : loc) : io vr_result_t :=
  with_mgr (fun m h p => vr_connection_destroy m (Some conn) h p).

Definition reactor_close_connection (conn : loc) : io unit :=
  c ← get_conn conn;
  let fd := c_fd c in
  vr_reactor_remove conn;;
  close fd;;
  destroy_connection conn;;
  mret tt.

(** ** Writing *)

Definition reactor_enqueue_response (conn : loc) (response : vr_packet_t) : io bool :=
  c ← get_conn conn;
  '(ok, b) ← try_proc (fun p =>
     '(ok, b, p) ← enqueue_ring (c_write_buf c) response p; Ok (ok, b, p));
  put_conn conn (set_write_buf b c);;
  mret ok.

(** The [while] loop of drain_writes; true when it closed the connection. *)
Fixpoint drain_writes_loop (fuel : nat) (conn : loc) (fd : Z) : io bool :=
  match fuel with
  | O => out_of_fuel
  | S fuel =>
      c ← get_conn conn;
      if vr_conn_ring_buf_empty (c_write_buf c) then mret false
      else
        let '(available, data) := vr_conn_ring_buf_contiguous_read (c_write_buf c) in
        if available =? 0 then mret false
        else
          d ← lift (deref (rb_data (c_write_buf c)));
          off ← lift (deref data);
          bytes ← lift (slice d off available);
          sent ← vr_socket_send fd bytes MSG_NOSIGNAL;
          if 0 <? sent then
            '(res, b) ← lift (vr_conn_ring_buf_consume (c_write_buf c) (u32 sent));
            put_conn conn (set_write_buf b c);;
            match res with
            | VR_ERROR => reactor_close_connection conn;; mret true
            | _ => drain_writes_loop fuel conn fd
            end
          else
            e ← get_errno;
            if (sent =? -1) && would_block e then mret false
            else reactor_close_connection conn;; mret true
  end.

Definition reactor_drain_writes (conn : loc) : io bool :=
  c ← get_conn conn;
  let fuel := S (Z.to_nat (rb_count (c_write_buf c))) in
  closed ← drain_writes_loop fuel conn (c_fd c);
  if (closed : bool) then mret true
  else
    c ← get_conn conn;
    if vr_conn_ring_buf_empty (c_write_buf c)
    then vr_reactor_modify conn (Z.lor EPOLLIN EPOLLET);; mret false
    else mret false.

(** ** Reading *)

(** What drain_reads does when the ring is full: allocate or grow it. *)
Definition read_room (conn : loc) : io vr_result_t :=
  c ← get_conn conn;
  '(res, b) ←
    (match rb_state (c_read_buf c) with
     | VR_CONN_RING_BUF_UNALLOC =>
         with_proc (fun p => let '(res, b, p) := vr_conn_ring_buf_init (c_read_buf c) p in (res, b, p))
     | _ =>
         try_proc (fun p =>
           '(res, b, p) ← vr_conn_ring_buf_grow (c_read_buf c) p; Ok (res, b, p))
     end);
  put_conn conn (set_read_buf b c);;
  mret res.

Fixpoint drain_reads_loop (fuel : nat) (conn : loc) (fd : Z) : io bool :=
  match fuel with
  | O => out_of_fuel
  | S fuel =>
      c ← get_conn conn;
      '(len, b) ← vr_socket_recv_ring_buf fd (c_read_buf c) 0;
      put_conn conn (set_read_buf b c);;
      if len =? 0 then reactor_close_connection conn;; mret true
      else if len =? -1 then
        e ← get_errno;
        if would_block e then mret false
        else if e =? ENOBUFS then
          res ← read_room conn;
          match res with
          | VR_ERROR => mret false
          | _ => drain_reads_loop fuel conn fd
          end
        else reactor_close_connection conn;; mret true
      else drain_reads_loop fuel conn fd
  end.

(** Every turn of the loop but the last receives a byte or enlarges the ring, and
    neither the number of bytes nor the size of the ring exceeds the maximum. *)
Definition read_fuel : nat := Z.to_nat (2 * VR_CONNECTION_BUFFER_MAX_SIZE + 1).

Definition reactor_drain_reads (conn : loc) : io bool :=
  c ← get_conn conn;
  drain_reads_loop read_fuel conn (c_fd c).

(** ** Packets *)

(** One parsed packet: hand it to the protocol and queue the answer; false when
    the answer could not be queued. *)
Definition answer_packet (conn : loc) (pkt : vr_packet_t) : io bool :=
  c ← get_conn conn;
  '(response, proto) ← try_proc (fun p =>
     '(response, proto, p) ← vr_protocol_handle_packet (Some (c_proto c)) (Some pkt) p;
     Ok (response, proto, p));
  proto ← lift (deref proto);
  put_conn conn (set_proto proto c);;
  with_proc (fun p => (tt, free (pk_payload pkt) p));;
  match response with
  | None => mret true
  | Some response => reactor_enqueue_response conn response
  end.

(** The [while] loop of process_packets; true when it closed the connection. *)
Fixpoint process_packets_loop (fuel : nat) (conn : loc) : io bool :=
  match fuel with
  | O => out_of_fuel
  | S fuel =>
      c ← get_conn conn;
      '(parsed, parser, b, pkt) ← try_proc (fun p =>
         '(parsed, parser, b, pkt, p) ← vr_parser_poll (c_parser c) (c_read_buf c) zeroed_packet p;
         Ok (parsed, parser, b, pkt, p));
      put_conn conn (set_read_buf b (set_parser parser c));;
      match parsed with
      | VR_EMPTY => mret false
      | VR_ERROR => reactor_close_connection conn;; mret true
      | _ =>
          ok ← answer_packet conn pkt;
          if (ok : bool) then process_packets_loop fuel conn else mret false
      end
  end.

(** The result is [*closed]. *)
Definition reactor_process_packets (conn : loc) : io bool :=
  c ← get_conn conn;
  let fuel := S (Z.to_nat (rb_count (c_read_buf c))) in
  closed ← process_packets_loop fuel conn;
  if (closed : bool) then mret true
  else
    c ← get_conn conn;
    if vr_conn_ring_buf_empty (c_write_buf c) then mret false
    else vr_reactor_modify conn (Z.lor (Z.lor EPOLLIN EPOLLOUT) EPOLLET);; mret false.

(** ** Events *)

Definition has_event (events e : Z) : bool := negb (Z.land events e =? 0).

Definition reactor_handle_client_event (conn : loc) (events : Z) : io unit :=
  closed ← (if has_event events EPOLLOUT then reactor_drain_writes conn else mret false : io bool);
  closed ← (if negb closed && has_event events EPOLLIN
            then reactor_drain_reads conn else mret closed : io bool);
  if (closed : bool) then mret tt
  else _ ← reactor_process_packets conn; mret tt.

Definition create_connection (n : vr_net_conn_t) : io (option loc) :=
  with_mgr (fun m h p => vr_connection_create m n h p).

(** What the accept loop does with a connection it has accepted. *)
Definition adopt_connection (n : vr_net_conn_t) : io unit :=
  new_conn ← create_connection n;
  match new_conn with
  | None => close (nc_fd n)
  | Some l =>
      c ← get_conn l;
      put_conn l (set_type VR_CONN_CLIENT c);;
      res ← vr_socket_set_non_blocking (c_fd c);
      match res with
      | VR_SUCCESS =>
          res ← vr_reactor_add l (Z.lor EPOLLIN EPOLLET);
          match res with
          | VR_SUCCESS => mret tt
          | _ => close (c_fd c);; destroy_connection l;; mret tt
          end
      | _ => close (c_fd c);; destroy_connection l;; mret tt
      end
  end.

Fixpoint accept_loop (fuel : nat) (listen_fd : Z) : io unit :=
  match fuel with
  | O => out_of_fuel
  | S fuel =>
      '(res, n) ← vr_tcp_accept listen_fd;
      match res with
      | VR_SUCCESS =>
          n ← lift (deref n);
          adopt_connection n;;
          accept_loop fuel listen_fd
      | VR_EMPTY | VR_INTERRUPTED => mret tt
      | VR_ERROR => vr_perror
      end
  end.

(** The loop has no bound of its own: it accepts for as long as the kernel has
    connections. *)
Definition reactor_handle_listener_event (fuel : nat) (listener_conn : loc) : io unit :=
  c ← get_conn listener_conn;
  accept_loop fuel (c_fd c).

(** ** Start-up and shutdown *)

(** [malloc(sizeof(vr_connection_t))] and [memset] for the listener object. *)
Definition alloc_listener (listen_fd : Z) : io (option loc) := fun w =>
  let l := alloc_addr (p_next (w_proc w)) (dom (w_heap w)) in
  let '(ok, p) := alloc_obj sizeof_vr_connection_t (w_proc w) in
  if ok then
    let c := set_type VR_CONN_LISTENER
               (set_net_conn (NetConn listen_fd zeroed_sockaddr) zeroed_connection) in
    Ok (Some l, set_heap (<[l := c]> (w_heap w)) (set_proc p w))
  else Ok (None, set_proc p w).

(** [free(listener_conn)]. *)
Definition free_listener (l : loc) : io unit := fun w =>
  match w_heap w !! l with
  | Some _ => Ok (tt, set_heap (delete l (w_heap w)) (set_proc (free (Some tt) (w_proc w)) w))
  | None => Undef
  end.

Definition bootstrap_failed : io (vr_result_t * option loc * Z) :=
  vr_reactor_destroy;; mret (VR_ERROR, None, -1).

(** Lines 1053-1107: the listener's connection object and its registration. *)
Definition register_listener (listen_fd : Z) : io (vr_result_t * option loc * Z) :=
  listener_conn ← alloc_listener listen_fd;
  match listener_conn with
  | None => vr_perror;; close listen_fd;; bootstrap_failed
  | Some l =>
      res ← vr_reactor_add l (Z.lor EPOLLIN EPOLLET);
      match res with
      | VR_SUCCESS => mret (VR_SUCCESS, Some l, listen_fd)
      | _ => close listen_fd;; free_listener l;; bootstrap_failed
      end
  end.

(** The result, [*out_listener_conn] and [*out_listen_fd]. *)
Definition reactor_bootstrap_listener (port : Z) : io (vr_result_t * option loc * Z) :=
  res ← vr_reactor_create;
  match res with
  | VR_SUCCESS =>
      '(res, listen_fd) ← vr_tcp_server_create (u16 port);
      match res with
      | VR_SUCCESS =>
          res ← vr_socket_set_non_blocking listen_fd;
          match res with
          | VR_SUCCESS => register_listener listen_fd
          | _ => close listen_fd;; bootstrap_failed
          end
      | _ => bootstrap_failed
      end
  | _ => mret (VR_ERROR, None, -1)
  end.

(** [while (manager->count > 0) vr_connection_destroy(manager, manager->slots[0])] *)
Fixpoint destroy_all (fuel : nat) : io unit :=
  match fuel with
  | O => out_of_fuel
  | S fuel =>
      m ← get_mgr;
      if 0 <? mg_count m then
        slots ← lift (deref (mg_slots m));
        conn ← lift (load slots 0);
        with_mgr (fun m h p => vr_connection_destroy m conn h p);;
        destroy_all fuel
      else mret tt
  end.

Definition reactor_shutdown (listener_conn : loc) (listen_fd : Z) : io unit :=
  m ← get_mgr;
  destroy_all (S (Z.to_nat (mg_count m)));;
  vr_reactor_remove listener_conn;;
  close listen_fd;;
  free_listener listener_conn;;
  vr_reactor_destroy;;
  mret tt.

(** ** The loop *)

(** The body of the [for] loop: one event. *)
Definition handle_event (accept_fuel : nat) (ev : Z * loc) : io unit :=
  let '(events, ready_conn) := ev in
  c ← get_conn ready_conn;
  match c_type c with
  | VR_CONN_LISTENER => reactor_handle_listener_event accept_fuel ready_conn
  | VR_CONN_CLIENT => reactor_handle_client_event ready_conn events
  end.

(** The [for] loop from event [i] on, with [n] iterations to go at most. *)
Fixpoint dispatch (accept_fuel n : nat) (i : Z) : io unit :=
  r ← get_reactor;
  if i <? re_ready r then
    match n with
    | O => out_of_fuel
    | S n =>
        ev ← lift (load (re_events r) i);
        handle_event accept_fuel ev;;
        dispatch accept_fuel n (i + 1)
    end
  else mret tt.

(** [running_status == RUNNING]: the signal handler is the only writer. *)
Definition running : io bool := fun w => Ok (negb (k_signalled (w_kern w)), w).

(** One round of the [while] loop: false when it breaks. *)
Definition loop_round (accept_fuel : nat) : io bool :=
  res ← vr_reactor_wait (-1);
  match res with
  | VR_SUCCESS =>
      dispatch accept_fuel (Z.to_nat VR_REACTOR_MAX_EVENTS) 0;;
      r ← get_reactor;
      put_reactor (Reactor (re_epoll_fd r) (re_events r) 0);;
      mret true
  | _ => mret false
  end.

(** The [while] loop, for at most [rounds] rounds. *)
Fixpoint event_loop (accept_fuel rounds : nat) : io unit :=
  match rounds with
  | O => out_of_fuel
  | S rounds =>
      go ← running;
      if (go : bool) then
        continue ← loop_round accept_fuel;
        if (continue : bool) then event_loop accept_fuel rounds else mret tt
      else mret tt
  end.

Definition vr_reactor_loop (accept_fuel rounds : nat) (port : Z) : io vr_result_t :=
  '(res, listener_conn, listen_fd) ← reactor_bootstrap_listener port;
  match res with
  | VR_SUCCESS =>
      listener_conn ← lift (deref listener_conn);
      event_loop accept_fuel rounds;;
      reactor_shutdown listener_conn listen_fd;;
      mret VR_SUCCESS
  | _ => mret VR_ERROR
  end.

End Reactor.
