(* ===== verification/Preserve.v ===== *)
(** * Preserve: what a property of the kernel survives

    A property of the kernel's state that the system calls preserve is preserved by
    every function of the server.  Each lemma depends only on the calls its function
    makes.  The liveness theorems use it for measures of the environment: how many
    connections wait, how many batches of events are still to come, how much a peer
    will still take. *)

From S2P Require Import Prelude Core RingBuffer Packet Parser Protocol Connection World.
From S2P Require Import SocketUtils Enqueue Reactor.
#[local] Open Scope Z_scope.

Section Preserve.
Context `{Libc} `{Abi} `{Kernel}.
Context (P : kst -> Prop).

Definition preserves {A} (m : io A) : Prop := forall w x w',
  m w = Ok (x, w') -> P (w_kern w) -> P (w_kern w').

(** A system call that preserves [P]. *)
Definition call_ok {A} (f : kst -> answer A * kst) : Prop := forall k, P k -> P (f k).2.

(** ** The monad *)

Lemma pres_bind {A B} (m : io A) (f : A -> io B) :
  preserves m -> (forall x, preserves (f x)) -> preserves (m ≫= f).
Proof.
  intros Hm Hf w x w'. unfold mbind, io_bind. destruct (m w) as [[y w1]| |] eqn:E; [|done..].
  intros E' HP. eapply Hf; [exact E'|]. by eapply Hm.
Qed.

Lemma pres_syscall {A} (f : kst -> answer A * kst) : call_ok f -> preserves (syscall f).
Proof.
  intros Hf w x w'. unfold syscall. specialize (Hf (w_kern w)).
  destruct (f (w_kern w)) as [[y|e] k]; intros [= <- <-]; done.
Qed.

(** Operations on the program's own state. *)
Lemma pres_local {A} (m : io A) :
  (forall w, match m w with Ok (_, w') => w_kern w' = w_kern w | _ => True end) -> preserves m.
Proof. intros Hm w x w' E. specialize (Hm w). rewrite E in Hm. by rewrite Hm. Qed.

Lemma pres_ret {A} (x : A) : preserves (mret x).
Proof. by apply pres_local. Qed.
Lemma pres_out_of_fuel {A} : preserves (@out_of_fuel _ A).
Proof. by apply pres_local. Qed.
Lemma pres_get_errno : preserves get_errno.
Proof. by apply pres_local. Qed.
Lemma pres_put_errno e : preserves (put_errno e).
Proof. by apply pres_local. Qed.
Lemma pres_log : preserves vr_log.
Proof. by apply pres_local. Qed.
Lemma pres_get_reactor : preserves get_reactor.
Proof. by apply pres_local. Qed.
Lemma pres_put_reactor r : preserves (put_reactor r).
Proof. by apply pres_local. Qed.
Lemma pres_get_mgr : preserves get_mgr.
Proof. by apply pres_local. Qed.
Lemma pres_lift {A} (o : outcome A) : preserves (lift o).
Proof. apply pres_local. intros w. by destruct o. Qed.
Lemma pres_get_conn l : preserves (get_conn l).
Proof. apply pres_local. intros w. unfold get_conn. by destruct (w_heap w !! l). Qed.
Lemma pres_put_conn l c : preserves (put_conn l c).
Proof. apply pres_local. intros w. unfold put_conn. by destruct (w_heap w !! l). Qed.
Lemma pres_with_proc {A} (f : proc -> A * proc) : preserves (with_proc f).
Proof. apply pres_local. intros w. unfold with_proc. by destruct (f _). Qed.
Lemma pres_try_proc {A} (f : proc -> outcome (A * proc)) : preserves (try_proc f).
Proof. apply pres_local. intros w. unfold try_proc. by destruct (f _) as [[? ?]| |]. Qed.
Lemma pres_with_mgr {A} (f : _ -> _ -> _ -> outcome (A * _ * _ * _)) : preserves (with_mgr f).
Proof. apply pres_local. intros w. unfold with_mgr. by destruct (f _ _ _) as [[[[? ?] ?] ?]| |]. Qed.
End Preserve.

(** A specification, and what its program preserves. *)
Lemma wx_pres `{Kernel} (P : kst -> Prop) total {A} (m : io A) (Q : A -> world -> Prop) (w : world) :
  wx total m Q w -> preserves P m -> P (w_kern w) -> wx total m (fun x w' => Q x w' /\ P (w_kern w')) w.
Proof.
  unfold wx, wp, wlp. intros Hm Hp HP. destruct (m w) as [[x w']| |] eqn:E; destruct total; try done;
    (split; [done|by eapply Hp]).
Qed.

(** Staying below a bound, for a measure that the call does not raise. *)
Lemma call_ok_measure `{Kernel} {A} (measure : kst -> nat) (n : nat) (f : kst -> answer A * kst) :
  (forall k, (measure (f k).2 <= measure k)%nat) -> call_ok (fun k => (measure k <= n)%nat) f.
Proof. intros Hf k Hk. specialize (Hf k). lia. Qed.

Create HintDb preserve.
#[export] Hint Resolve pres_ret pres_out_of_fuel pres_get_errno pres_put_errno pres_log pres_get_reactor
  pres_put_reactor pres_get_mgr pres_lift pres_get_conn pres_put_conn pres_with_proc pres_try_proc
  pres_with_mgr : preserve.

(** Walk through a program: binds and case distinctions; the hints do the rest. *)
Ltac preserve :=
  repeat first
    [ progress intros
    | solve [auto with preserve]
    | apply pres_bind
    | apply pres_syscall
    | match goal with |- preserves _ (match ?x with _ => _ end) => destruct x end ].

Section Functions.
Context `{Libc} `{Abi} `{Kernel}.
Context (P : kst -> Prop).
Hypothesis Hsocket : call_ok P k_socket.
Hypothesis Hreuse : forall fd, call_ok P (k_reuseaddr fd).
Hypothesis Hbind : forall fd a, call_ok P (k_bind fd a).
Hypothesis Hlisten : forall fd, call_ok P (k_listen fd).
Hypothesis Haccept : forall fd, call_ok P (k_accept fd).
Hypothesis Hrecv : forall fd n, call_ok P (k_recv fd n).
Hypothesis Hsend : forall fd bs fl, call_ok P (k_send fd bs fl).
Hypothesis Hgetfl : forall fd, call_ok P (k_getfl fd).
Hypothesis Hsetfl : forall fd fl, call_ok P (k_setfl fd fl).
Hypothesis Hclose : forall fd, call_ok P (k_close fd).
Hypothesis Hcreate : call_ok P k_epoll_create1.
Hypothesis Hctl : forall ep op fd, call_ok P (k_epoll_ctl ep op fd).

(** ** src/net *)

Lemma pres_close fd : preserves P (close fd).
Proof. preserve. Qed.

Lemma pres_status f : call_ok P f -> preserves P (status_call f).
Proof. preserve. Qed.

Lemma pres_set_non_blocking fd : preserves P (vr_socket_set_non_blocking fd).
Proof. preserve. Qed.

Lemma pres_server_create port : preserves P (vr_tcp_server_create port).
Proof. unfold vr_tcp_server_create. preserve. Qed.

Lemma pres_tcp_accept fd : preserves P (vr_tcp_accept fd).
Proof. preserve. Qed.

Lemma pres_recv_ring_buf fd b fl : preserves P (vr_socket_recv_ring_buf fd b fl).
Proof. unfold vr_socket_recv_ring_buf, recv_done, recv_failed. preserve. Qed.

Lemma pres_send fd bs fl : preserves P (vr_socket_send fd bs fl).
Proof. preserve. Qed.

(** ** src/event_loop *)

Lemma pres_conn_ctl op l : preserves P (conn_ctl op l).
Proof. preserve. Qed.

Lemma pres_reactor_create : preserves P vr_reactor_create.
Proof. preserve. Qed.

Lemma pres_reactor_destroy : preserves P vr_reactor_destroy.
Proof. preserve. Qed.

Lemma pres_destroy l : preserves P (destroy_connection l).
Proof. apply pres_with_mgr. Qed.

Lemma pres_create n : preserves P (create_connection n).
Proof. apply pres_with_mgr. Qed.

Lemma pres_perror : preserves P vr_perror.
Proof. apply pres_log. Qed.

#[local] Hint Resolve pres_close pres_status pres_set_non_blocking pres_server_create pres_tcp_accept
  pres_recv_ring_buf pres_send pres_conn_ctl pres_reactor_create pres_reactor_destroy pres_destroy
  pres_create pres_perror : preserve.

Lemma pres_close_connection l : preserves P (reactor_close_connection l).
Proof. unfold reactor_close_connection, vr_reactor_remove. preserve. Qed.

#[local] Hint Resolve pres_close_connection : preserve.

Lemma pres_drain_writes l : preserves P (reactor_drain_writes l).
Proof.
  assert (Hloop : forall fuel fd, preserves P (drain_writes_loop fuel l fd)).
  { induction fuel as [|fuel IH]; intros fd; cbn [drain_writes_loop]; preserve. }
  unfold reactor_drain_writes. preserve.
Qed.

Lemma pres_drain_reads l : preserves P (reactor_drain_reads l).
Proof.
  assert (Hloop : forall fuel fd, preserves P (drain_reads_loop fuel l fd)).
  { induction fuel as [|fuel IH]; intros fd; cbn [drain_reads_loop]; unfold read_room; preserve. }
  unfold reactor_drain_reads. preserve.
Qed.

Lemma pres_process_packets l : preserves P (reactor_process_packets l).
Proof.
  assert (Hloop : forall fuel, preserves P (process_packets_loop fuel l)).
  { induction fuel as [|fuel IH]; cbn [process_packets_loop]; unfold answer_packet; preserve. }
  unfold reactor_process_packets. preserve.
Qed.

Lemma pres_client_event l events : preserves P (reactor_handle_client_event l events).
Proof.
  unfold reactor_handle_client_event. apply pres_bind; [destruct (has_event _ _)|].
  - apply pres_drain_writes.
  - preserve.
  - intros closed. apply pres_bind; [destruct (_ && _)|].
    + apply pres_drain_reads.
    + preserve.
    + intros []; [preserve|]. apply pres_bind; [apply pres_process_packets|preserve].
Qed.

Lemma pres_adopt n : preserves P (adopt_connection n).
Proof. unfold adopt_connection. preserve. Qed.

Lemma pres_accept_loop fuel fd : preserves P (accept_loop fuel fd).
Proof.
  induction fuel as [|fuel IH]; cbn [accept_loop]; [preserve|]. apply pres_bind; [apply pres_tcp_accept|].
  intros [[] n]; preserve.
Qed.

Lemma pres_handle_event fuel ev : preserves P (handle_event fuel ev).
Proof.
  destruct ev as [events l]. unfold handle_event, reactor_handle_listener_event. apply pres_bind; [preserve|].
  intros c. destruct (c_type c); [preserve; apply pres_accept_loop|apply pres_client_event].
Qed.

Lemma pres_dispatch fuel n i : preserves P (dispatch fuel n i).
Proof.
  revert i. induction n as [|n IH]; intros i; cbn [dispatch]; preserve. apply pres_handle_event.
Qed.

Lemma pres_alloc_listener fd : preserves P (alloc_listener fd).
Proof. apply pres_local. intros w. unfold alloc_listener. by destruct (alloc_obj _ _) as [[] p]. Qed.

Lemma pres_free_listener l : preserves P (free_listener l).
Proof. apply pres_local. intros w. unfold free_listener. by destruct (w_heap w !! l). Qed.

#[local] Hint Resolve pres_alloc_listener pres_free_listener : preserve.

Lemma pres_bootstrap port : preserves P (reactor_bootstrap_listener port).
Proof.
  unfold reactor_bootstrap_listener, register_listener, vr_reactor_add, bootstrap_failed. preserve.
Qed.
End Functions.
