(* ===== verification/ReactorSpec.v ===== *)
(** * ReactorSpec: the invariant of the event loop

    [world_ok] ties the program's state to the kernel's: the manager's array, the
    heap of connections, the descriptors they own, what epoll watches and the
    blocks that are allocated.  Every handler of Reactor keeps it, for every
    behaviour of the kernel its laws allow and every behaviour of the allocator;
    hence no event ever reaches a freed connection, no ring is overrun and no
    block is leaked. *)

From S2P Require Import Prelude Core RingBuffer Packet Parser Protocol Connection World.
From S2P Require Import SocketUtils Enqueue Reactor.
#[local] Open Scope Z_scope.

(** ** The invariant *)

Record conn_ok (c : vr_connection_t) : Prop := {
  co_read : ring_wf (c_read_buf c);
  co_write : ring_wf (c_write_buf c);
  co_parser : parser_wf (c_parser c);
  co_proto : proto_wf (c_proto c)
}.

Section Invariant.
Context `{Libc} `{Abi} `{KernelLaws}.
(** The listener's object, and the blocks that are not connections. *)
Context (lst : loc) (base : Z).

Record world_ok (ls : list loc) (w : world) : Prop := {
  ok_mgr : manager_wf (w_mgr w) ls (w_heap w);
  ok_dom : dom (w_heap w) = {[lst]} ∪ list_to_set ls;
  ok_lst : lst ∉ ls;
  ok_conns : forall l c, w_heap w !! l = Some c -> conn_ok c;
  ok_types : forall l c, w_heap w !! l = Some c ->
    c_type c = if decide (l = lst) then VR_CONN_LISTENER else VR_CONN_CLIENT;
  ok_open : forall l c, w_heap w !! l = Some c ->
    c_fd c ∈ v_open (view w) /\ c_fd c <> re_epoll_fd (w_reactor w);
  ok_inj : forall l1 l2 c1 c2, w_heap w !! l1 = Some c1 -> w_heap w !! l2 = Some c2 ->
    c_fd c1 = c_fd c2 -> l1 = l2;
  ok_epfd : re_epoll_fd (w_reactor w) ∈ v_open (view w);
  ok_epoll : exists interest,
    v_epoll (view w) !! re_epoll_fd (w_reactor w) = Some interest /\
    forall fd l, interest !! fd = Some l -> exists c, w_heap w !! l = Some c /\ c_fd c = fd;
  ok_live : p_live (w_proc w) = base + heap_blocks (w_heap w)
}.

(** ** Steps that keep it *)

(** The parts of the kernel the invariant mentions. *)
Definition same_fds (v v' : kview) : Prop := v_open v' = v_open v /\ v_epoll v' = v_epoll v.

Lemma sent_same_fds fd bs v v' : sent_on fd bs v v' -> same_fds v v'.
Proof. by intros [? ? _ _ _]. Qed.

Lemma ok_same ls w w' :
  world_ok ls w -> same_prog w w' -> same_fds (view w) (view w') -> world_ok ls w'.
Proof.
  intros [] [Hh Hm Hr Hl _] [Ho He]. constructor; rewrite ?Hh, ?Hm, ?Hr, ?Ho, ?He, ?Hl; done.
Qed.

(** A connection is used: its buffers and protocol state change. *)
Lemma ok_update ls w w' l c c' :
  world_ok ls w -> w_heap w !! l = Some c -> w_heap w' = <[l := c']> (w_heap w) ->
  w_mgr w' = w_mgr w -> w_reactor w' = w_reactor w -> same_fds (view w) (view w') ->
  p_live (w_proc w') = p_live (w_proc w) + conn_blocks c' - conn_blocks c ->
  conn_ok c' -> c_fd c' = c_fd c -> c_type c' = c_type c -> c_slot c' = c_slot c ->
  world_ok ls w'.
Proof.
  intros [Hm Hd Hn Hc Ht Ho Hi Hep He Hl] Hlc Hh Hm' Hr' [Ho' He'] Hl' Hc' Hfd Hty Hsl.
  assert (Hlk : forall l1 c1, w_heap w' !! l1 = Some c1 ->
    exists c0, w_heap w !! l1 = Some c0 /\ c_fd c1 = c_fd c0 /\ c_type c1 = c_type c0 /\ conn_ok c1).
  { intros l1 c1. rewrite Hh. destruct (decide (l1 = l)) as [->|Hne].
    - rewrite lookup_insert_eq. intros [= <-]. by exists c.
    - rewrite lookup_insert_ne by done. intros E. exists c1. eauto. }
  constructor; rewrite ?Hm', ?Hr', ?Ho', ?He'; try done.
  - rewrite Hh. by eapply manager_wf_update.
  - rewrite Hh, dom_insert_lookup_L by (by eexists). done.
  - intros l1 c1 E. by destruct (Hlk _ _ E) as (? & ? & ? & ? & ?).
  - intros l1 c1 E. destruct (Hlk _ _ E) as (c0 & E0 & _ & -> & _). eauto.
  - intros l1 c1 E. destruct (Hlk _ _ E) as (c0 & E0 & -> & _). eauto.
  - intros l1 l2 c1 c2 E1 E2. destruct (Hlk _ _ E1) as (c3 & E3 & -> & _).
    destruct (Hlk _ _ E2) as (c4 & E4 & -> & _). eauto.
  - destruct He as (interest & Hint & Hreg). exists interest. split; [done|].
    intros fd l1 E. destruct (Hreg _ _ E) as (c1 & E1 & <-). rewrite Hh.
    destruct (decide (l1 = l)) as [->|Hne].
    + rewrite lookup_insert_eq. exists c'. split; [done|]. congruence.
    + rewrite lookup_insert_ne by done. by exists c1.
  - rewrite Hl', Hl, Hh, (heap_blocks_update _ l c c' Hlc). lia.
Qed.

Lemma ok_lookup ls w l : world_ok ls w -> l ∈ ls -> exists i c, ls !! i = Some l /\
  w_heap w !! l = Some c /\ conn_ok c /\ l <> lst.
Proof.
  intros Hok Hin. apply list_elem_of_lookup in Hin as [i Hi].
  destruct (mw_objs _ _ _ (ok_mgr _ _ Hok) i l Hi) as (c & Hc & _). exists i, c.
  split_and!; [done|done|by eapply ok_conns|]. intros ->.
  apply (ok_lst _ _ Hok). by eapply list_elem_of_lookup_2.
Qed.

(** The part of the kernel's state that logs the traffic. *)
Definition same_logs (v v' : kview) : Prop := v_sent v' = v_sent v /\ v_rcvd v' = v_rcvd v.

(** An epoll_ctl that registers a connection under its own address, or removes
    a registration. *)
Definition own_ctl (op : ctl_op) (l : loc) : Prop :=
  match op with
  | EPOLL_CTL_ADD _ ptr | EPOLL_CTL_MOD _ ptr => ptr = l
  | EPOLL_CTL_DEL => True
  end.

Lemma ok_ctl ls w w' l c op :
  world_ok ls w -> w_heap w !! l = Some c -> own_ctl op l -> same_prog w w' ->
  view w' = v_ctl (re_epoll_fd (w_reactor w)) op (c_fd c) (view w) -> world_ok ls w'.
Proof.
  intros [Hm Hd Hn Hc Ht Ho Hi Hep He Hl] Hlc Hop [Hh Hm' Hr Hl' _] Hv.
  constructor; rewrite ?Hh, ?Hm', ?Hr, ?Hv, ?Hl'; try done.
  destruct He as (interest & Hint & Hreg). unfold v_ctl. cbn [v_epoll].
  rewrite lookup_alter_eq, Hint. eexists. split; [done|].
  intros fd l1. destruct op as [ev ptr| |ev ptr]; simpl in Hop; try subst ptr.
  - destruct (decide (fd = c_fd c)) as [->|Hne].
    + rewrite lookup_insert_eq. intros [= <-]. by exists c.
    + rewrite lookup_insert_ne by done. eauto.
  - destruct (decide (fd = c_fd c)) as [->|Hne].
    + by rewrite lookup_delete_eq.
    + rewrite lookup_delete_ne by done. eauto.
  - destruct (decide (fd = c_fd c)) as [->|Hne].
    + rewrite lookup_insert_eq. intros [= <-]. by exists c.
    + rewrite lookup_insert_ne by done. eauto.
Qed.

Lemma conn_ctl_spec ls w l c op Q :
  world_ok ls w -> w_heap w !! l = Some c -> own_ctl op l ->
  (forall r w', same_prog w w' -> world_ok ls w' -> v_open (view w') = v_open (view w) ->
     same_logs (view w) (view w') ->
     (r = VR_SUCCESS /\ view w' = v_ctl (re_epoll_fd (w_reactor w)) op (c_fd c) (view w) \/
      r = VR_ERROR /\ view w' = view w) -> Q r w') ->
  wp (conn_ctl op l) Q w.
Proof.
  intros Hok Hlc Hop HQ. unfold conn_ctl. apply wp_bind. unfold get_reactor, wp at 1. cbn.
  apply wp_bind, (wp_get_conn _ _ _ _ Hlc), wp_bind, wp_syscall.
  pose proof (law_epoll_ctl (w_kern w) (re_epoll_fd (w_reactor w)) op (c_fd c)) as Hlaw.
  destruct (k_epoll_ctl _ op _ _) as [[x|e] k].
  - apply wp_ret, HQ; [auto with velora| |..].
    + eapply (ok_ctl ls w _ l c op); [done|done|done|auto with velora|done].
    + unfold view at 1. simpl. by rewrite Hlaw.
    + unfold view at 2. simpl. by rewrite Hlaw.
    + by left.
  - apply wp_bind, perror_spec. intros w' Hsp Hv. apply wp_ret.
    assert (Hv' : view w' = view w) by (rewrite Hv; exact Hlaw).
    assert (Hsp' : same_prog w w') by (etransitivity; [|exact Hsp]; auto with velora).
    apply HQ; [done| |by rewrite Hv'|by rewrite Hv'|by right].
    eapply ok_same; [done..|]. by rewrite Hv'.
Qed.

Lemma set_slot_inv c c' :
  set_slot 0 c' = set_slot 0 c ->
  c_fd c' = c_fd c /\ c_type c' = c_type c /\ (conn_ok c -> conn_ok c').
Proof.
  destruct c, c'. unfold set_slot, c_fd. simpl. intros [= -> -> -> -> -> -> ->].
  split_and!; [done|done|]. intros [? ? ? ?]. by constructor.
Qed.

(** Every connection but [l] is still there, with everything but its slot. *)
Definition others_kept (l : loc) (h h' : heap) : Prop :=
  forall l' c, l' <> l -> h !! l' = Some c ->
    exists c', h' !! l' = Some c' /\ set_slot 0 c' = set_slot 0 c.

Lemma others_kept_refl l h : others_kept l h h.
Proof. intros l' c _ Hc. by exists c. Qed.

Lemma others_kept_trans l h1 h2 h3 :
  others_kept l h1 h2 -> others_kept l h2 h3 -> others_kept l h1 h3.
Proof.
  intros H12 H23 l' c Hne Hc. destruct (H12 l' c Hne Hc) as (c2 & Hc2 & E2).
  destruct (H23 l' c2 Hne Hc2) as (c3 & Hc3 & E3). exists c3. split; [done|congruence].
Qed.

Lemma others_kept_insert l h c : others_kept l h (<[l := c]> h).
Proof. intros l' c' Hne Hc. rewrite lookup_insert_ne by done. by exists c'. Qed.

Lemma same_but_slot (o o' : option vr_connection_t) c :
  set_slot 0 <$> o' = set_slot 0 <$> o -> o = Some c ->
  exists c', o' = Some c' /\ set_slot 0 c' = set_slot 0 c.
Proof. intros E ->. destruct o' as [c'|]; [|done]. exists c'. split; [done|]. by apply (inj Some). Qed.

(** A managed connection goes away together with its descriptor. *)
Lemma ok_destroyed ls w w' i l c m' h' p' :
  world_ok ls w -> ls !! i = Some l -> w_heap w !! l = Some c ->
  view w' = v_closed (c_fd c) (view w) ->
  w' = World (w_kern w') p' h' m' (w_reactor w) ->
  manager_wf m' (swap_remove i ls) h' -> dom h' = dom (w_heap w) ∖ {[l]} ->
  (forall l', l' <> l -> set_slot 0 <$> h' !! l' = set_slot 0 <$> w_heap w !! l') ->
  heap_blocks h' = heap_blocks (w_heap w) - conn_blocks c ->
  p_live p' = p_live (w_proc w) - conn_blocks c ->
  world_ok (swap_remove i ls) w'.
Proof.
  intros [Hm Hd Hn Hc Ht Ho Hi Hep He Hl] Hil Hlc Hv -> Hm' Hd' Hoth Hb Hl'.
  assert (Hlk : forall l1 c1, h' !! l1 = Some c1 -> l1 <> l /\
    exists c0, w_heap w !! l1 = Some c0 /\ set_slot 0 c1 = set_slot 0 c0).
  { intros l1 c1 E. assert (Hne : l1 <> l).
    { intros ->. apply (elem_of_dom_2 (D := gset loc)) in E. rewrite Hd' in E.
      apply elem_of_difference in E as [_ []]. by apply elem_of_singleton. }
    split; [done|]. destruct (same_but_slot _ (w_heap w !! l1) c1 (eq_sym (Hoth l1 Hne)) E)
      as (c0 & E0 & Es). by exists c0. }
  assert (Hfd : forall l1 c0, l1 <> l -> w_heap w !! l1 = Some c0 -> c_fd c0 <> c_fd c).
  { intros l1 c0 Hne E Hf. apply Hne. eauto. }
  constructor; cbn [w_mgr w_heap w_reactor w_proc];
    try change (view (World _ p' h' m' (w_reactor w))) with (view w'); rewrite ?Hv;
    cbn [v_open v_epoll v_closed].
  - done.
  - rewrite Hd', Hd, (swap_remove_set i ls l (manager_NoDup _ _ _ Hm) Hil).
    apply set_eq. intros x. rewrite elem_of_difference, !elem_of_union, elem_of_difference.
    rewrite !elem_of_singleton. split; [tauto|]. intros [->|?]; [|tauto].
    split; [by left|]. intros ->. by apply list_elem_of_lookup_2 in Hil.
  - intros Hin. apply Hn. rewrite <-(swap_remove_Permutation i ls l Hil). by right.
  - intros l1 c1 E. destruct (Hlk _ _ E) as (_ & c0 & E0 & Es).
    apply set_slot_inv in Es as (_ & _ & Hcok). eauto.
  - intros l1 c1 E. destruct (Hlk _ _ E) as (_ & c0 & E0 & Es).
    apply set_slot_inv in Es as (_ & -> & _). eauto.
  - intros l1 c1 E. destruct (Hlk _ _ E) as (Hne & c0 & E0 & Es).
    apply set_slot_inv in Es as (-> & _ & _). destruct (Ho _ _ E0) as [? ?].
    split; [|done]. apply elem_of_difference. split; [done|].
    rewrite elem_of_singleton. by eapply Hfd.
  - intros l1 l2 c1 c2 E1 E2. destruct (Hlk _ _ E1) as (_ & c3 & E3 & Es3).
    destruct (Hlk _ _ E2) as (_ & c4 & E4 & Es4).
    apply set_slot_inv in Es3 as (-> & _ & _). apply set_slot_inv in Es4 as (-> & _ & _). eauto.
  - apply elem_of_difference. split; [done|]. rewrite elem_of_singleton.
    destruct (Ho _ _ Hlc) as [_ ?]. done.
  - destruct He as (interest & Hint & Hreg). exists (delete (c_fd c) interest).
    destruct (Ho _ _ Hlc) as [_ Hne]. rewrite lookup_fmap, lookup_delete_ne, Hint by done.
    split; [done|]. intros fd l1 E. apply lookup_delete_Some in E as [Hfd' E].
    destruct (Hreg _ _ E) as (c1 & E1 & <-).
    assert (Hl1 : l1 <> l) by (intros ->; simplify_eq).
    destruct (same_but_slot _ _ c1 (Hoth l1 Hl1) E1) as (c2 & E2 & Es).
    exists c2. split; [done|]. by apply set_slot_inv in Es as (-> & _).
  - lia.
Qed.

Lemma close_connection_spec ls w i l c :
  world_ok ls w -> ls !! i = Some l -> w_heap w !! l = Some c ->
  wp (reactor_close_connection l) (fun _ w' =>
    world_ok (swap_remove i ls) w' /\ w_reactor w' = w_reactor w /\
    w_heap w' !! l = None /\ others_kept l (w_heap w) (w_heap w') /\
    same_logs (view w) (view w') /\ v_open (view w') = v_open (view w) ∖ {[c_fd c]}) w.
Proof.
  intros Hok Hi Hlc. unfold reactor_close_connection.
  apply wp_bind, (wp_get_conn _ _ _ _ Hlc), wp_bind.
  eapply conn_ctl_spec; [done..|]. intros r w1 Hsp1 Hok1 Ho1 Hlogs1 _.
  apply wp_bind, close_spec. intros w2 Hsp2 Hv2. apply wp_bind.
  assert (Hsp : same_prog w w2) by (by transitivity w1).
  destruct (destroy_spec (w_mgr w) ls (w_heap w) i l c (w_proc w2) (ok_mgr _ _ Hok) Hi Hlc)
    as (m' & h' & p' & E & Hm' & Hd' & Hoth & _ & Hb & Hp'); [by eapply manager_bound, ok_mgr|].
  eapply wp_with_mgr; [rewrite (sp_mgr _ _ Hsp), (sp_heap _ _ Hsp); exact E|]. apply wp_ret.
  split_and!.
  - eapply (ok_destroyed ls w1 _ i l c m' h' p'); try done.
    + by rewrite (sp_heap _ _ Hsp1).
    + simpl. by rewrite (sp_reactor _ _ Hsp2).
    + by rewrite (sp_heap _ _ Hsp1).
    + by rewrite (sp_heap _ _ Hsp1).
    + by rewrite (sp_heap _ _ Hsp1).
    + rewrite Hp', (sp_live _ _ Hsp), (sp_live _ _ Hsp1). done.
  - simpl. apply (sp_reactor _ _ Hsp).
  - simpl. apply not_elem_of_dom. rewrite Hd', elem_of_difference, elem_of_singleton. by intros [].
  - intros l' c' Hne Hc'. exact (same_but_slot _ _ c' (Hoth l' Hne) Hc').
  - destruct Hlogs1 as [Hs1 Hr1]. unfold same_logs, view in *. simpl. rewrite Hv2. simpl. done.
  - unfold view in *. simpl. rewrite Hv2. simpl. by rewrite Ho1.
Qed.

(** ** Writing *)

(** Bytes left through [fd]; nothing was received. *)
Record wrote (fd : Z) (bs : list Z) (v v' : kview) : Prop := {
  wr_log : log_of (v_sent v') fd = log_of (v_sent v) fd ++ bs;
  wr_other : forall fd', fd' <> fd -> log_of (v_sent v') fd' = log_of (v_sent v) fd';
  wr_rcvd : v_rcvd v' = v_rcvd v
}.

Lemma wrote_nil fd v v' : same_logs v v' -> wrote fd [] v v'.
Proof. intros [E1 E2]. constructor; rewrite ?E1, ?app_nil_r; done. Qed.

Lemma wrote_trans fd bs1 bs2 v1 v2 v3 :
  wrote fd bs1 v1 v2 -> wrote fd bs2 v2 v3 -> wrote fd (bs1 ++ bs2) v1 v3.
Proof.
  intros [E1 O1 R1] [E2 O2 R2]. constructor.
  - by rewrite E2, E1, app_assoc.
  - intros fd' Hne. by rewrite O2, O1.
  - by rewrite R2.
Qed.

Lemma sent_wrote fd bs v v' : sent_on fd bs v v' -> wrote fd bs v v'.
Proof. by intros [_ _ ? ? ?]. Qed.

(** The connection after its write ring changed. *)
Lemma ok_set_write ls w w' l c b :
  world_ok ls w -> w_heap w !! l = Some c -> w_heap w' = <[l := set_write_buf b c]> (w_heap w) ->
  w_mgr w' = w_mgr w -> w_reactor w' = w_reactor w -> same_fds (view w) (view w') ->
  p_live (w_proc w') = p_live (w_proc w) + owned (rb_data b) - owned (rb_data (c_write_buf c)) ->
  ring_wf b -> world_ok ls w'.
Proof.
  intros Hok Hlc Hh Hm Hr Hv Hl Hb. destruct (ok_conns _ _ Hok l c Hlc) as [? _ ? ?].
  eapply (ok_update ls w w' l c (set_write_buf b c)); try done.
  unfold conn_blocks. simpl. lia.
Qed.

Definition drain_writes_post (ls : list loc) (w : world) (i : nat) (l : loc)
    (c : vr_connection_t) (closed : bool) (w' : world) : Prop :=
  w_reactor w' = w_reactor w /\ others_kept l (w_heap w) (w_heap w') /\
  exists bs rest, ring_contents (c_write_buf c) = bs ++ rest /\
    wrote (c_fd c) bs (view w) (view w') /\
    if closed then world_ok (swap_remove i ls) w' /\ w_heap w' !! l = None
    else world_ok ls w' /\ exists b', w_heap w' !! l = Some (set_write_buf b' c) /\
      ring_contents b' = rest /\ (rest = [] \/ would_block (p_errno (w_proc w')) = true).

(** The loop ended by closing the connection. *)
Lemma drain_writes_closed ls w w' i l c :
  world_ok ls w' -> ls !! i = Some l -> w_heap w' !! l = Some c ->
  w_reactor w' = w_reactor w -> w_heap w' = w_heap w -> wrote (c_fd c) [] (view w) (view w') ->
  wp (reactor_close_connection l;; mret true) (drain_writes_post ls w i l c) w'.
Proof.
  intros Hok Hi Hlc Hr Hh Hlogs. apply wp_bind.
  eapply wp_mono; [by eapply close_connection_spec|].
  intros _ w'' (Hok' & Hr' & Hn & Ho & Hlogs' & _). apply wp_ret.
  split_and!; [congruence|by rewrite <-Hh|].
  exists [], (ring_contents (c_write_buf c)). split_and!; [done| |done|done].
  apply (wrote_trans _ [] [] _ _ _ Hlogs). by apply wrote_nil.
Qed.

(** The loop goes on with a ring from which [n] bytes were sent. *)
Lemma drain_writes_prepend ls w w2 i l c b n closed w3 :
  sent_on (c_fd c) (take n (ring_contents (c_write_buf c))) (view w) (view w2) ->
  ring_contents b = drop n (ring_contents (c_write_buf c)) ->
  w_heap w2 = <[l := set_write_buf b c]> (w_heap w) -> w_reactor w2 = w_reactor w ->
  drain_writes_post ls w2 i l (set_write_buf b c) closed w3 ->
  drain_writes_post ls w i l c closed w3.
Proof.
  intros Hso Hq Hh Hr (Hr3 & Ho3 & bs & rest & Hbs & Hwr & Hcl). split_and!.
  - congruence.
  - eapply others_kept_trans; [|exact Ho3]. rewrite Hh. apply others_kept_insert.
  - simpl in Hbs. exists (take n (ring_contents (c_write_buf c)) ++ bs), rest. split_and!.
    + rewrite <-app_assoc, <-Hbs, Hq. by rewrite take_drop.
    + eapply wrote_trans; [by apply sent_wrote|exact Hwr].
    + destruct closed; [done|]. by destruct c.
Qed.

(** The ring after a send, and the state it is stored in. *)
Lemma drain_writes_sent ls w w1 l c n :
  world_ok ls w -> w_heap w !! l = Some c -> same_prog w w1 ->
  0 < n <= rb_count (c_write_buf c) ->
  view w1 = v_accepted (c_fd c) (take (Z.to_nat n) (ring_contents (c_write_buf c))) (view w) ->
  exists b, vr_conn_ring_buf_consume (c_write_buf c) n = Ok (VR_SUCCESS, b) /\
    ring_contents b = drop (Z.to_nat n) (ring_contents (c_write_buf c)) /\
    rb_count b = rb_count (c_write_buf c) - n /\
    let w2 := set_heap (<[l := set_write_buf b c]> (w_heap w1)) w1 in
    sent_on (c_fd c) (take (Z.to_nat n) (ring_contents (c_write_buf c))) (view w) (view w2) /\
    world_ok ls w2.
Proof.
  intros Hok Hlc Hsp Hn Hv. pose proof (co_write _ (ok_conns _ _ Hok l c Hlc)) as Hb.
  pose proof (ring_wf_count _ Hb) as Hcnt. pose proof (ring_contents_length _ Hb) as Hlen.
  pose proof (consume_spec (c_write_buf c) n Hb ltac:(lia) ltac:(lia)) as Hc.
  rewrite (proj2 (Z.ltb_ge _ _)) in Hc by lia. destruct Hc as (b & Hc & Hwf & Hq & Hcap & Hdata).
  exists b. split_and!; [done|done| |].
  { rewrite <-(ring_contents_length b Hwf), Hq. unfold zlen in *. rewrite length_drop. lia. }
  cbv zeta. set (w2 := set_heap _ w1).
  assert (Hso : sent_on (c_fd c) (take (Z.to_nat n) (ring_contents (c_write_buf c)))
    (view w) (view w2)) by (unfold view, w2 in *; simpl; rewrite Hv; apply sent_on_accepted).
  split; [done|]. eapply (ok_set_write ls w w2 l c b); try done.
  - unfold w2. simpl. by rewrite (sp_heap _ _ Hsp).
  - apply (sp_mgr _ _ Hsp).
  - apply (sp_reactor _ _ Hsp).
  - by eapply sent_same_fds.
  - rewrite Hdata. pose proof (sp_live _ _ Hsp). unfold w2. simpl. lia.
Qed.

Lemma drain_writes_loop_spec fuel ls w i l c :
  world_ok ls w -> ls !! i = Some l -> w_heap w !! l = Some c ->
  (Z.to_nat (rb_count (c_write_buf c)) < fuel)%nat ->
  wp (drain_writes_loop fuel l (c_fd c)) (drain_writes_post ls w i l c) w.
Proof.
  revert w c. induction fuel as [|fuel IH]; intros w c Hok Hi Hlc Hf; [lia|].
  pose proof (co_write _ (ok_conns _ _ Hok l c Hlc)) as Hb.
  pose proof (ring_wf_count _ Hb) as Hcnt. pose proof (ring_contents_length _ Hb) as Hlen.
  cbn [drain_writes_loop]. apply wp_bind, (wp_get_conn _ _ _ _ Hlc).
  unfold vr_conn_ring_buf_empty. destruct (Z.eqb_spec (rb_count (c_write_buf c)) 0) as [E|E].
  { apply wp_ret. split_and!; [done|apply others_kept_refl|]. exists [], (ring_contents (c_write_buf c)).
    split_and!; [done|by apply wrote_nil|done|]. exists (c_write_buf c).
    split_and!; [by destruct c|done|]. left. apply nil_length_inv. unfold zlen in Hlen. lia. }
  rewrite contiguous_read_spec by (done || lia).
  set (av := Z.min (rb_count (c_write_buf c)) (rb_capacity (c_write_buf c) - rb_read_pos (c_write_buf c))).
  destruct (ring_write_pos _ Hb) as (_ & Hrp & _); [lia|].
  assert (Hav : 0 < av <= rb_count (c_write_buf c)) by lia.
  rewrite (proj2 (Z.eqb_neq _ _)) by lia.
  destruct (ring_block _ Hb) as (d & Hd & _); [lia|].
  pose proof (region_read (c_write_buf c) av Hb ltac:(lia) ltac:(lia)) as Hreg.
  rewrite Hd in Hreg. cbn [mbind outcome_bind deref] in Hreg.
  apply wp_bind. eapply wp_lift; [by rewrite Hd|]. apply wp_bind. eapply wp_lift; [done|].
  apply wp_bind, (wp_lift _ _ _ _ Hreg), wp_bind, socket_send_spec. intros n w1 Hsp Hn.
  assert (Hlc1 : w_heap w1 !! l = Some c) by (by rewrite (sp_heap _ _ Hsp)).
  destruct (Z.ltb_spec 0 n) as [Hpos|Hneg].
  - destruct Hn as [[-> _]|[Hn Hv]]; [lia|].
    assert (Hn' : n <= av) by (unfold zlen in Hn; rewrite length_take in Hn; lia).
    rewrite take_take, Nat.min_l in Hv by lia.
    destruct (drain_writes_sent ls w w1 l c n) as (b & Hc & Hq & Hcnt' & Hso & Hok2);
      [done|done|done|lia|done|].
    rewrite u32_id by lia. apply wp_bind, (wp_lift _ _ _ _ Hc), wp_bind.
    apply (wp_put_conn _ _ _ _ _ Hlc1).
    eapply wp_mono; [apply (IH _ (set_write_buf b c)); [done|done| |simpl; lia]|].
    { simpl. by rewrite lookup_insert_eq. }
    intros closed w3. apply (drain_writes_prepend _ _ _ _ _ _ _ _ _ _ Hso Hq).
    + simpl. by rewrite (sp_heap _ _ Hsp).
    + apply (sp_reactor _ _ Hsp).
  - apply wp_bind. unfold wp at 1, get_errno. cbn.
    assert (Hso : sent_on (c_fd c) [] (view w) (view w1)).
    { destruct Hn as [[_ ->]|[? ->]]; [apply sent_on_nil|].
      assert (n = 0) as -> by lia. apply sent_on_accepted. }
    assert (Hok1 : world_ok ls w1) by (eapply ok_same; [done..|by eapply sent_same_fds]).
    destruct ((n =? -1) && would_block (p_errno (w_proc w1))) eqn:Ewb.
    + apply andb_prop in Ewb as [_ Ewb]. apply wp_ret. split_and!; [apply (sp_reactor _ _ Hsp)| |].
      { rewrite (sp_heap _ _ Hsp). apply others_kept_refl. }
      exists [], (ring_contents (c_write_buf c)). split_and!; [done|by apply sent_wrote|done|].
      exists (c_write_buf c). split_and!; [by destruct c|done|by right].
    + eapply drain_writes_closed; try done; [apply (sp_reactor _ _ Hsp)|apply (sp_heap _ _ Hsp)|].
      by apply sent_wrote.
Qed.

Lemma drain_writes_spec ls w i l c :
  world_ok ls w -> ls !! i = Some l -> w_heap w !! l = Some c ->
  wp (reactor_drain_writes l) (drain_writes_post ls w i l c) w.
Proof.
  intros Hok Hi Hlc. apply wp_bind, (wp_get_conn _ _ _ _ Hlc), wp_bind.
  eapply wp_mono; [by apply drain_writes_loop_spec; [..|lia]|].
  intros [] w1 Hpost; [by apply wp_ret|].
  destruct Hpost as (Hr & Ho & bs & rest & Hbs & Hwr & Hok1 & b & Hl1 & Hq & Hwhy).
  apply wp_bind, (wp_get_conn _ _ _ _ Hl1). cbn [c_write_buf set_write_buf].
  unfold vr_conn_ring_buf_empty. destruct (Z.eqb_spec (rb_count b) 0) as [E|E].
  2:{ apply wp_ret. split_and!; [done|done|]. exists bs, rest. split_and!; try done. by exists b. }
  apply wp_bind. eapply conn_ctl_spec; [done..|]. intros r w2 Hsp Hok2 _ Hlogs _. apply wp_ret.
  split_and!; [by rewrite (sp_reactor _ _ Hsp)|by rewrite (sp_heap _ _ Hsp)|].
  exists bs, rest. split_and!; [done| |done|].
  { rewrite <-(app_nil_r bs). eapply wrote_trans; [exact Hwr|by apply wrote_nil]. }
  exists b. rewrite (sp_heap _ _ Hsp). split_and!; [done|done|]. left.
  pose proof (co_write _ (ok_conns _ _ Hok1 l _ Hl1)) as Hb. simpl in Hb.
  pose proof (ring_contents_length b Hb) as Hlen. apply nil_length_inv. unfold zlen in Hlen.
  rewrite Hq in Hlen. lia.
Qed.

(** ** Reading *)

(** Bytes came in through [fd]; nothing was sent. *)
Record got (fd : Z) (bs : list Z) (v v' : kview) : Prop := {
  gt_log : log_of (v_rcvd v') fd = log_of (v_rcvd v) fd ++ bs;
  gt_other : forall fd', fd' <> fd -> log_of (v_rcvd v') fd' = log_of (v_rcvd v) fd';
  gt_sent : v_sent v' = v_sent v
}.

Lemma got_nil fd v v' : same_logs v v' -> got fd [] v v'.
Proof. intros [E1 E2]. constructor; rewrite ?E2, ?app_nil_r; done. Qed.

Lemma got_received fd bs v : got fd bs v (v_received fd bs v).
Proof. constructor; simpl; auto using log_of_add, log_of_add_ne. Qed.

Lemma got_trans fd bs1 bs2 v1 v2 v3 :
  got fd bs1 v1 v2 -> got fd bs2 v2 v3 -> got fd (bs1 ++ bs2) v1 v3.
Proof.
  intros [E1 O1 R1] [E2 O2 R2]. constructor.
  - by rewrite E2, E1, app_assoc.
  - intros fd' Hne. by rewrite O2, O1.
  - by rewrite R2.
Qed.

Lemma ok_set_read ls w w' l c b :
  world_ok ls w -> w_heap w !! l = Some c -> w_heap w' = <[l := set_read_buf b c]> (w_heap w) ->
  w_mgr w' = w_mgr w -> w_reactor w' = w_reactor w -> same_fds (view w) (view w') ->
  p_live (w_proc w') = p_live (w_proc w) + owned (rb_data b) - owned (rb_data (c_read_buf c)) ->
  ring_wf b -> world_ok ls w'.
Proof.
  intros Hok Hlc Hh Hm Hr Hv Hl Hb. destruct (ok_conns _ _ Hok l c Hlc) as [_ ? ? ?].
  eapply (ok_update ls w w' l c (set_read_buf b c)); try done.
  unfold conn_blocks. simpl. lia.
Qed.

(** Why a ring does not get larger. *)
Definition cannot_grow (b : vr_connection_ring_buf_t) : Prop :=
  rb_capacity b = VR_CONNECTION_BUFFER_MAX_SIZE \/ exists n, ~ allocates n.

Lemma init_fails p :
  match vr_conn_ring_buf_init zeroed_ring_buf p with
  | (VR_ERROR, _, _) => exists n, ~ allocates n
  | _ => True
  end.
Proof.
  unfold vr_conn_ring_buf_init. cbn [rb_data zeroed_ring_buf]. unfold malloc.
  destruct (alloc_answer _ _) eqn:E; [done|]. eexists. by eapply not_allocates.
Qed.

(** What making room in a full ring leaves behind. *)
Definition read_room_post (ls : list loc) (w : world) (l : loc) (c : vr_connection_t)
    (r : vr_result_t) (w' : world) : Prop :=
  exists b, world_ok ls w' /\ w_reactor w' = w_reactor w /\ view w' = view w /\
    w_heap w' = <[l := set_read_buf b c]> (w_heap w) /\
    ring_contents b = ring_contents (c_read_buf c) /\
    (r = VR_ERROR /\ b = c_read_buf c /\ cannot_grow b \/
     r = VR_SUCCESS /\ rb_capacity (c_read_buf c) < rb_capacity b).

Lemma read_room_store ls w l c r b p :
  world_ok ls w -> w_heap w !! l = Some c -> ring_wf b ->
  ring_contents b = ring_contents (c_read_buf c) ->
  p_live p = p_live (w_proc w) + owned (rb_data b) - owned (rb_data (c_read_buf c)) ->
  (r = VR_ERROR /\ b = c_read_buf c /\ cannot_grow b \/
   r = VR_SUCCESS /\ rb_capacity (c_read_buf c) < rb_capacity b) ->
  wp (put_conn l (set_read_buf b c);; mret r) (read_room_post ls w l c) (set_proc p w).
Proof.
  intros Hok Hlc Hwf Hq Hl Hr. apply wp_bind, (wp_put_conn l c); [done|]. apply wp_ret.
  exists b. split_and!; try done. by eapply (ok_set_read ls w _ l c b).
Qed.

Lemma read_room_spec ls w l c :
  world_ok ls w -> w_heap w !! l = Some c -> wp (read_room l) (read_room_post ls w l c) w.
Proof.
  intros Hok Hlc. pose proof (co_read _ (ok_conns _ _ Hok l c Hlc)) as Hb.
  unfold read_room. apply wp_bind, (wp_get_conn _ _ _ _ Hlc), wp_bind.
  destruct (grow_spec (c_read_buf c) (w_proc w) Hb) as (r & b & p & E & Hwf & Hq & Hl & Hr).
  assert (Hgrow : wp (put_conn l (set_read_buf b c);; mret r) (read_room_post ls w l c) (set_proc p w)).
  { apply read_room_store; try done.
    destruct Hr as [(-> & ? & Hcap)|(-> & -> & Hcg)]; [right|by left].
    split; [done|]. pose proof (ring_wf_count _ Hb). destruct (Z.eqb_spec (rb_capacity (c_read_buf c)) 0); lia. }
  destruct (rb_state (c_read_buf c)) eqn:Est; [|eapply wp_try_proc; [by rewrite E|done]..].
  pose proof (ring_unalloc _ Hb Est) as Hz. apply wp_with_proc.
  pose proof (init_zeroed (w_proc w)) as Hi. pose proof (init_fails (w_proc w)) as Hfl.
  replace (vr_conn_ring_buf_init (c_read_buf c) (w_proc w))
    with (vr_conn_ring_buf_init zeroed_ring_buf (w_proc w)) by (by rewrite Hz).
  destruct (vr_conn_ring_buf_init zeroed_ring_buf (w_proc w)) as [[[] b1] p1]; try done.
  - destruct Hi as (Hwf1 & Hq1 & Hcap1 & Hl1).
    apply read_room_store; try done; rewrite Hz; [done| |right; split; [done|simpl; lia]].
    rewrite (ring_owned b1) by (done || lia). simpl. lia.
  - destruct Hi as [-> Hl1]. apply read_room_store; [done|done|apply ring_wf_unalloc|by rewrite Hz|rewrite Hz; simpl; lia|].
    rewrite Hz. left. split_and!; [done|done|by right].
Qed.

Definition drain_reads_post (ls : list loc) (w : world) (i : nat) (l : loc)
    (c : vr_connection_t) (closed : bool) (w' : world) : Prop :=
  w_reactor w' = w_reactor w /\ others_kept l (w_heap w) (w_heap w') /\
  exists bs, got (c_fd c) bs (view w) (view w') /\
    if closed then world_ok (swap_remove i ls) w' /\ w_heap w' !! l = None
    else world_ok ls w' /\ exists b', w_heap w' !! l = Some (set_read_buf b' c) /\
      ring_contents b' = ring_contents (c_read_buf c) ++ bs /\
      (would_block (p_errno (w_proc w')) = true \/ cannot_grow b').

Lemma drain_reads_prepend ls w w2 i l c b bs closed w3 :
  got (c_fd c) bs (view w) (view w2) ->
  ring_contents b = ring_contents (c_read_buf c) ++ bs ->
  w_heap w2 = <[l := set_read_buf b c]> (w_heap w) -> w_reactor w2 = w_reactor w ->
  drain_reads_post ls w2 i l (set_read_buf b c) closed w3 ->
  drain_reads_post ls w i l c closed w3.
Proof.
  intros Hg Hq Hh Hr (Hr3 & Ho3 & bs' & Hg' & Hcl). split_and!.
  - congruence.
  - eapply others_kept_trans; [|exact Ho3]. rewrite Hh. apply others_kept_insert.
  - exists (bs ++ bs'). split; [by eapply got_trans|]. destruct closed; [done|].
    destruct Hcl as (Hok & b' & Hl' & Hq' & Hwhy). split; [done|]. exists b'.
    split_and!; [by destruct c| |done]. simpl in Hq'. by rewrite Hq', Hq, app_assoc.
Qed.

Lemma drain_reads_closed ls w w' i l c c' :
  world_ok ls w' -> ls !! i = Some l -> w_heap w' !! l = Some c' ->
  w_reactor w' = w_reactor w -> others_kept l (w_heap w) (w_heap w') ->
  got (c_fd c) [] (view w) (view w') ->
  wp (reactor_close_connection l;; mret true) (drain_reads_post ls w i l c) w'.
Proof.
  intros Hok Hi Hlc Hr Hh Hg. apply wp_bind.
  eapply wp_mono; [by eapply close_connection_spec|].
  intros _ w'' (Hok' & Hr' & Hn & Ho & Hlogs' & _). apply wp_ret.
  split_and!; [congruence|by eapply others_kept_trans|].
  exists []. split_and!; [|done|done].
  apply (got_trans _ [] [] _ _ _ Hg). by apply got_nil.
Qed.

(** The state after one reception has been stored. *)
Lemma ok_received ls w w1 l c b :
  world_ok ls w -> w_heap w !! l = Some c -> same_prog w w1 -> ring_wf b ->
  owned (rb_data b) = owned (rb_data (c_read_buf c)) -> same_fds (view w) (view w1) ->
  world_ok ls (set_heap (<[l := set_read_buf b c]> (w_heap w1)) w1).
Proof.
  intros Hok Hlc Hsp Hb Ho Hv. eapply (ok_set_read ls w _ l c b); try done; simpl.
  - by rewrite (sp_heap _ _ Hsp).
  - apply (sp_mgr _ _ Hsp).
  - apply (sp_reactor _ _ Hsp).
  - rewrite (sp_live _ _ Hsp). lia.
Qed.

Lemma drain_reads_loop_spec fuel ls w i l c :
  world_ok ls w -> ls !! i = Some l -> w_heap w !! l = Some c ->
  131072 - rb_count (c_read_buf c) - rb_capacity (c_read_buf c) < Z.of_nat fuel ->
  wp (drain_reads_loop fuel l (c_fd c)) (drain_reads_post ls w i l c) w.
Proof.
  revert w c. induction fuel as [|fuel IH]; intros w c Hok Hi Hlc Hf.
  { pose proof (ring_wf_count _ (co_read _ (ok_conns _ _ Hok l c Hlc))). lia. }
  pose proof (co_read _ (ok_conns _ _ Hok l c Hlc)) as Hb.
  pose proof (ring_contents_length _ Hb) as Hlen.
  cbn [drain_reads_loop]. apply wp_bind, (wp_get_conn _ _ _ _ Hlc), wp_bind.
  eapply wp_mono; [by apply recv_ring_buf_spec|]. intros [n b] w1 [Hsp Hcase].
  assert (Hlc1 : w_heap w1 !! l = Some c) by (by rewrite (sp_heap _ _ Hsp)).
  apply wp_bind, (wp_put_conn _ _ _ _ _ Hlc1). set (w2 := set_heap _ w1).
  assert (Hh2 : w_heap w2 = <[l := set_read_buf b c]> (w_heap w))
    by (unfold w2; simpl; by rewrite (sp_heap _ _ Hsp)).
  assert (Hl2 : w_heap w2 !! l = Some (set_read_buf b c)) by (by rewrite Hh2, lookup_insert_eq).
  assert (Hr2 : w_reactor w2 = w_reactor w) by apply (sp_reactor _ _ Hsp).
  assert (Hoth : others_kept l (w_heap w) (w_heap w2)) by (rewrite Hh2; apply others_kept_insert).
  destruct Hcase as [(-> & -> & Hv & He)|[(-> & -> & _ & Hv)|
    (bs & -> & Hpos & Hwf & Hq & Hcap & Ho & _ & Hv)]].
  - assert (Hok2 : world_ok ls w2) by (apply (ok_received ls w w1 l c); try done; by rewrite Hv).
    assert (Hg : got (c_fd c) [] (view w) (view w2)) by (apply got_nil; unfold view, w2 in *; simpl; by rewrite Hv).
    cbn [Z.eqb]. apply wp_bind. unfold wp at 1, get_errno. cbn iota.
    destruct (would_block (p_errno (w_proc w2))) eqn:Ewb.
    { apply wp_ret. split_and!; [done|done|]. exists []. split_and!; [done|done|].
      exists (c_read_buf c). rewrite app_nil_r. split_and!; [done|done|by left]. }
    destruct (Z.eqb_spec (p_errno (w_proc w2)) ENOBUFS) as [Een|Een];
      [|by eapply drain_reads_closed].
    apply wp_bind. eapply wp_mono; [by eapply read_room_spec|].
    intros r w3 (b3 & Hok3 & Hr3 & Hv3 & Hh3 & Hq3 & Hres).
    assert (Hh3' : w_heap w3 = <[l := set_read_buf b3 c]> (w_heap w)).
    { rewrite Hh3, Hh2, insert_insert_eq. by destruct c. }
    assert (Hg3 : got (c_fd c) [] (view w) (view w3)) by (by rewrite Hv3).
    assert (Hl3 : w_heap w3 !! l = Some (set_read_buf b3 c)) by (by rewrite Hh3', lookup_insert_eq).
    destruct Hres as [(-> & -> & Hcg)|(-> & Hcap)].
    + apply wp_ret. split_and!; [congruence|rewrite Hh3'; apply others_kept_insert|].
      exists []. split_and!; [done|done|]. exists (c_read_buf c). rewrite app_nil_r.
      split_and!; [done|done|by right].
    + pose proof (co_read _ (ok_conns _ _ Hok3 l _ Hl3)) as Hb3. simpl in Hb3, Hq3, Hcap.
      pose proof (ring_contents_length _ Hb3) as Hlen3. rewrite Hq3, Hlen in Hlen3.
      eapply wp_mono; [apply (IH w3 (set_read_buf b3 c)); [done|done|done|simpl; lia]|].
      intros closed w4. apply (drain_reads_prepend ls w w3 i l c b3 []);
        [done|by rewrite app_nil_r|done|congruence].
  - assert (Hok2 : world_ok ls w2) by (apply (ok_received ls w w1 l c); try done; by rewrite Hv).
    cbn [Z.eqb]. eapply drain_reads_closed; try done.
    unfold view, w2 in *. simpl. rewrite Hv. apply got_received.
  - assert (Hok2 : world_ok ls w2) by (apply (ok_received ls w w1 l c); try done; by rewrite Hv).
    rewrite (proj2 (Z.eqb_neq _ 0)), (proj2 (Z.eqb_neq _ (-1))) by lia.
    pose proof (ring_contents_length _ Hwf) as Hlen2. rewrite Hq in Hlen2.
    unfold zlen in Hlen2. rewrite length_app in Hlen2.
    eapply wp_mono; [apply (IH w2 (set_read_buf b c)); [done|done|done|unfold zlen in *; simpl; lia]|].
    intros closed w4. apply (drain_reads_prepend ls w w2 i l c b bs); try done.
    unfold view, w2 in *. simpl. rewrite Hv. apply got_received.
Qed.

Lemma drain_reads_spec ls w i l c :
  world_ok ls w -> ls !! i = Some l -> w_heap w !! l = Some c ->
  wp (reactor_drain_reads l) (drain_reads_post ls w i l c) w.
Proof.
  intros Hok Hi Hlc. apply wp_bind, (wp_get_conn _ _ _ _ Hlc).
  apply drain_reads_loop_spec; try done. unfold read_fuel, VR_CONNECTION_BUFFER_MAX_SIZE.
  pose proof (ring_wf_count _ (co_read _ (ok_conns _ _ Hok l c Hlc))). lia.
Qed.
End Invariant.

(** ** Packets *)

Section Packets.
Context `{Libc} `{Abi} `{KernelLaws}.
Context (lst : loc).
Hypothesis Hresp : allocates sizeof_vr_packet_t.

Lemma ok_live_shift base base' ls w p :
  world_ok lst base ls w -> p_live p - p_live (w_proc w) = base' - base ->
  world_ok lst base' ls (set_proc p w).
Proof. intros [] Hp. constructor; try done. simpl. lia. Qed.

(** The frame a response occupies in the write ring. *)
Definition frame (response : vr_packet_t) (bs : list Z) : Prop :=
  exists stale, zlen stale = sizeof_vr_packet_header_t - 8 /\ bs = packet_bytes response ++ stale.

Definition enqueued (ok : bool) (response : vr_packet_t) (b b' : vr_connection_ring_buf_t) : Prop :=
  if ok then exists bs, frame response bs /\ ring_contents b' = ring_contents b ++ bs
  else ring_contents b' = ring_contents b /\
    (VR_CONNECTION_BUFFER_MAX_SIZE < zlen (ring_contents b) + sizeof_vr_packet_header_t
       + h_payload_len (pk_header response) \/ exists n, ~ allocates n).

Lemma respond_fits t sid :
  0 <= t <= 9 -> is_byte sid ->
  exists k, respond t sid = Some k /\ header_fits (pk_header k) /\ payload_fits k /\
    pk_payload k = None /\ h_payload_len (pk_header k) = 0.
Proof.
  intros Ht Hs. eexists. split; [done|]. unfold is_byte in *.
  split_and!; [|by left|done|done].
  constructor; unfold is_byte; cbn [pk_header h_magic h_version h_type h_stream_id h_flags
    h_payload_len]; unfold VR_MAGIC, VR_PROTOCOL_VERSION, VR_FLAG_NONE; lia.
Qed.

Lemma enqueue_response_spec base ls w l c response :
  world_ok lst (base + 1) ls w -> w_heap w !! l = Some c ->
  header_fits (pk_header response) -> payload_fits response -> pk_payload response = None ->
  wp (reactor_enqueue_response l response) (fun ok w' =>
    exists b, world_ok lst base ls w' /\ w_reactor w' = w_reactor w /\ view w' = view w /\
      w_heap w' = <[l := set_write_buf b c]> (w_heap w) /\
      enqueued ok response (c_write_buf c) b) w.
Proof.
  intros Hok Hlc Hh Hp Hnone. pose proof (co_write _ (ok_conns _ _ _ _ Hok l c Hlc)) as Hb.
  destruct (enqueue_spec (c_write_buf c) response (w_proc w) Hb Hh Hp)
    as (ok & b & p & E & Hwf & Hl & Hpost). rewrite Hnone in Hl. simpl in Hl.
  unfold reactor_enqueue_response. apply wp_bind, (wp_get_conn _ _ _ _ Hlc), wp_bind.
  eapply wp_try_proc; [by rewrite E|]. apply wp_bind.
  apply (wp_put_conn l c); [done|]. apply wp_ret. exists b. split_and!; try done.
  - eapply (ok_set_write lst base ls (set_proc (Proc (p_next p)
      (p_live (w_proc w) - 1) (p_errno p)) w) _ l c b); try done; [|simpl; lia].
    eapply ok_live_shift; [exact Hok|]. simpl. lia.
  - destruct ok; [|done]. destruct Hpost as (stale & Hst & _ & Hq).
    exists (packet_bytes response ++ stale). split; [by exists stale|done].
Qed.

(** The outgoing ring after the answer to a packet, if there is one. *)
Definition queued (ok : bool) (r : option vr_packet_t) (b b' : vr_connection_ring_buf_t) : Prop :=
  match r with
  | None => ok = true /\ b' = b
  | Some k => enqueued ok k b b'
  end.

(** What answering a packet leaves behind. *)
Definition answer_post (base : Z) (ls : list loc) (w : world) (l : loc) (c : vr_connection_t)
    (pkt : vr_packet_t) (ok : bool) (w' : world) : Prop :=
  world_ok lst base ls w' /\ w_reactor w' = w_reactor w /\ view w' = view w /\
  exists r proto b p, handle_packet (c_proto c) pkt (w_proc w) = Ok (r, proto, p) /\
    w_heap w' = <[l := set_write_buf b (set_proto proto c)]> (w_heap w) /\ response_ok r /\
    queued ok r (c_write_buf c) b.

Lemma answer_packet_spec base ls w l c pkt :
  world_ok lst (base + owned (pk_payload pkt)) ls w -> w_heap w !! l = Some c ->
  header_fits (pk_header pkt) ->
  wp (answer_packet l pkt) (answer_post base ls w l c pkt) w.
Proof.
  intros Hok Hlc Hh. destruct (ok_conns _ _ _ _ Hok l c Hlc) as [Hrd Hwr Hpa Hpr].
  destruct (handle_packet_safe (c_proto c) pkt (w_proc w) Hresp Hpr Hh)
    as (r & proto & p & E & Hpr' & Hrok & Hl).
  unfold answer_packet. apply wp_bind, (wp_get_conn _ _ _ _ Hlc), wp_bind.
  eapply wp_try_proc.
  { unfold vr_protocol_handle_packet. rewrite E. reflexivity. }
  apply wp_bind. eapply wp_lift; [done|]. apply wp_bind, (wp_put_conn l c); [done|].
  apply wp_bind, wp_with_proc. set (c' := set_proto proto c).
  match goal with |- wp _ _ ?s => set (w1 := s) end.
  assert (Hok1 : world_ok lst (base + owned r) ls w1).
  { eapply (ok_update lst (base + owned r) ls (set_proc (Proc 0 (base + owned r + heap_blocks (w_heap w)) 0) w)
      w1 l c c'); try done.
    - eapply ok_live_shift; [exact Hok|]. rewrite (ok_live _ _ _ _ Hok). simpl. lia.
    - unfold w1. world_simpl. rewrite free_live, Hl, (ok_live _ _ _ _ Hok).
      unfold conn_blocks, c'. simpl. lia. }
  assert (Hl1 : w_heap w1 !! l = Some c') by (unfold w1; simpl; by rewrite lookup_insert_eq).
  destruct r as [k|].
  - destruct Hrok as (t & sid & Ek & Ht & Hsid).
    destruct (respond_fits t sid Ht Hsid) as (k' & Ek' & Hkh & Hkp & Hkn & _).
    assert (k' = k) as -> by congruence.
    eapply wp_mono; [by apply enqueue_response_spec|].
    intros ok w2 (b & Hok2 & Hr2 & Hv2 & Hh2 & Hen). split_and!; [done|done|done|].
    exists (Some k), proto, b, p. split_and!; [done| |by exists t, sid|done].
    rewrite Hh2. unfold w1. simpl. by rewrite insert_insert_eq.
  - apply wp_ret. rewrite Z.add_0_r in Hok1. split_and!; [done|done|done|].
    exists None, proto, (c_write_buf c), p. split_and!; try done.
Qed.

(** One poll of the parser on the connection's ring, and the state it is stored
    in: the only block that changes hands is the payload. *)
Lemma poll_conn_spec base ls w l c :
  world_ok lst base ls w -> w_heap w !! l = Some c ->
  let '(res, parser, q, out) :=
    parse_spec (next_alloc (w_proc w)) (c_parser c) (ring_contents (c_read_buf c)) in
  exists b p,
    vr_parser_poll (c_parser c) (c_read_buf c) zeroed_packet (w_proc w)
    = Ok (res, parser, b, out, p) /\ ring_contents b = q /\
    world_ok lst (base + owned (pk_payload out)) ls
      (set_heap (<[l := set_read_buf b (set_parser parser c)]> (w_heap w)) (set_proc p w)).
Proof.
  intros Hok Hlc. destruct (ok_conns _ _ _ _ Hok l c Hlc) as [Hrd Hwr Hpa Hpr].
  destruct (@poll_refines _ ring_reads ring_reads_ok _ _ (c_parser c) (c_read_buf c) (w_proc w) Hrd Hpa)
    as (b & p & Hpoll).
  pose proof (parse_spec_wf (next_alloc (w_proc w)) (c_parser c) _ (ring_contents_bytes _ Hrd) Hpa) as Hwf.
  change (rr_bytes (c_read_buf c)) with (ring_contents (c_read_buf c)) in Hpoll.
  destruct (parse_spec _ _ _) as [[[res parser] q] out].
  destruct Hpoll as (E & Hb & Hq & Ho & Hl), Hwf as (Hpa' & _ & _).
  exists b, p. split_and!; [done|done|].
  change (owned (rb_data b) = owned (rb_data (c_read_buf c))) in Ho.
  eapply (ok_update lst _ ls (set_proc (Proc 0 (base + owned (pk_payload out) + heap_blocks (w_heap w)) 0) w)
    _ l c (set_read_buf b (set_parser parser c))); try done.
  - eapply ok_live_shift; [exact Hok|]. rewrite (ok_live _ _ _ _ Hok). simpl. lia.
  - world_simpl. rewrite Hl, (ok_live _ _ _ _ Hok). unfold conn_blocks. simpl. lia.
Qed.

Lemma parse_spec_no_packet mem parser q :
  let '(res, _, _, out) := parse_spec mem parser q in res <> VR_SUCCESS -> out = zeroed_packet.
Proof.
  unfold parse_spec, spec_payload. repeat (case_match; simplify_eq; try done).
Qed.

(** What processing its packets makes of a connection, step by step: packets are
    taken from the ring and answered until the ring holds no whole packet, or
    until an answer does not fit; the flag is false in the second case. *)
Inductive processed : vr_connection_t -> bool -> vr_connection_t -> Prop :=
| processed_waits c mem parser out b :
    parse_spec mem (c_parser c) (ring_contents (c_read_buf c)) = (VR_EMPTY, parser, ring_contents b, out) ->
    processed c true (set_read_buf b (set_parser parser c))
| processed_stops c mem parser pkt b p r proto p' b' :
    parse_spec mem (c_parser c) (ring_contents (c_read_buf c)) = (VR_SUCCESS, parser, ring_contents b, pkt) ->
    handle_packet (c_proto c) pkt p = Ok (r, proto, p') -> queued false r (c_write_buf c) b' ->
    processed c false (set_write_buf b' (set_proto proto (set_read_buf b (set_parser parser c))))
| processed_packet c mem parser pkt b p r proto p' b' all c' :
    parse_spec mem (c_parser c) (ring_contents (c_read_buf c)) = (VR_SUCCESS, parser, ring_contents b, pkt) ->
    handle_packet (c_proto c) pkt p = Ok (r, proto, p') -> queued true r (c_write_buf c) b' ->
    processed (set_write_buf b' (set_proto proto (set_read_buf b (set_parser parser c)))) all c' ->
    processed c all c'.

Definition process_post (base : Z) (ls : list loc) (w : world) (i : nat) (l : loc) (c : vr_connection_t)
    (closed : bool) (w' : world) : Prop :=
  w_reactor w' = w_reactor w /\ others_kept l (w_heap w) (w_heap w') /\
  same_logs (view w) (view w') /\
  if closed then world_ok lst base (swap_remove i ls) w' /\ w_heap w' !! l = None
  else world_ok lst base ls w' /\ exists all c', w_heap w' !! l = Some c' /\ processed c all c'.

Lemma process_post_trans base ls w w1 i l c c1 closed w' :
  w_reactor w1 = w_reactor w -> others_kept l (w_heap w) (w_heap w1) ->
  same_logs (view w) (view w1) -> (forall all c', processed c1 all c' -> processed c all c') ->
  process_post base ls w1 i l c1 closed w' -> process_post base ls w i l c closed w'.
Proof.
  intros Hr Ho [Hs1 Hs2] Hc (Hr' & Ho' & [Hs1' Hs2'] & Hcl). split_and!; [congruence| | |].
  - by eapply others_kept_trans.
  - split; congruence.
  - destruct closed; [done|]. destruct Hcl as (? & all & c' & ? & Hp). split; [done|].
    exists all, c'. split; [done|]. by apply Hc.
Qed.

Lemma process_packets_loop_spec fuel base ls w i l c :
  world_ok lst base ls w -> ls !! i = Some l -> w_heap w !! l = Some c ->
  (length (ring_contents (c_read_buf c)) < fuel)%nat ->
  wp (process_packets_loop fuel l) (process_post base ls w i l c) w.
Proof.
  revert w c. induction fuel as [|fuel IH]; intros w c Hok Hi Hlc Hf; [lia|].
  pose proof (poll_conn_spec base ls w l c Hok Hlc) as Hpoll.
  destruct (ok_conns _ _ _ _ Hok l c Hlc) as [Hrd _ Hpa _].
  pose proof (parse_spec_wf (next_alloc (w_proc w)) (c_parser c) _ (ring_contents_bytes _ Hrd) Hpa) as Hwf.
  pose proof (parse_spec_consumes (next_alloc (w_proc w)) (c_parser c) (ring_contents (c_read_buf c)) Hpa) as Hcons.
  pose proof (parse_spec_no_packet (next_alloc (w_proc w)) (c_parser c) (ring_contents (c_read_buf c))) as Hnone.
  cbn [process_packets_loop]. apply wp_bind, (wp_get_conn _ _ _ _ Hlc), wp_bind.
  destruct (parse_spec _ _ _) as [[[res parser] q] out] eqn:Eps.
  destruct Hpoll as (b & p & E & Hq & Hok1). destruct Hwf as (_ & _ & Hsucc).
  destruct Hcons as (_ & Hlt & Hres).
  eapply wp_try_proc; [rewrite E; reflexivity|]. apply wp_bind, (wp_put_conn l c); [done|].
  set (c1 := set_read_buf b (set_parser parser c)) in *.
  match goal with |- wp _ _ ?s => set (w1 := s) in * end.
  assert (Hl1 : w_heap w1 !! l = Some c1) by (unfold w1; simpl; by rewrite lookup_insert_eq).
  assert (Hoth : others_kept l (w_heap w) (w_heap w1)) by apply others_kept_insert.
  destruct Hres as [-> |[-> | ->]].
  - destruct (Hsucc eq_refl) as (Hh & _). specialize (Hlt eq_refl). apply wp_bind.
    eapply wp_mono; [by apply answer_packet_spec|].
    intros ok w2 (Hok2 & Hr2 & Hv2 & r & proto & b2 & p2 & Hhp & Hh2 & _ & Hq2).
    assert (Hoth2 : others_kept l (w_heap w) (w_heap w2)).
    { eapply others_kept_trans; [exact Hoth|]. rewrite Hh2. apply others_kept_insert. }
    assert (Hl2 : w_heap w2 !! l = Some (set_write_buf b2 (set_proto proto c1)))
      by (by rewrite Hh2, lookup_insert_eq).
    destruct ok.
    + eapply wp_mono; [eapply IH; [done|done|exact Hl2|]|].
      { simpl. rewrite Hq. unfold zlen in *. lia. }
      intros closed w3. apply process_post_trans; [done|done|by rewrite Hv2|].
      intros all c3. by eapply processed_packet; [rewrite Hq| |].
    + apply wp_ret. split_and!; [done|done|by rewrite Hv2|done|]. do 2 eexists. split; [done|].
      by eapply processed_stops; [rewrite Hq| |].
  - rewrite (Hnone ltac:(done)) in Hok1. rewrite Z.add_0_r in Hok1. apply wp_bind.
    eapply wp_mono; [by eapply close_connection_spec|].
    intros _ w2 (Hok2 & Hr2 & Hn2 & Ho2 & Hlogs2 & _). apply wp_ret.
    split_and!; [done|by eapply others_kept_trans|done|done|done].
  - rewrite (Hnone ltac:(done)) in Hok1. rewrite Z.add_0_r in Hok1. apply wp_ret.
    split_and!; [done|done|done|done|]. exists true, c1. split; [done|].
    eapply processed_waits. by rewrite Hq.
Qed.

Lemma process_packets_spec base ls w i l c :
  world_ok lst base ls w -> ls !! i = Some l -> w_heap w !! l = Some c ->
  wp (reactor_process_packets l) (process_post base ls w i l c) w.
Proof.
  intros Hok Hi Hlc. unfold reactor_process_packets.
  apply wp_bind, (wp_get_conn _ _ _ _ Hlc), wp_bind.
  pose proof (co_read _ (ok_conns _ _ _ _ Hok l c Hlc)) as Hb.
  pose proof (ring_contents_length _ Hb) as Hlen. unfold zlen in Hlen.
  eapply wp_mono; [eapply process_packets_loop_spec; [done..|lia]|].
  intros [] w1 Hpost; [by apply wp_ret|].
  destruct Hpost as (Hr & Ho & Hlogs & Hok1 & all & c1 & Hl1 & Hp).
  apply wp_bind, (wp_get_conn _ _ _ _ Hl1). destruct (vr_conn_ring_buf_empty _).
  { apply wp_ret. split_and!; [done|done|done|done|by exists all, c1]. }
  apply wp_bind. eapply conn_ctl_spec; [done..|]. intros r w2 Hsp Hok2 _ [Hs2 Hr2] _. apply wp_ret.
  destruct Hlogs as [Hs1 Hr1]. unfold process_post. rewrite (sp_reactor _ _ Hsp), (sp_heap _ _ Hsp).
  split_and!; [done|done|split; congruence|done|by exists all, c1].
Qed.
End Packets.

(** ** Events *)

Section Events.
Context `{Libc} `{Abi} `{KernelLaws}.
Context (lst : loc) (base : Z).
Hypothesis Hresp : allocates sizeof_vr_packet_t.

Lemma quiet_refl fd v v' : same_logs v v' -> quiet fd v v'.
Proof. intros [Es Er] fd' _. unfold traffic. by rewrite Es, Er. Qed.

Lemma wrote_quiet fd bs v v' : wrote fd bs v v' -> quiet fd v v'.
Proof. intros [_ Ho Hr] fd' Hne. unfold traffic. by rewrite Ho, Hr. Qed.

Lemma got_quiet fd bs v v' : got fd bs v v' -> quiet fd v v'.
Proof. intros [_ Ho Hs] fd' Hne. unfold traffic. by rewrite Ho, Hs. Qed.

(** Bytes went out of the connection's ring and into it, as the kernel saw them. *)
Definition exchanged (c : vr_connection_t) (v v' : kview) (c' : vr_connection_t) : Prop :=
  exists b1 b2 out inp, c' = set_read_buf b2 (set_write_buf b1 c) /\
    ring_contents (c_write_buf c) = out ++ ring_contents b1 /\
    ring_contents b2 = ring_contents (c_read_buf c) ++ inp /\ Forall is_byte inp /\
    traffic v' (c_fd c) = ((traffic v (c_fd c)).1 ++ inp, (traffic v (c_fd c)).2 ++ out).

Lemma exchanged_refl c v : exchanged c v v c.
Proof.
  exists (c_write_buf c), (c_read_buf c), [], []. rewrite !app_nil_r. split_and!; by destruct c.
Qed.

Lemma exchanged_wrote c v v1 v2 c1 b bs rest :
  exchanged c v v1 c1 -> ring_contents (c_write_buf c1) = bs ++ rest -> ring_contents b = rest ->
  wrote (c_fd c) bs v1 v2 -> exchanged c v v2 (set_write_buf b c1).
Proof.
  intros (b1 & b2 & out & inp & -> & Ho & Hi & Hb & Ht) Hq <- [Hl _ Hr]. simpl in Hq.
  exists b, b2, (out ++ bs), inp. split_and!; [by destruct c|by rewrite Ho, Hq, app_assoc|done|done|].
  unfold traffic in *. injection Ht as Hti Hto. by rewrite Hr, Hl, Hti, Hto, app_assoc.
Qed.

Lemma exchanged_got c v v1 v2 c1 b bs :
  exchanged c v v1 c1 -> ring_contents b = ring_contents (c_read_buf c1) ++ bs -> ring_wf b ->
  got (c_fd c) bs v1 v2 -> exchanged c v v2 (set_read_buf b c1).
Proof.
  intros (b1 & b2 & out & inp & -> & Ho & Hi & Hb & Ht) Hq Hwf [Hl _ Hs]. simpl in Hq.
  apply ring_contents_bytes in Hwf. rewrite Hq in Hwf. apply Forall_app in Hwf as [_ Hbs].
  exists b1, b, out, (inp ++ bs).
  split_and!; [by destruct c|done|by rewrite Hq, Hi, app_assoc|by apply Forall_app|].
  unfold traffic in *. injection Ht as Hti Hto. by rewrite Hs, Hl, Hti, Hto, app_assoc.
Qed.

Lemma exchanged_fd c v v' c' : exchanged c v v' c' -> c_fd c' = c_fd c.
Proof. by intros (b1 & b2 & out & inp & -> & _). Qed.

(** What a whole event does to its connection. *)
Definition event_on (c : vr_connection_t) (v v' : kview) (c' : vr_connection_t) : Prop :=
  exists c1 all, exchanged c v v' c1 /\ processed c1 all c'.

Lemma processed_fd c all c' : processed c all c' -> c_fd c' = c_fd c.
Proof. by induction 1. Qed.

Lemma event_on_fd c v v' c' : event_on c v v' c' -> c_fd c' = c_fd c.
Proof. intros (c1 & all & Hx & Hp). by rewrite (processed_fd _ _ _ Hp), (exchanged_fd _ _ _ _ Hx). Qed.

(** What all steps of a client event have in common; [R] says what becomes of the
    connection unless it is closed. *)
Definition handled (R : vr_connection_t -> kview -> kview -> vr_connection_t -> Prop)
    (ls : list loc) (w : world) (i : nat) (l : loc) (c : vr_connection_t) (closed : bool) (w' : world) : Prop :=
  w_reactor w' = w_reactor w /\ others_kept l (w_heap w) (w_heap w') /\
  quiet (c_fd c) (view w) (view w') /\
  if closed then world_ok lst base (swap_remove i ls) w' /\ w_heap w' !! l = None
  else world_ok lst base ls w' /\ exists c', w_heap w' !! l = Some c' /\ R c (view w) (view w') c'.

Lemma handled_nothing ls w i l c :
  world_ok lst base ls w -> w_heap w !! l = Some c -> handled exchanged ls w i l c false w.
Proof.
  intros. split_and!; [done|apply others_kept_refl|done|done|]. exists c. split; [done|apply exchanged_refl].
Qed.

Lemma handled_writes ls w w1 i l c c1 closed w2 :
  handled exchanged ls w i l c false w1 -> w_heap w1 !! l = Some c1 ->
  drain_writes_post lst base ls w1 i l c1 closed w2 -> handled exchanged ls w i l c closed w2.
Proof.
  intros (Hr & Ho & Hq & _ & c1' & Hc & He) Hc1 (Hr2 & Ho2 & bs & rest & Hbs & Hwr & Hcl).
  rewrite Hc in Hc1. injection Hc1 as ->. pose proof (exchanged_fd _ _ _ _ He) as Hfd. rewrite Hfd in Hwr.
  split_and!; [congruence|by eapply others_kept_trans|by eapply quiet_trans, wrote_quiet|].
  destruct closed; [done|]. destruct Hcl as (Hok & b & Hb & Hrest & _). split; [done|].
  exists (set_write_buf b c1). split; [done|]. by eapply exchanged_wrote.
Qed.

Lemma handled_reads ls w w1 i l c c1 closed w2 :
  handled exchanged ls w i l c false w1 -> w_heap w1 !! l = Some c1 ->
  drain_reads_post lst base ls w1 i l c1 closed w2 -> handled exchanged ls w i l c closed w2.
Proof.
  intros (Hr & Ho & Hq & _ & c1' & Hc & He) Hc1 (Hr2 & Ho2 & bs & Hg & Hcl).
  rewrite Hc in Hc1. injection Hc1 as ->. pose proof (exchanged_fd _ _ _ _ He) as Hfd. rewrite Hfd in Hg.
  split_and!; [congruence|by eapply others_kept_trans|by eapply quiet_trans, got_quiet|].
  destruct closed; [done|]. destruct Hcl as (Hok & b & Hb & Hrest & _). split; [done|].
  exists (set_read_buf b c1). split; [done|]. eapply exchanged_got; [done..| |done].
  exact (co_read _ (ok_conns _ _ _ _ Hok l _ Hb)).
Qed.

Lemma handled_processed ls w w1 i l c c1 closed w2 :
  handled exchanged ls w i l c false w1 -> w_heap w1 !! l = Some c1 ->
  process_post lst base ls w1 i l c1 closed w2 -> handled event_on ls w i l c closed w2.
Proof.
  intros (Hr & Ho & Hq & _ & c1' & Hc & He) Hc1 (Hr2 & Ho2 & Hlogs & Hcl).
  rewrite Hc in Hc1. injection Hc1 as ->.
  split_and!; [congruence|by eapply others_kept_trans|by eapply quiet_trans, quiet_refl|].
  destruct closed; [done|]. destruct Hcl as (Hok & all & c2 & Hc2 & Hp). split; [done|].
  exists c2. split; [done|]. exists c1, all. split; [|done].
  destruct He as (b1 & b2 & out & inp & Ec & Hout & Hin & Hb & Ht). exists b1, b2, out, inp.
  split_and!; [done..|]. rewrite <-Ht. destruct Hlogs as [Es Er]. unfold traffic. by rewrite Es, Er.
Qed.

Lemma client_event_spec ls w i l c events :
  world_ok lst base ls w -> ls !! i = Some l -> w_heap w !! l = Some c ->
  wp (reactor_handle_client_event l events) (fun _ w' =>
    exists closed, handled event_on ls w i l c closed w') w.
Proof.
  intros Hok Hi Hlc. unfold reactor_handle_client_event. apply wp_bind.
  pose proof (handled_nothing ls w i l c Hok Hlc) as Hd0.
  apply (wp_mono _ (handled exchanged ls w i l c)).
  { destruct (has_event events EPOLLOUT); [|by apply wp_ret].
    eapply wp_mono; [by apply drain_writes_spec|]. intros closed w'. by apply (handled_writes ls w w). }
  intros closed1 w1 Hd1. apply wp_bind. apply (wp_mono _ (handled exchanged ls w i l c)).
  { destruct closed1; [by apply wp_ret|]. cbn [negb andb].
    destruct (has_event events EPOLLIN); [|by apply wp_ret].
    pose proof Hd1 as (_ & _ & _ & Hok1 & c1 & Hl1 & _).
    eapply wp_mono; [by apply drain_reads_spec|]. intros closed w'. by apply (handled_reads ls w w1). }
  intros closed2 w2 Hd2. destruct closed2; [by apply wp_ret; exists true|].
  pose proof Hd2 as (_ & _ & _ & Hok2 & c2 & Hl2 & _). apply wp_bind.
  eapply wp_mono; [by eapply process_packets_spec|]. intros closed3 w3 Hp. apply wp_ret.
  exists closed3. by apply (handled_processed ls w w2 i l c c2).
Qed.

(** ** New connections *)

(** Every connection is still there, with everything but its slot. *)
Definition all_kept (h h' : heap) : Prop :=
  forall l c, h !! l = Some c -> exists c', h' !! l = Some c' /\ set_slot 0 c' = set_slot 0 c.

(** A descriptor that is open and belongs to no connection. *)
Definition unowned (fd : Z) (w : world) : Prop :=
  fd <> re_epoll_fd (w_reactor w) /\ forall l c, w_heap w !! l = Some c -> c_fd c <> fd.

Lemma ok_opened ls w w' fd :
  world_ok lst base ls w -> same_prog w w' -> fd ∉ v_open (view w) ->
  view w' = v_opened fd (view w) -> world_ok lst base ls w' /\ unowned fd w'.
Proof.
  intros [Hm Hd Hn Hc Ht Ho Hi Hep He Hl] [Hh Hm' Hr Hl' _] Hfd Hv. split.
  - constructor; rewrite ?Hh, ?Hm', ?Hr, ?Hv, ?Hl'; try done; simpl.
    + intros l c E. destruct (Ho _ _ E). split; [|done]. apply elem_of_union. by right.
    + apply elem_of_union. by right.
  - split; rewrite ?Hr, ?Hh; [by intros ->|]. intros l c E <-. by destruct (Ho _ _ E).
Qed.

Lemma ok_closed_unowned ls w w' fd :
  world_ok lst base ls w -> same_prog w w' -> unowned fd w ->
  view w' = v_closed fd (view w) -> world_ok lst base ls w'.
Proof.
  intros [Hm Hd Hn Hc Ht Ho Hi Hep He Hl] [Hh Hm' Hr Hl' _] [Hne Hfd] Hv.
  constructor; rewrite ?Hh, ?Hm', ?Hr, ?Hv, ?Hl'; try done; simpl.
  - intros l c E. destruct (Ho _ _ E). split; [|done].
    apply elem_of_difference. split; [done|]. rewrite elem_of_singleton. eauto.
  - apply elem_of_difference. split; [done|]. by rewrite elem_of_singleton.
  - destruct He as (interest & Hint & Hreg). exists (delete fd interest).
    rewrite lookup_fmap, lookup_delete_ne, Hint by done. split; [done|].
    intros fd' l E. apply lookup_delete_Some in E as [_ E]. eauto.
Qed.

(** The number of connections is bounded by the number of descriptors. *)
Lemma ok_bound ls w : world_ok lst base ls w -> zlen ls <= 2 ^ 31.
Proof.
  intros Hok. set (fd_of := fun l => default (-1) (c_fd <$> w_heap w !! l)).
  assert (Hfd : forall l, l ∈ ls -> exists c, w_heap w !! l = Some c /\ fd_of l = c_fd c).
  { intros l Hl. destruct (ok_lookup _ _ _ _ _ Hok Hl) as (_ & c & _ & Hc & _).
    exists c. unfold fd_of. by rewrite Hc. }
  assert (Hnd : NoDup (fd_of <$> ls)).
  { apply NoDup_fmap_2_strong; [|by eapply manager_NoDup, ok_mgr]. intros l1 l2 Hl1 Hl2 E.
    destruct (Hfd _ Hl1) as (c1 & E1 & F1), (Hfd _ Hl2) as (c2 & E2 & F2).
    eapply (ok_inj _ _ _ _ Hok); [done|done|congruence]. }
  assert (Hsub : fd_of <$> ls ⊆+ seqZ 0 (2 ^ 31)).
  { apply NoDup_submseteq; [done|]. intros fd (l & -> & Hl)%list_elem_of_fmap.
    destruct (Hfd _ Hl) as (c & Hc & ->). destruct (ok_open _ _ _ _ Hok _ _ Hc) as [Ho _].
    apply law_range in Ho. apply elem_of_seqZ. lia. }
  apply submseteq_length in Hsub. rewrite length_fmap, length_seqZ in Hsub. unfold zlen. lia.
Qed.

Lemma new_connection_ok n slot : conn_ok (set_type VR_CONN_CLIENT (new_connection n slot)).
Proof.
  constructor; simpl; [apply ring_wf_unalloc|apply ring_wf_unalloc|done|].
  split; [split; [done|by repeat constructor]|done].
Qed.

(** A new connection object for a descriptor nobody owns. *)
Lemma ok_adopted ls w l n m' p' :
  world_ok lst base ls w -> l ∉ dom (w_heap w) -> nc_fd n ∈ v_open (view w) ->
  unowned (nc_fd n) w ->
  manager_wf m' (ls ++ [l]) (<[l := new_connection n (zlen ls)]> (w_heap w)) ->
  p_live p' = p_live (w_proc w) + 1 ->
  world_ok lst base (ls ++ [l])
    (World (w_kern w) p' (<[l := set_type VR_CONN_CLIENT (new_connection n (zlen ls))]> (w_heap w))
       m' (w_reactor w)).
Proof.
  intros [Hm Hd Hn Hc Ht Ho Hi Hep He Hl] Hfr Hfd [Hne Hun] Hm' Hp'.
  set (c := set_type VR_CONN_CLIENT (new_connection n (zlen ls))).
  assert (Hlst : l <> lst).
  { intros ->. apply Hfr. rewrite Hd. apply elem_of_union. left. by apply elem_of_singleton. }
  assert (Hcase : forall l1 c1, <[l := c]> (w_heap w) !! l1 = Some c1 ->
    l1 = l /\ c1 = c \/ l1 <> l /\ w_heap w !! l1 = Some c1).
  { intros l1 c1 [[<- <-]|[? ?]]%lookup_insert_Some; [by left|by right]. }
  constructor; cbn [w_mgr w_heap w_reactor w_proc];
    try change (view (World (w_kern w) _ _ _ _)) with (view w).
  - assert (E : <[l := c]> (w_heap w) = <[l := c]> (<[l := new_connection n (zlen ls)]> (w_heap w)))
      by (by rewrite insert_insert_eq).
    rewrite E. eapply manager_wf_update; [done|by rewrite lookup_insert_eq|done].
  - rewrite dom_insert_L, Hd, list_to_set_app_L, list_to_set_singleton_L.
    apply set_eq. intros x. rewrite !elem_of_union. tauto.
  - intros Hin%elem_of_app. destruct Hin as [?|?%list_elem_of_singleton]; by auto.
  - intros l1 c1 [[-> ->]|[_ E]]%Hcase; [apply new_connection_ok|eauto].
  - intros l1 c1 [[-> ->]|[_ E]]%Hcase; [by rewrite decide_False|eauto].
  - intros l1 c1 [[-> ->]|[_ E]]%Hcase; [done|eauto].
  - intros l1 l2 c1 c2 [[-> ->]|[_ E1]]%Hcase [[-> ->]|[_ E2]]%Hcase Hf; try done.
    + exfalso. by apply (Hun _ _ E2).
    + exfalso. by apply (Hun _ _ E1).
    + eauto.
  - done.
  - destruct He as (interest & Hint & Hreg). exists interest. split; [done|].
    intros fd l1 E. destruct (Hreg _ _ E) as (c1 & E1 & <-). exists c1.
    rewrite lookup_insert_ne; [done|]. intros ->. by apply (elem_of_dom_2 (D := gset loc)), Hfr in E1.
  - rewrite heap_blocks_insert by (by apply not_elem_of_dom). unfold conn_blocks. simpl. lia.
Qed.

(** [close(fd); vr_connection_destroy(manager, conn);] *)
Lemma close_destroy_spec ls w i l c :
  world_ok lst base ls w -> ls !! i = Some l -> w_heap w !! l = Some c ->
  wp (close (c_fd c);; destroy_connection l;; mret tt) (fun _ w' =>
    world_ok lst base (swap_remove i ls) w' /\ w_reactor w' = w_reactor w /\
    w_heap w' !! l = None /\ others_kept l (w_heap w) (w_heap w') /\ same_logs (view w) (view w')) w.
Proof.
  intros Hok Hi Hlc. apply wp_bind, close_spec. intros w1 Hsp Hv. apply wp_bind.
  destruct (destroy_spec (w_mgr w) ls (w_heap w) i l c (w_proc w1) (ok_mgr _ _ _ _ Hok) Hi Hlc)
    as (m' & h' & p' & E & Hm' & Hd' & Hoth & _ & Hb & Hp'); [by eapply manager_bound, ok_mgr|].
  eapply wp_with_mgr; [rewrite (sp_mgr _ _ Hsp), (sp_heap _ _ Hsp); exact E|]. apply wp_ret.
  split_and!.
  - eapply (ok_destroyed lst base ls w _ i l c m' h' p'); try done.
    + by rewrite (sp_reactor _ _ Hsp).
    + by rewrite Hp', (sp_live _ _ Hsp).
  - apply (sp_reactor _ _ Hsp).
  - simpl. apply not_elem_of_dom. rewrite Hd', elem_of_difference, elem_of_singleton. by intros [].
  - intros l' c' Hne Hc'. exact (same_but_slot _ _ c' (Hoth l' Hne) Hc').
  - unfold same_logs, view in *. simpl. by rewrite Hv.
Qed.

(** The connections of [w'] are connections of [w], with the same traffic, or new
    ones without any. *)
Definition fresh_client (c : vr_connection_t) : Prop :=
  exists n slot, c = set_type VR_CONN_CLIENT (new_connection n slot).

Definition newcomers (w w' : world) : Prop :=
  forall l c', w_heap w' !! l = Some c' ->
    (exists c, w_heap w !! l = Some c /\ set_slot 0 c' = set_slot 0 c /\
       traffic (view w') (c_fd c) = traffic (view w) (c_fd c)) \/
    (fresh_client c' /\ traffic (view w') (c_fd c') = ([], [])).

Lemma fresh_client_slot c c' : set_slot 0 c' = set_slot 0 c -> fresh_client c -> fresh_client c'.
Proof.
  intros E (n & slot & ->). exists n, (c_slot c'). destruct c'. unfold set_slot in E. simpl in *.
  by injection E as -> -> -> -> -> -> ->.
Qed.

Lemma newcomers_same w w' :
  w_heap w' = w_heap w ->
  (forall l c, w_heap w !! l = Some c -> traffic (view w') (c_fd c) = traffic (view w) (c_fd c)) ->
  newcomers w w'.
Proof. intros Eh Ht l c' Hc'. rewrite Eh in Hc'. left. exists c'. split_and!; [done|done|]. by apply (Ht l). Qed.

Lemma newcomers_trans w1 w2 w3 : newcomers w1 w2 -> newcomers w2 w3 -> newcomers w1 w3.
Proof.
  intros H12 H23 l c3 Hc3. destruct (H23 l c3 Hc3) as [(c2 & Hc2 & E23 & T23)|?]; [|by right].
  pose proof (set_slot_inv _ _ E23) as (F23 & _).
  destruct (H12 l c2 Hc2) as [(c1 & Hc1 & E12 & T12)|[Hf T12]].
  - left. exists c1. pose proof (set_slot_inv _ _ E12) as (F12 & _).
    rewrite F12 in T23. split_and!; [done|congruence|congruence].
  - right. split; [by eapply fresh_client_slot|]. by rewrite F23, T23.
Qed.

(** Nothing but [l] is new when its entry went away. *)
Lemma others_from l ls ls' w w' :
  world_ok lst base ls w -> world_ok lst base ls' w' -> (forall x, x ∈ ls' -> x ∈ ls) ->
  others_kept l (w_heap w) (w_heap w') ->
  forall l' c', l' <> l -> w_heap w' !! l' = Some c' ->
    exists c, w_heap w !! l' = Some c /\ set_slot 0 c' = set_slot 0 c.
Proof.
  intros Hok Hok' Hsub Hk l' c' Hne Hc'. assert (Hd : l' ∈ dom (w_heap w)).
  { pose proof (elem_of_dom_2 (D := gset loc) _ _ _ Hc') as Hd. rewrite (ok_dom _ _ _ _ Hok') in Hd.
    rewrite (ok_dom _ _ _ _ Hok). rewrite elem_of_union, elem_of_list_to_set in *.
    destruct Hd as [?|?]; [by left|right; by apply Hsub]. }
  apply elem_of_dom in Hd as [c Hc]. destruct (Hk l' c Hne Hc) as (c'' & Hc'' & E).
  exists c. split; [done|congruence].
Qed.

Lemma swap_remove_elem i (ls : list loc) x l : ls !! i = Some l -> x ∈ swap_remove i ls -> x ∈ ls.
Proof. intros Hi Hx. rewrite <-(swap_remove_Permutation i ls l Hi). by right. Qed.

Lemma newcomers_logs w w' : w_heap w' = w_heap w -> same_logs (view w) (view w') -> newcomers w w'.
Proof. intros Eh [Es Er]. apply newcomers_same; [done|]. intros l c _. unfold traffic. by rewrite Es, Er. Qed.

Lemma newcomers_insert w w' l c :
  w_heap w' = <[l := c]> (w_heap w) -> view w' = view w -> fresh_client c ->
  traffic (view w) (c_fd c) = ([], []) -> newcomers w w'.
Proof.
  intros Eh Ev Hf Ht l' c' Hc'. rewrite Eh in Hc'. rewrite Ev.
  apply lookup_insert_Some in Hc' as [[<- <-]|[Hne Hc']]; [by right|]. left. by exists c'.
Qed.

Lemma newcomers_destroyed ls i l w w' :
  world_ok lst base ls w -> world_ok lst base (swap_remove i ls) w' -> ls !! i = Some l ->
  w_heap w' !! l = None -> others_kept l (w_heap w) (w_heap w') -> same_logs (view w) (view w') ->
  newcomers w w'.
Proof.
  intros Hok Hok' Hi Hn Hk [Es Er] l' c' Hc'. left.
  destruct (others_from l ls (swap_remove i ls) w w' Hok Hok') with (l' := l') (c' := c') as (c & Hc & E); try done.
  - intros x. by eapply swap_remove_elem.
  - intros ->. congruence.
  - exists c. split_and!; [done|done|]. unfold traffic. by rewrite Es, Er.
Qed.

Definition adopt_post (w : world) (w' : world) : Prop :=
  (exists ls', world_ok lst base ls' w') /\ w_reactor w' = w_reactor w /\
  all_kept (w_heap w) (w_heap w') /\ newcomers w w'.

Lemma adopt_connection_spec ls w n :
  world_ok lst base ls w -> nc_fd n ∈ v_open (view w) -> unowned (nc_fd n) w ->
  traffic (view w) (nc_fd n) = ([], []) ->
  wp (adopt_connection n) (fun _ => adopt_post w) w.
Proof.
  intros Hok Hfd Hun Htr. unfold adopt_connection. pose proof (ok_bound ls w Hok) as Hbd.
  destruct (create_spec (w_mgr w) ls (w_heap w) n (w_proc w) (ok_mgr _ _ _ _ Hok))
    as (r & m' & h' & p' & E & Hres); [lia|].
  apply wp_bind. eapply wp_with_mgr; [exact E|]. destruct r as [l|].
  2:{ destruct Hres as (-> & Hm' & Hp'). apply close_spec. intros w1 Hsp Hv.
      split_and!; [|apply (sp_reactor _ _ Hsp)|..].
      - exists ls. apply (ok_closed_unowned ls (World (w_kern w) p' (w_heap w) m' (w_reactor w))
          w1 (nc_fd n)); [|done|exact Hun|exact Hv].
        destruct Hok. constructor; try done. simpl. lia.
      - rewrite (sp_heap _ _ Hsp). intros l c Hc. by exists c.
      - apply newcomers_logs; [apply (sp_heap _ _ Hsp)|by rewrite Hv]. }
  destruct Hres as (Hfr & -> & Hm' & Hp'). set (c0 := new_connection n (zlen ls)) in *.
  set (c := set_type VR_CONN_CLIENT c0).
  pose proof (ok_adopted ls w l n m' p' Hok Hfr Hfd Hun Hm' Hp') as Hok1. fold c0 c in Hok1.
  set (w1 := World (w_kern w) p' (<[l := c]> (w_heap w)) m' (w_reactor w)) in *.
  apply wp_bind, (wp_get_conn _ c0); [by simpl; rewrite lookup_insert_eq|].
  apply wp_bind, (wp_put_conn _ c0); [by simpl; rewrite lookup_insert_eq|].
  replace (set_heap _ _) with w1 by (unfold w1, set_heap; simpl; by rewrite insert_insert_eq).
  assert (Hl1 : w_heap w1 !! l = Some c) by (unfold w1; simpl; by rewrite lookup_insert_eq).
  assert (Hi : (ls ++ [l]) !! length ls = Some l) by (by apply list_lookup_middle).
  assert (Hkeep : forall w2, others_kept l (w_heap w1) (w_heap w2) -> all_kept (w_heap w) (w_heap w2)).
  { intros w2 Ho l' c' Hc'. assert (Hne : l' <> l).
    { intros ->. by apply (elem_of_dom_2 (D := gset loc)), Hfr in Hc'. }
    apply (Ho l' c' Hne). unfold w1. simpl. by rewrite lookup_insert_ne. }
  assert (Hnew : newcomers w w1) by (apply (newcomers_insert w w1 l c); [done|done|by exists n, (zlen ls)|exact Htr]).
  assert (Hfail : forall w2, world_ok lst base (ls ++ [l]) w2 -> same_prog w1 w2 -> same_logs (view w1) (view w2) ->
    wp (close (c_fd c);; destroy_connection l;; mret tt) (fun _ => adopt_post w) w2).
  { intros w2 Hok2 Hsp Hlg. eapply wp_mono; [apply (close_destroy_spec _ _ _ _ c Hok2 Hi)|].
    - by rewrite (sp_heap _ _ Hsp).
    - intros _ w3 (Hok3 & Hr3 & Hn3 & Ho3 & Hl3). split_and!; [by eexists| |..].
      + rewrite Hr3. apply (sp_reactor _ _ Hsp).
      + apply Hkeep. by rewrite (sp_heap _ _ Hsp) in Ho3.
      + apply (newcomers_trans w w1 w3 Hnew), (newcomers_trans w1 w2 w3).
        * apply newcomers_logs; [apply (sp_heap _ _ Hsp)|done].
        * exact (newcomers_destroyed _ _ _ _ _ Hok2 Hok3 Hi Hn3 Ho3 Hl3). }
  change (c_fd c0) with (c_fd c).
  apply wp_bind, set_non_blocking_spec. intros r w2 Hr Hsp2 Hv2.
  assert (Hok2 : world_ok lst base (ls ++ [l]) w2) by (eapply ok_same; [done..|]; by rewrite Hv2).
  destruct Hr as [-> | ->]; [|apply Hfail; [done..|by rewrite Hv2]]. apply wp_bind.
  eapply (conn_ctl_spec lst base (ls ++ [l]) w2 l c); [done|by rewrite (sp_heap _ _ Hsp2)|done|].
  intros r w3 Hsp3 Hok3 _ Hlg Hr. assert (Hsp13 : same_prog w1 w3) by (by transitivity w2).
  rewrite Hv2 in Hlg. destruct Hr as [[-> _]|[-> _]]; [|by apply Hfail]. apply wp_ret.
  split_and!; [by eexists|apply (sp_reactor _ _ Hsp13)|..].
  - apply Hkeep. rewrite (sp_heap _ _ Hsp13). apply others_kept_refl.
  - eapply newcomers_trans; [exact Hnew|]. by apply newcomers_logs; [apply (sp_heap _ _ Hsp13)|].
Qed.
End Events.
