(* ===== verification/Scenario.v ===== *)
(** * Scenario: a server with one client

    A concrete state in which [world_ok] holds, on the scripted kernel: descriptor
    3 is the epoll instance, 4 the listening socket with object 1, 5 a client with
    object 2.  The witnesses of the theorems about the event handlers use it. *)

From S2P Require Import Prelude Core RingBuffer Packet Parser Protocol Connection World Sim.
From S2P Require Import SocketUtils Enqueue Reactor ReactorSpec.
#[local] Open Scope Z_scope.

(** A listening object for an open descriptor the process has just obtained. *)
Definition listener_object (fd : Z) : vr_connection_t :=
  set_type VR_CONN_LISTENER (set_net_conn (NetConn fd zeroed_sockaddr) zeroed_connection).

Lemma listener_object_ok fd : conn_ok (listener_object fd) /\ conn_blocks (listener_object fd) = 1.
Proof.
  split; [|done]. constructor; simpl; [apply ring_wf_unalloc|apply ring_wf_unalloc|done|].
  split; [split; [done|by repeat constructor]|done].
Qed.

(** Bytes [rx] wait on the client's descriptor, which takes [room] bytes. *)
Definition one_client (rx : list Z) (room : Z) (script : list (gmap Z Z)) : sim :=
  Sim {[3; 4; 5]} {[3 := {[4 := 1%positive; 5 := 2%positive]}]} ∅ ∅ 6 []
    {[5 := rx]} ∅ {[5 := room]} script.

Definition client_object (rd wr : vr_connection_ring_buf_t) (proto : vr_proto) : vr_connection_t :=
  set_read_buf rd (set_write_buf wr (set_proto proto
    (set_type VR_CONN_CLIENT (new_connection (NetConn 5 zeroed_sockaddr) 0)))).

Definition scene_heap (rd wr : vr_connection_ring_buf_t) (proto : vr_proto) : heap :=
  <[1%positive := listener_object 4]> {[2%positive := client_object rd wr proto]}.

Definition scene (s : sim) (rd wr : vr_connection_ring_buf_t) (proto : vr_proto)
    : @world sim_kernel :=
  World (s : @kst sim_kernel) (Proc 10 (1 + heap_blocks (scene_heap rd wr proto)) 0)
    (scene_heap rd wr proto) (Manager (Some [Some 2%positive]) 1 1)
    (Reactor 3 [] 0).

Lemma scene_heap_client rd wr proto :
  scene_heap rd wr proto !! 2%positive = Some (client_object rd wr proto).
Proof. unfold scene_heap. by rewrite lookup_insert_ne, lookup_singleton_eq. Qed.

Section Scene.
#[local] Existing Instance sim_kernel.
#[local] Existing Instance sim_laws.

Lemma scene_ok rx room script rd wr proto :
  ring_wf rd -> ring_wf wr -> proto_wf proto ->
  world_ok 1%positive 1 [2%positive] (scene (one_client rx room script) rd wr proto).
Proof.
  intros Hrd Hwr Hpr.
  assert (Hcase : forall l c, w_heap (scene (one_client rx room script) rd wr proto) !! l = Some c ->
    l = 1%positive /\ c = listener_object 4 \/ l = 2%positive /\ c = client_object rd wr proto).
  { intros l c E. change (scene_heap rd wr proto !! l = Some c) in E.
    unfold scene_heap in E. apply lookup_insert_Some in E as [[<- <-]|[_ [<- <-]%lookup_singleton_Some]]; auto. }
  assert (Hview : v_open (view (scene (one_client rx room script) rd wr proto)) = {[3; 4; 5]}).
  { vm_compute. done. }
  constructor.
  - constructor.
    + done.
    + done.
    + simpl. lia.
    + intros [|i] l [= <-]. exists (client_object rd wr proto). split; [|done].
      apply scene_heap_client.
  - cbn [w_heap scene]. unfold scene_heap. rewrite dom_insert_L, dom_singleton_L. done.
  - intros Hin%list_elem_of_singleton. done.
  - intros l c [[-> ->]|[-> ->]]%Hcase; [apply listener_object_ok|]. by constructor.
  - intros l c [[-> ->]|[-> ->]]%Hcase; done.
  - intros l c [[-> ->]|[-> ->]]%Hcase; rewrite Hview; (split; [|done]);
      rewrite !elem_of_union, !elem_of_singleton; auto.
  - intros l1 l2 c1 c2 [[-> ->]|[-> ->]]%Hcase [[-> ->]|[-> ->]]%Hcase; done.
  - rewrite Hview, !elem_of_union, !elem_of_singleton. auto.
  - exists {[4 := 1%positive; 5 := 2%positive]}. split; [done|].
    intros fd l [[<- <-]|[_ [<- <-]%lookup_singleton_Some]]%lookup_insert_Some.
    + by exists (listener_object 4).
    + exists (client_object rd wr proto). split; [|done].
      apply scene_heap_client.
  - done.
Qed.

Lemma scene_client s rd wr proto :
  w_heap (scene s rd wr proto) !! 2%positive = Some (client_object rd wr proto).
Proof. apply scene_heap_client. Qed.
End Scene.
