(* ===== verification/EventLoop.v ===== *)
(** * EventLoop: the invariant along the event loop

    The accept loop, the dispatch of a batch of events, the rounds of the loop,
    start-up and shutdown, on top of the specifications of ReactorSpec.  Loops
    that run for as long as the kernel has something to say are specified with
    [wlp]: whatever the number of turns, nothing undefined happens and the
    invariant holds. *)

From S2P Require Import Prelude Core RingBuffer Packet Parser Protocol Connection World Sim.
From S2P Require Import SocketUtils Enqueue Reactor Preserve ReactorSpec Scenario.
#[local] Open Scope Z_scope.

Section EventLoop.
Context `{Libc} `{Abi} `{KernelLaws}.
Context (lst : loc) (base : Z).
Hypothesis Hresp : allocates sizeof_vr_packet_t.

Abbreviation ok := (world_ok lst base).

Lemma all_kept_refl h : all_kept h h.
Proof. intros l c Hc. by exists c. Qed.

Lemma all_kept_trans h1 h2 h3 : all_kept h1 h2 -> all_kept h2 h3 -> all_kept h1 h3.
Proof.
  intros H12 H23 l c Hc. destruct (H12 l c Hc) as (c2 & Hc2 & E2).
  destruct (H23 l c2 Hc2) as (c3 & Hc3 & E3). exists c3. split; [done|congruence].
Qed.

Lemma adopt_post_trans w1 w2 w3 :
  adopt_post lst base w1 w2 -> adopt_post lst base w2 w3 -> adopt_post lst base w1 w3.
Proof.
  intros (_ & Hr1 & Ho1 & Hn1) (Hok & Hr2 & Ho2 & Hn2).
  split_and!; [done|congruence|by eapply all_kept_trans|by eapply newcomers_trans].
Qed.

Lemma adopt_post_same w1 w2 ls :
  ok ls w2 -> same_prog w1 w2 ->
  (forall l c, w_heap w1 !! l = Some c -> traffic (view w2) (c_fd c) = traffic (view w1) (c_fd c)) ->
  adopt_post lst base w1 w2.
Proof.
  intros Hok Hsp Ht. split_and!; [by eexists|apply (sp_reactor _ _ Hsp)| |].
  - rewrite (sp_heap _ _ Hsp). apply all_kept_refl.
  - by apply newcomers_same; [apply (sp_heap _ _ Hsp)|].
Qed.

(** Opening a descriptor does not touch the traffic of the connections. *)
Lemma traffic_opened ls w fd l c :
  ok ls w -> fd ∉ v_open (view w) -> w_heap w !! l = Some c ->
  traffic (v_opened fd (view w)) (c_fd c) = traffic (view w) (c_fd c).
Proof.
  intros Hok Hfd Hc. destruct (ok_open _ _ _ _ Hok l c Hc) as [Ho _].
  assert (c_fd c <> fd) by (by intros <-). unfold traffic, log_of. simpl.
  by rewrite !lookup_insert_ne.
Qed.

(** A descriptor that was opened and closed again leaves no trace. *)
Lemma ok_open_close ls w w' fd :
  ok ls w -> same_prog w w' -> fd ∉ v_open (view w) ->
  view w' = v_closed fd (v_opened fd (view w)) -> ok ls w'.
Proof.
  intros [Hm Hd Hn Hc Ht Ho Hi Hep He Hl] [Hh Hm' Hr Hl' _] Hfd Hv.
  constructor; rewrite ?Hh, ?Hm', ?Hr, ?Hv, ?Hl'; try done.
  - rewrite v_open_closed, v_open_notin by done. done.
  - by rewrite v_open_closed, v_open_notin.
  - destruct He as (interest & Hint & Hreg). exists (delete fd interest). simpl.
    rewrite lookup_fmap, lookup_delete_ne, Hint by (by intros ->). split; [done|].
    intros fd' l E. apply lookup_delete_Some in E as [_ E]. eauto.
Qed.

(** ** The accept loop *)

(** One turn of the loop, up to the next one. *)
Definition accept_turn (w : world) (x : vr_result_t * option vr_net_conn_t) (w1 : world) : Prop :=
  match x with
  | (VR_SUCCESS, Some n) => wp (adopt_connection n) (fun _ => adopt_post lst base w) w1
  | (VR_ERROR, _) => wp vr_perror (fun _ => adopt_post lst base w) w1
  | (VR_EMPTY, _) => adopt_post lst base w w1
  | _ => False
  end.

Lemma accept_turn_spec ls w fd : ok ls w -> wp (vr_tcp_accept fd) (accept_turn w) w.
Proof.
  intros Hok. apply tcp_accept_spec. intros r n w1 Hsp Hr. destruct r, n as [n|]; try done; cbn [accept_turn].
  - destruct Hr as [Hfd Hv]. destruct (ok_opened lst base ls w w1 _ Hok Hsp Hfd Hv) as [Hok1 Hun].
    eapply wp_mono; [eapply (adopt_connection_spec lst base ls w1); [done| |done|]|].
    { rewrite Hv. simpl. apply elem_of_union. left. by apply elem_of_singleton. }
    { rewrite Hv. unfold traffic, log_of. simpl. by rewrite !lookup_insert_eq. }
    intros [] w2 Ha. eapply adopt_post_trans; [|exact Ha]. eapply adopt_post_same; [done..|].
    intros l c Hc. rewrite Hv. by eapply traffic_opened.
  - apply perror_spec. intros w2 Hsp2 Hv2.
    assert (Hok1 : ok ls w1).
    { destruct Hr as [Hv|(nfd & Hn & Hv)]; [|by eapply ok_open_close].
      eapply ok_same; [done..|]. by rewrite Hv. }
    eapply adopt_post_same; [|by transitivity w1|].
    { eapply ok_same; [done..|]. by rewrite Hv2. }
    intros l c Hc. rewrite Hv2. destruct Hr as [->|(nfd & Hn & ->)]; [done|]. by eapply traffic_opened.
  - eapply adopt_post_same; [|done|]; [eapply ok_same; [done..|]; by rewrite Hr|by rewrite Hr].
Qed.

Lemma accept_loop_spec fuel ls w fd :
  ok ls w -> wlp (accept_loop fuel fd) (fun _ => adopt_post lst base w) w.
Proof.
  revert ls w. induction fuel as [|fuel IH]; intros ls w Hok; [done|].
  cbn [accept_loop]. apply wlp_bind, wp_wlp. eapply wp_mono; [by apply (accept_turn_spec ls)|].
  intros [[] [n|]] w1 Ht; try done; [|by apply wp_wlp..].
  apply wlp_bind, wp_wlp. eapply wp_lift; [done|]. apply wlp_bind, wp_wlp.
  eapply wp_mono; [exact Ht|]. intros [] w2 Ha. pose proof Ha as ([ls2 Hok2] & _).
  eapply wlp_mono; [by eapply IH|]. intros [] w3 Ha3. by eapply adopt_post_trans.
Qed.

(** The loop ends when the connections that wait are finitely many: [backlog]
    counts them, accepting one makes them fewer and no other call of the loop
    makes them more. *)
Section Backlog.
Context (backlog : kst -> nat).

Record backlog_laws : Prop := {
  bl_accept k fd x k' : k_accept fd k = (Done x, k') -> (backlog k' < backlog k)%nat;
  bl_accept_none k fd e k' : k_accept fd k = (Fail e, k') -> (backlog k' <= backlog k)%nat;
  bl_getfl k fd : (backlog (k_getfl fd k).2 <= backlog k)%nat;
  bl_setfl k fd fl : (backlog (k_setfl fd fl k).2 <= backlog k)%nat;
  bl_close k fd : (backlog (k_close fd k).2 <= backlog k)%nat;
  bl_ctl k ep op fd : (backlog (k_epoll_ctl ep op fd k).2 <= backlog k)%nat
}.
Hypothesis Hlaws : backlog_laws.

(** Taking a connection over does not lengthen the queue. *)
Lemma adopt_backlog n w x w' :
  adopt_connection n w = Ok (x, w') -> (backlog (w_kern w') <= backlog (w_kern w))%nat.
Proof.
  destruct Hlaws as [_ _ Hg Hs Hc Ht]. intros E.
  apply (pres_adopt (fun k => (backlog k <= backlog (w_kern w))%nat)) in E; [exact (E (Nat.le_refl _))|..];
    intros; apply call_ok_measure; auto.
Qed.

Lemma accept_decreases fd w n w' :
  vr_tcp_accept fd w = Ok ((VR_SUCCESS, n), w') -> (backlog (w_kern w') < backlog (w_kern w))%nat.
Proof.
  unfold vr_tcp_accept, mbind, io_bind, syscall.
  destruct (k_accept fd (w_kern w)) as [[[nfd addr]|e] k] eqn:E.
  - destruct (k_inet_ntop addr); [|unfold close, syscall, mbind, io_bind; simpl; by destruct (k_close _ _) as [[]]].
    intros [= <- <-]. by eapply bl_accept.
  - unfold get_errno. by destruct (would_block _).
Qed.

Lemma accept_loop_total fuel ls w fd :
  ok ls w -> (backlog (w_kern w) < fuel)%nat ->
  wp (accept_loop fuel fd) (fun _ => adopt_post lst base w) w.
Proof.
  revert ls w. induction fuel as [|fuel IH]; intros ls w Hok Hf; [lia|].
  pose proof (accept_turn_spec ls w fd Hok) as Hturn. cbn [accept_loop]. apply wp_bind.
  unfold wp in Hturn. unfold wp at 1.
  destruct (vr_tcp_accept fd w) as [[[[] [n|]] w1]| |] eqn:E; try done.
  apply accept_decreases in E. apply wp_bind. eapply wp_lift; [done|]. apply wp_bind.
  cbn [accept_turn] in Hturn. unfold wp in Hturn. unfold wp at 1.
  destruct (adopt_connection n w1) as [[[] w2]| |] eqn:Ea; [|done..].
  apply adopt_backlog in Ea. pose proof Hturn as ([ls2 Hok2] & _).
  eapply wp_mono; [apply (IH ls2 w2 Hok2); lia|]. intros [] w3 Ha3. by eapply adopt_post_trans.
Qed.
End Backlog.

(** ** One event

    The specifications of the rounds come in two strengths: up to the fuel, and
    total in kernel states [P] in which the accept loop is total. *)

Section Rounds.
Context (total : bool) (fuel : nat) (P : kst -> Prop).
Hypothesis Haccept : forall ls w fd, ok ls w -> P (w_kern w) ->
  wx total (accept_loop fuel fd) (fun _ => adopt_post lst base w) w.
Hypothesis Hpres : forall ev, preserves P (handle_event fuel ev).

(** The listener's object is as it was, up to its slot number. *)
Definition listener_kept (w w' : world) : Prop :=
  forall c, w_heap w !! lst = Some c ->
    exists c', w_heap w' !! lst = Some c' /\ set_slot 0 c' = set_slot 0 c.

Lemma listener_kept_refl w w' : w_heap w' = w_heap w -> listener_kept w w'.
Proof. intros E c Hc. exists c. by rewrite E. Qed.

Lemma listener_kept_trans w1 w2 w3 :
  listener_kept w1 w2 -> listener_kept w2 w3 -> listener_kept w1 w3.
Proof.
  intros H12 H23 c Hc. destruct (H12 c Hc) as (c2 & Hc2 & E2).
  destruct (H23 c2 Hc2) as (c3 & Hc3 & E3). exists c3. split; [done|congruence].
Qed.

(** Where the clients of [w'] come from after an event of [l0]: untouched, new, or
    [l0] itself. *)
Definition evolved (l0 : loc) (w w' : world) : Prop :=
  forall l c', l <> lst -> w_heap w' !! l = Some c' ->
    (exists c, w_heap w !! l = Some c /\ set_slot 0 c' = set_slot 0 c /\
       traffic (view w') (c_fd c) = traffic (view w) (c_fd c)) \/
    (fresh_client c' /\ traffic (view w') (c_fd c') = ([], [])) \/
    (l = l0 /\ exists c, w_heap w !! l = Some c /\ event_on c (view w) (view w') c').

Lemma evolved_newcomers l0 w w' : newcomers w w' -> evolved l0 w w'.
Proof. intros Hn l c' _ Hc'. destruct (Hn l c' Hc') as [?|?]; [by left|by right; left]. Qed.

Lemma evolved_handled ls w i l c closed w' :
  ok ls w -> ls !! i = Some l -> w_heap w !! l = Some c ->
  handled lst base event_on ls w i l c closed w' -> evolved l w w'.
Proof.
  intros Hok Hi Hc (_ & Hk & Hq & Hcl) l' c' _ Hc'. destruct (decide (l' = l)) as [->|Hne].
  - right. right. destruct closed; [by rewrite (proj2 Hcl) in Hc'|].
    destruct Hcl as (_ & c1 & Hc1 & He). split; [done|]. exists c. split; [done|]. congruence.
  - left. assert (exists ls', ok ls' w' /\ forall x, x ∈ ls' -> x ∈ ls) as (ls' & Hok' & Hsub).
    { destruct closed; destruct Hcl as [? _]; eexists; (split; [done|]); [|done].
      intros x. by eapply swap_remove_elem. }
    destruct (others_from lst base l ls ls' w w' Hok Hok' Hsub Hk l' c' Hne Hc') as (c0 & Hc0 & E).
    exists c0. split_and!; [done|done|]. apply Hq. intros Efd. apply Hne.
    by eapply (ok_inj _ _ _ _ Hok).
Qed.

(** Pointers to connections other than [l] stay valid. *)
Definition event_post (w : world) (l : loc) (w' : world) : Prop :=
  (exists ls, ok ls w') /\ w_reactor w' = w_reactor w /\
  others_kept l (w_heap w) (w_heap w') /\ listener_kept w w' /\ evolved l w w'.

Lemma handle_event_spec ls w events l :
  ok ls w -> P (w_kern w) -> is_Some (w_heap w !! l) ->
  wx total (handle_event fuel (events, l)) (fun _ => event_post w l) w.
Proof.
  intros Hok HP [c Hc]. unfold handle_event. apply wx_bind, wp_wx, (wp_get_conn _ _ _ _ Hc).
  rewrite (ok_types _ _ _ _ Hok l c Hc). destruct (decide (l = lst)) as [->|Hne].
  - unfold reactor_handle_listener_event. apply wx_bind, wp_wx, (wp_get_conn _ _ _ _ Hc).
    eapply wx_mono; [by eapply Haccept|]. intros [] w' (Hls & Hr & Hk & Hn).
    split_and!; [done|done| |exact (Hk lst)|by apply evolved_newcomers]. intros l' c' _. apply Hk.
  - assert (Hin : l ∈ ls).
    { apply (elem_of_dom_2 (D := gset loc)) in Hc. rewrite (ok_dom _ _ _ _ Hok) in Hc.
      apply elem_of_union in Hc as [Hc%elem_of_singleton|Hc%elem_of_list_to_set]; done. }
    apply list_elem_of_lookup in Hin as [i Hi]. apply wp_wx.
    eapply wp_mono; [by eapply client_event_spec|]. intros [] w' [closed Hd].
    pose proof (evolved_handled _ _ _ _ _ _ _ Hok Hi Hc Hd) as Hev.
    destruct Hd as (Hr & Ho & _ & Hcl).
    split_and!; [|done|done| |done]; [destruct closed; destruct Hcl; by eexists|].
    intros c' Hc'. by apply (Ho lst c').
Qed.

(** ** A batch of events *)

Lemma wx_get_reactor (Q : vr_reactor_t -> world -> Prop) w :
  Q (w_reactor w) w -> wx total get_reactor Q w.
Proof. by destruct total. Qed.

(** No event from number [i] on refers to a connection that is gone. *)
Definition batch_valid (i : nat) (w : world) : Prop :=
  NoDup (re_events (w_reactor w)).*2 /\
  forall j ev, (i <= j)%nat -> re_events (w_reactor w) !! j = Some ev -> is_Some (w_heap w !! ev.2).

(** The connections with an event from number [i] on. *)
Definition pending (i : nat) (w : world) (l : loc) : Prop :=
  exists j ev, (i <= j)%nat /\ re_events (w_reactor w) !! j = Some ev /\ ev.2 = l.

Definition round_post (w w' : world) : Prop :=
  (exists ls, ok ls w') /\ re_epoll_fd (w_reactor w') = re_epoll_fd (w_reactor w) /\
  listener_kept w w'.

Lemma round_post_same ls w w' :
  ok ls w' -> re_epoll_fd (w_reactor w') = re_epoll_fd (w_reactor w) -> w_heap w' = w_heap w ->
  round_post w w'.
Proof. intros. split_and!; [by eexists|done|by apply listener_kept_refl]. Qed.

Lemma round_post_trans w1 w2 w3 : round_post w1 w2 -> round_post w2 w3 -> round_post w1 w3.
Proof.
  intros (_ & Hr1 & Hk1) (Hok & Hr2 & Hk2).
  split_and!; [done|congruence|by eapply listener_kept_trans].
Qed.

(** A client of [w'] through a batch of events, of which those of [X] are its
    own: it was there before or is new, and then had one event at most. *)
Definition origin (w : world) (l : loc) (c1 : vr_connection_t) (v1 : kview) : Prop :=
  (exists c, w_heap w !! l = Some c /\ set_slot 0 c1 = set_slot 0 c /\
     traffic v1 (c_fd c) = traffic (view w) (c_fd c)) \/
  (fresh_client c1 /\ traffic v1 (c_fd c1) = ([], [])).

Definition at_most_one (had : Prop) (c1 : vr_connection_t) (v1 : kview) (c' : vr_connection_t) (v' : kview) : Prop :=
  (set_slot 0 c' = set_slot 0 c1 /\ traffic v' (c_fd c1) = traffic v1 (c_fd c1)) \/
  (had /\ exists c2 v2, event_on c1 v1 v2 c2 /\ set_slot 0 c' = set_slot 0 c2 /\
     traffic v' (c_fd c1) = traffic v2 (c_fd c1)).

Definition passed (X : loc -> Prop) (w w' : world) : Prop :=
  forall l c', l <> lst -> w_heap w' !! l = Some c' ->
    exists c1 v1, origin w l c1 v1 /\ at_most_one (X l) c1 v1 c' (view w').

Lemma passed_same X w w' : w_heap w' = w_heap w -> view w' = view w -> passed X w w'.
Proof.
  intros Eh Ev l c' _ Hc'. exists c', (view w). rewrite Ev. split; [|by left].
  left. exists c'. by rewrite <-Eh.
Qed.

(** Only the objects and the traffic matter. *)
Lemma passed_ext X w1 w2 w1' w2' :
  w_heap w1 = w_heap w2 -> view w1 = view w2 -> w_heap w1' = w_heap w2' -> view w1' = view w2' ->
  passed X w1 w1' -> passed X w2 w2'.
Proof. unfold passed, origin. by intros -> -> -> ->. Qed.

Lemma passed_mono (X Y : loc -> Prop) w w' : (forall l, X l -> Y l) -> passed X w w' -> passed Y w w'.
Proof.
  intros HXY Hp l c' Hl Hc'. destruct (Hp l c' Hl Hc') as (c1 & v1 & Ho & [?|[? ?]]); exists c1, v1;
    (split; [done|]); [by left|right; auto].
Qed.

(** One event, and then those of others. *)
Lemma passed_event (X : loc -> Prop) l0 w w1 w' :
  evolved l0 w w1 -> passed X w1 w' -> ~ X l0 -> passed (fun l => l = l0 \/ X l) w w'.
Proof.
  intros Hev Hp Hx l c' Hl Hc'. destruct (Hp l c' Hl Hc') as (c1 & v1 & Ho & Hone).
  assert (Hone' : at_most_one (l = l0 \/ X l) c1 v1 c' (view w')) by (destruct Hone as [?|[? ?]]; [by left|by right; auto]).
  destruct Ho as [(cm & Hcm & Es & Et)|Hnew]; [|exists c1, v1; split; [by right|done]].
  destruct (set_slot_inv _ _ Es) as (Efd & _).
  destruct (Hev l cm Hl Hcm) as [(c & Hc & Es' & Et')|[[Hf Ht]|(-> & c & Hc & He)]].
  - exists c1, v1. split; [|done]. left. exists c. destruct (set_slot_inv _ _ Es') as (Efd' & _).
    split_and!; [done|congruence|]. rewrite <-Efd', Et. congruence.
  - exists c1, v1. split; [|done]. right. split; [by eapply fresh_client_slot|]. by rewrite Efd, Et.
  - destruct Hone as [[Es' Et']|[? _]]; [|done]. exists c, (view w). split; [left; by exists c|].
    right. split; [by left|]. exists cm, (view w1).
    assert (Ecm : c_fd cm = c_fd c) by (by eapply event_on_fd).
    split_and!; [done|congruence|]. rewrite <-Ecm, <-Efd, Et', Efd. done.
Qed.

Lemma batch_valid_step i w w' events l :
  batch_valid i w -> re_events (w_reactor w) !! i = Some (events, l) -> event_post w l w' ->
  batch_valid (S i) w'.
Proof.
  intros [Hnd Hval] Hev (_ & Hr & Ho & _). unfold batch_valid. rewrite Hr. split; [done|].
  intros j [ev l'] Hj Hev'. destruct (Hval j (ev, l')) as [c Hc]; [lia|done|].
  destruct (Ho l' c) as (c' & Hc' & _); [|done|by eexists].
  simpl. intros ->. assert (i = j); [|lia].
  apply (NoDup_lookup _ _ _ l Hnd); rewrite list_lookup_fmap; [by rewrite Hev|by rewrite Hev'].
Qed.

Lemma dispatch_spec n i ls w :
  ok ls w -> P (w_kern w) -> re_ready (w_reactor w) = zlen (re_events (w_reactor w)) -> batch_valid i w ->
  (length (re_events (w_reactor w)) <= i + n)%nat ->
  wx total (dispatch fuel n (Z.of_nat i))
    (fun _ w' => round_post w w' /\ passed (pending i w) w w') w.
Proof.
  revert i ls w. induction n as [|n IH]; intros i ls w Hok HP Hready Hval Hlen; cbn [dispatch];
    apply wx_bind, wx_get_reactor; rewrite Hready; unfold zlen;
    destruct (Z.ltb_spec (Z.of_nat i) (Z.of_nat (length (re_events (w_reactor w))))) as [Hi|Hi].
  1: lia. 1, 3: apply wx_ret; split; [by eapply round_post_same|by apply passed_same].
  destruct (lookup_lt_is_Some_2 (re_events (w_reactor w)) i) as [[events l] Hev]; [lia|].
  apply wx_bind, wp_wx. eapply wp_lift; [apply load_ok; [lia|by rewrite Nat2Z.id]|].
  apply wx_bind. eapply wx_mono; [apply (wx_pres P); [|apply Hpres|done]; apply (handle_event_spec ls); [done|done|]|].
  { apply (proj2 Hval i (events, l)); [lia|done]. }
  intros [] w' [Hpost HP']. pose proof (batch_valid_step _ _ _ _ _ Hval Hev Hpost) as Hval'.
  destruct Hpost as ([ls' Hok'] & Hr & _ & Hk & Hev').
  replace (Z.of_nat i + 1) with (Z.of_nat (S i)) by lia.
  eapply wx_mono; [apply (IH _ ls'); [done|done|by rewrite Hr|done|rewrite Hr; lia]|].
  intros [] w'' [Hpost Hpass]. split.
  { eapply round_post_trans; [|exact Hpost]. split_and!; [by eexists|by rewrite Hr|done]. }
  eapply passed_mono; [|apply (passed_event _ _ _ _ _ Hev' Hpass)].
  - intros l' [->|(j & ev & Hj & Hevj & E)]; [by exists i, (events, l)|]. rewrite Hr in Hevj.
    exists j, ev. split_and!; [lia|done|done].
  - intros (j & [ev l'] & Hj & Hevj & E). rewrite Hr in Hevj. simpl in E. subst l'.
    assert (i = j); [|lia]. destruct Hval as [Hnd _].
    apply (NoDup_lookup _ _ _ l Hnd); rewrite list_lookup_fmap; [by rewrite Hev|by rewrite Hevj].
Qed.

(** ** The rounds of the loop *)

Lemma ok_reactor ls w evs n :
  ok ls w -> ok ls (set_reactor (Reactor (re_epoll_fd (w_reactor w)) evs n) w).
Proof. intros []. by constructor. Qed.

(** What epoll_wait reports are registered pointers, each once. *)
Lemma reported_valid ls w evs k fds interest :
  ok ls w -> v_epoll (view w) !! re_epoll_fd (w_reactor w) = Some interest -> NoDup fds ->
  Forall2 (fun fd ev => interest !! fd = Some ev.2) fds evs -> forall n : Z,
  batch_valid 0 (set_reactor (Reactor (re_epoll_fd (w_reactor w)) evs n) (set_kern k w)).
Proof.
  intros Hok Hint Hnd Hall n. destruct (ok_epoll _ _ _ _ Hok) as (interest' & Hint' & Hreg).
  simplify_eq. split; simpl.
  - clear n. induction Hall as [|fd ev fds evs Hfd Hall IH]; [constructor|].
    apply NoDup_cons in Hnd as [Hnin Hnd]. apply NoDup_cons. split; [|by apply IH].
    intros (ev' & Eev & (j & Hj)%list_elem_of_lookup)%list_elem_of_fmap. apply Hnin.
    destruct (Forall2_lookup_r _ _ _ _ _ Hall Hj) as (fd' & Hj' & Hfd').
    destruct (Hreg _ _ Hfd) as (c & Hc & <-), (Hreg _ _ Hfd') as (c' & Hc' & <-).
    rewrite Eev in Hc. simplify_eq. by eapply list_elem_of_lookup_2.
  - intros j ev _ Hj. destruct (Forall2_lookup_r _ _ _ _ _ Hall Hj) as (fd & _ & Hfd).
    destruct (Hreg _ _ Hfd) as (c & Hc & _). by exists c.
Qed.

Lemma reactor_wait_spec ls w Q :
  ok ls w ->
  (forall w', same_prog w w' -> view w' = view w -> Q VR_ERROR w') ->
  (forall evs k, k = (k_epoll_wait (re_epoll_fd (w_reactor w)) VR_REACTOR_MAX_EVENTS (-1) (w_kern w)).2 ->
     k_view k = view w -> zlen evs <= VR_REACTOR_MAX_EVENTS ->
     batch_valid 0 (set_reactor (Reactor (re_epoll_fd (w_reactor w)) evs (zlen evs)) (set_kern k w)) ->
     Q VR_SUCCESS (set_reactor (Reactor (re_epoll_fd (w_reactor w)) evs (zlen evs)) (set_kern k w))) ->
  wp (vr_reactor_wait (-1)) Q w.
Proof.
  intros Hok Herr Hdone. apply wp_bind. change (wp get_reactor ?R w) with (R (w_reactor w) w).
  cbn beta. apply wp_bind, wp_syscall.
  destruct (law_epoll_wait (w_kern w) (re_epoll_fd (w_reactor w)) VR_REACTOR_MAX_EVENTS (-1))
    as [Hv Hlaw].
  destruct (k_epoll_wait _ _ _ _) as [[evs|e] k]; simpl in Hv, Hlaw.
  - destruct (Hlaw evs eq_refl) as (Hmax & fds & interest & Hint & Hnd & Hall).
    apply Hdone; [done|done|done|]. by eapply reported_valid.
  - apply wp_bind. change (wp get_errno ?R ?x) with (R (p_errno (w_proc x)) x). cbn beta.
    destruct (_ =? EINTR); [apply wp_ret, Herr; [auto with velora|done]|].
    apply wp_bind, perror_spec. intros w' Hsp Hv'. apply wp_ret, Herr; [|by rewrite Hv'].
    etransitivity; [|exact Hsp]. auto with velora.
Qed.

Lemma loop_round_spec ls w :
  ok ls w -> (forall ep n t, P (k_epoll_wait ep n t (w_kern w)).2) ->
  wx total (loop_round fuel) (fun _ w' => round_post w w' /\ passed (fun _ => True) w w') w.
Proof.
  intros Hok HP. apply wx_bind, wp_wx, (reactor_wait_spec ls); [done|..].
  - intros w' Hsp Hv. apply wx_ret. split; [|by apply passed_same; [apply (sp_heap _ _ Hsp)|]].
    apply (round_post_same ls); [|by rewrite (sp_reactor _ _ Hsp)|apply (sp_heap _ _ Hsp)].
    eapply ok_same; [done..|]. by rewrite Hv.
  - intros evs k Hkw Hk Hmax Hval. assert (HPk : P k) by (rewrite Hkw; apply HP). set (w1 := set_reactor _ _) in *.
    assert (Hok1 : ok ls w1).
    { apply (ok_reactor ls (set_kern k w)). eapply ok_same; [done|auto with velora|].
      unfold view at 2. simpl. by rewrite Hk. }
    apply wx_bind. eapply wx_mono; [apply (dispatch_spec _ 0 ls w1 Hok1); [done..|]|].
    { simpl. unfold zlen in Hmax. lia. }
    intros [] w2 [Hp2 Hpass]. apply wx_bind, wx_get_reactor, wx_bind.
    apply wp_wx. unfold wp, put_reactor. apply wx_ret. pose proof Hp2 as ([ls2 Hok2] & _).
    split.
    + apply (round_post_trans w w1), (round_post_trans w1 w2); [by apply (round_post_same ls)|done|].
      apply (round_post_same ls2); [by apply ok_reactor|done..].
    + eapply (passed_ext _ w1 w w2); [done|exact Hk|done|done|]. by eapply passed_mono; [|exact Hpass].
Qed.

End Rounds.

Lemma event_loop_spec fuel rounds ls w :
  ok ls w -> wlp (event_loop fuel rounds) (fun _ => round_post w) w.
Proof.
  revert ls w. induction rounds as [|rounds IH]; intros ls w Hok; [done|]. cbn [event_loop].
  apply wlp_bind. change (wlp running ?Q w) with (Q (negb (k_signalled (w_kern w))) w). cbn beta.
  destruct (negb _).
  2:{ by eapply wlp_ret, round_post_same. }
  apply wlp_bind. eapply wlp_mono; [apply (loop_round_spec false fuel (fun _ => True)) with (ls := ls); [|done..]|].
  { intros ls' w' fd Hok' _. by apply (accept_loop_spec _ ls'). }
  intros go w1 [Hp1 _]. pose proof Hp1 as ([ls1 Hok1] & _). destruct go; [|by apply wlp_ret].
  eapply wlp_mono; [by eapply IH|]. intros [] w2. by apply round_post_trans.
Qed.

(** The loop ends when what is still to come from outside is finite: [patience]
    counts the batches of events and the connections to accept, taking one uses
    it up and no other call brings more. *)
Section Patience.
Context (patience : kst -> nat).

Record patience_laws : Prop := {
  pa_wait k ep n t evs k' : k_epoll_wait ep n t k = (Done evs, k') -> (patience k' < patience k)%nat;
  pa_wait_none k ep n t e k' : k_epoll_wait ep n t k = (Fail e, k') -> (patience k' <= patience k)%nat;
  pa_accept k fd x k' : k_accept fd k = (Done x, k') -> (patience k' < patience k)%nat;
  pa_accept_none k fd e k' : k_accept fd k = (Fail e, k') -> (patience k' <= patience k)%nat;
  pa_socket k : (patience (k_socket k).2 <= patience k)%nat;
  pa_reuseaddr k fd : (patience (k_reuseaddr fd k).2 <= patience k)%nat;
  pa_bind k fd a : (patience (k_bind fd a k).2 <= patience k)%nat;
  pa_listen k fd : (patience (k_listen fd k).2 <= patience k)%nat;
  pa_recv k fd n : (patience (k_recv fd n k).2 <= patience k)%nat;
  pa_send k fd bs fl : (patience (k_send fd bs fl k).2 <= patience k)%nat;
  pa_getfl k fd : (patience (k_getfl fd k).2 <= patience k)%nat;
  pa_setfl k fd fl : (patience (k_setfl fd fl k).2 <= patience k)%nat;
  pa_close k fd : (patience (k_close fd k).2 <= patience k)%nat;
  pa_create k : (patience (k_epoll_create1 k).2 <= patience k)%nat;
  pa_ctl k ep op fd : (patience (k_epoll_ctl ep op fd k).2 <= patience k)%nat
}.
Hypothesis Hlaws : patience_laws.

Lemma wait_decreases t w w' :
  vr_reactor_wait t w = Ok (VR_SUCCESS, w') -> (patience (w_kern w') < patience (w_kern w))%nat.
Proof.
  unfold vr_reactor_wait, mbind, io_bind, get_reactor, syscall.
  destruct (k_epoll_wait _ _ _ _) as [[evs|e] k] eqn:E.
  - intros [= <-]. by eapply pa_wait.
  - unfold get_errno. by destruct (_ =? EINTR).
Qed.

Lemma accept_patience k fd : (patience (k_accept fd k).2 <= patience k)%nat.
Proof.
  destruct (k_accept fd k) as [[x|e] k'] eqn:E; [apply Nat.lt_le_incl; by eapply pa_accept|by eapply pa_accept_none].
Qed.

Lemma wait_patience k ep n t : (patience (k_epoll_wait ep n t k).2 <= patience k)%nat.
Proof.
  destruct (k_epoll_wait ep n t k) as [[x|e] k'] eqn:E; [apply Nat.lt_le_incl; by eapply pa_wait|by eapply pa_wait_none].
Qed.

Lemma patience_backlog : backlog_laws patience.
Proof. destruct Hlaws. by split. Qed.

(** The calls do not raise [patience], so functions do not either. *)
Ltac patient := intros; apply call_ok_measure; intros; first [apply accept_patience | by apply Hlaws].

Lemma dispatch_patience fuel n i w x w' :
  dispatch fuel n i w = Ok (x, w') -> (patience (w_kern w') <= patience (w_kern w))%nat.
Proof.
  intros E. apply (pres_dispatch (fun k => (patience k <= patience (w_kern w))%nat)) in E;
    [exact (E (Nat.le_refl _))|..]; patient.
Qed.

Lemma bootstrap_patience port w x w' :
  reactor_bootstrap_listener port w = Ok (x, w') -> (patience (w_kern w') <= patience (w_kern w))%nat.
Proof.
  intros E. apply (pres_bootstrap (fun k => (patience k <= patience (w_kern w))%nat)) in E;
    [exact (E (Nat.le_refl _))|..]; patient.
Qed.

(** A round that does not end the loop uses a batch of events up. *)
Lemma round_decreases fuel w w' :
  loop_round fuel w = Ok (true, w') -> (patience (w_kern w') < patience (w_kern w))%nat.
Proof.
  unfold loop_round. unfold mbind, io_bind at 1.
  destruct (vr_reactor_wait (-1) w) as [[[] w1]| |] eqn:E; try done. apply wait_decreases in E.
  unfold io_bind. destruct (dispatch _ _ _ w1) as [[[] w2]| |] eqn:Ed; [|done..].
  apply dispatch_patience in Ed. intros [= <-]. simpl. lia.
Qed.

Lemma event_loop_total fuel rounds ls w :
  ok ls w -> (patience (w_kern w) < rounds)%nat -> (patience (w_kern w) < fuel)%nat ->
  wp (event_loop fuel rounds) (fun _ => round_post w) w.
Proof.
  revert ls w. induction rounds as [|rounds IH]; intros ls w Hok Hr Hf; [lia|]. cbn [event_loop].
  apply wp_bind. change (wp running ?Q w) with (Q (negb (k_signalled (w_kern w))) w). cbn beta.
  destruct (negb _).
  2:{ by eapply wp_ret, round_post_same. }
  assert (Hround : wp (loop_round fuel) (fun _ => round_post w) w).
  { apply wx_mono with (total := true) (Q := fun _ w' => round_post w w' /\ passed (fun _ => True) w w');
      [|by intros ? ? [? _]].
    apply (loop_round_spec true fuel (fun k => (patience k <= patience (w_kern w))%nat)) with (ls := ls); [..|done|].
    - intros ls' w' fd Hok' Hp. apply (accept_loop_total patience patience_backlog _ ls'); [done|lia].
    - intros ev. apply pres_handle_event; patient.
    - intros ep n t. apply wait_patience. }
  apply wp_bind. unfold wp in Hround. unfold wp at 1.
  destruct (loop_round fuel w) as [[[] w1]| |] eqn:E; [|by apply wp_ret|done..].
  apply round_decreases in E. pose proof Hround as ([ls1 Hok1] & _).
  eapply wp_mono; [apply (IH ls1 w1 Hok1); lia|]. intros [] w2. by apply round_post_trans.
Qed.
End Patience.

(** ** Shutdown *)

(** What is left of the invariant once descriptors no longer matter. *)
Record objects_ok (ls : list loc) (w : world) : Prop := {
  ob_mgr : manager_wf (w_mgr w) ls (w_heap w);
  ob_dom : dom (w_heap w) = {[lst]} ∪ list_to_set ls;
  ob_lst : lst ∉ ls;
  ob_live : p_live (w_proc w) = base + heap_blocks (w_heap w)
}.

Lemma ok_objects ls w : ok ls w -> objects_ok ls w.
Proof. intros []. by constructor. Qed.

Lemma destroy_first_spec l ls w c Q :
  objects_ok (l :: ls) w -> w_heap w !! l = Some c ->
  (forall ls' w', objects_ok ls' w' -> length ls' = length ls -> w_kern w' = w_kern w ->
     w_reactor w' = w_reactor w -> w_heap w' !! lst = w_heap w !! lst -> Q VR_SUCCESS w') ->
  wp (with_mgr (fun m h p => vr_connection_destroy m (Some l) h p)) Q w.
Proof.
  intros [Hm Hd Hn Hl] Hc HQ.
  destruct (destroy_spec (w_mgr w) (l :: ls) (w_heap w) 0 l c (w_proc w) Hm eq_refl Hc)
    as (m' & h' & p' & E & Hm' & Hd' & _ & Hkept & Hb' & Hp'); [by eapply manager_bound|].
  pose proof (swap_remove_Permutation 0 (l :: ls) l eq_refl) as Hperm.
  eapply wp_with_mgr; [exact E|]. apply (HQ (swap_remove 0 (l :: ls))); simpl; try done.
  - constructor; simpl; [done| | |lia].
    + rewrite Hd', Hd, (swap_remove_set 0 (l :: ls) l (manager_NoDup _ _ _ Hm) eq_refl).
      apply set_eq. intros x. rewrite elem_of_difference, !elem_of_union, elem_of_difference.
      rewrite !elem_of_singleton. split; [tauto|]. intros [->|?]; [|tauto].
      split; [by left|]. intros ->. apply Hn. by left.
    + intros Hin. apply Hn. rewrite <-Hperm. by right.
  - apply Permutation_length in Hperm. simpl in Hperm. lia.
  - by apply Hkept.
Qed.

(** Every client object goes; the kernel is not told. *)
Lemma destroy_all_spec fuel ls w :
  objects_ok ls w -> (length ls < fuel)%nat ->
  wp (destroy_all fuel) (fun _ w' =>
    w_kern w' = w_kern w /\ w_reactor w' = w_reactor w /\ objects_ok [] w' /\
    w_heap w' !! lst = w_heap w !! lst) w.
Proof.
  revert ls w. induction fuel as [|fuel IH]; intros ls w Hob Hf; [lia|].
  pose proof (ob_mgr _ _ Hob) as Hm. cbn [destroy_all]. apply wp_bind.
  change (wp get_mgr ?Q w) with (Q (w_mgr w) w). cbn beta.
  rewrite (mw_count _ _ _ Hm). unfold zlen. destruct ls as [|l ls]; [by apply wp_ret|].
  destruct (Z.ltb_spec 0 (Z.of_nat (length (l :: ls)))) as [_|Hz]; [|simpl in Hz; lia].
  destruct (mw_slots _ _ _ Hm) as (slots & Hs & _ & Htake); [done|].
  destruct (mw_objs _ _ _ Hm 0%nat l eq_refl) as (c & Hc & _).
  apply wp_bind. eapply wp_lift; [by rewrite Hs|]. apply wp_bind.
  eapply wp_lift; [apply load_ok; [done|]|].
  { destruct slots as [|x slots]; [done|]. simpl in Htake. simplify_eq. done. }
  apply wp_bind, (destroy_first_spec l ls w c); [done..|].
  intros ls' w' Hob' Hlen Hk Hr Hlst. simpl in Hf.
  eapply wp_mono; [apply (IH ls' w' Hob'); lia|]. intros [] w'' (? & ? & ? & ?).
  split_and!; [congruence|congruence|done|congruence].
Qed.

(** The listener as start-up leaves it: no buffers. *)
Definition listener_at (fd : Z) (w : world) : Prop :=
  exists c, w_heap w !! lst = Some c /\ c_fd c = fd /\ conn_blocks c = 1.

Lemma listener_at_kept fd w w' : listener_at fd w -> listener_kept w w' -> listener_at fd w'.
Proof.
  intros (c & Hc & Hfd & Hb) Hk. destruct (Hk c Hc) as (c' & Hc' & E). exists c'.
  split; [done|]. destruct c, c'. unfold set_slot, conn_blocks, c_fd in *. simpl in *.
  injection E as -> -> -> -> -> -> ->. done.
Qed.

Lemma reactor_destroy_spec w Q :
  (forall r w', view w' = v_closed (re_epoll_fd (w_reactor w)) (view w) ->
     w_heap w' = w_heap w -> w_mgr w' = w_mgr w -> p_live (w_proc w') = p_live (w_proc w) -> Q r w') ->
  wp vr_reactor_destroy Q w.
Proof.
  intros HQ. apply wp_bind. change (wp get_reactor ?R w) with (R (w_reactor w) w). cbn beta.
  apply wp_bind, wp_syscall. pose proof (law_close (w_kern w) (re_epoll_fd (w_reactor w))) as Hlaw.
  destruct (k_close _ _) as [[x|e] k]; apply wp_bind; [by apply HQ|].
  apply perror_spec. intros w' Hsp Hv. apply wp_ret, HQ; [by rewrite Hv| |..];
    [by rewrite (sp_heap _ _ Hsp)|by rewrite (sp_mgr _ _ Hsp)|by rewrite (sp_live _ _ Hsp)].
Qed.

Lemma conn_ctl_open op l c w Q :
  w_heap w !! l = Some c ->
  (forall r w', same_prog w w' -> v_open (view w') = v_open (view w) -> Q r w') ->
  wp (conn_ctl op l) Q w.
Proof.
  intros Hc HQ. apply wp_bind. change (wp get_reactor ?R w) with (R (w_reactor w) w). cbn beta.
  apply wp_bind, (wp_get_conn _ _ _ _ Hc), wp_bind, wp_syscall.
  pose proof (law_epoll_ctl (w_kern w) (re_epoll_fd (w_reactor w)) op (c_fd c)) as Hlaw.
  destruct (k_epoll_ctl _ op _ _) as [[x|e] k].
  - apply wp_ret, HQ; [auto with velora|]. unfold view. simpl. by rewrite Hlaw.
  - apply wp_bind, perror_spec. intros w' Hsp Hv. apply wp_ret, HQ.
    + etransitivity; [|exact Hsp]. auto with velora.
    + rewrite Hv. unfold view. simpl. by rewrite Hlaw.
Qed.

Lemma wp_free_listener l c w (Q : unit -> world -> Prop) :
  w_heap w !! l = Some c ->
  Q tt (set_heap (delete l (w_heap w)) (set_proc (free (Some tt) (w_proc w)) w)) ->
  wp (free_listener l) Q w.
Proof. intros Hc HQ. unfold wp, free_listener. by rewrite Hc. Qed.

(** Shutdown frees every object and closes two descriptors: the listening
    socket and the epoll instance. *)
Definition shutdown_post (fd : Z) (w w' : world) : Prop :=
  w_heap w' = ∅ /\ mg_count (w_mgr w') = 0 /\ p_live (w_proc w') = base /\
  v_open (view w') = v_open (view w) ∖ {[fd]} ∖ {[re_epoll_fd (w_reactor w)]}.

Lemma shutdown_spec ls w fd :
  ok ls w -> listener_at fd w -> wp (reactor_shutdown lst fd) (fun _ => shutdown_post fd w) w.
Proof.
  intros Hok (c & Hc & Hfd & Hb). apply wp_bind.
  change (wp get_mgr ?Q w) with (Q (w_mgr w) w). cbn beta.
  rewrite (mw_count _ _ _ (ok_mgr _ _ _ _ Hok)). apply wp_bind.
  eapply wp_mono; [apply (destroy_all_spec _ ls); [by apply ok_objects|unfold zlen; lia]|].
  intros [] w1 (Hk1 & Hr1 & [Hm1 Hd1 _ Hl1] & Hc1). rewrite Hc in Hc1.
  apply wp_bind, (conn_ctl_open _ _ c); [done|]. intros r w2 Hsp2 Ho2.
  apply wp_bind, close_spec. intros w3 Hsp3 Hv3.
  assert (Hsp : same_prog w1 w3) by (by transitivity w2).
  apply wp_bind, (wp_free_listener _ c); [by rewrite (sp_heap _ _ Hsp)|].
  apply wp_bind, reactor_destroy_spec. simpl. intros r' w4 Hv4 Hh4 Hm4 Hl4. apply wp_ret.
  assert (Eh : w_heap w1 = {[lst := c]}).
  { apply map_eq. intros l. destruct (decide (l = lst)) as [->|Hne].
    - by rewrite lookup_singleton_eq.
    - rewrite lookup_singleton_ne by done. apply not_elem_of_dom. rewrite Hd1.
      rewrite list_to_set_nil, (right_id_L ∅ (∪)). by rewrite elem_of_singleton. }
  split_and!.
  - by rewrite Hh4, (sp_heap _ _ Hsp), Eh, delete_singleton_eq.
  - by rewrite Hm4, (sp_mgr _ _ Hsp), (mw_count _ _ _ Hm1).
  - rewrite Hl4, (sp_live _ _ Hsp), Hl1, Eh. rewrite <-insert_empty, heap_blocks_insert by done.
    rewrite Hb, heap_blocks_empty. lia.
  - assert (E : view w4 = v_closed (re_epoll_fd (w_reactor w3)) (view w3)) by exact Hv4.
    rewrite E, Hv3, (sp_reactor _ _ Hsp), Hr1. cbn [v_open v_closed].
    rewrite Ho2. unfold view. by rewrite Hk1.
Qed.

(** ** Start-up *)

(** Failure leaves the objects and the blocks as they were. *)
Definition start_failed (w w' : world) : Prop :=
  w_heap w' = w_heap w /\ w_mgr w' = w_mgr w /\ p_live (w_proc w') = p_live (w_proc w).

Lemma start_failed_same w w1 w2 : same_prog w w1 -> start_failed w1 w2 -> start_failed w w2.
Proof.
  intros Hsp (Hh & Hm & Hl).
  split_and!; [rewrite Hh; apply Hsp|rewrite Hm; apply Hsp|rewrite Hl; apply Hsp].
Qed.

Lemma bootstrap_failed_spec w :
  wp bootstrap_failed (fun x w' => x = (VR_ERROR, None, -1) /\ start_failed w w') w.
Proof. apply wp_bind, reactor_destroy_spec. intros r w' _ Hh Hm Hl. by apply wp_ret. Qed.
End EventLoop.

Section Bootstrap.
Context `{Libc} `{Abi} `{KernelLaws}.

(** The state before start-up: no connections, an empty manager. *)
Definition idle (w : world) : Prop := w_heap w = ∅ /\ manager_wf (w_mgr w) [] ∅.

Definition started (w : world) (x : vr_result_t * option loc * Z) (w' : world) : Prop :=
  (exists l fd, x = (VR_SUCCESS, Some l, fd) /\
     world_ok l (p_live (w_proc w)) [] w' /\ listener_at l fd w') \/
  (x = (VR_ERROR, None, -1) /\ start_failed w w').

Lemma listener_ok w l fd p :
  idle w -> fd ∈ v_open (view w) -> re_epoll_fd (w_reactor w) ∈ v_open (view w) ->
  fd <> re_epoll_fd (w_reactor w) ->
  v_epoll (view w) !! re_epoll_fd (w_reactor w) = Some ∅ ->
  p_live p = p_live (w_proc w) + 1 ->
  world_ok l (p_live (w_proc w)) [] (set_heap {[l := listener_object fd]} (set_proc p w)).
Proof.
  intros [Hh Hm] Hfd Hep Hne Hint Hp. destruct (listener_object_ok fd) as [Hcok Hcb].
  assert (Hcase : forall l1 c1, ({[l := listener_object fd]} : heap) !! l1 = Some c1 ->
    l1 = l /\ c1 = listener_object fd) by (intros ? ? [-> ->]%lookup_singleton_Some; done).
  constructor; simpl; try change (view (World _ _ _ _ _)) with (view w).
  - destruct Hm as [Hs Hc Hcap _]. by constructor.
  - rewrite dom_singleton_L, (right_id_L ∅ (∪)). done.
  - by apply not_elem_of_nil.
  - by intros l1 c1 [-> ->]%Hcase.
  - intros l1 c1 [-> ->]%Hcase. by rewrite decide_True.
  - by intros l1 c1 [-> ->]%Hcase.
  - by intros l1 l2 c1 c2 [-> ->]%Hcase [-> ->]%Hcase.
  - done.
  - exists ∅. split; [done|]. intros fd' l'. by rewrite lookup_empty.
  - rewrite <-insert_empty, heap_blocks_insert, heap_blocks_empty by done. lia.
Qed.

Lemma register_listener_spec w fd :
  idle w -> fd ∈ v_open (view w) -> re_epoll_fd (w_reactor w) ∈ v_open (view w) ->
  fd <> re_epoll_fd (w_reactor w) ->
  v_epoll (view w) !! re_epoll_fd (w_reactor w) = Some ∅ ->
  wp (register_listener fd) (started w) w.
Proof.
  intros Hidle Hfd Hep Hne Hint. pose proof (proj1 Hidle) as Hh. apply wp_bind.
  unfold wp at 1, alloc_listener. pose proof (alloc_obj_spec sizeof_vr_connection_t (w_proc w)) as Ha.
  destruct (alloc_obj _ _) as [[] p].
  2:{ apply wp_bind, perror_spec. intros w1 Hsp1 _. apply wp_bind, close_spec. intros w2 Hsp2 _.
      eapply wp_mono; [apply bootstrap_failed_spec|]. intros x w3 [-> Hf]. right. split; [done|].
      assert (Hsp : same_prog (set_proc p w) w2) by (by transitivity w1).
      apply (start_failed_same _ _ _ Hsp) in Hf as (Hh3 & Hm3 & Hl3). simpl in *.
      split_and!; [done|done|congruence]. }
  rewrite Hh, insert_empty. set (l := alloc_addr _ _). fold (listener_object fd).
  set (w1 := set_heap _ _).
  assert (Hok1 : world_ok l (p_live (w_proc w)) [] w1) by (by apply listener_ok).
  assert (Hc1 : w_heap w1 !! l = Some (listener_object fd)) by apply lookup_singleton_eq.
  apply wp_bind. unfold vr_reactor_add. eapply (conn_ctl_spec l (p_live (w_proc w)) []); [done..|].
  intros r w2 Hsp2 Hok2 _ _ Hr. destruct Hr as [[-> _]|[-> _]].
  { apply wp_ret. left. exists l, fd. split_and!; [done|done|]. exists (listener_object fd).
    rewrite (sp_heap _ _ Hsp2). split; [done|]. split; [done|]. apply listener_object_ok. }
  apply wp_bind, close_spec. intros w3 Hsp3 _.
  assert (Hsp : same_prog w1 w3) by (by transitivity w2).
  apply wp_bind, (wp_free_listener l (listener_object fd)); [by rewrite (sp_heap _ _ Hsp)|].
  eapply wp_mono; [apply bootstrap_failed_spec|]. intros x w4 [-> (Hh4 & Hm4 & Hl4)].
  right. split; [done|]. simpl in *. split_and!.
  - rewrite Hh4, Hh, (sp_heap _ _ Hsp). apply delete_singleton_eq.
  - by rewrite Hm4, (sp_mgr _ _ Hsp).
  - rewrite Hl4, (sp_live _ _ Hsp). simpl. lia.
Qed.

Lemma idle_same w w' : idle w -> w_heap w' = w_heap w -> w_mgr w' = w_mgr w -> idle w'.
Proof. intros [Hh Hm] Eh Em. split; [by rewrite Eh|by rewrite Em]. Qed.

(** A failure on the way, after steps that did not touch the objects. *)
Lemma bootstrap_failed_started w w1 :
  same_prog w w1 -> wp bootstrap_failed (started w) w1.
Proof.
  intros Hsp. eapply wp_mono; [apply bootstrap_failed_spec|]. intros x w2 [-> Hf]. right.
  split; [done|]. by eapply start_failed_same.
Qed.

Lemma server_bootstrap_spec port w :
  idle w -> re_epoll_fd (w_reactor w) ∈ v_open (view w) ->
  v_epoll (view w) !! re_epoll_fd (w_reactor w) = Some ∅ ->
  wp ('(res, listen_fd) ← vr_tcp_server_create (u16 port);
      match res with
      | VR_SUCCESS =>
          res ← vr_socket_set_non_blocking listen_fd;
          match res with
          | VR_SUCCESS => register_listener listen_fd
          | _ => close listen_fd;; bootstrap_failed
          end
      | _ => bootstrap_failed
      end) (started w) w.
Proof.
  intros Hidle Hep Hint. apply wp_bind. eapply wp_mono; [apply server_create_spec|].
  intros [r fd] w1 [Hsp1 Hcase].
  destruct Hcase as [(-> & Hfd & Hv1)|[(-> & _)|(-> & _)]]; [|by apply bootstrap_failed_started..].
  apply wp_bind, set_non_blocking_spec. intros r w2 Hr Hsp2 Hv2.
  assert (Hsp : same_prog w w2) by (by transitivity w1).
  destruct Hr as [-> | ->].
  2:{ apply wp_bind, close_spec. intros w3 Hsp3 _. apply bootstrap_failed_started. by transitivity w2. }
  eapply wp_mono; [apply register_listener_spec|].
  - eapply idle_same; [done|apply Hsp..].
  - rewrite Hv2, Hv1. apply elem_of_union. left. by apply elem_of_singleton.
  - rewrite (sp_reactor _ _ Hsp), Hv2, Hv1. apply elem_of_union. by right.
  - rewrite (sp_reactor _ _ Hsp). by intros ->.
  - by rewrite (sp_reactor _ _ Hsp), Hv2, Hv1.
  - intros x w3 Hst. unfold started in *. rewrite <-(sp_live _ _ Hsp).
    destruct Hst as [?|[-> Hf]]; [by left|]. right. split; [done|]. by eapply start_failed_same.
Qed.

Lemma bootstrap_listener_spec port w :
  idle w -> wp (reactor_bootstrap_listener port) (started w) w.
Proof.
  intros Hidle. apply wp_bind, wp_bind, wp_syscall.
  pose proof (law_epoll_create1 (w_kern w)) as Hep.
  destruct (k_epoll_create1 (w_kern w)) as [[ep|e] k].
  2:{ apply wp_bind. change (wp get_errno ?R ?x) with (R (p_errno (w_proc x)) x). cbn beta.
      destruct (_ =? EINTR); [by apply wp_ret, wp_ret; right|].
      apply wp_bind, perror_spec. intros w' Hsp _. apply wp_ret, wp_ret. right. split; [done|].
      by apply (start_failed_same _ _ _ Hsp). }
  destruct Hep as [Hfresh Hv].
  set (w0 := set_reactor (Reactor ep (re_events (w_reactor w)) (re_ready (w_reactor w)))
    (set_kern k w)).
  change (wp ?m (started w) w0) with (wp m (started w0) w0).
  apply (server_bootstrap_spec port w0).
  - by apply (idle_same w).
  - unfold view. simpl. rewrite Hv. apply elem_of_union. left. by apply elem_of_singleton.
  - unfold view. simpl. rewrite Hv. simpl. apply lookup_insert_eq.
Qed.

(** ** The whole loop *)

Hypothesis Hresp : allocates sizeof_vr_packet_t.

Lemma reactor_loop_spec fuel rounds port w :
  idle w -> wlp (vr_reactor_loop fuel rounds port) (fun r w' =>
    w_heap w' = ∅ /\ mg_count (w_mgr w') = 0 /\ p_live (w_proc w') = p_live (w_proc w)) w.
Proof.
  intros Hidle. apply wlp_bind, wp_wlp. eapply wp_mono; [by apply bootstrap_listener_spec|].
  intros x w1 [(l & fd & -> & Hok & Hlst)|[-> (Hh & Hm & Hl)]].
  2:{ apply wlp_ret. rewrite Hh, Hm, Hl. destruct Hidle as [-> Hmw].
      by rewrite (mw_count _ _ _ Hmw). }
  apply wlp_bind, wp_wlp. eapply wp_lift; [done|]. apply wlp_bind.
  eapply wlp_mono; [by eapply event_loop_spec|]. intros [] w2 ([ls Hok2] & _ & Hk).
  apply wlp_bind, wp_wlp. eapply wp_mono.
  { eapply shutdown_spec; [done|]. by eapply listener_at_kept. }
  intros [] w3 (? & ? & ? & _). by apply wlp_ret.
Qed.
End Bootstrap.

(** ** Properties *)

Section Properties.
Context `{Libc} `{Abi} `{KernelLaws}.

(** C1. The server is memory safe and leaves nothing behind.  From a process
    with no connections, whatever the network delivers, whichever calls fail and
    whichever allocations other than that of a response fail, running the
    reactor never does anything undefined: no freed connection is touched, no
    ring or array is indexed out of range.  If it returns, no connection object
    is left, the manager is empty and as many blocks are allocated as before. *)
Theorem reactor_loop_safe (accept_fuel rounds : nat) (port : Z) (w : world)
  (Ha : allocates sizeof_vr_packet_t) (Hidle : idle w) :
  match vr_reactor_loop accept_fuel rounds port w with
  | Ok (_, w') =>
      w_heap w' = ∅ /\ mg_count (w_mgr w') = 0 /\ p_live (w_proc w') = p_live (w_proc w)
  | Undef => False
  | NoFuel => True
  end.
Proof. exact (reactor_loop_spec Ha accept_fuel rounds port w Hidle). Qed.

(** C8. The invariant of the event loop.  One round (waiting, then handling
    every event of the batch) keeps the tie between the manager, the objects,
    their descriptors and what epoll watches.  In particular an event that was
    reported before an earlier event of the batch closed a connection still
    refers to an existing object. *)
Theorem round_keeps_invariant (lst : loc) (base : Z) (accept_fuel : nat) (ls : list loc) (w : world)
  (Ha : allocates sizeof_vr_packet_t) (Hok : world_ok lst base ls w) :
  match loop_round accept_fuel w with
  | Ok (_, w') => exists ls', world_ok lst base ls' w'
  | Undef => False
  | NoFuel => True
  end.
Proof.
  assert (Hs : wlp (loop_round accept_fuel)
    (fun _ w' => round_post lst base w w' /\ passed lst (fun _ => True) w w') w).
  { apply (loop_round_spec lst base Ha false accept_fuel (fun _ => True)) with (ls := ls); [|done..].
    intros ls' w' fd Hok' _. by apply (accept_loop_spec _ _ _ ls'). }
  unfold wlp in Hs.
  destruct (loop_round accept_fuel w) as [[go w']| |]; [|done..]. by destruct Hs as [[? _] _].
Qed.

(** C22. A client's event is handled to the end, as long as response objects can be
    allocated, whatever other calls and allocations fail: the call returns, and
    the connection is either still there or gone together with its entry in the
    manager; every other connection keeps its buffers, parser and session. *)
Theorem client_event_handled (lst : loc) (base : Z) (ls : list loc) (w : world) (i : nat) (l : loc)
  (c : vr_connection_t) (events : Z)
  (Ha : allocates sizeof_vr_packet_t) (Hok : world_ok lst base ls w)
  (Hi : ls !! i = Some l) (Hc : w_heap w !! l = Some c) :
  exists closed w', reactor_handle_client_event l events w = Ok (tt, w') /\
    world_ok lst base (if closed : bool then swap_remove i ls else ls) w' /\
    (closed = true <-> w_heap w' !! l = None) /\
    forall l' c', l' <> l -> w_heap w !! l' = Some c' ->
      exists c'', w_heap w' !! l' = Some c'' /\ set_slot 0 c'' = set_slot 0 c'.
Proof.
  pose proof (client_event_spec lst base Ha ls w i l c events Hok Hi Hc) as Hs. unfold wp in Hs.
  destruct (reactor_handle_client_event l events w) as [[[] w']| |]; [|done..].
  destruct Hs as (closed & _ & Hoth & _ & Hcl). exists closed, w'. split; [done|].
  destruct closed; destruct Hcl as [Hok' Hl]; split_and!; try done.
  split; [done|]. destruct Hl as (c' & -> & _). done.
Qed.

(** The accept loop ends.  When finitely many connections wait, the handler
    of the listening socket returns after at most one more turn than there are
    connections; every existing connection is untouched. *)
Lemma accept_loop_ends (lst : loc) (base : Z) (ls : list loc) (w : world) (fd : Z)
  (backlog : kst -> nat) (Hbl : backlog_laws backlog) (Hok : world_ok lst base ls w) :
  exists w', accept_loop (S (backlog (w_kern w))) fd w = Ok (tt, w') /\
    (exists ls', world_ok lst base ls' w') /\ all_kept (w_heap w) (w_heap w').
Proof.
  pose proof (accept_loop_total lst base backlog Hbl (S (backlog (w_kern w))) ls w fd Hok) as Hs.
  unfold wp in Hs. destruct (accept_loop _ fd w) as [[[] w']| |]; [|by exfalso; apply Hs; lia..].
  destruct Hs as (Hok' & _ & Hk & _); [lia|]. by exists w'.
Qed.

(** C26. Shutdown ends, frees every connection with its buffers and the
    listener, and closes the listening socket and the epoll instance. *)
Theorem shutdown_releases (lst : loc) (base : Z) (ls : list loc) (w : world) (fd : Z)
  (Hok : world_ok lst base ls w) (Hlst : listener_at lst fd w) :
  exists w', reactor_shutdown lst fd w = Ok (tt, w') /\
    w_heap w' = ∅ /\ mg_count (w_mgr w') = 0 /\ p_live (w_proc w') = base /\
    (fd ∉ v_open (view w')) /\ re_epoll_fd (w_reactor w) ∉ v_open (view w').
Proof.
  pose proof (shutdown_spec lst base ls w fd Hok Hlst) as Hs. unfold wp in Hs.
  destruct (reactor_shutdown lst fd w) as [[[] w']| |]; [|done..].
  destruct Hs as (Hh & Hm & Hl & Ho). exists w'. split_and!; try done; rewrite Ho.
  - rewrite !elem_of_difference, !elem_of_singleton. by intros [[_ []] _].
  - rewrite elem_of_difference, elem_of_singleton. by intros [_ []].
Qed.

(** C40. Shutdown does not close the clients' descriptors: the object of every
    client is freed, and with it the only record of a descriptor that stays open. *)
Theorem shutdown_leaves_clients_open (lst : loc) (base : Z) (ls : list loc) (w : world) (fd : Z)
  (l : loc) (c : vr_connection_t)
  (Hok : world_ok lst base ls w) (Hlst : listener_at lst fd w)
  (Hl : l ∈ ls) (Hc : w_heap w !! l = Some c) :
  exists w', reactor_shutdown lst fd w = Ok (tt, w') /\
    w_heap w' !! l = None /\ c_fd c ∈ v_open (view w').
Proof.
  pose proof (shutdown_spec lst base ls w fd Hok Hlst) as Hs. unfold wp in Hs.
  destruct (reactor_shutdown lst fd w) as [[[] w']| |]; [|done..].
  destruct Hs as (Hh & _ & _ & Ho). exists w'. split_and!; [done|by rewrite Hh|].
  destruct (ok_open _ _ _ _ Hok l c Hc) as [Hopen Hne]. destruct Hlst as (cl & Hcl & Hfd & _).
  rewrite Ho, !elem_of_difference, !elem_of_singleton. split_and!; [done| |done].
  intros E. apply (ok_lst _ _ _ _ Hok). rewrite <-Hfd in E.
  by rewrite <-(ok_inj _ _ _ _ Hok l lst c cl Hc Hcl E).
Qed.
End Properties.

(** ** Witnesses *)

Section Witness.
#[local] Existing Instance sim_kernel.
#[local] Existing Instance sim_laws.
#[local] Instance libc_170 : Libc := libc_fill 170.
#[local] Existing Instance gcc_abi.

Lemma response_allocates : allocates sizeof_vr_packet_t.
Proof. apply libc_fill_allocates. Qed.

(** A bare packet in the layout the parser reads. *)
Definition bare_frame (type : vr_packet_type_t) : list Z :=
  header_bytes (Header VR_MAGIC VR_PROTOCOL_VERSION (pkt_int type) 0 0 0) ++ [0; 0; 0; 0].

(** A client connects, sends CONNECT, STREAM_OPEN and PING, and can be written
    to; then the process is asked to stop. *)
Definition visit : sim :=
  sim_start 3 [SockaddrIn AF_INET 1 1]
    {[5 := bare_frame VR_PKT_CONNECT ++ bare_frame VR_PKT_STREAM_OPEN ++ bare_frame VR_PKT_PING]}
    ∅ {[5 := 1000]} [{[4 := EPOLLIN]}; {[5 := EPOLLIN]}; {[5 := EPOLLOUT]}; ∅].

Definition visit_world : world :=
  World (visit : kst) (Proc 1 1 0) ∅ (Manager (Some [None; None]) 0 2) (Reactor (-1) [] 0).

Lemma visit_idle : idle visit_world.
Proof. split; [done|]. constructor; [done|done|simpl; lia|done]. Qed.

(** What of the result is small enough to compare. *)
Definition outcome_of (o : outcome (vr_result_t * world)) : option (vr_result_t * Z) :=
  match o with Ok (r, w) => Some (r, zlen (log_of (v_sent (view w)) 5)) | _ => None end.

(** Three answers of twelve bytes each have been sent. *)
Lemma reactor_loop_safe_witness :
  outcome_of (vr_reactor_loop 5 10 22409 visit_world) = Some (VR_SUCCESS, 36) /\
  match vr_reactor_loop 5 10 22409 visit_world with
  | Ok (_, w') => w_heap w' = ∅ /\ mg_count (w_mgr w') = 0 /\
      p_live (w_proc w') = p_live (w_proc visit_world)
  | Undef => False
  | NoFuel => True
  end.
Proof.
  split; [by vm_compute|].
  exact (reactor_loop_safe 5 10 22409 visit_world response_allocates visit_idle).
Defined.

Definition out_ring : vr_connection_ring_buf_t := ring_at [1; 2; 3] 4094.

Lemma out_ring_wf : ring_wf out_ring.
Proof. apply ring_at_spec; [vm_compute; discriminate|lia|solve_bytes]. Qed.

(** A client with bytes to send and bytes waiting; it asked for nothing yet. *)
Definition busy : world :=
  scene (one_client [9; 8; 7] 2 [{[4 := EPOLLIN; 5 := Z.lor EPOLLIN EPOLLOUT]}])
    zeroed_ring_buf out_ring zeroed_proto.

Lemma busy_ok : world_ok 1%positive 1 [2%positive] busy.
Proof.
  apply scene_ok; [apply ring_wf_unalloc|apply out_ring_wf|].
  split; [split; [done|by repeat constructor]|done].
Qed.

Lemma round_keeps_invariant_witness :
  match loop_round 5 busy with
  | Ok (_, w') => exists ls', world_ok 1%positive 1 ls' w'
  | Undef => False
  | NoFuel => True
  end /\ match loop_round 5 busy with Ok (go, _) => go = true | _ => False end.
Proof.
  split; [exact (round_keeps_invariant 1%positive 1 5 _ busy response_allocates busy_ok)|].
  by vm_compute.
Defined.

Lemma client_event_handled_witness :
  exists closed w', reactor_handle_client_event 2%positive (Z.lor EPOLLIN EPOLLOUT) busy = Ok (tt, w') /\
    world_ok 1%positive 1 (if closed : bool then swap_remove 0 [2%positive] else [2%positive]) w'.
Proof.
  destruct (client_event_handled 1%positive 1 [2%positive] busy 0 2%positive
    (client_object zeroed_ring_buf out_ring zeroed_proto) (Z.lor EPOLLIN EPOLLOUT)
    response_allocates busy_ok eq_refl (scene_client _ _ _ _)) as (closed & w' & E & Hok & _).
  exists closed, w'. split; [exact E|exact Hok].
Defined.

(** The scripted kernel's queue of connections. *)
Lemma sim_backlog_laws : backlog_laws (fun s : kst => length (sm_backlog s)).
Proof.
  constructor; try done.
  - intros k fd x k'. simpl. unfold sim_accept. destruct (sm_backlog k) as [|a rest]; [done|].
    destruct (sim_new_fd sim_opened k) as [[nfd|e] s]; intros [= <- <-]. simpl. lia.
  - intros k fd e k'. simpl. unfold sim_accept. destruct (sm_backlog k) as [|a rest] eqn:E.
    + intros [= _ <-]. by rewrite E.
    + unfold sim_new_fd. destruct (decide _); intros [= _ <-]. by rewrite E.
Qed.

Lemma accept_loop_ends_witness :
  exists w', accept_loop 1 4 busy = Ok (tt, w') /\ all_kept (w_heap busy) (w_heap w').
Proof.
  destruct (accept_loop_ends 1%positive 1 [2%positive] busy 4 (fun s : kst => length (sm_backlog s))
    sim_backlog_laws busy_ok) as (w' & E & _ & Hk).
  exists w'. split; [exact E|exact Hk].
Defined.

Lemma busy_listener : listener_at 1%positive 4 busy.
Proof. exists (listener_object 4). by split_and!. Qed.

Lemma shutdown_releases_witness :
  exists w', reactor_shutdown 1%positive 4 busy = Ok (tt, w') /\
    w_heap w' = ∅ /\ p_live (w_proc w') = 1 /\ 4 ∉ v_open (view w').
Proof.
  destruct (shutdown_releases 1%positive 1 [2%positive] busy 4 busy_ok busy_listener)
    as (w' & E & Hh & _ & Hl & Hfd & _).
  exists w'. split_and!; [exact E|exact Hh|exact Hl|exact Hfd].
Defined.

Lemma shutdown_leaves_clients_open_witness :
  exists w', reactor_shutdown 1%positive 4 busy = Ok (tt, w') /\ 5 ∈ v_open (view w').
Proof.
  destruct (shutdown_leaves_clients_open 1%positive 1 [2%positive] busy 4 2%positive
    (client_object zeroed_ring_buf out_ring zeroed_proto) busy_ok busy_listener
    (list_elem_of_here _ _) (scene_client _ _ _ _)) as (w' & E & _ & Hfd).
  exists w'. split; [exact E|exact Hfd].
Defined.
End Witness.
