(* ===== verification/Service.v ===== *)
(** * Service: what a client observes

    The parser, the session machine, the rings and the event handlers together:
    the bytes a connection receives are parsed to packets, each packet is
    answered as the session machine answers it, and the answers appear in the
    connection's outgoing bytes in order. *)

From S2P Require Import Prelude Core RingBuffer Packet Parser Protocol Connection World Sim.
From S2P Require Import SocketUtils Enqueue Reactor ReactorSpec Scenario.
#[local] Open Scope Z_scope.

Section Service.
Context `{Libc} `{Abi} `{KernelLaws}.
Context (lst : loc) (base : Z).
Hypothesis alloc_total : forall n, allocates n.

(** The packets in [q] for a parser in state [parser], and what is left over. *)
Definition parsed (parser : vr_parser_t) (q : list Z) :=
  stream_spec (S (length q)) parser q.

(** The answers of the session machine to packets [pks]. *)
Definition replies (a : session) (pks : list vr_packet_t) : list vr_packet_t :=
  omap id (session_run a (pk_header <$> pks)).1.

Definition session_after (a : session) (pks : list vr_packet_t) : session :=
  (session_run a (pk_header <$> pks)).2.

Lemma replies_cons a k pks :
  replies a (k :: pks) =
  option_list (session_step a (pk_header k)).1 ++ replies (session_step a (pk_header k)).2 pks.
Proof.
  unfold replies, fmap. cbn [list_fmap session_run].
  destruct (session_step a (pk_header k)) as [[r|] a1]; simpl;
    by destruct (session_run a1 _) as [rs a2].
Qed.

Lemma session_after_cons a k pks :
  session_after a (k :: pks) = session_after (session_step a (pk_header k)).2 pks.
Proof.
  unfold session_after, fmap. cbn [list_fmap session_run].
  destruct (session_step a (pk_header k)) as [r a1]; simpl. by destruct (session_run a1 _).
Qed.

(** The connection [c] has become [c'] by answering [pks]. *)
Definition answered (a : session) (pks : list vr_packet_t) (c c' : vr_connection_t) : Prop :=
  in_session (c_proto c') (session_after a pks) /\ c_fd c' = c_fd c /\
  exists frames, Forall2 frame (replies a pks) frames /\
    ring_contents (c_write_buf c') = ring_contents (c_write_buf c) ++ concat frames.

(** What is left of the connection when the parser has stopped with [res]: it
    waits for more bytes, or its bytes were not a packet and it is gone. *)
Definition served (ls : list loc) (w : world) (i : nat) (l : loc) (c : vr_connection_t)
    (a : session) (pks : list vr_packet_t) (res : vr_result_t) (parser : vr_parser_t) (q : list Z)
    (closed : bool) (w' : world) : Prop :=
  same_logs (view w) (view w') /\
  match res with
  | VR_EMPTY =>
      closed = false /\ world_ok lst base ls w' /\ v_open (view w') = v_open (view w) /\
      exists c', w_heap w' !! l = Some c' /\ c_parser c' = parser /\
        ring_contents (c_read_buf c') = q /\ answered a pks c c'
  | _ =>
      closed = true /\ world_ok lst base (swap_remove i ls) w' /\ w_heap w' !! l = None /\
      v_open (view w') = v_open (view w) ∖ {[c_fd c]}
  end.

(** There is room for every answer. *)
Definition room_for (c : vr_connection_t) (a : session) (pks : list vr_packet_t) : Prop :=
  zlen (ring_contents (c_write_buf c)) + sizeof_vr_packet_header_t * zlen (replies a pks)
  <= VR_CONNECTION_BUFFER_MAX_SIZE.

Lemma frame_length k bs :
  response_ok (Some k) -> frame k bs ->
  zlen bs = sizeof_vr_packet_header_t /\ h_payload_len (pk_header k) = 0.
Proof.
  intros (t & sid & [= ->] & _ & _) (stale & Hl & ->). unfold zlen in *. rewrite length_app.
  simpl. split; [lia|done].
Qed.

(** The outgoing bytes of an answer, if there is one. *)
Definition framed (r : option vr_packet_t) (bs : list Z) : Prop :=
  match r with
  | Some k => frame k bs /\ zlen bs = sizeof_vr_packet_header_t
  | None => bs = []
  end.

(** One packet of a polite client, when its answer fits. *)
Lemma answer_session ls w l c a pkt :
  world_ok lst (base + owned (pk_payload pkt)) ls w -> w_heap w !! l = Some c ->
  header_fits (pk_header pkt) -> in_session (c_proto c) a -> polite a (pk_header pkt) = true ->
  zlen (ring_contents (c_write_buf c)) + sizeof_vr_packet_header_t
    * zlen (option_list (session_step a (pk_header pkt)).1) <= VR_CONNECTION_BUFFER_MAX_SIZE ->
  wp (answer_packet l pkt) (fun ok w' =>
    ok = true /\ world_ok lst base ls w' /\ view w' = view w /\
    exists c' bs, w_heap w' !! l = Some c' /\ c_parser c' = c_parser c /\
      c_read_buf c' = c_read_buf c /\ c_fd c' = c_fd c /\
      in_session (c_proto c') (session_step a (pk_header pkt)).2 /\
      ring_contents (c_write_buf c') = ring_contents (c_write_buf c) ++ bs /\
      framed (session_step a (pk_header pkt)).1 bs) w.
Proof.
  intros Hok Hlc Hh Hin Hpol Hroom.
  destruct (session_sim (c_proto c) a pkt (w_proc w) (alloc_total _) Hin Hh Hpol)
    as (proto & p & E & Hin').
  eapply wp_mono; [apply (answer_packet_spec lst (alloc_total _) base ls w l c); done|].
  intros ok w' (Hok' & _ & Hv & r & proto' & b & p' & E' & Hheap & Hrok & Hres).
  rewrite E in E'. injection E' as <- <- <-.
  destruct (session_step a (pk_header pkt)) as [[k|] a']; cbn [fst snd option_list] in *.
  - destruct ok.
    + destruct Hres as (bs & Hf & Hq). split_and!; [done..|].
      exists (set_write_buf b (set_proto proto c)), bs. rewrite Hheap, lookup_insert_eq.
      split_and!; try done. by destruct (frame_length k bs Hrok Hf).
    + exfalso. destruct Hres as [_ [Hfull|[n Hn]]]; [|by apply Hn, alloc_total].
      destruct Hrok as (t & sid & [= ->] & _ & _). simpl in Hfull. unfold zlen in *. simpl in Hroom. lia.
  - destruct Hres as [-> ->]. split_and!; [done..|].
    exists (set_write_buf (c_write_buf c) (set_proto proto c)), [].
    rewrite Hheap, lookup_insert_eq. split_and!; try done. by rewrite app_nil_r.
Qed.

Lemma room_first c a k pks :
  room_for c a (k :: pks) ->
  zlen (ring_contents (c_write_buf c)) + sizeof_vr_packet_header_t
    * zlen (option_list (session_step a (pk_header k)).1) <= VR_CONNECTION_BUFFER_MAX_SIZE.
Proof.
  unfold room_for. rewrite replies_cons, zlen_app. pose proof sizeof_header_range.
  unfold zlen. nia.
Qed.

(** The steps of the induction: the first packet has been answered. *)
Section Step.
Context (a : session) (k : vr_packet_t) (pks : list vr_packet_t) (c c1 : vr_connection_t) (bs : list Z).
Hypothesis Hbs : framed (session_step a (pk_header k)).1 bs.
Hypothesis Hq : ring_contents (c_write_buf c1) = ring_contents (c_write_buf c) ++ bs.

Lemma room_cons : room_for c a (k :: pks) -> room_for c1 (session_step a (pk_header k)).2 pks.
Proof.
  unfold room_for. rewrite replies_cons, Hq, !zlen_app.
  destruct (session_step a (pk_header k)) as [[r|] a']; simpl in *.
  - destruct Hbs as [_ ->]. change (zlen [r]) with 1. lia.
  - rewrite Hbs. change (zlen (@nil Z)) with 0. change (zlen (@nil vr_packet_t)) with 0. lia.
Qed.

Lemma answered_cons c2 :
  c_fd c1 = c_fd c -> answered (session_step a (pk_header k)).2 pks c1 c2 ->
  answered a (k :: pks) c c2.
Proof.
  intros Hfd (Hin & Hfd2 & frames & Hf & Hw). unfold answered.
  rewrite session_after_cons, replies_cons. split_and!; [done|congruence|].
  destruct (session_step a (pk_header k)) as [[r|] a']; simpl in *.
  - exists (bs :: frames). split; [by constructor; [apply Hbs|]|]. by rewrite Hw, Hq, <-app_assoc.
  - exists frames. split; [done|]. by rewrite Hw, Hq, Hbs, app_nil_r.
Qed.
End Step.

(** The rest of the packets, after the first. *)
Lemma served_cons ls w w1 i l k pks a c c1 bs res parser q closed w' :
  framed (session_step a (pk_header k)).1 bs ->
  ring_contents (c_write_buf c1) = ring_contents (c_write_buf c) ++ bs ->
  c_fd c1 = c_fd c -> view w1 = view w ->
  served ls w1 i l c1 (session_step a (pk_header k)).2 pks res parser q closed w' ->
  served ls w i l c a (k :: pks) res parser q closed w'.
Proof.
  intros Hbs Hq Hfd Hv [Hlog Hres]. rewrite Hv in Hlog. split; [done|].
  destruct res; rewrite Hv, ?Hfd in Hres; try done.
  destruct Hres as (-> & Hok & Ho & c2 & Hl & Hp & Hr & Hans). split_and!; [done..|].
  exists c2. split_and!; [done..|]. by eapply (answered_cons a k pks c c1).
Qed.

Lemma served_loop fuel ls w i l c a pks res parser q :
  world_ok lst base ls w -> ls !! i = Some l -> w_heap w !! l = Some c ->
  in_session (c_proto c) a -> (length (ring_contents (c_read_buf c)) < fuel)%nat ->
  stream_spec fuel (c_parser c) (ring_contents (c_read_buf c)) = (pks, res, parser, q) ->
  polite_run a (pk_header <$> pks) = true -> room_for c a pks ->
  wp (process_packets_loop fuel l) (served ls w i l c a pks res parser q) w.
Proof.
  revert w c a pks. induction fuel as [|fuel IH]; intros w c a pks Hok Hi Hlc Hin Hf Hst Hpol Hroom; [lia|].
  pose proof (poll_conn_spec lst base ls w l c Hok Hlc) as Hpoll.
  destruct (ok_conns _ _ _ _ Hok l c Hlc) as [Hrd _ Hpa _].
  pose proof (ring_contents_bytes _ Hrd) as Hbytes.
  pose proof (parse_spec_wf mem_ok (c_parser c) _ Hbytes Hpa) as Hwf.
  pose proof (parse_spec_consumes mem_ok (c_parser c) (ring_contents (c_read_buf c)) Hpa) as Hcons.
  pose proof (parse_spec_no_packet mem_ok (c_parser c) (ring_contents (c_read_buf c))) as Hnone.
  rewrite (parse_next_alloc_total alloc_total) in Hpoll.
  cbn [process_packets_loop stream_spec] in *. apply wp_bind, (wp_get_conn _ _ _ _ Hlc), wp_bind.
  destruct (parse_spec mem_ok _ _) as [[[res1 parser1] q1] out].
  destruct Hpoll as (b & p & E & <- & Hok1), Hwf as (_ & _ & Hsucc), Hcons as (_ & Hlt & Hres).
  eapply wp_try_proc; [rewrite E; reflexivity|]. apply wp_bind, (wp_put_conn l c); [done|].
  set (c1 := set_read_buf b (set_parser parser1 c)) in *.
  match goal with |- wp _ _ ?s => set (w1 := s) in * end.
  assert (Hl1 : w_heap w1 !! l = Some c1) by (unfold w1; simpl; by rewrite lookup_insert_eq).
  destruct Hres as [-> |[-> | ->]]; simplify_eq.
  2:{ rewrite (Hnone ltac:(done)), Z.add_0_r in Hok1. apply wp_bind.
      eapply wp_mono; [by eapply close_connection_spec|].
      intros _ w2 (Hok2 & _ & Hn2 & _ & Hlogs2 & Ho2). apply wp_ret. by split. }
  2:{ rewrite (Hnone ltac:(done)), Z.add_0_r in Hok1. apply wp_ret.
      split; [done|]. split_and!; [done..|]. exists c1. split_and!; [done..|].
      split; [done|]. split; [done|]. exists []. split; [constructor|]. by rewrite app_nil_r. }
  destruct (stream_spec fuel parser1 _) as [[[pks1 res1] parser2] q2] eqn:Est. simplify_eq.
  destruct (Hsucc eq_refl) as (Hh & _). specialize (Hlt eq_refl).
  unfold fmap in Hpol. cbn [list_fmap polite_run] in Hpol. apply andb_prop in Hpol as [Hp1 Hpol].
  apply wp_bind. eapply wp_mono; [apply (answer_session ls w1 l c1 a); try done; by eapply room_first|].
  intros ok w2 (-> & Hok2 & Hv2 & c2 & bs & Hl2 & Hpa2 & Hrd2 & Hfd2 & Hin2 & Hq2 & Hbs).
  eapply wp_mono; [apply (IH w2 c2 (session_step a (pk_header out)).2 pks1); try done|].
  - rewrite Hrd2. simpl. unfold zlen in *. lia.
  - by rewrite Hpa2, Hrd2.
  - by eapply (room_cons a out pks1 c1).
  - intros closed w3. by apply (served_cons ls w w2 i l out pks1 a c c2 bs).
Qed.

Lemma served_packets ls w i l c a pks res parser q :
  world_ok lst base ls w -> ls !! i = Some l -> w_heap w !! l = Some c ->
  in_session (c_proto c) a ->
  parsed (c_parser c) (ring_contents (c_read_buf c)) = (pks, res, parser, q) ->
  polite_run a (pk_header <$> pks) = true -> room_for c a pks ->
  wp (reactor_process_packets l) (served ls w i l c a pks res parser q) w.
Proof.
  intros Hok Hi Hlc Hin Hp Hpol Hroom. unfold reactor_process_packets.
  apply wp_bind, (wp_get_conn _ _ _ _ Hlc), wp_bind.
  pose proof (ring_contents_length _ (co_read _ (ok_conns _ _ _ _ Hok l c Hlc))) as Hlen.
  unfold zlen in Hlen. rewrite <-Hlen, Nat2Z.id.
  eapply wp_mono; [by apply (served_loop _ ls w i l c a); [..|lia| | |]|].
  intros closed w1 [Hlog Hres]. destruct closed.
  { apply wp_ret. by split. }
  destruct res; try by destruct Hres.
  destruct Hres as (_ & Hok1 & Ho1 & c1 & Hl1 & Hans).
  apply wp_bind, (wp_get_conn _ _ _ _ Hl1). destruct (vr_conn_ring_buf_empty _).
  { apply wp_ret. split; [done|]. split_and!; [done..|by exists c1]. }
  apply wp_bind. eapply conn_ctl_spec; [done..|]. intros r w2 Hsp Hok2 Ho2 [Hs2 Hr2] _.
  apply wp_ret. destruct Hlog as [Hs1 Hr1]. split; [split; congruence|].
  split_and!; [done|done|congruence|]. exists c1. by rewrite (sp_heap _ _ Hsp).
Qed.
End Service.

(** ** Properties *)

Section Properties.
Context `{Libc} `{Abi} `{KernelLaws}.
Context (lst : loc) (base : Z) (ls : list loc) (w : world) (i : nat) (l : loc) (c : vr_connection_t).
Hypothesis Hok : world_ok lst base ls w.
Hypothesis Hi : ls !! i = Some l.
Hypothesis Hc : w_heap w !! l = Some c.

(** C3. Packets are answered.  With memory and room in the outgoing ring, the
    packets of a polite client that the connection's bytes contain are all
    answered in one call: the outgoing bytes gain one frame per answer of the
    session machine, in order, the protocol state is the session's, the parser
    stands where the pure parser stands and the bytes that are left are the ones
    it left.  The connection stays open. *)
Theorem packets_answered (a : session) (pks : list vr_packet_t) (parser : vr_parser_t) (q : list Z)
  (Ha : forall n, allocates n) (Hin : in_session (c_proto c) a)
  (Hp : parsed (c_parser c) (ring_contents (c_read_buf c)) = (pks, VR_EMPTY, parser, q))
  (Hpol : polite_run a (pk_header <$> pks) = true) (Hroom : room_for c a pks) :
  exists w' c' frames, reactor_process_packets l w = Ok (false, w') /\
    w_heap w' !! l = Some c' /\ c_fd c' ∈ v_open (view w') /\
    c_parser c' = parser /\ ring_contents (c_read_buf c') = q /\
    in_session (c_proto c') (session_after a pks) /\
    Forall2 frame (replies a pks) frames /\
    ring_contents (c_write_buf c') = ring_contents (c_write_buf c) ++ concat frames.
Proof.
  pose proof (served_packets lst base Ha ls w i l c a pks _ _ _ Hok Hi Hc Hin Hp Hpol Hroom) as Hs.
  unfold wp in Hs. destruct (reactor_process_packets l w) as [[closed w']| |]; [|done..].
  destruct Hs as [_ (-> & Hok' & _ & c' & Hl' & Hp' & Hq & Hin' & _ & frames & Hf & Hw)].
  exists w', c', frames. split_and!; try done. by eapply ok_open.
Qed.

(** Bytes that are not a packet end the connection.  When the parser
    rejects what follows the packets it found, the connection's object is freed,
    its descriptor is closed and the manager no longer lists it. *)
Lemma malformed_closes (a : session) (pks : list vr_packet_t) (parser : vr_parser_t) (q : list Z)
  (Ha : forall n, allocates n) (Hin : in_session (c_proto c) a)
  (Hp : parsed (c_parser c) (ring_contents (c_read_buf c)) = (pks, VR_ERROR, parser, q))
  (Hpol : polite_run a (pk_header <$> pks) = true) (Hroom : room_for c a pks) :
  exists w', reactor_process_packets l w = Ok (true, w') /\
    w_heap w' !! l = None /\ (c_fd c ∉ v_open (view w')) /\
    world_ok lst base (swap_remove i ls) w'.
Proof.
  pose proof (served_packets lst base Ha ls w i l c a pks _ _ _ Hok Hi Hc Hin Hp Hpol Hroom) as Hs.
  unfold wp in Hs. destruct (reactor_process_packets l w) as [[closed w']| |]; [|done..].
  destruct Hs as [_ (-> & Hok' & Hn & Ho)]. exists w'. split_and!; try done.
  rewrite Ho, elem_of_difference, elem_of_singleton. by intros [_ []].
Qed.

(** Outgoing bytes reach the socket in order, each once.  Draining hands the
    kernel a prefix of the ring's contents; unless the connection was closed,
    exactly the rest stays in the ring, and something stays only because the
    socket would block.  No other descriptor is written to. *)
Lemma writes_in_order :
  exists closed w' bs rest, reactor_drain_writes l w = Ok (closed, w') /\
    ring_contents (c_write_buf c) = bs ++ rest /\
    log_of (v_sent (view w')) (c_fd c) = log_of (v_sent (view w)) (c_fd c) ++ bs /\
    (forall fd, fd <> c_fd c -> log_of (v_sent (view w')) fd = log_of (v_sent (view w)) fd) /\
    (closed = false -> exists b, w_heap w' !! l = Some (set_write_buf b c) /\
       ring_contents b = rest /\ (rest = [] \/ would_block (p_errno (w_proc w')) = true)).
Proof.
  pose proof (drain_writes_spec lst base ls w i l c Hok Hi Hc) as Hs. unfold wp in Hs.
  destruct (reactor_drain_writes l w) as [[closed w']| |]; [|done..].
  destruct Hs as (_ & _ & bs & rest & Hq & [Hlog Hoth _] & Hcl).
  exists closed, w', bs, rest. split_and!; try done. intros ->. by destruct Hcl.
Qed.

(** Incoming bytes reach the ring in order, each once.  Everything the
    kernel delivered while draining is appended to the ring, which stops only
    when the socket would block or the ring cannot grow any more. *)
Lemma reads_in_order :
  exists closed w' bs, reactor_drain_reads l w = Ok (closed, w') /\
    log_of (v_rcvd (view w')) (c_fd c) = log_of (v_rcvd (view w)) (c_fd c) ++ bs /\
    (forall fd, fd <> c_fd c -> log_of (v_rcvd (view w')) fd = log_of (v_rcvd (view w)) fd) /\
    (closed = false -> exists b, w_heap w' !! l = Some (set_read_buf b c) /\
       ring_contents b = ring_contents (c_read_buf c) ++ bs /\
       (would_block (p_errno (w_proc w')) = true \/ cannot_grow b)).
Proof.
  pose proof (drain_reads_spec lst base ls w i l c Hok Hi Hc) as Hs. unfold wp in Hs.
  destruct (reactor_drain_reads l w) as [[closed w']| |]; [|done..].
  destruct Hs as (_ & _ & bs & [Hlog Hoth _] & Hcl).
  exists closed, w', bs. split_and!; try done. intros ->. by destruct Hcl.
Qed.

(** C37. A connection whose incoming ring is full at its maximal size is not
    read: the call returns without asking the kernel for anything, so the socket
    is never seen empty.  With edge-triggered events no further event announces
    the bytes that are waiting. *)
Theorem full_ring_stops_reading
  (Hcap : rb_capacity (c_read_buf c) = VR_CONNECTION_BUFFER_MAX_SIZE)
  (Hfull : rb_count (c_read_buf c) = rb_capacity (c_read_buf c)) :
  exists w', reactor_drain_reads l w = Ok (false, w') /\ w_kern w' = w_kern w /\
    w_heap w' !! l = Some c.
Proof.
  assert (Hs : wp (reactor_drain_reads l) (fun closed w' =>
    closed = false /\ w_kern w' = w_kern w /\ w_heap w' !! l = Some c) w).
  { apply wp_bind, (wp_get_conn _ _ _ _ Hc).
    assert (exists n, read_fuel = S n) as [n ->].
    { exists (Z.to_nat (2 * 65536)). unfold read_fuel, VR_CONNECTION_BUFFER_MAX_SIZE. lia. }
    cbn [drain_reads_loop]. apply wp_bind, (wp_get_conn _ _ _ _ Hc), wp_bind.
    apply (wp_mono _ (fun x w1 => x = (-1, c_read_buf c) /\ w_kern w1 = w_kern w /\
      w_heap w1 = w_heap w /\ p_errno (w_proc w1) = ENOBUFS)).
    { unfold vr_socket_recv_ring_buf. by rewrite (proj2 (Z.eqb_eq _ _) Hfull). }
    intros x w1 (-> & Hk1 & Hh1 & He1).
    assert (Hh2 : <[l := set_read_buf (c_read_buf c) c]> (w_heap w1) = w_heap w).
    { rewrite Hh1. replace (set_read_buf (c_read_buf c) c) with c by (by destruct c).
      by apply insert_id. }
    apply wp_bind, (wp_put_conn l c); [by rewrite Hh1|]. rewrite Hh2. cbn [Z.eqb].
    set (w2 := set_heap (w_heap w) w1). apply wp_bind.
    change (wp get_errno ?Q w2) with (Q (p_errno (w_proc w1)) w2). rewrite He1. cbn.
    apply wp_bind, wp_bind, (wp_get_conn _ c); [done|]. apply wp_bind.
    pose proof (co_read _ (ok_conns _ _ _ _ Hok l c Hc)) as Hb.
    apply (wp_mono _ (fun x w3 => x = (VR_ERROR, c_read_buf c) /\ w_kern w3 = w_kern w /\
      w_heap w3 = w_heap w)).
    { assert (Hg : vr_conn_ring_buf_grow (c_read_buf c) (w_proc w2)
        = Ok (VR_ERROR, c_read_buf c, set_errno ENOMEM (w_proc w2)))
        by (unfold vr_conn_ring_buf_grow; by rewrite Hcap).
      destruct (rb_state (c_read_buf c)) eqn:Est;
        [by rewrite (ring_unalloc _ Hb Est) in Hcap|eapply wp_try_proc; [cbv beta; by rewrite Hg|done]..]. }
    intros x w3 (-> & Hk3 & Hh3). apply wp_bind, (wp_put_conn l c); [by rewrite Hh3|].
    apply wp_ret, wp_ret. split_and!; [done|done|]. simpl. rewrite lookup_insert_eq. by destruct c. }
  unfold wp in Hs. destruct (reactor_drain_reads l w) as [[closed w']| |]; [|done..].
  destruct Hs as (-> & Hk & Hl). by exists w'.
Qed.
End Properties.

(** ** Witnesses *)

Section Witness.
#[local] Existing Instance sim_kernel.
#[local] Existing Instance sim_laws.
#[local] Instance libc_170 : Libc := libc_fill 170.
#[local] Existing Instance gcc_abi.

(** A packet without payload in the layout the parser reads. *)
Definition bare (type sid : Z) : vr_packet_t :=
  Packet (Header VR_MAGIC VR_PROTOCOL_VERSION type sid 0 0) None.
Definition bare_bytes (k : vr_packet_t) : list Z := header_bytes (pk_header k) ++ [0; 0; 0; 0].

Definition hello : list vr_packet_t := [bare (pkt_int VR_PKT_CONNECT) 0; bare (pkt_int VR_PKT_PING) 7].
Definition hello_bytes : list Z := concat (bare_bytes <$> hello).

(** The two packets wrap around the end of the ring; half a header follows. *)
Definition hello_ring : vr_connection_ring_buf_t := ring_at (hello_bytes ++ [86; 82]) 4080.
Definition hello_scene : world := scene (one_client [] 100 []) hello_ring (ring_at [1; 2] 4095) zeroed_proto.

Lemma hello_ring_ok : ring_wf hello_ring /\ ring_contents hello_ring = hello_bytes ++ [86; 82].
Proof. apply ring_at_spec; [vm_compute; discriminate|lia|solve_bytes]. Qed.

Lemma out_ring_ok : ring_wf (ring_at [1; 2] 4095) /\ ring_contents (ring_at [1; 2] 4095) = [1; 2].
Proof. apply ring_at_spec; [vm_compute; discriminate|lia|solve_bytes]. Qed.

Lemma zeroed_proto_ok : proto_wf zeroed_proto.
Proof. split; [split; [done|by repeat constructor]|done]. Qed.

Lemma hello_scene_ok : world_ok 1%positive 1 [2%positive] hello_scene.
Proof. apply scene_ok; [apply hello_ring_ok|apply out_ring_ok|apply zeroed_proto_ok]. Qed.

Lemma hello_parsed : parsed zeroed_parser (hello_bytes ++ [86; 82])
  = (hello, VR_EMPTY, zeroed_parser, [86; 82]).
Proof. by vm_compute. Qed.

Lemma packets_answered_witness :
  exists w' c' frames, reactor_process_packets 2%positive hello_scene = Ok (false, w') /\
    w_heap w' !! 2%positive = Some c' /\
    Forall2 frame [bare (pkt_int VR_PKT_CONNECT_ACK) 0; bare (pkt_int VR_PKT_PONG) 7] frames /\
    ring_contents (c_write_buf c') = [1; 2] ++ concat frames.
Proof.
  destruct hello_ring_ok as [Hrd Hrq], out_ring_ok as [Hwr Hwq].
  destruct (packets_answered 1%positive 1 [2%positive] hello_scene 0 2%positive
    (client_object hello_ring (ring_at [1; 2] 4095) zeroed_proto) hello_scene_ok eq_refl
    (scene_client _ _ _ _) Idle hello zeroed_parser [86; 82])
    as (w' & c' & frames & E & Hl & _ & _ & _ & _ & Hf & Hw).
  - intros n. apply libc_fill_allocates.
  - exact in_session_new.
  - simpl. rewrite Hrq. exact hello_parsed.
  - done.
  - unfold room_for. simpl. rewrite Hwq. vm_compute. discriminate.
  - exists w', c', frames. split_and!; [exact E|exact Hl|exact Hf|].
    rewrite <-Hwq. exact Hw.
Defined.

(** A PING before the session, then bytes with a wrong magic number. *)
Definition junk_bytes : list Z := bare_bytes (bare (pkt_int VR_PKT_PING) 7) ++ replicate 12 255.
Definition junk_scene : world :=
  scene (one_client [] 100 []) (ring_at junk_bytes 0) (ring_at [1; 2] 4095) zeroed_proto.

Lemma junk_ring_ok : ring_wf (ring_at junk_bytes 0) /\ ring_contents (ring_at junk_bytes 0) = junk_bytes.
Proof. apply ring_at_spec; [vm_compute; discriminate|lia|solve_bytes]. Qed.

Lemma malformed_closes_witness :
  exists w', reactor_process_packets 2%positive junk_scene = Ok (true, w') /\
    w_heap w' !! 2%positive = None /\ 5 ∉ v_open (view w').
Proof.
  destruct junk_ring_ok as [Hrd Hrq], out_ring_ok as [Hwr Hwq].
  destruct (malformed_closes 1%positive 1 [2%positive] junk_scene 0 2%positive
    (client_object (ring_at junk_bytes 0) (ring_at [1; 2] 4095) zeroed_proto))
    with (a := Idle) (pks := [bare (pkt_int VR_PKT_PING) 7])
      (parser := zeroed_parser) (q := @nil Z) as (w' & E & Hl & Hfd & _).
  - apply scene_ok; [exact Hrd|exact Hwr|exact zeroed_proto_ok].
  - done.
  - apply scene_client.
  - intros n. apply libc_fill_allocates.
  - exact in_session_new.
  - change (parsed zeroed_parser (ring_contents (ring_at junk_bytes 0))
      = ([bare (pkt_int VR_PKT_PING) 7], VR_ERROR, zeroed_parser, [])).
    rewrite Hrq. by vm_compute.
  - done.
  - unfold room_for. simpl. rewrite Hwq. vm_compute. discriminate.
  - exists w'. by split_and!.
Defined.

(** The socket takes three of the five bytes. *)
Lemma writes_in_order_witness :
  exists closed w' bs rest,
    reactor_drain_writes 2%positive
      (scene (one_client [] 3 []) hello_ring (ring_at [1; 2; 3; 4; 5] 4094) zeroed_proto)
    = Ok (closed, w') /\ [1; 2; 3; 4; 5] = bs ++ rest /\ log_of (v_sent (view w')) 5 = bs.
Proof.
  destruct hello_ring_ok as [Hrd _].
  destruct (ring_at_spec [1; 2; 3; 4; 5] 4094) as [Hwr Hwq]; [vm_compute; discriminate|lia|solve_bytes|].
  destruct (writes_in_order 1%positive 1 [2%positive]
    (scene (one_client [] 3 []) hello_ring (ring_at [1; 2; 3; 4; 5] 4094) zeroed_proto) 0 2%positive
    (client_object hello_ring (ring_at [1; 2; 3; 4; 5] 4094) zeroed_proto)
    (scene_ok _ _ _ _ _ _ Hrd Hwr zeroed_proto_ok) eq_refl (scene_client _ _ _ _))
    as (closed & w' & bs & rest & E & Hq & Hlog & _).
  exists closed, w', bs, rest. split_and!; [exact E|rewrite <-Hwq; exact Hq|exact Hlog].
Defined.

Lemma reads_in_order_witness :
  exists closed w' bs,
    reactor_drain_reads 2%positive
      (scene (one_client [9; 8; 7] 0 []) zeroed_ring_buf (ring_at [1; 2] 4095) zeroed_proto)
    = Ok (closed, w') /\ log_of (v_rcvd (view w')) 5 = bs.
Proof.
  destruct out_ring_ok as [Hwr _].
  destruct (reads_in_order 1%positive 1 [2%positive]
    (scene (one_client [9; 8; 7] 0 []) zeroed_ring_buf (ring_at [1; 2] 4095) zeroed_proto) 0 2%positive
    (client_object zeroed_ring_buf (ring_at [1; 2] 4095) zeroed_proto)
    (scene_ok _ _ _ _ _ _ ring_wf_unalloc Hwr zeroed_proto_ok) eq_refl (scene_client _ _ _ _))
    as (closed & w' & bs & E & Hlog & _).
  exists closed, w', bs. split; [exact E|exact Hlog].
Defined.

(** A ring of the maximal size, full of zeros. *)
Definition full_ring : vr_connection_ring_buf_t :=
  RingBuf (Some (replicate (Z.to_nat 65536) 0)) 65536 65536 0 0 VR_CONN_RING_BUF_ACTIVE.

Lemma full_ring_ok : ring_wf full_ring.
Proof.
  apply ring_wf_alloc; [unfold zlen; rewrite length_replicate; lia|..];
    [unfold VR_CONNECTION_BUFFER_INITIAL_SIZE, VR_CONNECTION_BUFFER_MAX_SIZE; lia|lia|lia|done|done|].
  apply Forall_replicate. unfold is_byte. lia.
Qed.

Lemma full_ring_stops_reading_witness :
  exists w', reactor_drain_reads 2%positive
      (scene (one_client [9; 8; 7] 0 []) full_ring zeroed_ring_buf zeroed_proto) = Ok (false, w') /\
    w_kern w' = one_client [9; 8; 7] 0 [].
Proof.
  destruct (full_ring_stops_reading 1%positive 1 [2%positive]
    (scene (one_client [9; 8; 7] 0 []) full_ring zeroed_ring_buf zeroed_proto) 2%positive
    (client_object full_ring zeroed_ring_buf zeroed_proto)
    (scene_ok _ _ _ _ _ _ full_ring_ok ring_wf_unalloc zeroed_proto_ok) (scene_client _ _ _ _)
    eq_refl eq_refl) as (w' & E & Hk & _).
  exists w'. split; [exact E|exact Hk].
Defined.
End Witness.
