(* ===== verification/History.v ===== *)
(** * History: every client, over the whole run

    The specifications of the single handlers put together: at every moment of
    every run, the state of every client's connection is explained by the bytes
    it has been delivered.  They parse to packets; the packets that have been
    taken from them are answered by the machine of Machine; what has been sent,
    followed by what waits in the outgoing ring, is a frame for each answer, in
    order.  An answer is missing only if the ring was full or memory ran out.

    [reachable] is the server as a transition system: started, then one round of
    the loop after the other; the invariant is proved by rule induction. *)

From S2P Require Import Prelude Core RingBuffer Packet Parser Protocol Machine Connection World Sim.
From S2P Require Import SocketUtils Enqueue Reactor ReactorSpec Scenario EventLoop Service.
#[local] Open Scope Z_scope.

(** ** Parsing in pieces *)

Section Parsing.
Context `{Abi}.

(** The result of parsing behind packets [pks]. *)
Definition after (pks : list vr_packet_t) (x : list vr_packet_t * vr_result_t * vr_parser_t * list Z) :=
  let '(pks', res, parser, q) := x in (pks ++ pks', res, parser, q).

Lemma after_nil x : after [] x = x.
Proof. by destruct x as [[[? ?] ?] ?]. Qed.

Lemma after_after pks1 pks2 x : after pks1 (after pks2 x) = after (pks1 ++ pks2) x.
Proof. destruct x as [[[? ?] ?] ?]. simpl. by rewrite app_assoc. Qed.

(** Failing memory can only turn a packet into an error. *)
Lemma parse_spec_mem mem parser q :
  let '(res, parser', q', out) := parse_spec mem parser q in
  res <> VR_ERROR -> parse_spec mem_ok parser q = (res, parser', q', out).
Proof. unfold parse_spec, spec_payload, mem_ok. repeat case_match; simplify_eq; done. Qed.

(** A parser that waits is not helped by asking again. *)
Lemma parse_spec_waits parser q parser' q' out :
  parse_spec mem_ok parser q = (VR_EMPTY, parser', q', out) ->
  parse_spec mem_ok parser' q' = (VR_EMPTY, parser', q', zeroed_packet).
Proof.
  unfold parse_spec, spec_payload, mem_ok. intros E.
  repeat (case_match; simplify_eq; try done); by repeat (case_match; simplify_eq; try done).
Qed.

Lemma parsed_success parser q e parser' q' k :
  parser_wf parser -> Forall is_byte q -> Forall is_byte e ->
  parse_spec mem_ok parser q = (VR_SUCCESS, parser', q', k) ->
  parsed parser (q ++ e) = after [k] (parsed parser' (q' ++ e)).
Proof.
  intros Hp Hq He E. pose proof (parse_spec_app parser q e Hp Hq) as Happ.
  pose proof (parse_spec_step parser q Hp Hq) as Hs. rewrite E in Happ, Hs.
  destruct Hs as (Hp' & Hq' & _ & Hlt). specialize (Hlt eq_refl).
  unfold parsed at 1. cbn [stream_spec]. rewrite Happ. unfold parsed.
  rewrite (stream_spec_fuel (length (q ++ e)) (S (length (q' ++ e)))); [|done|by apply Forall_app|..];
    [|rewrite !length_app; lia..].
  by destruct (stream_spec _ parser' (q' ++ e)) as [[[? ?] ?] ?].
Qed.

Lemma parsed_waits parser q e parser' q' k :
  parser_wf parser -> Forall is_byte q -> Forall is_byte e ->
  parse_spec mem_ok parser q = (VR_EMPTY, parser', q', k) ->
  parsed parser (q ++ e) = parsed parser' (q' ++ e).
Proof.
  intros Hp Hq He E. pose proof (parse_spec_app parser q e Hp Hq) as Happ.
  pose proof (parse_spec_step parser q Hp Hq) as Hs. rewrite E in Happ, Hs.
  destruct Hs as (Hp' & Hq' & Hle & _). unfold parsed.
  rewrite (stream_spec_fuel (S (length (q' ++ e))) (S (length (q ++ e)))); [|done|by apply Forall_app|..];
    [|rewrite !length_app; lia..].
  cbn [stream_spec]. by rewrite Happ.
Qed.

(** The packets [pks] have been taken from [input], and the parser stands at
    [parser] with [q] to go: whatever arrives behind, parsing all of it from the
    start gives [pks] and what parsing from here on gives. *)
Definition taken (input : list Z) (pks : list vr_packet_t) (parser : vr_parser_t) (q : list Z) : Prop :=
  forall e, Forall is_byte e -> parsed zeroed_parser (input ++ e) = after pks (parsed parser (q ++ e)).

Lemma taken_nothing : taken [] [] zeroed_parser [].
Proof. intros e _. by rewrite after_nil. Qed.

Lemma taken_received input inp pks parser q :
  Forall is_byte inp -> taken input pks parser q -> taken (input ++ inp) pks parser (q ++ inp).
Proof. intros Hi Ht e He. rewrite <-!app_assoc. apply Ht. by apply Forall_app. Qed.

Lemma taken_packet input pks parser q parser' q' k :
  parser_wf parser -> Forall is_byte q -> taken input pks parser q ->
  parse_spec mem_ok parser q = (VR_SUCCESS, parser', q', k) -> taken input (pks ++ [k]) parser' q'.
Proof.
  intros Hp Hq Ht E e He. rewrite (Ht e He), (parsed_success _ _ _ _ _ _ Hp Hq He E). apply after_after.
Qed.

Lemma taken_waits input pks parser q parser' q' k :
  parser_wf parser -> Forall is_byte q -> taken input pks parser q ->
  parse_spec mem_ok parser q = (VR_EMPTY, parser', q', k) -> taken input pks parser' q'.
Proof. intros Hp Hq Ht E e He. by rewrite (Ht e He), (parsed_waits _ _ _ _ _ _ Hp Hq He E). Qed.
End Parsing.

(** ** One connection *)

(** The answers to packets are bare headers that fit the wire format. *)
Lemma machine_step_ok m h : header_fits h -> response_ok (machine_step m h).1.
Proof.
  intros Hh. pose proof (hf_stream_id _ Hh). destruct m as [[] X n]; cbn [machine_step]; try done.
  - destruct (_ =? _); [|done]. by apply respond_ok.
  - destruct (pkt_of_int (h_type h)) as [[]|]; try done; try by apply respond_ok.
    + destruct (least_free X) as [sid|] eqn:E; [|by apply respond_ok].
      apply respond_ok; [done|by eapply least_free_byte].
    + destruct (_ =? 0); [done|]. by apply respond_ok.
Qed.

Section Connection.
Context `{Libc} `{Abi}.
Hypothesis Hresp : allocates sizeof_vr_packet_t.

(** The answers to the packets of a new connection. *)
Definition answers (pks : list vr_packet_t) : list vr_packet_t :=
  machine_answers machine_start (pk_header <$> pks).

(** The connection has received [input] and sent [output]: [pks] are the packets
    it has taken, [kept] the answers that were queued, in [frames]. *)
Record explained (input output : list Z) (c : vr_connection_t)
    (pks kept : list vr_packet_t) (frames : list (list Z)) : Prop := {
  ex_parser : parser_wf (c_parser c);
  ex_bytes : Forall is_byte (ring_contents (c_read_buf c));
  ex_taken : taken input pks (c_parser c) (ring_contents (c_read_buf c));
  ex_fits : Forall (fun k => header_fits (pk_header k)) pks;
  ex_proto : represents (c_proto c) (machine_after machine_start (pk_header <$> pks));
  ex_kept : sublist kept (answers pks);
  ex_frames : Forall2 frame kept frames;
  ex_sizes : Forall (fun bs => zlen bs = sizeof_vr_packet_header_t) frames;
  ex_output : output ++ ring_contents (c_write_buf c) = concat frames
}.

(** The outgoing ring has room for one more answer. *)
Definition spare (c : vr_connection_t) : Prop :=
  zlen (ring_contents (c_write_buf c)) + sizeof_vr_packet_header_t <= VR_CONNECTION_BUFFER_MAX_SIZE.

(** All answers fit the ring at once. *)
Definition few (pks : list vr_packet_t) : Prop :=
  sizeof_vr_packet_header_t * zlen (answers pks) <= VR_CONNECTION_BUFFER_MAX_SIZE.

(** The ring holds no whole packet. *)
Definition settled (c : vr_connection_t) : Prop :=
  parse_spec mem_ok (c_parser c) (ring_contents (c_read_buf c))
  = (VR_EMPTY, c_parser c, ring_contents (c_read_buf c), zeroed_packet).

(** Where [calm] holds of the run so far, or the answers are few, and no request
    for memory is refused, no answer is lost and no packet left in the ring. *)
Definition history (calm : Prop) (input output : list Z) (c : vr_connection_t) : Prop :=
  exists pks kept frames, explained input output c pks kept frames /\
    ((forall n, allocates n) -> calm \/ few pks -> kept = answers pks /\ settled c).

Lemma answers_snoc pks k :
  answers (pks ++ [k]) = answers pks ++
    option_list (machine_step (machine_after machine_start (pk_header <$> pks)) (pk_header k)).1.
Proof. unfold answers. rewrite fmap_app, machine_answers_app. cbn. by rewrite app_nil_r. Qed.

Lemma machine_after_snoc pks k :
  machine_after machine_start (pk_header <$> pks ++ [k])
  = (machine_step (machine_after machine_start (pk_header <$> pks)) (pk_header k)).2.
Proof. by rewrite fmap_app, machine_after_app. Qed.

Lemma few_prefix pks k : few (pks ++ [k]) -> few pks.
Proof.
  unfold few. intros Hn. rewrite answers_snoc, zlen_app in Hn.
  pose proof sizeof_header_range. unfold zlen in *. nia.
Qed.

Lemma few_app pks pks' : few (pks ++ pks') -> few pks.
Proof.
  induction pks' as [|k pks' IH] using rev_ind; [by rewrite app_nil_r|].
  rewrite app_assoc. by intros ?%few_prefix%IH.
Qed.

Lemma history_mono (calm calm' : Prop) input output c :
  (calm' -> calm) -> history calm input output c -> history calm' input output c.
Proof.
  intros Hc (pks & kept & frames & Hex & Hr). exists pks, kept, frames. split; [done|].
  intros Ha [?|?]; apply Hr; auto.
Qed.

Lemma history_new calm c : fresh_client c -> history calm [] [] c.
Proof.
  intros (n & slot & ->). exists [], [], []. split.
  - split; try done; [apply taken_nothing|apply represents_start].
  - intros _ _. split; [done|]. pose proof sizeof_header_range. unfold settled, parse_spec.
    cbn -[sizeof_vr_packet_header_t]. rewrite (proj2 (Z.ltb_lt _ _)); [done|]. unfold zlen. simpl. lia.
Qed.

Lemma history_slot calm input output c c' :
  set_slot 0 c' = set_slot 0 c -> history calm input output c -> history calm input output c'.
Proof.
  intros E (pks & kept & frames & [] & Hr). exists pks, kept, frames.
  destruct c, c'. unfold set_slot, settled in *. simpl in *. injection E as -> -> -> -> -> -> ->. by split.
Qed.

Lemma concat_sizes n (frames : list (list Z)) :
  Forall (fun bs => zlen bs = n) frames -> zlen (concat frames) = n * zlen frames.
Proof.
  induction 1 as [|bs frames Hb _ IH]; [unfold zlen; simpl; lia|]. cbn [concat].
  rewrite zlen_app, IH, Hb. unfold zlen. simpl. lia.
Qed.

(** Bytes pass between the rings and the kernel. *)
Lemma explained_exchanged v v' c c' pks kept frames :
  explained (traffic v (c_fd c)).1 (traffic v (c_fd c)).2 c pks kept frames -> exchanged c v v' c' ->
  explained (traffic v' (c_fd c)).1 (traffic v' (c_fd c)).2 c' pks kept frames.
Proof.
  intros [] (b1 & b2 & out & inp & -> & Hout & Hin & Hb & ->). split; simpl; try done.
  - rewrite Hin. by apply Forall_app.
  - rewrite Hin. by apply taken_received.
  - by rewrite <-app_assoc, <-Hout.
Qed.

(** One packet is taken and answered, or its answer is lost. *)
Lemma explained_packet input output c pks kept frames mem parser k b p r proto p' b' ok :
  explained input output c pks kept frames ->
  parse_spec mem (c_parser c) (ring_contents (c_read_buf c)) = (VR_SUCCESS, parser, ring_contents b, k) ->
  handle_packet (c_proto c) k p = Ok (r, proto, p') -> queued ok r (c_write_buf c) b' ->
  exists kept' frames',
    explained input output (set_write_buf b' (set_proto proto (set_read_buf b (set_parser parser c))))
      (pks ++ [k]) kept' frames' /\
    if ok then kept = answers pks -> kept' = answers (pks ++ [k])
    else (exists n, ~ allocates n) \/ zlen (ring_contents b') = zlen (ring_contents (c_write_buf c)) /\
           ~ spare c /\ ~ few (pks ++ [k]).
Proof.
  intros [Hpa Hby Ht Hf Hpr Hk Hfr Hsz Ho] Eps Ehp Hq.
  pose proof (parse_spec_mem mem (c_parser c) (ring_contents (c_read_buf c))) as Em. rewrite Eps in Em.
  specialize (Em ltac:(done)).
  pose proof (parse_spec_wf mem (c_parser c) _ Hby Hpa) as Hwf. rewrite Eps in Hwf.
  destruct Hwf as (Hpa' & Hby' & Hok). destruct (Hok eq_refl) as (Hh & _).
  destruct (machine_sim Hresp _ _ k p Hpr Hh) as (proto' & p'' & E & Hpr'). rewrite Ehp in E.
  injection E as -> -> _. pose proof (answers_snoc pks k) as Ha. rewrite <-machine_after_snoc in Hpr'.
  pose proof (machine_step_ok (machine_after machine_start (pk_header <$> pks)) _ Hh) as Hr.
  assert (Hex : forall kept' frames', sublist kept' (answers (pks ++ [k])) -> Forall2 frame kept' frames' ->
    Forall (fun bs => zlen bs = sizeof_vr_packet_header_t) frames' ->
    output ++ ring_contents b' = concat frames' ->
    explained input output (set_write_buf b' (set_proto proto' (set_read_buf b (set_parser parser c))))
      (pks ++ [k]) kept' frames').
  { intros kept' frames' ????. split; simpl; try done; [exact (taken_packet _ _ _ _ _ _ _ Hpa Hby Ht Em)|].
    apply Forall_app. split; [done|]. by constructor. }
  destruct (machine_step _ (pk_header k)).1 as [k'|]; cbn [queued option_list] in *.
  2:{ rewrite app_nil_r in Ha. destruct Hq as [-> ->]. exists kept, frames. rewrite <-Ha in *.
      split; [by apply Hex|done]. }
  destruct ok; cbn [enqueued] in Hq.
  - destruct Hq as (bs & Hfb & Hc). exists (kept ++ [k']), (frames ++ [bs]). split.
    + apply Hex; rewrite ?Ha.
      * by apply sublist_app.
      * apply Forall2_app; [done|]. by constructor.
      * apply Forall_app. split; [done|]. constructor; [|done]. by destruct (frame_length k' bs Hr Hfb).
      * by rewrite Hc, concat_app, app_assoc, Ho, <-(app_nil_r bs) at 1.
    + intros ->. by rewrite Ha.
  - destruct Hq as (Hc & Hfull). exists kept, frames. split.
    + apply Hex; rewrite ?Hc; try done. rewrite Ha. by apply sublist_inserts_r.
    + destruct Hfull as [Hfull|Hn]; [right|by left].
      assert (Hlen : zlen (ring_contents (c_write_buf c)) <= sizeof_vr_packet_header_t * zlen (answers pks)).
      { pose proof (concat_sizes _ _ Hsz) as Hz. rewrite <-Ho, zlen_app in Hz.
        apply sublist_length in Hk. apply Forall2_length in Hfr. pose proof sizeof_header_range.
        unfold zlen in *. nia. }
      destruct Hr as (t & sid & [= ->] & _ & _). simpl in Hfull. unfold spare, few.
      rewrite Ha, zlen_app.
      unfold zlen in *. simpl. split_and!; [by rewrite Hc|lia|lia].
Qed.

(** A whole call of the packet loop. *)
Lemma history_processed (calm : Prop) input output c all c' pks kept frames :
  processed c all c' -> explained input output c pks kept frames ->
  ((forall n, allocates n) -> calm \/ few pks -> kept = answers pks) ->
  history (calm /\ spare c') input output c'.
Proof.
  intros Hp. revert pks kept frames. induction Hp as
    [c mem parser out b Eps|c mem parser k b p r proto p' b' Eps Ehp Hq
    |c mem parser k b p r proto p' b' all c' Eps Ehp Hq Hp IH]; intros pks kept frames Hex Hr.
  - pose proof (parse_spec_mem mem (c_parser c) (ring_contents (c_read_buf c))) as Em. rewrite Eps in Em.
    specialize (Em ltac:(done)). destruct Hex as [Hpa Hby Ht Hf Hpr Hk Hfr Hsz Ho].
    pose proof (parse_spec_wf mem (c_parser c) _ Hby Hpa) as Hwf. rewrite Eps in Hwf.
    exists pks, kept, frames. split; [|intros Ha Hroom; split; [apply Hr; tauto|by eapply parse_spec_waits]].
    split; try done; [apply Hwf|apply Hwf|]. exact (taken_waits _ _ _ _ _ _ _ Hpa Hby Ht Em).
  - destruct (explained_packet _ _ _ _ _ _ _ _ _ _ _ _ _ _ _ _ Hex Eps Ehp Hq) as (kept' & frames' & Hex' & Hlost).
    exists (pks ++ [k]), kept', frames'. split; [done|]. intros Ha Hcalm.
    destruct Hlost as [[n Hn]|(Hz & Hs & Hfew)]; [by destruct (Hn (Ha n))|]. unfold spare in *. simpl in Hcalm.
    rewrite Hz in Hcalm. tauto.
  - destruct (explained_packet _ _ _ _ _ _ _ _ _ _ _ _ _ _ _ _ Hex Eps Ehp Hq) as (kept' & frames' & Hex' & Hall).
    apply (IH _ _ _ Hex'). intros Ha Hcalm. apply Hall, Hr; [done|]. destruct Hcalm; [by left|right].
    by eapply few_prefix.
Qed.

Lemma history_event calm v v' c c' :
  event_on c v v' c' -> history calm (traffic v (c_fd c)).1 (traffic v (c_fd c)).2 c ->
  history (calm /\ spare c') (traffic v' (c_fd c)).1 (traffic v' (c_fd c)).2 c'.
Proof.
  intros (c1 & all & Hx & Hp) (pks & kept & frames & Hex & Hr).
  eapply history_processed; [exact Hp|by eapply explained_exchanged|]. intros Ha Hroom. by apply Hr.
Qed.

(** Nothing but an incomplete packet is left. *)
Lemma explained_settled input output c pks kept frames :
  explained input output c pks kept frames -> settled c ->
  parsed zeroed_parser input = (pks, VR_EMPTY, c_parser c, ring_contents (c_read_buf c)).
Proof.
  intros [_ _ Ht _ _ _ _ _ _] Hs. specialize (Ht [] (Forall_nil_2 _)). rewrite !app_nil_r in Ht.
  rewrite Ht. unfold parsed. cbn [stream_spec]. rewrite Hs. simpl. by rewrite app_nil_r.
Qed.
End Connection.

(** ** The whole server *)

Section Server.
Context `{Libc} `{Abi} `{KernelLaws}.

(** Every client of [w] is explained by its traffic. *)
Definition histories (calm : loc -> Prop) (lst : loc) (w : world) : Prop :=
  forall l c, l <> lst -> w_heap w !! l = Some c ->
    history (calm l) (traffic (view w) (c_fd c)).1 (traffic (view w) (c_fd c)).2 c.

(** At the address [l] is no client whose outgoing ring is full. *)
Definition uncrowded (l : loc) (w : world) : Prop :=
  forall c, w_heap w !! l = Some c -> spare c.

(** The states of the loop between two rounds. *)
Inductive reachable (port : Z) (w0 : world) : loc -> world -> Prop :=
| reachable_start lst fd w :
    reactor_bootstrap_listener port w0 = Ok (VR_SUCCESS, Some lst, fd, w) ->
    reachable port w0 lst w
| reachable_round accept_fuel lst w w' :
    reachable port w0 lst w -> running w = Ok (true, w) -> loop_round accept_fuel w = Ok (true, w') ->
    reachable port w0 lst w'.

(** The same with all states of the run, the last one first. *)
Inductive run (port : Z) (w0 : world) (lst : loc) : list world -> Prop :=
| run_start fd w :
    reactor_bootstrap_listener port w0 = Ok (VR_SUCCESS, Some lst, fd, w) -> run port w0 lst [w]
| run_round accept_fuel w ws w' :
    run port w0 lst (w :: ws) -> running w = Ok (true, w) -> loop_round accept_fuel w = Ok (true, w') ->
    run port w0 lst (w' :: w :: ws).

Lemma reachable_run port w0 lst w : reachable port w0 lst w -> exists ws, run port w0 lst (w :: ws).
Proof.
  induction 1 as [lst fd w E|fuel lst w w' _ [ws IH] Hrun E]; eexists; [by econstructor|by eapply run_round].
Qed.

Hypothesis Hresp : allocates sizeof_vr_packet_t.

Lemma histories_passed X calm lst w w' :
  passed lst X w w' -> histories calm lst w -> histories (fun l => uncrowded l w' /\ calm l) lst w'.
Proof.
  intros Hp Hh l c' Hl Hc'. destruct (Hp l c' Hl Hc') as (c1 & v1 & Ho & Hone).
  assert (Hhist : history (calm l) (traffic v1 (c_fd c1)).1 (traffic v1 (c_fd c1)).2 c1).
  { destruct Ho as [(c & Hc & Es & Et)|[Hf Et]]; [|rewrite Et; by apply history_new].
    destruct (set_slot_inv _ _ Es) as (-> & _). rewrite Et. by eapply history_slot, Hh. }
  destruct Hone as [[Es Et]|(_ & c2 & v2 & He & Es & Et)].
  - destruct (set_slot_inv _ _ Es) as (-> & _). rewrite Et. eapply history_slot; [done|].
    by eapply history_mono; [|exact Hhist]; intros [].
  - destruct (set_slot_inv _ _ Es) as (-> & _). rewrite (event_on_fd _ _ _ _ He), Et.
    eapply history_mono; [|by eapply history_slot, history_event].
    intros [Hu Hcalm]. split; [done|]. specialize (Hu c' Hc'). unfold spare in *.
    destruct c', c2. unfold set_slot in Es. simpl in *. injection Es as -> -> -> -> -> -> ->. done.
Qed.

Lemma run_ok port w0 lst w ws :
  idle w0 -> run port w0 lst (w :: ws) ->
  (exists ls, world_ok lst (p_live (w_proc w0)) ls w) /\
  histories (fun l => Forall (uncrowded l) (w :: ws)) lst w.
Proof.
  intros Hidle Hr. remember (w :: ws) as all eqn:Eall. revert w ws Eall.
  induction Hr as [fd w E|fuel w ws w' Hr IH _ E]; intros ? ? [= <- <-].
  - pose proof (bootstrap_listener_spec port w0 Hidle) as Hs. unfold wp in Hs. rewrite E in Hs.
    destruct Hs as [(l & fd' & [= -> ->] & Hok & _)|[? _]]; [|done]. split; [by eexists|].
    intros l' c Hne Hc. apply (elem_of_dom_2 (D := gset loc)) in Hc. rewrite (ok_dom _ _ _ _ Hok) in Hc.
    rewrite list_to_set_nil, (right_id_L ∅ (∪)) in Hc. by apply elem_of_singleton in Hc.
  - destruct (IH w ws eq_refl) as [[ls Hok] Hh].
    assert (Hs : wlp (loop_round fuel)
      (fun _ w' => round_post lst (p_live (w_proc w0)) w w' /\ passed lst (fun _ => True) w w') w).
    { apply (loop_round_spec lst _ Hresp false fuel (fun _ => True)) with (ls := ls); [|done..].
      intros ls' w1 fd Hok' _. by apply (accept_loop_spec _ _ _ ls'). }
    unfold wlp in Hs. rewrite E in Hs. destruct Hs as [[Hok' _] Hp]. split; [done|].
    intros l c Hl Hc. eapply history_mono; [|by apply (histories_passed _ _ _ _ _ Hp Hh)].
    intros Hall%Forall_cons. done.
Qed.

Lemma reachable_ok port w0 lst w :
  idle w0 -> reachable port w0 lst w ->
  (exists ls, world_ok lst (p_live (w_proc w0)) ls w) /\ histories (fun _ => False) lst w.
Proof.
  intros Hidle [ws Hr]%reachable_run. destruct (run_ok _ _ _ _ _ Hidle Hr) as [Hok Hh]. split; [done|].
  intros l c Hl Hc. by eapply history_mono; [|by apply Hh].
Qed.
End Server.

(** ** Property *)

(** C2. Every client is served, over the whole run.  Start the server and let it
    run for any number of rounds, whatever the peers send, whichever calls and
    allocations fail (that of a response object apart, whose failure the code
    does not survive).  Then for every client: the packets [pks] have been taken
    from the bytes delivered so far, at any boundaries the network chose, and the
    parser and the incoming ring hold exactly what is left; the protocol state is
    the one [pks] lead to; and the bytes sent so far followed by the outgoing ring
    are one frame per answer, in the order of the packets, nothing added.  If no
    request for memory is refused, and no round of the run ended with an outgoing
    ring of this client that had no room for one more answer, or all its answers
    together fit the ring, then no answer is missing and every whole packet that
    was delivered has been answered.  To a polite client the answers are those of
    the session machine. *)
Theorem clients_served `{Libc} `{Abi} `{KernelLaws} (port : Z) (w0 : world) (lst : loc) (w : world)
  (ws : list world) (l : loc) (c : vr_connection_t)
  (Ha : allocates sizeof_vr_packet_t) (Hidle : idle w0) (Hr : run port w0 lst (w :: ws))
  (Hl : l <> lst) (Hc : w_heap w !! l = Some c) :
  let input := log_of (v_rcvd (view w)) (c_fd c) in
  let output := log_of (v_sent (view w)) (c_fd c) in
  exists pks kept frames,
    taken input pks (c_parser c) (ring_contents (c_read_buf c)) /\
    represents (c_proto c) (machine_after machine_start (pk_header <$> pks)) /\
    sublist kept (answers pks) /\ Forall2 frame kept frames /\
    output ++ ring_contents (c_write_buf c) = concat frames /\
    ((forall n, allocates n) -> Forall (uncrowded l) (w :: ws) \/ few pks ->
       kept = answers pks /\
       parsed zeroed_parser input = (pks, VR_EMPTY, c_parser c, ring_contents (c_read_buf c))) /\
    (polite_run Idle (pk_header <$> pks) = true -> answers pks = replies Idle pks).
Proof.
  destruct (run_ok Ha port w0 lst w ws Hidle Hr) as [_ Hh].
  destruct (Hh l c Hl Hc) as (pks & kept & frames & Hex & Hroom).
  exists pks, kept, frames. pose proof Hex as [Hpa Hby Ht Hf Hpr Hk Hfr Hsz Ho].
  split_and!; try done; [|by apply machine_polite].
  intros Hm Hrm. destruct (Hroom Hm Hrm) as [Ek Hs]. split; [done|]. by eapply explained_settled.
Qed.

(** ** Witness *)

Section Witness.
#[local] Existing Instance sim_kernel.
#[local] Existing Instance sim_laws.
#[local] Instance libc_170 : Libc := libc_fill 170.
#[local] Existing Instance gcc_abi.

(** The states of the visit of EventLoop: after start-up, after the client was
    accepted, after its packets arrived. *)
Definition state_of {A} (o : outcome (A * world)) : world :=
  match o with Ok (_, w) => w | _ => visit_world end.
Definition result_of {A} (o : outcome (A * world)) : option A :=
  match o with Ok (x, _) => Some x | _ => None end.

Lemma state_of_ok {A} (o : outcome (A * world)) x : result_of o = Some x -> o = Ok (x, state_of o).
Proof. destruct o as [[y w]| |]; [|done..]. by intros [= ->]. Qed.

Definition visit_1 : world := state_of (reactor_bootstrap_listener 22409 visit_world).
Definition visit_2 : world := state_of (loop_round 5 visit_1).
Definition visit_3 : world := state_of (loop_round 5 visit_2).
Definition visit_4 : world := state_of (loop_round 5 visit_3).

Lemma visit_run : run 22409 visit_world 1%positive [visit_4; visit_3; visit_2; visit_1].
Proof.
  assert (Hrun : forall w, k_signalled (w_kern w) = false -> running w = Ok (true, w))
    by (intros w E; unfold running; by rewrite E).
  apply (run_round _ _ _ 5 visit_3), (state_of_ok _ true); [|apply Hrun; by vm_compute|by vm_compute].
  apply (run_round _ _ _ 5 visit_2), (state_of_ok _ true); [|apply Hrun; by vm_compute|by vm_compute].
  apply (run_round _ _ _ 5 visit_1), (state_of_ok _ true); [|apply Hrun; by vm_compute|by vm_compute].
  apply (run_start _ _ _ 4), (state_of_ok _ (VR_SUCCESS, Some 1%positive, 4)). by vm_compute.
Qed.

(** Evaluating [uncrowded]. *)
Definition check_spare (w : world) (l : loc) : bool :=
  match w_heap w !! l with
  | Some c => zlen (ring_contents (c_write_buf c)) + 12 <=? 65536
  | None => true
  end.

Lemma check_spare_ok w l : check_spare w l = true -> uncrowded l w.
Proof.
  unfold check_spare, uncrowded, spare. intros E c Hc. rewrite Hc in E.
  pose proof sizeof_header_range. unfold VR_CONNECTION_BUFFER_MAX_SIZE. apply Z.leb_le in E. lia.
Qed.

(** CONNECT, STREAM_OPEN and PING have been answered, and the answers sent. *)
Lemma clients_served_witness :
  exists c pks kept frames, w_heap visit_4 !! 2%positive = Some c /\
    taken (log_of (v_rcvd (view visit_4)) 5) pks (c_parser c) (ring_contents (c_read_buf c)) /\
    kept = answers pks /\ Forall2 frame kept frames /\
    log_of (v_sent (view visit_4)) 5 ++ ring_contents (c_write_buf c) = concat frames /\
    zlen (log_of (v_sent (view visit_4)) 5) = 36.
Proof.
  assert (Hfd : c_fd <$> (w_heap visit_4 !! 2%positive) = Some 5) by (by vm_compute).
  apply fmap_Some in Hfd as (c & Hc & Hfd). exists c.
  destruct (clients_served 22409 visit_world 1%positive visit_4 [visit_3; visit_2; visit_1] 2%positive c)
    as (pks & kept & frames & Ht & _ & _ & Hf & Ho & Hall & _);
    [exact response_allocates|exact visit_idle|exact visit_run|done|exact Hc|].
  destruct Hall as [Hk _]; [by intros n k|left; repeat constructor; apply check_spare_ok; by vm_compute|].
  rewrite <-Hfd in Ht, Ho. exists pks, kept, frames. split_and!; [exact Hc|exact Ht|exact Hk|exact Hf|exact Ho|].
  by vm_compute.
Defined.
End Witness.
