(* ===== verification/Logger.v ===== *)
(** * Logger: src/core/logger.c

    The log file behind [vr_log]: a stdio stream and a mutex.  The stream holds
    characters back until it is flushed, and the library may flush earlier than
    asked; [Stdio] leaves open when.  Using a mutex that does not exist, or
    taking one that is held, is undefined.  The text after the level is what
    [vfprintf] makes of the caller's arguments and is a parameter here. *)

From Stdlib Require Ascii String.
From S2P Require Import Prelude Core.
#[local] Open Scope Z_scope.

Abbreviation text := (list Ascii.ascii).
Definition txt (s : string) : text := String.list_ascii_of_string s.
Definition newline : text := [Ascii.ascii_of_nat 10].

Lemma init_text : txt "INFO: INITIALIZED" = txt "INFO: " ++ txt "INITIALIZED".
Proof. done. Qed.

Lemma ends_line_not_nil s : s ++ newline <> [].
Proof. by intros [_ ?]%app_nil. Qed.

(** Literals stay folded. *)
#[local] Opaque txt newline.

Inductive vr_log_level_t := VR_LOG_INFO | VR_LOG_WARN | VR_LOG_ERROR.

Definition level_int (l : vr_log_level_t) : Z :=
  match l with VR_LOG_INFO => 0 | VR_LOG_WARN => 1 | VR_LOG_ERROR => 2 end.

(** How many of the characters it holds a stream writes out on its own. *)
Class Stdio := { stdio_eager : text -> nat }.

Inductive mutex_t := Mutex_none | Mutex_free | Mutex_held.

(** [log.txt], [log_ptr] with the characters its stream holds back, [log_mutex]
    and what went to stderr. *)
Record logger := Logger {
  lg_disk : text;
  log_ptr : option text;
  log_mutex : mutex_t;
  lg_stderr : text
}.

Definition logger0 (disk : text) : logger := Logger disk None Mutex_none [].

Section Logger.
Context `{Stdio}.

Definition fprintf (s : text) (g : logger) : outcome logger :=
  match log_ptr g with
  | Some held =>
      let held := held ++ s in
      Ok (Logger (lg_disk g ++ take (stdio_eager held) held)
                 (Some (drop (stdio_eager held) held)) (log_mutex g) (lg_stderr g))
  | None => Undef
  end.

Definition fflush (g : logger) : outcome logger :=
  match log_ptr g with
  | Some held => Ok (Logger (lg_disk g ++ held) (Some []) (log_mutex g) (lg_stderr g))
  | None => Undef
  end.

(** [fclose(log_ptr); log_ptr = NULL;] *)
Definition fclose (g : logger) : outcome logger :=
  match log_ptr g with
  | Some held => Ok (Logger (lg_disk g ++ held) None (log_mutex g) (lg_stderr g))
  | None => Undef
  end.

Definition set_mutex (m : mutex_t) (g : logger) : logger :=
  Logger (lg_disk g) (log_ptr g) m (lg_stderr g).

Definition mutex_lock (g : logger) : outcome logger :=
  match log_mutex g with Mutex_free => Ok (set_mutex Mutex_held g) | _ => Undef end.
Definition mutex_unlock (g : logger) : outcome logger :=
  match log_mutex g with Mutex_held => Ok (set_mutex Mutex_free g) | _ => Undef end.
Definition mutex_destroy (g : logger) : outcome logger :=
  match log_mutex g with Mutex_free => Ok (set_mutex Mutex_none g) | _ => Undef end.

Definition complain (s : text) (g : logger) : logger :=
  Logger (lg_disk g) (log_ptr g) (log_mutex g) (lg_stderr g ++ s).

Definition level_prefix (type : Z) : text :=
  if type =? level_int VR_LOG_INFO then txt "INFO: "
  else if type =? level_int VR_LOG_ERROR then txt "ERROR: "
  else if type =? level_int VR_LOG_WARN then txt "WARN: "
  else txt "UNKNOWN: ".

Definition vr_log (type : Z) (msg : text) (g : logger) : outcome logger :=
  match log_ptr g with
  | None => Ok g
  | Some _ =>
      g ← mutex_lock g;
      g ← fprintf (level_prefix type) g;
      g ← fprintf msg g;
      g ← fprintf newline g;
      g ← (if type =? level_int VR_LOG_ERROR then fflush g else Ok g);
      mutex_unlock g
  end.

(** src/core/error.c: the message and the description of errno, as an error. *)
Definition vr_perror (strerror : Z -> text) (msg : text) (errno : Z) : logger -> outcome logger :=
  vr_log (level_int VR_LOG_ERROR) (msg ++ txt ": " ++ strerror errno).

(** [opened] and [made]: whether [fopen] and [pthread_mutex_init] succeed. *)
Definition vr_log_init (opened made : bool) (g : logger) : outcome (vr_result_t * logger) :=
  if negb opened then
    Ok (VR_ERROR, complain (txt "Error while opening log file" ++ newline)
                    (Logger (lg_disk g) None (log_mutex g) (lg_stderr g)))
  else
    let g := Logger (lg_disk g) (Some []) (log_mutex g) (lg_stderr g) in
    if negb made then
      g ← fclose g;
      Ok (VR_ERROR, complain (txt "Error while initializing mutex" ++ newline) g)
    else
      g ← vr_log (level_int VR_LOG_INFO) (txt "INITIALIZED") (set_mutex Mutex_free g);
      Ok (VR_SUCCESS, g).

Definition vr_log_close (g : logger) : outcome logger :=
  match log_ptr g with
  | None => Ok g
  | Some _ =>
      g ← mutex_lock g;
      g ← fflush g;
      g ← fprintf (txt "EXIT" ++ newline) g;
      g ← fclose g;
      g ← mutex_unlock g;
      mutex_destroy g
  end.

(** A run of the program as the log sees it. *)
Fixpoint vr_logs (calls : list (Z * text)) (g : logger) : outcome logger :=
  match calls with
  | [] => Ok g
  | (type, msg) :: calls => g ← vr_log type msg g; vr_logs calls g
  end.

Definition logged (opened made : bool) (calls : list (Z * text)) (g : logger)
    : outcome (vr_result_t * logger) :=
  '(res, g) ← vr_log_init opened made g;
  g ← vr_logs calls g;
  g ← vr_log_close g;
  Ok (res, g).

(** ** Specification *)

Definition line (call : Z * text) : text := level_prefix call.1 ++ call.2 ++ newline.

(** An open log between calls, with everything that was ever printed. *)
Definition log_open (printed : text) (g : logger) : Prop :=
  log_mutex g = Mutex_free /\ exists held, log_ptr g = Some held /\ lg_disk g ++ held = printed.

Lemma fprintf_spec s g held :
  log_ptr g = Some held ->
  exists g' held', fprintf s g = Ok g' /\ log_ptr g' = Some held' /\
    lg_disk g' ++ held' = lg_disk g ++ held ++ s /\
    log_mutex g' = log_mutex g /\ lg_stderr g' = lg_stderr g.
Proof.
  intros E. unfold fprintf. rewrite E. do 2 eexists. split; [done|]. split; [done|].
  split_and!; [|done|done]. simpl. by rewrite <-app_assoc, take_drop.
Qed.

(** One line; after an error nothing is held back. *)
Lemma vr_log_spec type msg g printed :
  log_open printed g ->
  exists g', vr_log type msg g = Ok g' /\ log_open (printed ++ line (type, msg)) g' /\
    lg_stderr g' = lg_stderr g /\
    (type = level_int VR_LOG_ERROR -> lg_disk g' = printed ++ line (type, msg)).
Proof.
  intros (Hm & held & Hp & <-). unfold vr_log. rewrite Hp. unfold mutex_lock. rewrite Hm. ostep.
  set (g0 := set_mutex Mutex_held g).
  destruct (fprintf_spec (level_prefix type) g0 held Hp) as (g1 & h1 & -> & Hp1 & E1 & Hm1 & Hs1). ostep.
  destruct (fprintf_spec msg g1 h1 Hp1) as (g2 & h2 & -> & Hp2 & E2 & Hm2 & Hs2). ostep.
  destruct (fprintf_spec newline g2 h2 Hp2) as (g3 & h3 & -> & Hp3 & E3 & Hm3 & Hs3). ostep.
  assert (Hall : lg_disk g3 ++ h3 = (lg_disk g ++ held) ++ line (type, msg)).
  { rewrite E3, (app_assoc (lg_disk g2)), E2, <-!app_assoc, (app_assoc (lg_disk g1)), E1.
    unfold line. by rewrite <-!app_assoc. }
  assert (Hmut : log_mutex g3 = Mutex_held) by (by rewrite Hm3, Hm2, Hm1).
  assert (Herr : lg_stderr g3 = lg_stderr g) by (by rewrite Hs3, Hs2, Hs1).
  destruct (Z.eqb_spec type (level_int VR_LOG_ERROR)) as [Ht|Ht].
  - unfold fflush. rewrite Hp3. ostep. unfold mutex_unlock. simpl. rewrite Hmut. eexists.
    split; [done|]. split_and!; simpl; [|done|done].
    split; [done|]. exists []. by rewrite app_nil_r.
  - ostep. unfold mutex_unlock. rewrite Hmut. eexists. split; [done|].
    split_and!; simpl; [|done|done]. split; [done|]. by exists h3.
Qed.

Lemma vr_logs_spec calls g printed :
  log_open printed g ->
  exists g', vr_logs calls g = Ok g' /\ log_open (printed ++ concat (line <$> calls)) g' /\
    lg_stderr g' = lg_stderr g.
Proof.
  revert g printed. induction calls as [|[type msg] calls IH]; intros g printed Hg; cbn [vr_logs].
  { exists g. simpl. by rewrite app_nil_r. }
  destruct (vr_log_spec type msg g printed Hg) as (g1 & -> & Hg1 & Hs1 & _). ostep.
  destruct (IH g1 _ Hg1) as (g2 & -> & Hg2 & Hs2). exists g2. rewrite <-app_assoc in Hg2.
  split_and!; [done|done|congruence].
Qed.

(** A log that could not be opened swallows everything. *)
Lemma vr_logs_closed calls g : log_ptr g = None -> vr_logs calls g = Ok g.
Proof.
  intros E. induction calls as [|[type msg] calls IH]; cbn [vr_logs]; [done|].
  unfold vr_log. rewrite E. ostep. exact IH.
Qed.

Lemma vr_log_close_spec g printed :
  log_open printed g ->
  vr_log_close g = Ok (Logger (printed ++ txt "EXIT" ++ newline) None Mutex_none (lg_stderr g)).
Proof.
  intros (Hm & held & Hp & <-). unfold vr_log_close. rewrite Hp. unfold mutex_lock. rewrite Hm. ostep.
  unfold fflush. simpl. rewrite Hp. ostep.
  set (g1 := Logger _ (Some []) _ _).
  destruct (fprintf_spec (txt "EXIT" ++ newline) g1 [] eq_refl) as (g2 & h2 & E & Hp2 & Hd & Hm2 & Hs2).
  rewrite E. ostep.
  unfold fclose. rewrite Hp2. ostep. unfold mutex_unlock. simpl. rewrite Hm2. ostep.
  unfold mutex_destroy. simpl. unfold set_mutex. simpl. by rewrite Hd, Hs2.
Qed.

(** A run that could open its log. *)
Lemma logged_open calls disk :
  logged true true calls (logger0 disk) = Ok (VR_SUCCESS,
    Logger (disk ++ txt "INFO: INITIALIZED" ++ newline ++ concat (line <$> calls)
                 ++ txt "EXIT" ++ newline) None Mutex_none []).
Proof.
  unfold logged, vr_log_init. cbn [negb]. set (g0 := set_mutex _ _).
  assert (Hg0 : log_open disk g0) by (split; [done|]; exists []; by rewrite app_nil_r).
  destruct (vr_log_spec (level_int VR_LOG_INFO) (txt "INITIALIZED") g0 disk Hg0)
    as (g1 & -> & Hg1 & Hs1 & _). ostep.
  destruct (vr_logs_spec calls g1 _ Hg1) as (g2 & -> & Hg2 & Hs2). ostep.
  rewrite (vr_log_close_spec _ _ Hg2). ostep. rewrite Hs2, Hs1. unfold line at 1.
  change (level_prefix (level_int VR_LOG_INFO, txt "INITIALIZED").1) with (txt "INFO: ").
  rewrite init_text.
  cbn [snd]. by rewrite <-!app_assoc.
Qed.

(** One that could not. *)
Lemma logged_failed opened made calls disk :
  opened && made = false ->
  exists err, err <> [] /\
    logged opened made calls (logger0 disk) = Ok (VR_ERROR, Logger disk None Mutex_none err).
Proof.
  intros E. unfold logged, vr_log_init. destruct opened; cbn [negb andb] in *.
  2:{ ostep. rewrite vr_logs_closed by done. ostep.
      eexists. split; [|done]. apply ends_line_not_nil. }
  rewrite E. cbn [negb]. unfold fclose. cbn [log_ptr]. ostep. rewrite vr_logs_closed by done. ostep. simpl.
  rewrite app_nil_r. eexists. split; [|done]. apply ends_line_not_nil.
Qed.

(** Both, as far as the program as a whole is concerned. *)
Lemma logged_spec opened made calls disk :
  exists g, logged opened made calls (logger0 disk) = Ok (if opened && made then VR_SUCCESS else VR_ERROR, g) /\
    log_ptr g = None /\ log_mutex g = Mutex_none /\
    lg_disk g = disk ++
      if opened && made
      then txt "INFO: INITIALIZED" ++ newline ++ concat (line <$> calls) ++ txt "EXIT" ++ newline
      else [].
Proof.
  destruct (opened && made) eqn:E.
  - apply andb_prop in E as [-> ->]. eexists. by rewrite logged_open.
  - destruct (logged_failed opened made calls disk E) as (err & _ & ->). eexists. by rewrite app_nil_r.
Qed.

(** ** Properties *)

(** C32. The log file holds every line, in order, whenever the library flushes.
    If the file can be opened and the mutex made, a run that logs [calls] and
    closes the log appends the start line, the calls' lines and the final line to
    the file, and leaves the stream closed and the mutex destroyed.  If not, the
    run logs nothing, reports on stderr and is otherwise unaffected.  The mutex
    is never misused. *)
Theorem log_file_lines (opened made : bool) (calls : list (Z * text)) (disk : text) :
  if opened && made then
    logged opened made calls (logger0 disk) = Ok (VR_SUCCESS,
      Logger (disk ++ txt "INFO: INITIALIZED" ++ newline ++ concat (line <$> calls)
                   ++ txt "EXIT" ++ newline) None Mutex_none [])
  else exists err, err <> [] /\
    logged opened made calls (logger0 disk) = Ok (VR_ERROR, Logger disk None Mutex_none err).
Proof.
  destruct (opened && made) eqn:E; [|by apply logged_failed].
  apply andb_prop in E as [-> ->]. apply logged_open.
Qed.

(** What [vr_perror] reports is on disk when it returns, together with everything
    logged before. *)
Lemma perror_durable (strerror : Z -> text) (calls : list (Z * text)) (msg : text) (errno : Z) (g : logger)
    (printed : text) :
  log_open printed g ->
  exists g1 g2, vr_logs calls g = Ok g1 /\ vr_perror strerror msg errno g1 = Ok g2 /\
    lg_disk g2 = printed ++ concat (line <$> calls) ++
      txt "ERROR: " ++ msg ++ txt ": " ++ strerror errno ++ newline.
Proof.
  intros Hg. destruct (vr_logs_spec calls g printed Hg) as (g1 & E & Hg1 & _).
  destruct (vr_log_spec (level_int VR_LOG_ERROR) (msg ++ txt ": " ++ strerror errno) g1 _ Hg1)
    as (g2 & E2 & _ & _ & Hd).
  exists g1, g2. split_and!; [done|done|]. rewrite (Hd eq_refl). unfold line at 2. cbn [fst snd].
  change (level_prefix (level_int VR_LOG_ERROR)) with (txt "ERROR: "). by rewrite <-!app_assoc.
Qed.
End Logger.

(** ** The build without [VR_DEBUG]: nothing is logged *)

Definition release_log_init (g : logger) : vr_result_t * logger := (VR_SUCCESS, g).
Definition release_log (type : Z) (msg : text) (g : logger) : logger := g.
Definition release_log_close (g : logger) : logger := g.
