(* ===== verification/Main.v ===== *)
(** * Main: src/main.c

    The program: the signal handlers are installed, the log is opened, the manager
    is set up, the reactor runs until a signal, the log is closed.  Its state is
    the table of handlers, the logger and the state of the server.  That a handler
    ran is what [k_signalled] says; which lines the server logs on its way is a
    parameter, and the theorem holds for all of them: logger and server share no
    state, so the model writes them when the server is through. *)

From S2P Require Import Prelude Core RingBuffer Packet Parser Protocol Connection World Sim.
From S2P Require Import SocketUtils Enqueue Reactor ReactorSpec Scenario EventLoop Logger.
#[local] Open Scope Z_scope.

Definition port : Z := 22409.

(** The bytes of the string literal, with the one that ends it. *)
Definition shutdown_literal : list Z :=
  [83; 104; 117; 116; 100; 111; 119; 110; 32; 114; 101; 113; 117; 101; 115; 116; 101; 100; 10; 0].

(** The signal handler: what it writes to the standard output, and the status
    it leaves. *)
Definition handle_shutdown (status : State) : outcome (list Z * State) :=
  bytes ← slice shutdown_literal 0 20;
  Ok (bytes, SHUTDOWN_REQUESTED).

(** *** Signals *)

Definition SIGINT : Z := 2.
Definition SIGTERM : Z := 15.

(** [struct sigaction]: the handler, the signals held back while it runs, flags. *)
Record sigaction_t := Sigaction {
  sa_handler : State -> outcome (list Z * State);
  sa_mask : gset Z;
  sa_flags : Z
}.

(** The process's table of handlers after [setup_signals]; a signal without an
    entry has its default action. *)
Definition setup_signals (table : gmap Z sigaction_t) : gmap Z sigaction_t :=
  let sa := Sigaction handle_shutdown ∅ 0 in
  <[SIGTERM := sa]> (<[SIGINT := sa]> table).

(** A signal that is delivered: what its handler writes and the status it leaves;
    nothing when it has no handler. *)
Definition deliver (signal : Z) (table : gmap Z sigaction_t) (status : State)
    : option (outcome (list Z * State)) :=
  (fun sa => sa_handler sa status) <$> table !! signal.

(** Both signals request the shutdown, once or many times; the program installs no
    other handler. *)
Lemma shutdown_signals table status signal :
  deliver signal (setup_signals table) status =
  if decide (signal = SIGINT \/ signal = SIGTERM)
  then Some (Ok (shutdown_literal, SHUTDOWN_REQUESTED)) else deliver signal table status.
Proof.
  unfold deliver, setup_signals. destruct (decide _) as [[-> | ->]|Hne].
  - rewrite lookup_insert_ne, lookup_insert_eq by done. done.
  - by rewrite lookup_insert_eq.
  - rewrite !lookup_insert_ne; [done|intros <-; tauto..].
Qed.

(** ** The program *)

Section Main.
Context `{Libc} `{Abi} `{Kernel} `{Stdio}.

Record program := Program {
  pg_handlers : gmap Z sigaction_t;
  pg_logger : logger;
  pg_world : world
}.

(** The manager and the reactor; the results of both calls are ignored. *)
Definition serve (accept_fuel rounds : nat) : io unit :=
  with_mgr (fun _ h p =>
    let '(res, m, p) := vr_connection_manager_init VR_MAX_CONNECTIONS p in Ok (res, m, h, p));;
  vr_reactor_loop accept_fuel rounds port;;
  mret tt.

(** [opened] and [made]: whether the log file can be opened and its mutex made;
    [lines]: what the server logs.  The result of [vr_log_init] is ignored. *)
Definition main (opened made : bool) (lines : list (Z * text)) (accept_fuel rounds : nat) (pg : program)
    : outcome program :=
  let handlers := setup_signals (pg_handlers pg) in
  '(_, g) ← vr_log_init opened made (pg_logger pg);
  '(_, w) ← serve accept_fuel rounds (pg_world pg);
  g ← vr_logs lines g;
  g ← vr_log_close g;
  Ok (Program handlers g w).

(** The blocks [main] never frees: the manager's array, when it was allocated. *)
Definition array_blocks (p : proc) : Z :=
  match vr_connection_manager_init VR_MAX_CONNECTIONS p with
  | (VR_SUCCESS, _, _) => 1
  | _ => 0
  end.

End Main.

Lemma serve_spec `{Libc} `{Abi} `{KernelLaws} (accept_fuel rounds : nat) (w : world) :
  allocates sizeof_vr_packet_t -> w_heap w = ∅ ->
  wlp (serve accept_fuel rounds) (fun _ w' => w_heap w' = ∅ /\ mg_count (w_mgr w') = 0 /\
    p_live (w_proc w') = p_live (w_proc w) + array_blocks (w_proc w)) w.
Proof.
  intros Ha Hh.
  pose proof (manager_init_spec VR_MAX_CONNECTIONS (w_proc w) ∅) as Hi. unfold array_blocks.
  apply wlp_bind. unfold wlp at 1, with_mgr.
  destruct (vr_connection_manager_init VR_MAX_CONNECTIONS (w_proc w)) as [[res m] p] eqn:E.
  assert (Hwf : manager_wf m [] ∅ /\ p_live p = p_live (w_proc w) + match res with VR_SUCCESS => 1 | _ => 0 end).
  { unfold VR_MAX_CONNECTIONS in Hi. specialize (Hi ltac:(lia)). destruct res; [by destruct Hi as (? & _ & ?)|..];
      (destruct Hi as [? ->]; by rewrite Z.add_0_r). }
  destruct Hwf as [Hwf Hl].
  apply wlp_bind. eapply wlp_mono; [apply (reactor_loop_spec Ha)|].
  - split; [exact Hh|exact Hwf].
  - intros r w' (Hh' & Hc' & Hl'). apply wlp_ret. split_and!; [done|done|]. rewrite Hl'. exact Hl.
Qed.

(** ** Property *)

#[local] Opaque txt newline.

(** C23. The whole program, started without connections, is memory safe whatever
    the network and the kernel do and whichever allocations fail, that of a
    response object apart, and whatever lines [lines] it logs on its way; a
    manager whose array cannot be allocated refuses every client and harms
    nothing, and a log that cannot be opened neither.  When it ends, no connection
    is left; what stays allocated is the manager's array, if there is one, which
    nothing frees; SIGINT and SIGTERM have the handler that requests the shutdown;
    the log is closed, its mutex gone, and its file ends with [lines] between the
    lines of its opening and closing. *)
Theorem program_safe `{Libc} `{Abi} `{KernelLaws} `{Stdio} (opened made : bool) (lines : list (Z * text))
  (accept_fuel rounds : nat) (table : gmap Z sigaction_t) (disk : text) (w : world)
  (Ha : allocates sizeof_vr_packet_t) (Hh : w_heap w = ∅) :
  match main opened made lines accept_fuel rounds (Program table (logger0 disk) w) with
  | Ok (Program table' g w') =>
      w_heap w' = ∅ /\ mg_count (w_mgr w') = 0 /\
      p_live (w_proc w') = p_live (w_proc w) + array_blocks (w_proc w) /\
      (forall signal status, signal = SIGINT \/ signal = SIGTERM ->
         deliver signal table' status = Some (Ok (shutdown_literal, SHUTDOWN_REQUESTED))) /\
      log_ptr g = None /\ log_mutex g = Mutex_none /\
      lg_disk g = disk ++
        if opened && made
        then txt "INFO: INITIALIZED" ++ newline ++ concat (line <$> lines) ++ txt "EXIT" ++ newline
        else []
  | Undef => False
  | NoFuel => True
  end.
Proof.
  pose proof (serve_spec accept_fuel rounds w Ha Hh) as Hs. unfold wlp in Hs.
  pose proof (logged_spec opened made lines disk) as (g & E & Hp & Hm & Hd). unfold main, logged in *.
  cbn [pg_logger pg_world pg_handlers].
  destruct (vr_log_init opened made (logger0 disk)) as [[res g1]| |]; [|done..]. cbn in E |- *.
  destruct (serve accept_fuel rounds w) as [[[] w']| |]; [|done..]. destruct Hs as (Hh' & Hc' & Hl').
  cbn in E |- *. destruct (vr_logs lines g1) as [g2| |]; [|done..]. cbn in E |- *.
  destruct (vr_log_close g2) as [g3| |]; [|done..]. injection E as _ ->. cbn.
  split_and!; try done. intros signal status Hsig.
  etransitivity; [apply (shutdown_signals table)|by rewrite decide_True].
Qed.

(** ** Witness *)

Section Witness.
#[local] Existing Instance sim_kernel.
#[local] Existing Instance sim_laws.
#[local] Instance libc_170 : Libc := libc_fill 170.
#[local] Existing Instance gcc_abi.

Definition start_world : world :=
  World (visit : kst) (Proc 0 0 0) ∅ (Manager None 0 0) (Reactor (-1) [] 0).

#[local] Instance stdio_eager_4 : Stdio := {| stdio_eager := fun _ => 4%nat |}.

(** One client comes and goes; the lines are in the file. *)
Lemma program_safe_witness :
  match main true true [(0, txt "up")] 5 10 (Program ∅ (logger0 []) start_world) with
  | Ok (Program table g w') => w_heap w' = ∅ /\ mg_count (w_mgr w') = 0 /\
      lg_disk g = txt "INFO: INITIALIZED" ++ newline ++ line (0, txt "up") ++ txt "EXIT" ++ newline
  | Undef => False
  | NoFuel => True
  end.
Proof.
  assert (Ha : allocates sizeof_vr_packet_t) by apply libc_fill_allocates.
  pose proof (program_safe true true [(0, txt "up")] 5 10 ∅ [] start_world Ha eq_refl) as Hs.
  destruct (main _ _ _ _ _ _) as [[table g w']| |]; [|exact Hs..].
  destruct Hs as (Hh & Hc & _ & _ & _ & _ & Hd). split_and!; [exact Hh|exact Hc|exact Hd].
Defined.
End Witness.
