(* ===== verification/Vmlinux.v ===== *)
(** * Vmlinux: the kernel types of ebpf-learning/xdp/vmlinux.h the eBPF programs meet

    [vmlinux.h] is the dump of every type of the running kernel.  Modelled here are
    the types an eBPF program, its loader and its packets consist of: the bpf
    system call (commands, kinds of map, program, attachment and link, helper
    numbers, [union bpf_attr]), the contexts and objects the helpers work on, and
    the packet headers up to the transport layer.  Enums are inductive types with
    the enumerators of the source and their values; a struct or union is a [ctype]
    with the members of the source in their order, named [struct_<tag>] or
    [union_<tag>]. *)

From S2P Require Import Prelude CType.
#[local] Open Scope Z_scope.

(** ** Integer types *)

Definition __u8 : ctype := uint8.
Definition __s16 : ctype := int16.
Definition __s32 : ctype := int32.
Definition __u32 : ctype := uint32.
Definition __u16 : ctype := uint16.
Definition __be16 : ctype := __u16.
Definition __u64 : ctype := uint64.
Definition __be32 : ctype := __u32.
Definition __sum16 : ctype := __u16.
Definition __kernel_sa_family_t : ctype := uint16.

(** ** The bpf system call and the eBPF run time *)

(** What [bpf(2)] is asked to do. *)
Inductive bpf_cmd :=
| BPF_MAP_CREATE | BPF_MAP_LOOKUP_ELEM | BPF_MAP_UPDATE_ELEM | BPF_MAP_DELETE_ELEM
| BPF_MAP_GET_NEXT_KEY | BPF_PROG_LOAD | BPF_OBJ_PIN | BPF_OBJ_GET | BPF_PROG_ATTACH | BPF_PROG_DETACH
| BPF_PROG_TEST_RUN | BPF_PROG_RUN | BPF_PROG_GET_NEXT_ID | BPF_MAP_GET_NEXT_ID | BPF_PROG_GET_FD_BY_ID
| BPF_MAP_GET_FD_BY_ID | BPF_OBJ_GET_INFO_BY_FD | BPF_PROG_QUERY | BPF_RAW_TRACEPOINT_OPEN
| BPF_BTF_LOAD | BPF_BTF_GET_FD_BY_ID | BPF_TASK_FD_QUERY | BPF_MAP_LOOKUP_AND_DELETE_ELEM
| BPF_MAP_FREEZE | BPF_BTF_GET_NEXT_ID | BPF_MAP_LOOKUP_BATCH | BPF_MAP_LOOKUP_AND_DELETE_BATCH
| BPF_MAP_UPDATE_BATCH | BPF_MAP_DELETE_BATCH | BPF_LINK_CREATE | BPF_LINK_UPDATE
| BPF_LINK_GET_FD_BY_ID | BPF_LINK_GET_NEXT_ID | BPF_ENABLE_STATS | BPF_ITER_CREATE | BPF_LINK_DETACH
| BPF_PROG_BIND_MAP.

#[global] Instance bpf_cmd_enum : CEnum bpf_cmd := {
  enum_value e := match e with
    | BPF_MAP_CREATE => 0 | BPF_MAP_LOOKUP_ELEM => 1 | BPF_MAP_UPDATE_ELEM => 2
    | BPF_MAP_DELETE_ELEM => 3 | BPF_MAP_GET_NEXT_KEY => 4 | BPF_PROG_LOAD => 5 | BPF_OBJ_PIN => 6
    | BPF_OBJ_GET => 7 | BPF_PROG_ATTACH => 8 | BPF_PROG_DETACH => 9 | BPF_PROG_TEST_RUN => 10
    | BPF_PROG_RUN => 10 | BPF_PROG_GET_NEXT_ID => 11 | BPF_MAP_GET_NEXT_ID => 12
    | BPF_PROG_GET_FD_BY_ID => 13 | BPF_MAP_GET_FD_BY_ID => 14 | BPF_OBJ_GET_INFO_BY_FD => 15
    | BPF_PROG_QUERY => 16 | BPF_RAW_TRACEPOINT_OPEN => 17 | BPF_BTF_LOAD => 18
    | BPF_BTF_GET_FD_BY_ID => 19 | BPF_TASK_FD_QUERY => 20 | BPF_MAP_LOOKUP_AND_DELETE_ELEM => 21
    | BPF_MAP_FREEZE => 22 | BPF_BTF_GET_NEXT_ID => 23 | BPF_MAP_LOOKUP_BATCH => 24
    | BPF_MAP_LOOKUP_AND_DELETE_BATCH => 25 | BPF_MAP_UPDATE_BATCH => 26 | BPF_MAP_DELETE_BATCH => 27
    | BPF_LINK_CREATE => 28 | BPF_LINK_UPDATE => 29 | BPF_LINK_GET_FD_BY_ID => 30
    | BPF_LINK_GET_NEXT_ID => 31 | BPF_ENABLE_STATS => 32 | BPF_ITER_CREATE => 33
    | BPF_LINK_DETACH => 34 | BPF_PROG_BIND_MAP => 35
    end;
  enumerators :=
    [BPF_MAP_CREATE; BPF_MAP_LOOKUP_ELEM; BPF_MAP_UPDATE_ELEM; BPF_MAP_DELETE_ELEM;
     BPF_MAP_GET_NEXT_KEY; BPF_PROG_LOAD; BPF_OBJ_PIN; BPF_OBJ_GET; BPF_PROG_ATTACH; BPF_PROG_DETACH;
     BPF_PROG_TEST_RUN; BPF_PROG_RUN; BPF_PROG_GET_NEXT_ID; BPF_MAP_GET_NEXT_ID; BPF_PROG_GET_FD_BY_ID;
     BPF_MAP_GET_FD_BY_ID; BPF_OBJ_GET_INFO_BY_FD; BPF_PROG_QUERY; BPF_RAW_TRACEPOINT_OPEN;
     BPF_BTF_LOAD; BPF_BTF_GET_FD_BY_ID; BPF_TASK_FD_QUERY; BPF_MAP_LOOKUP_AND_DELETE_ELEM;
     BPF_MAP_FREEZE; BPF_BTF_GET_NEXT_ID; BPF_MAP_LOOKUP_BATCH; BPF_MAP_LOOKUP_AND_DELETE_BATCH;
     BPF_MAP_UPDATE_BATCH; BPF_MAP_DELETE_BATCH; BPF_LINK_CREATE; BPF_LINK_UPDATE;
     BPF_LINK_GET_FD_BY_ID; BPF_LINK_GET_NEXT_ID; BPF_ENABLE_STATS; BPF_ITER_CREATE; BPF_LINK_DETACH;
     BPF_PROG_BIND_MAP]
}.

(** The kinds of map; [hello.ebpf.c] declares a [BPF_MAP_TYPE_HASH]. *)
Inductive bpf_map_type :=
| BPF_MAP_TYPE_UNSPEC | BPF_MAP_TYPE_HASH | BPF_MAP_TYPE_ARRAY | BPF_MAP_TYPE_PROG_ARRAY
| BPF_MAP_TYPE_PERF_EVENT_ARRAY | BPF_MAP_TYPE_PERCPU_HASH | BPF_MAP_TYPE_PERCPU_ARRAY
| BPF_MAP_TYPE_STACK_TRACE | BPF_MAP_TYPE_CGROUP_ARRAY | BPF_MAP_TYPE_LRU_HASH
| BPF_MAP_TYPE_LRU_PERCPU_HASH | BPF_MAP_TYPE_LPM_TRIE | BPF_MAP_TYPE_ARRAY_OF_MAPS
| BPF_MAP_TYPE_HASH_OF_MAPS | BPF_MAP_TYPE_DEVMAP | BPF_MAP_TYPE_SOCKMAP | BPF_MAP_TYPE_CPUMAP
| BPF_MAP_TYPE_XSKMAP | BPF_MAP_TYPE_SOCKHASH | BPF_MAP_TYPE_CGROUP_STORAGE_DEPRECATED
| BPF_MAP_TYPE_CGROUP_STORAGE | BPF_MAP_TYPE_REUSEPORT_SOCKARRAY
| BPF_MAP_TYPE_PERCPU_CGROUP_STORAGE_DEPRECATED | BPF_MAP_TYPE_PERCPU_CGROUP_STORAGE
| BPF_MAP_TYPE_QUEUE | BPF_MAP_TYPE_STACK | BPF_MAP_TYPE_SK_STORAGE | BPF_MAP_TYPE_DEVMAP_HASH
| BPF_MAP_TYPE_STRUCT_OPS | BPF_MAP_TYPE_RINGBUF | BPF_MAP_TYPE_INODE_STORAGE
| BPF_MAP_TYPE_TASK_STORAGE | BPF_MAP_TYPE_BLOOM_FILTER | BPF_MAP_TYPE_USER_RINGBUF
| BPF_MAP_TYPE_CGRP_STORAGE.

#[global] Instance bpf_map_type_enum : CEnum bpf_map_type := {
  enum_value e := match e with
    | BPF_MAP_TYPE_UNSPEC => 0 | BPF_MAP_TYPE_HASH => 1 | BPF_MAP_TYPE_ARRAY => 2
    | BPF_MAP_TYPE_PROG_ARRAY => 3 | BPF_MAP_TYPE_PERF_EVENT_ARRAY => 4 | BPF_MAP_TYPE_PERCPU_HASH => 5
    | BPF_MAP_TYPE_PERCPU_ARRAY => 6 | BPF_MAP_TYPE_STACK_TRACE => 7 | BPF_MAP_TYPE_CGROUP_ARRAY => 8
    | BPF_MAP_TYPE_LRU_HASH => 9 | BPF_MAP_TYPE_LRU_PERCPU_HASH => 10 | BPF_MAP_TYPE_LPM_TRIE => 11
    | BPF_MAP_TYPE_ARRAY_OF_MAPS => 12 | BPF_MAP_TYPE_HASH_OF_MAPS => 13 | BPF_MAP_TYPE_DEVMAP => 14
    | BPF_MAP_TYPE_SOCKMAP => 15 | BPF_MAP_TYPE_CPUMAP => 16 | BPF_MAP_TYPE_XSKMAP => 17
    | BPF_MAP_TYPE_SOCKHASH => 18 | BPF_MAP_TYPE_CGROUP_STORAGE_DEPRECATED => 19
    | BPF_MAP_TYPE_CGROUP_STORAGE => 19 | BPF_MAP_TYPE_REUSEPORT_SOCKARRAY => 20
    | BPF_MAP_TYPE_PERCPU_CGROUP_STORAGE_DEPRECATED => 21 | BPF_MAP_TYPE_PERCPU_CGROUP_STORAGE => 21
    | BPF_MAP_TYPE_QUEUE => 22 | BPF_MAP_TYPE_STACK => 23 | BPF_MAP_TYPE_SK_STORAGE => 24
    | BPF_MAP_TYPE_DEVMAP_HASH => 25 | BPF_MAP_TYPE_STRUCT_OPS => 26 | BPF_MAP_TYPE_RINGBUF => 27
    | BPF_MAP_TYPE_INODE_STORAGE => 28 | BPF_MAP_TYPE_TASK_STORAGE => 29
    | BPF_MAP_TYPE_BLOOM_FILTER => 30 | BPF_MAP_TYPE_USER_RINGBUF => 31
    | BPF_MAP_TYPE_CGRP_STORAGE => 32
    end;
  enumerators :=
    [BPF_MAP_TYPE_UNSPEC; BPF_MAP_TYPE_HASH; BPF_MAP_TYPE_ARRAY; BPF_MAP_TYPE_PROG_ARRAY;
     BPF_MAP_TYPE_PERF_EVENT_ARRAY; BPF_MAP_TYPE_PERCPU_HASH; BPF_MAP_TYPE_PERCPU_ARRAY;
     BPF_MAP_TYPE_STACK_TRACE; BPF_MAP_TYPE_CGROUP_ARRAY; BPF_MAP_TYPE_LRU_HASH;
     BPF_MAP_TYPE_LRU_PERCPU_HASH; BPF_MAP_TYPE_LPM_TRIE; BPF_MAP_TYPE_ARRAY_OF_MAPS;
     BPF_MAP_TYPE_HASH_OF_MAPS; BPF_MAP_TYPE_DEVMAP; BPF_MAP_TYPE_SOCKMAP; BPF_MAP_TYPE_CPUMAP;
     BPF_MAP_TYPE_XSKMAP; BPF_MAP_TYPE_SOCKHASH; BPF_MAP_TYPE_CGROUP_STORAGE_DEPRECATED;
     BPF_MAP_TYPE_CGROUP_STORAGE; BPF_MAP_TYPE_REUSEPORT_SOCKARRAY;
     BPF_MAP_TYPE_PERCPU_CGROUP_STORAGE_DEPRECATED; BPF_MAP_TYPE_PERCPU_CGROUP_STORAGE;
     BPF_MAP_TYPE_QUEUE; BPF_MAP_TYPE_STACK; BPF_MAP_TYPE_SK_STORAGE; BPF_MAP_TYPE_DEVMAP_HASH;
     BPF_MAP_TYPE_STRUCT_OPS; BPF_MAP_TYPE_RINGBUF; BPF_MAP_TYPE_INODE_STORAGE;
     BPF_MAP_TYPE_TASK_STORAGE; BPF_MAP_TYPE_BLOOM_FILTER; BPF_MAP_TYPE_USER_RINGBUF;
     BPF_MAP_TYPE_CGRP_STORAGE]
}.

(** The kinds of program; [xdp.bpf.c] is loaded as [BPF_PROG_TYPE_XDP], [hello.ebpf.c] as
    [BPF_PROG_TYPE_TRACEPOINT]. *)
Inductive bpf_prog_type :=
| BPF_PROG_TYPE_UNSPEC | BPF_PROG_TYPE_SOCKET_FILTER | BPF_PROG_TYPE_KPROBE | BPF_PROG_TYPE_SCHED_CLS
| BPF_PROG_TYPE_SCHED_ACT | BPF_PROG_TYPE_TRACEPOINT | BPF_PROG_TYPE_XDP | BPF_PROG_TYPE_PERF_EVENT
| BPF_PROG_TYPE_CGROUP_SKB | BPF_PROG_TYPE_CGROUP_SOCK | BPF_PROG_TYPE_LWT_IN | BPF_PROG_TYPE_LWT_OUT
| BPF_PROG_TYPE_LWT_XMIT | BPF_PROG_TYPE_SOCK_OPS | BPF_PROG_TYPE_SK_SKB | BPF_PROG_TYPE_CGROUP_DEVICE
| BPF_PROG_TYPE_SK_MSG | BPF_PROG_TYPE_RAW_TRACEPOINT | BPF_PROG_TYPE_CGROUP_SOCK_ADDR
| BPF_PROG_TYPE_LWT_SEG6LOCAL | BPF_PROG_TYPE_LIRC_MODE2 | BPF_PROG_TYPE_SK_REUSEPORT
| BPF_PROG_TYPE_FLOW_DISSECTOR | BPF_PROG_TYPE_CGROUP_SYSCTL | BPF_PROG_TYPE_RAW_TRACEPOINT_WRITABLE
| BPF_PROG_TYPE_CGROUP_SOCKOPT | BPF_PROG_TYPE_TRACING | BPF_PROG_TYPE_STRUCT_OPS | BPF_PROG_TYPE_EXT
| BPF_PROG_TYPE_LSM | BPF_PROG_TYPE_SK_LOOKUP | BPF_PROG_TYPE_SYSCALL | BPF_PROG_TYPE_NETFILTER
| __MAX_BPF_PROG_TYPE.

#[global] Instance bpf_prog_type_enum : CEnum bpf_prog_type := {
  enum_value e := match e with
    | BPF_PROG_TYPE_UNSPEC => 0 | BPF_PROG_TYPE_SOCKET_FILTER => 1 | BPF_PROG_TYPE_KPROBE => 2
    | BPF_PROG_TYPE_SCHED_CLS => 3 | BPF_PROG_TYPE_SCHED_ACT => 4 | BPF_PROG_TYPE_TRACEPOINT => 5
    | BPF_PROG_TYPE_XDP => 6 | BPF_PROG_TYPE_PERF_EVENT => 7 | BPF_PROG_TYPE_CGROUP_SKB => 8
    | BPF_PROG_TYPE_CGROUP_SOCK => 9 | BPF_PROG_TYPE_LWT_IN => 10 | BPF_PROG_TYPE_LWT_OUT => 11
    | BPF_PROG_TYPE_LWT_XMIT => 12 | BPF_PROG_TYPE_SOCK_OPS => 13 | BPF_PROG_TYPE_SK_SKB => 14
    | BPF_PROG_TYPE_CGROUP_DEVICE => 15 | BPF_PROG_TYPE_SK_MSG => 16
    | BPF_PROG_TYPE_RAW_TRACEPOINT => 17 | BPF_PROG_TYPE_CGROUP_SOCK_ADDR => 18
    | BPF_PROG_TYPE_LWT_SEG6LOCAL => 19 | BPF_PROG_TYPE_LIRC_MODE2 => 20
    | BPF_PROG_TYPE_SK_REUSEPORT => 21 | BPF_PROG_TYPE_FLOW_DISSECTOR => 22
    | BPF_PROG_TYPE_CGROUP_SYSCTL => 23 | BPF_PROG_TYPE_RAW_TRACEPOINT_WRITABLE => 24
    | BPF_PROG_TYPE_CGROUP_SOCKOPT => 25 | BPF_PROG_TYPE_TRACING => 26 | BPF_PROG_TYPE_STRUCT_OPS => 27
    | BPF_PROG_TYPE_EXT => 28 | BPF_PROG_TYPE_LSM => 29 | BPF_PROG_TYPE_SK_LOOKUP => 30
    | BPF_PROG_TYPE_SYSCALL => 31 | BPF_PROG_TYPE_NETFILTER => 32 | __MAX_BPF_PROG_TYPE => 33
    end;
  enumerators :=
    [BPF_PROG_TYPE_UNSPEC; BPF_PROG_TYPE_SOCKET_FILTER; BPF_PROG_TYPE_KPROBE; BPF_PROG_TYPE_SCHED_CLS;
     BPF_PROG_TYPE_SCHED_ACT; BPF_PROG_TYPE_TRACEPOINT; BPF_PROG_TYPE_XDP; BPF_PROG_TYPE_PERF_EVENT;
     BPF_PROG_TYPE_CGROUP_SKB; BPF_PROG_TYPE_CGROUP_SOCK; BPF_PROG_TYPE_LWT_IN; BPF_PROG_TYPE_LWT_OUT;
     BPF_PROG_TYPE_LWT_XMIT; BPF_PROG_TYPE_SOCK_OPS; BPF_PROG_TYPE_SK_SKB; BPF_PROG_TYPE_CGROUP_DEVICE;
     BPF_PROG_TYPE_SK_MSG; BPF_PROG_TYPE_RAW_TRACEPOINT; BPF_PROG_TYPE_CGROUP_SOCK_ADDR;
     BPF_PROG_TYPE_LWT_SEG6LOCAL; BPF_PROG_TYPE_LIRC_MODE2; BPF_PROG_TYPE_SK_REUSEPORT;
     BPF_PROG_TYPE_FLOW_DISSECTOR; BPF_PROG_TYPE_CGROUP_SYSCTL; BPF_PROG_TYPE_RAW_TRACEPOINT_WRITABLE;
     BPF_PROG_TYPE_CGROUP_SOCKOPT; BPF_PROG_TYPE_TRACING; BPF_PROG_TYPE_STRUCT_OPS; BPF_PROG_TYPE_EXT;
     BPF_PROG_TYPE_LSM; BPF_PROG_TYPE_SK_LOOKUP; BPF_PROG_TYPE_SYSCALL; BPF_PROG_TYPE_NETFILTER;
     __MAX_BPF_PROG_TYPE]
}.

(** Where a program is attached. *)
Inductive bpf_attach_type :=
| BPF_CGROUP_INET_INGRESS | BPF_CGROUP_INET_EGRESS | BPF_CGROUP_INET_SOCK_CREATE | BPF_CGROUP_SOCK_OPS
| BPF_SK_SKB_STREAM_PARSER | BPF_SK_SKB_STREAM_VERDICT | BPF_CGROUP_DEVICE | BPF_SK_MSG_VERDICT
| BPF_CGROUP_INET4_BIND | BPF_CGROUP_INET6_BIND | BPF_CGROUP_INET4_CONNECT | BPF_CGROUP_INET6_CONNECT
| BPF_CGROUP_INET4_POST_BIND | BPF_CGROUP_INET6_POST_BIND | BPF_CGROUP_UDP4_SENDMSG
| BPF_CGROUP_UDP6_SENDMSG | BPF_LIRC_MODE2 | BPF_FLOW_DISSECTOR | BPF_CGROUP_SYSCTL
| BPF_CGROUP_UDP4_RECVMSG | BPF_CGROUP_UDP6_RECVMSG | BPF_CGROUP_GETSOCKOPT | BPF_CGROUP_SETSOCKOPT
| BPF_TRACE_RAW_TP | BPF_TRACE_FENTRY | BPF_TRACE_FEXIT | BPF_MODIFY_RETURN | BPF_LSM_MAC
| BPF_TRACE_ITER | BPF_CGROUP_INET4_GETPEERNAME | BPF_CGROUP_INET6_GETPEERNAME
| BPF_CGROUP_INET4_GETSOCKNAME | BPF_CGROUP_INET6_GETSOCKNAME | BPF_XDP_DEVMAP
| BPF_CGROUP_INET_SOCK_RELEASE | BPF_XDP_CPUMAP | BPF_SK_LOOKUP | BPF_XDP | BPF_SK_SKB_VERDICT
| BPF_SK_REUSEPORT_SELECT | BPF_SK_REUSEPORT_SELECT_OR_MIGRATE | BPF_PERF_EVENT | BPF_TRACE_KPROBE_MULTI
| BPF_LSM_CGROUP | BPF_STRUCT_OPS | BPF_NETFILTER | BPF_TCX_INGRESS | BPF_TCX_EGRESS
| BPF_TRACE_UPROBE_MULTI | BPF_CGROUP_UNIX_CONNECT | BPF_CGROUP_UNIX_SENDMSG | BPF_CGROUP_UNIX_RECVMSG
| BPF_CGROUP_UNIX_GETPEERNAME | BPF_CGROUP_UNIX_GETSOCKNAME | BPF_NETKIT_PRIMARY | BPF_NETKIT_PEER
| __MAX_BPF_ATTACH_TYPE.

#[global] Instance bpf_attach_type_enum : CEnum bpf_attach_type := {
  enum_value e := match e with
    | BPF_CGROUP_INET_INGRESS => 0 | BPF_CGROUP_INET_EGRESS => 1 | BPF_CGROUP_INET_SOCK_CREATE => 2
    | BPF_CGROUP_SOCK_OPS => 3 | BPF_SK_SKB_STREAM_PARSER => 4 | BPF_SK_SKB_STREAM_VERDICT => 5
    | BPF_CGROUP_DEVICE => 6 | BPF_SK_MSG_VERDICT => 7 | BPF_CGROUP_INET4_BIND => 8
    | BPF_CGROUP_INET6_BIND => 9 | BPF_CGROUP_INET4_CONNECT => 10 | BPF_CGROUP_INET6_CONNECT => 11
    | BPF_CGROUP_INET4_POST_BIND => 12 | BPF_CGROUP_INET6_POST_BIND => 13
    | BPF_CGROUP_UDP4_SENDMSG => 14 | BPF_CGROUP_UDP6_SENDMSG => 15 | BPF_LIRC_MODE2 => 16
    | BPF_FLOW_DISSECTOR => 17 | BPF_CGROUP_SYSCTL => 18 | BPF_CGROUP_UDP4_RECVMSG => 19
    | BPF_CGROUP_UDP6_RECVMSG => 20 | BPF_CGROUP_GETSOCKOPT => 21 | BPF_CGROUP_SETSOCKOPT => 22
    | BPF_TRACE_RAW_TP => 23 | BPF_TRACE_FENTRY => 24 | BPF_TRACE_FEXIT => 25 | BPF_MODIFY_RETURN => 26
    | BPF_LSM_MAC => 27 | BPF_TRACE_ITER => 28 | BPF_CGROUP_INET4_GETPEERNAME => 29
    | BPF_CGROUP_INET6_GETPEERNAME => 30 | BPF_CGROUP_INET4_GETSOCKNAME => 31
    | BPF_CGROUP_INET6_GETSOCKNAME => 32 | BPF_XDP_DEVMAP => 33 | BPF_CGROUP_INET_SOCK_RELEASE => 34
    | BPF_XDP_CPUMAP => 35 | BPF_SK_LOOKUP => 36 | BPF_XDP => 37 | BPF_SK_SKB_VERDICT => 38
    | BPF_SK_REUSEPORT_SELECT => 39 | BPF_SK_REUSEPORT_SELECT_OR_MIGRATE => 40 | BPF_PERF_EVENT => 41
    | BPF_TRACE_KPROBE_MULTI => 42 | BPF_LSM_CGROUP => 43 | BPF_STRUCT_OPS => 44 | BPF_NETFILTER => 45
    | BPF_TCX_INGRESS => 46 | BPF_TCX_EGRESS => 47 | BPF_TRACE_UPROBE_MULTI => 48
    | BPF_CGROUP_UNIX_CONNECT => 49 | BPF_CGROUP_UNIX_SENDMSG => 50 | BPF_CGROUP_UNIX_RECVMSG => 51
    | BPF_CGROUP_UNIX_GETPEERNAME => 52 | BPF_CGROUP_UNIX_GETSOCKNAME => 53 | BPF_NETKIT_PRIMARY => 54
    | BPF_NETKIT_PEER => 55 | __MAX_BPF_ATTACH_TYPE => 56
    end;
  enumerators :=
    [BPF_CGROUP_INET_INGRESS; BPF_CGROUP_INET_EGRESS; BPF_CGROUP_INET_SOCK_CREATE; BPF_CGROUP_SOCK_OPS;
     BPF_SK_SKB_STREAM_PARSER; BPF_SK_SKB_STREAM_VERDICT; BPF_CGROUP_DEVICE; BPF_SK_MSG_VERDICT;
     BPF_CGROUP_INET4_BIND; BPF_CGROUP_INET6_BIND; BPF_CGROUP_INET4_CONNECT; BPF_CGROUP_INET6_CONNECT;
     BPF_CGROUP_INET4_POST_BIND; BPF_CGROUP_INET6_POST_BIND; BPF_CGROUP_UDP4_SENDMSG;
     BPF_CGROUP_UDP6_SENDMSG; BPF_LIRC_MODE2; BPF_FLOW_DISSECTOR; BPF_CGROUP_SYSCTL;
     BPF_CGROUP_UDP4_RECVMSG; BPF_CGROUP_UDP6_RECVMSG; BPF_CGROUP_GETSOCKOPT; BPF_CGROUP_SETSOCKOPT;
     BPF_TRACE_RAW_TP; BPF_TRACE_FENTRY; BPF_TRACE_FEXIT; BPF_MODIFY_RETURN; BPF_LSM_MAC;
     BPF_TRACE_ITER; BPF_CGROUP_INET4_GETPEERNAME; BPF_CGROUP_INET6_GETPEERNAME;
     BPF_CGROUP_INET4_GETSOCKNAME; BPF_CGROUP_INET6_GETSOCKNAME; BPF_XDP_DEVMAP;
     BPF_CGROUP_INET_SOCK_RELEASE; BPF_XDP_CPUMAP; BPF_SK_LOOKUP; BPF_XDP; BPF_SK_SKB_VERDICT;
     BPF_SK_REUSEPORT_SELECT; BPF_SK_REUSEPORT_SELECT_OR_MIGRATE; BPF_PERF_EVENT;
     BPF_TRACE_KPROBE_MULTI; BPF_LSM_CGROUP; BPF_STRUCT_OPS; BPF_NETFILTER; BPF_TCX_INGRESS;
     BPF_TCX_EGRESS; BPF_TRACE_UPROBE_MULTI; BPF_CGROUP_UNIX_CONNECT; BPF_CGROUP_UNIX_SENDMSG;
     BPF_CGROUP_UNIX_RECVMSG; BPF_CGROUP_UNIX_GETPEERNAME; BPF_CGROUP_UNIX_GETSOCKNAME;
     BPF_NETKIT_PRIMARY; BPF_NETKIT_PEER; __MAX_BPF_ATTACH_TYPE]
}.

Inductive bpf_link_type :=
| BPF_LINK_TYPE_UNSPEC | BPF_LINK_TYPE_RAW_TRACEPOINT | BPF_LINK_TYPE_TRACING | BPF_LINK_TYPE_CGROUP
| BPF_LINK_TYPE_ITER | BPF_LINK_TYPE_NETNS | BPF_LINK_TYPE_XDP | BPF_LINK_TYPE_PERF_EVENT
| BPF_LINK_TYPE_KPROBE_MULTI | BPF_LINK_TYPE_STRUCT_OPS | BPF_LINK_TYPE_NETFILTER | BPF_LINK_TYPE_TCX
| BPF_LINK_TYPE_UPROBE_MULTI | BPF_LINK_TYPE_NETKIT | __MAX_BPF_LINK_TYPE.

#[global] Instance bpf_link_type_enum : CEnum bpf_link_type := {
  enum_value e := match e with
    | BPF_LINK_TYPE_UNSPEC => 0 | BPF_LINK_TYPE_RAW_TRACEPOINT => 1 | BPF_LINK_TYPE_TRACING => 2
    | BPF_LINK_TYPE_CGROUP => 3 | BPF_LINK_TYPE_ITER => 4 | BPF_LINK_TYPE_NETNS => 5
    | BPF_LINK_TYPE_XDP => 6 | BPF_LINK_TYPE_PERF_EVENT => 7 | BPF_LINK_TYPE_KPROBE_MULTI => 8
    | BPF_LINK_TYPE_STRUCT_OPS => 9 | BPF_LINK_TYPE_NETFILTER => 10 | BPF_LINK_TYPE_TCX => 11
    | BPF_LINK_TYPE_UPROBE_MULTI => 12 | BPF_LINK_TYPE_NETKIT => 13 | __MAX_BPF_LINK_TYPE => 14
    end;
  enumerators :=
    [BPF_LINK_TYPE_UNSPEC; BPF_LINK_TYPE_RAW_TRACEPOINT; BPF_LINK_TYPE_TRACING; BPF_LINK_TYPE_CGROUP;
     BPF_LINK_TYPE_ITER; BPF_LINK_TYPE_NETNS; BPF_LINK_TYPE_XDP; BPF_LINK_TYPE_PERF_EVENT;
     BPF_LINK_TYPE_KPROBE_MULTI; BPF_LINK_TYPE_STRUCT_OPS; BPF_LINK_TYPE_NETFILTER; BPF_LINK_TYPE_TCX;
     BPF_LINK_TYPE_UPROBE_MULTI; BPF_LINK_TYPE_NETKIT; __MAX_BPF_LINK_TYPE]
}.

(** The helper functions by number.  The two programs call [bpf_map_lookup_elem],
    [bpf_map_update_elem], [bpf_trace_printk] and [bpf_get_current_pid_tgid]. *)
Inductive bpf_func_id :=
| BPF_FUNC_unspec | BPF_FUNC_map_lookup_elem | BPF_FUNC_map_update_elem | BPF_FUNC_map_delete_elem
| BPF_FUNC_probe_read | BPF_FUNC_ktime_get_ns | BPF_FUNC_trace_printk | BPF_FUNC_get_prandom_u32
| BPF_FUNC_get_smp_processor_id | BPF_FUNC_skb_store_bytes | BPF_FUNC_l3_csum_replace
| BPF_FUNC_l4_csum_replace | BPF_FUNC_tail_call | BPF_FUNC_clone_redirect
| BPF_FUNC_get_current_pid_tgid | BPF_FUNC_get_current_uid_gid | BPF_FUNC_get_current_comm
| BPF_FUNC_get_cgroup_classid | BPF_FUNC_skb_vlan_push | BPF_FUNC_skb_vlan_pop
| BPF_FUNC_skb_get_tunnel_key | BPF_FUNC_skb_set_tunnel_key | BPF_FUNC_perf_event_read
| BPF_FUNC_redirect | BPF_FUNC_get_route_realm | BPF_FUNC_perf_event_output | BPF_FUNC_skb_load_bytes
| BPF_FUNC_get_stackid | BPF_FUNC_csum_diff | BPF_FUNC_skb_get_tunnel_opt | BPF_FUNC_skb_set_tunnel_opt
| BPF_FUNC_skb_change_proto | BPF_FUNC_skb_change_type | BPF_FUNC_skb_under_cgroup
| BPF_FUNC_get_hash_recalc | BPF_FUNC_get_current_task | BPF_FUNC_probe_write_user
| BPF_FUNC_current_task_under_cgroup | BPF_FUNC_skb_change_tail | BPF_FUNC_skb_pull_data
| BPF_FUNC_csum_update | BPF_FUNC_set_hash_invalid | BPF_FUNC_get_numa_node_id
| BPF_FUNC_skb_change_head | BPF_FUNC_xdp_adjust_head | BPF_FUNC_probe_read_str
| BPF_FUNC_get_socket_cookie | BPF_FUNC_get_socket_uid | BPF_FUNC_set_hash | BPF_FUNC_setsockopt
| BPF_FUNC_skb_adjust_room | BPF_FUNC_redirect_map | BPF_FUNC_sk_redirect_map | BPF_FUNC_sock_map_update
| BPF_FUNC_xdp_adjust_meta | BPF_FUNC_perf_event_read_value | BPF_FUNC_perf_prog_read_value
| BPF_FUNC_getsockopt | BPF_FUNC_override_return | BPF_FUNC_sock_ops_cb_flags_set
| BPF_FUNC_msg_redirect_map | BPF_FUNC_msg_apply_bytes | BPF_FUNC_msg_cork_bytes
| BPF_FUNC_msg_pull_data | BPF_FUNC_bind | BPF_FUNC_xdp_adjust_tail | BPF_FUNC_skb_get_xfrm_state
| BPF_FUNC_get_stack | BPF_FUNC_skb_load_bytes_relative | BPF_FUNC_fib_lookup
| BPF_FUNC_sock_hash_update | BPF_FUNC_msg_redirect_hash | BPF_FUNC_sk_redirect_hash
| BPF_FUNC_lwt_push_encap | BPF_FUNC_lwt_seg6_store_bytes | BPF_FUNC_lwt_seg6_adjust_srh
| BPF_FUNC_lwt_seg6_action | BPF_FUNC_rc_repeat | BPF_FUNC_rc_keydown | BPF_FUNC_skb_cgroup_id
| BPF_FUNC_get_current_cgroup_id | BPF_FUNC_get_local_storage | BPF_FUNC_sk_select_reuseport
| BPF_FUNC_skb_ancestor_cgroup_id | BPF_FUNC_sk_lookup_tcp | BPF_FUNC_sk_lookup_udp
| BPF_FUNC_sk_release | BPF_FUNC_map_push_elem | BPF_FUNC_map_pop_elem | BPF_FUNC_map_peek_elem
| BPF_FUNC_msg_push_data | BPF_FUNC_msg_pop_data | BPF_FUNC_rc_pointer_rel | BPF_FUNC_spin_lock
| BPF_FUNC_spin_unlock | BPF_FUNC_sk_fullsock | BPF_FUNC_tcp_sock | BPF_FUNC_skb_ecn_set_ce
| BPF_FUNC_get_listener_sock | BPF_FUNC_skc_lookup_tcp | BPF_FUNC_tcp_check_syncookie
| BPF_FUNC_sysctl_get_name | BPF_FUNC_sysctl_get_current_value | BPF_FUNC_sysctl_get_new_value
| BPF_FUNC_sysctl_set_new_value | BPF_FUNC_strtol | BPF_FUNC_strtoul | BPF_FUNC_sk_storage_get
| BPF_FUNC_sk_storage_delete | BPF_FUNC_send_signal | BPF_FUNC_tcp_gen_syncookie | BPF_FUNC_skb_output
| BPF_FUNC_probe_read_user | BPF_FUNC_probe_read_kernel | BPF_FUNC_probe_read_user_str
| BPF_FUNC_probe_read_kernel_str | BPF_FUNC_tcp_send_ack | BPF_FUNC_send_signal_thread
| BPF_FUNC_jiffies64 | BPF_FUNC_read_branch_records | BPF_FUNC_get_ns_current_pid_tgid
| BPF_FUNC_xdp_output | BPF_FUNC_get_netns_cookie | BPF_FUNC_get_current_ancestor_cgroup_id
| BPF_FUNC_sk_assign | BPF_FUNC_ktime_get_boot_ns | BPF_FUNC_seq_printf | BPF_FUNC_seq_write
| BPF_FUNC_sk_cgroup_id | BPF_FUNC_sk_ancestor_cgroup_id | BPF_FUNC_ringbuf_output
| BPF_FUNC_ringbuf_reserve | BPF_FUNC_ringbuf_submit | BPF_FUNC_ringbuf_discard | BPF_FUNC_ringbuf_query
| BPF_FUNC_csum_level | BPF_FUNC_skc_to_tcp6_sock | BPF_FUNC_skc_to_tcp_sock
| BPF_FUNC_skc_to_tcp_timewait_sock | BPF_FUNC_skc_to_tcp_request_sock | BPF_FUNC_skc_to_udp6_sock
| BPF_FUNC_get_task_stack | BPF_FUNC_load_hdr_opt | BPF_FUNC_store_hdr_opt | BPF_FUNC_reserve_hdr_opt
| BPF_FUNC_inode_storage_get | BPF_FUNC_inode_storage_delete | BPF_FUNC_d_path | BPF_FUNC_copy_from_user
| BPF_FUNC_snprintf_btf | BPF_FUNC_seq_printf_btf | BPF_FUNC_skb_cgroup_classid
| BPF_FUNC_redirect_neigh | BPF_FUNC_per_cpu_ptr | BPF_FUNC_this_cpu_ptr | BPF_FUNC_redirect_peer
| BPF_FUNC_task_storage_get | BPF_FUNC_task_storage_delete | BPF_FUNC_get_current_task_btf
| BPF_FUNC_bprm_opts_set | BPF_FUNC_ktime_get_coarse_ns | BPF_FUNC_ima_inode_hash
| BPF_FUNC_sock_from_file | BPF_FUNC_check_mtu | BPF_FUNC_for_each_map_elem | BPF_FUNC_snprintf
| BPF_FUNC_sys_bpf | BPF_FUNC_btf_find_by_name_kind | BPF_FUNC_sys_close | BPF_FUNC_timer_init
| BPF_FUNC_timer_set_callback | BPF_FUNC_timer_start | BPF_FUNC_timer_cancel | BPF_FUNC_get_func_ip
| BPF_FUNC_get_attach_cookie | BPF_FUNC_task_pt_regs | BPF_FUNC_get_branch_snapshot
| BPF_FUNC_trace_vprintk | BPF_FUNC_skc_to_unix_sock | BPF_FUNC_kallsyms_lookup_name | BPF_FUNC_find_vma
| BPF_FUNC_loop | BPF_FUNC_strncmp | BPF_FUNC_get_func_arg | BPF_FUNC_get_func_ret
| BPF_FUNC_get_func_arg_cnt | BPF_FUNC_get_retval | BPF_FUNC_set_retval | BPF_FUNC_xdp_get_buff_len
| BPF_FUNC_xdp_load_bytes | BPF_FUNC_xdp_store_bytes | BPF_FUNC_copy_from_user_task
| BPF_FUNC_skb_set_tstamp | BPF_FUNC_ima_file_hash | BPF_FUNC_kptr_xchg
| BPF_FUNC_map_lookup_percpu_elem | BPF_FUNC_skc_to_mptcp_sock | BPF_FUNC_dynptr_from_mem
| BPF_FUNC_ringbuf_reserve_dynptr | BPF_FUNC_ringbuf_submit_dynptr | BPF_FUNC_ringbuf_discard_dynptr
| BPF_FUNC_dynptr_read | BPF_FUNC_dynptr_write | BPF_FUNC_dynptr_data
| BPF_FUNC_tcp_raw_gen_syncookie_ipv4 | BPF_FUNC_tcp_raw_gen_syncookie_ipv6
| BPF_FUNC_tcp_raw_check_syncookie_ipv4 | BPF_FUNC_tcp_raw_check_syncookie_ipv6
| BPF_FUNC_ktime_get_tai_ns | BPF_FUNC_user_ringbuf_drain | BPF_FUNC_cgrp_storage_get
| BPF_FUNC_cgrp_storage_delete | __BPF_FUNC_MAX_ID.

#[global] Instance bpf_func_id_enum : CEnum bpf_func_id := {
  enum_value e := match e with
    | BPF_FUNC_unspec => 0 | BPF_FUNC_map_lookup_elem => 1 | BPF_FUNC_map_update_elem => 2
    | BPF_FUNC_map_delete_elem => 3 | BPF_FUNC_probe_read => 4 | BPF_FUNC_ktime_get_ns => 5
    | BPF_FUNC_trace_printk => 6 | BPF_FUNC_get_prandom_u32 => 7 | BPF_FUNC_get_smp_processor_id => 8
    | BPF_FUNC_skb_store_bytes => 9 | BPF_FUNC_l3_csum_replace => 10 | BPF_FUNC_l4_csum_replace => 11
    | BPF_FUNC_tail_call => 12 | BPF_FUNC_clone_redirect => 13 | BPF_FUNC_get_current_pid_tgid => 14
    | BPF_FUNC_get_current_uid_gid => 15 | BPF_FUNC_get_current_comm => 16
    | BPF_FUNC_get_cgroup_classid => 17 | BPF_FUNC_skb_vlan_push => 18 | BPF_FUNC_skb_vlan_pop => 19
    | BPF_FUNC_skb_get_tunnel_key => 20 | BPF_FUNC_skb_set_tunnel_key => 21
    | BPF_FUNC_perf_event_read => 22 | BPF_FUNC_redirect => 23 | BPF_FUNC_get_route_realm => 24
    | BPF_FUNC_perf_event_output => 25 | BPF_FUNC_skb_load_bytes => 26 | BPF_FUNC_get_stackid => 27
    | BPF_FUNC_csum_diff => 28 | BPF_FUNC_skb_get_tunnel_opt => 29 | BPF_FUNC_skb_set_tunnel_opt => 30
    | BPF_FUNC_skb_change_proto => 31 | BPF_FUNC_skb_change_type => 32 | BPF_FUNC_skb_under_cgroup => 33
    | BPF_FUNC_get_hash_recalc => 34 | BPF_FUNC_get_current_task => 35 | BPF_FUNC_probe_write_user => 36
    | BPF_FUNC_current_task_under_cgroup => 37 | BPF_FUNC_skb_change_tail => 38
    | BPF_FUNC_skb_pull_data => 39 | BPF_FUNC_csum_update => 40 | BPF_FUNC_set_hash_invalid => 41
    | BPF_FUNC_get_numa_node_id => 42 | BPF_FUNC_skb_change_head => 43 | BPF_FUNC_xdp_adjust_head => 44
    | BPF_FUNC_probe_read_str => 45 | BPF_FUNC_get_socket_cookie => 46 | BPF_FUNC_get_socket_uid => 47
    | BPF_FUNC_set_hash => 48 | BPF_FUNC_setsockopt => 49 | BPF_FUNC_skb_adjust_room => 50
    | BPF_FUNC_redirect_map => 51 | BPF_FUNC_sk_redirect_map => 52 | BPF_FUNC_sock_map_update => 53
    | BPF_FUNC_xdp_adjust_meta => 54 | BPF_FUNC_perf_event_read_value => 55
    | BPF_FUNC_perf_prog_read_value => 56 | BPF_FUNC_getsockopt => 57 | BPF_FUNC_override_return => 58
    | BPF_FUNC_sock_ops_cb_flags_set => 59 | BPF_FUNC_msg_redirect_map => 60
    | BPF_FUNC_msg_apply_bytes => 61 | BPF_FUNC_msg_cork_bytes => 62 | BPF_FUNC_msg_pull_data => 63
    | BPF_FUNC_bind => 64 | BPF_FUNC_xdp_adjust_tail => 65 | BPF_FUNC_skb_get_xfrm_state => 66
    | BPF_FUNC_get_stack => 67 | BPF_FUNC_skb_load_bytes_relative => 68 | BPF_FUNC_fib_lookup => 69
    | BPF_FUNC_sock_hash_update => 70 | BPF_FUNC_msg_redirect_hash => 71
    | BPF_FUNC_sk_redirect_hash => 72 | BPF_FUNC_lwt_push_encap => 73
    | BPF_FUNC_lwt_seg6_store_bytes => 74 | BPF_FUNC_lwt_seg6_adjust_srh => 75
    | BPF_FUNC_lwt_seg6_action => 76 | BPF_FUNC_rc_repeat => 77 | BPF_FUNC_rc_keydown => 78
    | BPF_FUNC_skb_cgroup_id => 79 | BPF_FUNC_get_current_cgroup_id => 80
    | BPF_FUNC_get_local_storage => 81 | BPF_FUNC_sk_select_reuseport => 82
    | BPF_FUNC_skb_ancestor_cgroup_id => 83 | BPF_FUNC_sk_lookup_tcp => 84
    | BPF_FUNC_sk_lookup_udp => 85 | BPF_FUNC_sk_release => 86 | BPF_FUNC_map_push_elem => 87
    | BPF_FUNC_map_pop_elem => 88 | BPF_FUNC_map_peek_elem => 89 | BPF_FUNC_msg_push_data => 90
    | BPF_FUNC_msg_pop_data => 91 | BPF_FUNC_rc_pointer_rel => 92 | BPF_FUNC_spin_lock => 93
    | BPF_FUNC_spin_unlock => 94 | BPF_FUNC_sk_fullsock => 95 | BPF_FUNC_tcp_sock => 96
    | BPF_FUNC_skb_ecn_set_ce => 97 | BPF_FUNC_get_listener_sock => 98 | BPF_FUNC_skc_lookup_tcp => 99
    | BPF_FUNC_tcp_check_syncookie => 100 | BPF_FUNC_sysctl_get_name => 101
    | BPF_FUNC_sysctl_get_current_value => 102 | BPF_FUNC_sysctl_get_new_value => 103
    | BPF_FUNC_sysctl_set_new_value => 104 | BPF_FUNC_strtol => 105 | BPF_FUNC_strtoul => 106
    | BPF_FUNC_sk_storage_get => 107 | BPF_FUNC_sk_storage_delete => 108 | BPF_FUNC_send_signal => 109
    | BPF_FUNC_tcp_gen_syncookie => 110 | BPF_FUNC_skb_output => 111 | BPF_FUNC_probe_read_user => 112
    | BPF_FUNC_probe_read_kernel => 113 | BPF_FUNC_probe_read_user_str => 114
    | BPF_FUNC_probe_read_kernel_str => 115 | BPF_FUNC_tcp_send_ack => 116
    | BPF_FUNC_send_signal_thread => 117 | BPF_FUNC_jiffies64 => 118
    | BPF_FUNC_read_branch_records => 119 | BPF_FUNC_get_ns_current_pid_tgid => 120
    | BPF_FUNC_xdp_output => 121 | BPF_FUNC_get_netns_cookie => 122
    | BPF_FUNC_get_current_ancestor_cgroup_id => 123 | BPF_FUNC_sk_assign => 124
    | BPF_FUNC_ktime_get_boot_ns => 125 | BPF_FUNC_seq_printf => 126 | BPF_FUNC_seq_write => 127
    | BPF_FUNC_sk_cgroup_id => 128 | BPF_FUNC_sk_ancestor_cgroup_id => 129
    | BPF_FUNC_ringbuf_output => 130 | BPF_FUNC_ringbuf_reserve => 131 | BPF_FUNC_ringbuf_submit => 132
    | BPF_FUNC_ringbuf_discard => 133 | BPF_FUNC_ringbuf_query => 134 | BPF_FUNC_csum_level => 135
    | BPF_FUNC_skc_to_tcp6_sock => 136 | BPF_FUNC_skc_to_tcp_sock => 137
    | BPF_FUNC_skc_to_tcp_timewait_sock => 138 | BPF_FUNC_skc_to_tcp_request_sock => 139
    | BPF_FUNC_skc_to_udp6_sock => 140 | BPF_FUNC_get_task_stack => 141 | BPF_FUNC_load_hdr_opt => 142
    | BPF_FUNC_store_hdr_opt => 143 | BPF_FUNC_reserve_hdr_opt => 144
    | BPF_FUNC_inode_storage_get => 145 | BPF_FUNC_inode_storage_delete => 146 | BPF_FUNC_d_path => 147
    | BPF_FUNC_copy_from_user => 148 | BPF_FUNC_snprintf_btf => 149 | BPF_FUNC_seq_printf_btf => 150
    | BPF_FUNC_skb_cgroup_classid => 151 | BPF_FUNC_redirect_neigh => 152 | BPF_FUNC_per_cpu_ptr => 153
    | BPF_FUNC_this_cpu_ptr => 154 | BPF_FUNC_redirect_peer => 155 | BPF_FUNC_task_storage_get => 156
    | BPF_FUNC_task_storage_delete => 157 | BPF_FUNC_get_current_task_btf => 158
    | BPF_FUNC_bprm_opts_set => 159 | BPF_FUNC_ktime_get_coarse_ns => 160
    | BPF_FUNC_ima_inode_hash => 161 | BPF_FUNC_sock_from_file => 162 | BPF_FUNC_check_mtu => 163
    | BPF_FUNC_for_each_map_elem => 164 | BPF_FUNC_snprintf => 165 | BPF_FUNC_sys_bpf => 166
    | BPF_FUNC_btf_find_by_name_kind => 167 | BPF_FUNC_sys_close => 168 | BPF_FUNC_timer_init => 169
    | BPF_FUNC_timer_set_callback => 170 | BPF_FUNC_timer_start => 171 | BPF_FUNC_timer_cancel => 172
    | BPF_FUNC_get_func_ip => 173 | BPF_FUNC_get_attach_cookie => 174 | BPF_FUNC_task_pt_regs => 175
    | BPF_FUNC_get_branch_snapshot => 176 | BPF_FUNC_trace_vprintk => 177
    | BPF_FUNC_skc_to_unix_sock => 178 | BPF_FUNC_kallsyms_lookup_name => 179 | BPF_FUNC_find_vma => 180
    | BPF_FUNC_loop => 181 | BPF_FUNC_strncmp => 182 | BPF_FUNC_get_func_arg => 183
    | BPF_FUNC_get_func_ret => 184 | BPF_FUNC_get_func_arg_cnt => 185 | BPF_FUNC_get_retval => 186
    | BPF_FUNC_set_retval => 187 | BPF_FUNC_xdp_get_buff_len => 188 | BPF_FUNC_xdp_load_bytes => 189
    | BPF_FUNC_xdp_store_bytes => 190 | BPF_FUNC_copy_from_user_task => 191
    | BPF_FUNC_skb_set_tstamp => 192 | BPF_FUNC_ima_file_hash => 193 | BPF_FUNC_kptr_xchg => 194
    | BPF_FUNC_map_lookup_percpu_elem => 195 | BPF_FUNC_skc_to_mptcp_sock => 196
    | BPF_FUNC_dynptr_from_mem => 197 | BPF_FUNC_ringbuf_reserve_dynptr => 198
    | BPF_FUNC_ringbuf_submit_dynptr => 199 | BPF_FUNC_ringbuf_discard_dynptr => 200
    | BPF_FUNC_dynptr_read => 201 | BPF_FUNC_dynptr_write => 202 | BPF_FUNC_dynptr_data => 203
    | BPF_FUNC_tcp_raw_gen_syncookie_ipv4 => 204 | BPF_FUNC_tcp_raw_gen_syncookie_ipv6 => 205
    | BPF_FUNC_tcp_raw_check_syncookie_ipv4 => 206 | BPF_FUNC_tcp_raw_check_syncookie_ipv6 => 207
    | BPF_FUNC_ktime_get_tai_ns => 208 | BPF_FUNC_user_ringbuf_drain => 209
    | BPF_FUNC_cgrp_storage_get => 210 | BPF_FUNC_cgrp_storage_delete => 211 | __BPF_FUNC_MAX_ID => 212
    end;
  enumerators :=
    [BPF_FUNC_unspec; BPF_FUNC_map_lookup_elem; BPF_FUNC_map_update_elem; BPF_FUNC_map_delete_elem;
     BPF_FUNC_probe_read; BPF_FUNC_ktime_get_ns; BPF_FUNC_trace_printk; BPF_FUNC_get_prandom_u32;
     BPF_FUNC_get_smp_processor_id; BPF_FUNC_skb_store_bytes; BPF_FUNC_l3_csum_replace;
     BPF_FUNC_l4_csum_replace; BPF_FUNC_tail_call; BPF_FUNC_clone_redirect;
     BPF_FUNC_get_current_pid_tgid; BPF_FUNC_get_current_uid_gid; BPF_FUNC_get_current_comm;
     BPF_FUNC_get_cgroup_classid; BPF_FUNC_skb_vlan_push; BPF_FUNC_skb_vlan_pop;
     BPF_FUNC_skb_get_tunnel_key; BPF_FUNC_skb_set_tunnel_key; BPF_FUNC_perf_event_read;
     BPF_FUNC_redirect; BPF_FUNC_get_route_realm; BPF_FUNC_perf_event_output; BPF_FUNC_skb_load_bytes;
     BPF_FUNC_get_stackid; BPF_FUNC_csum_diff; BPF_FUNC_skb_get_tunnel_opt; BPF_FUNC_skb_set_tunnel_opt;
     BPF_FUNC_skb_change_proto; BPF_FUNC_skb_change_type; BPF_FUNC_skb_under_cgroup;
     BPF_FUNC_get_hash_recalc; BPF_FUNC_get_current_task; BPF_FUNC_probe_write_user;
     BPF_FUNC_current_task_under_cgroup; BPF_FUNC_skb_change_tail; BPF_FUNC_skb_pull_data;
     BPF_FUNC_csum_update; BPF_FUNC_set_hash_invalid; BPF_FUNC_get_numa_node_id;
     BPF_FUNC_skb_change_head; BPF_FUNC_xdp_adjust_head; BPF_FUNC_probe_read_str;
     BPF_FUNC_get_socket_cookie; BPF_FUNC_get_socket_uid; BPF_FUNC_set_hash; BPF_FUNC_setsockopt;
     BPF_FUNC_skb_adjust_room; BPF_FUNC_redirect_map; BPF_FUNC_sk_redirect_map;
     BPF_FUNC_sock_map_update; BPF_FUNC_xdp_adjust_meta; BPF_FUNC_perf_event_read_value;
     BPF_FUNC_perf_prog_read_value; BPF_FUNC_getsockopt; BPF_FUNC_override_return;
     BPF_FUNC_sock_ops_cb_flags_set; BPF_FUNC_msg_redirect_map; BPF_FUNC_msg_apply_bytes;
     BPF_FUNC_msg_cork_bytes; BPF_FUNC_msg_pull_data; BPF_FUNC_bind; BPF_FUNC_xdp_adjust_tail;
     BPF_FUNC_skb_get_xfrm_state; BPF_FUNC_get_stack; BPF_FUNC_skb_load_bytes_relative;
     BPF_FUNC_fib_lookup; BPF_FUNC_sock_hash_update; BPF_FUNC_msg_redirect_hash;
     BPF_FUNC_sk_redirect_hash; BPF_FUNC_lwt_push_encap; BPF_FUNC_lwt_seg6_store_bytes;
     BPF_FUNC_lwt_seg6_adjust_srh; BPF_FUNC_lwt_seg6_action; BPF_FUNC_rc_repeat; BPF_FUNC_rc_keydown;
     BPF_FUNC_skb_cgroup_id; BPF_FUNC_get_current_cgroup_id; BPF_FUNC_get_local_storage;
     BPF_FUNC_sk_select_reuseport; BPF_FUNC_skb_ancestor_cgroup_id; BPF_FUNC_sk_lookup_tcp;
     BPF_FUNC_sk_lookup_udp; BPF_FUNC_sk_release; BPF_FUNC_map_push_elem; BPF_FUNC_map_pop_elem;
     BPF_FUNC_map_peek_elem; BPF_FUNC_msg_push_data; BPF_FUNC_msg_pop_data; BPF_FUNC_rc_pointer_rel;
     BPF_FUNC_spin_lock; BPF_FUNC_spin_unlock; BPF_FUNC_sk_fullsock; BPF_FUNC_tcp_sock;
     BPF_FUNC_skb_ecn_set_ce; BPF_FUNC_get_listener_sock; BPF_FUNC_skc_lookup_tcp;
     BPF_FUNC_tcp_check_syncookie; BPF_FUNC_sysctl_get_name; BPF_FUNC_sysctl_get_current_value;
     BPF_FUNC_sysctl_get_new_value; BPF_FUNC_sysctl_set_new_value; BPF_FUNC_strtol; BPF_FUNC_strtoul;
     BPF_FUNC_sk_storage_get; BPF_FUNC_sk_storage_delete; BPF_FUNC_send_signal;
     BPF_FUNC_tcp_gen_syncookie; BPF_FUNC_skb_output; BPF_FUNC_probe_read_user;
     BPF_FUNC_probe_read_kernel; BPF_FUNC_probe_read_user_str; BPF_FUNC_probe_read_kernel_str;
     BPF_FUNC_tcp_send_ack; BPF_FUNC_send_signal_thread; BPF_FUNC_jiffies64;
     BPF_FUNC_read_branch_records; BPF_FUNC_get_ns_current_pid_tgid; BPF_FUNC_xdp_output;
     BPF_FUNC_get_netns_cookie; BPF_FUNC_get_current_ancestor_cgroup_id; BPF_FUNC_sk_assign;
     BPF_FUNC_ktime_get_boot_ns; BPF_FUNC_seq_printf; BPF_FUNC_seq_write; BPF_FUNC_sk_cgroup_id;
     BPF_FUNC_sk_ancestor_cgroup_id; BPF_FUNC_ringbuf_output; BPF_FUNC_ringbuf_reserve;
     BPF_FUNC_ringbuf_submit; BPF_FUNC_ringbuf_discard; BPF_FUNC_ringbuf_query; BPF_FUNC_csum_level;
     BPF_FUNC_skc_to_tcp6_sock; BPF_FUNC_skc_to_tcp_sock; BPF_FUNC_skc_to_tcp_timewait_sock;
     BPF_FUNC_skc_to_tcp_request_sock; BPF_FUNC_skc_to_udp6_sock; BPF_FUNC_get_task_stack;
     BPF_FUNC_load_hdr_opt; BPF_FUNC_store_hdr_opt; BPF_FUNC_reserve_hdr_opt;
     BPF_FUNC_inode_storage_get; BPF_FUNC_inode_storage_delete; BPF_FUNC_d_path;
     BPF_FUNC_copy_from_user; BPF_FUNC_snprintf_btf; BPF_FUNC_seq_printf_btf;
     BPF_FUNC_skb_cgroup_classid; BPF_FUNC_redirect_neigh; BPF_FUNC_per_cpu_ptr; BPF_FUNC_this_cpu_ptr;
     BPF_FUNC_redirect_peer; BPF_FUNC_task_storage_get; BPF_FUNC_task_storage_delete;
     BPF_FUNC_get_current_task_btf; BPF_FUNC_bprm_opts_set; BPF_FUNC_ktime_get_coarse_ns;
     BPF_FUNC_ima_inode_hash; BPF_FUNC_sock_from_file; BPF_FUNC_check_mtu; BPF_FUNC_for_each_map_elem;
     BPF_FUNC_snprintf; BPF_FUNC_sys_bpf; BPF_FUNC_btf_find_by_name_kind; BPF_FUNC_sys_close;
     BPF_FUNC_timer_init; BPF_FUNC_timer_set_callback; BPF_FUNC_timer_start; BPF_FUNC_timer_cancel;
     BPF_FUNC_get_func_ip; BPF_FUNC_get_attach_cookie; BPF_FUNC_task_pt_regs;
     BPF_FUNC_get_branch_snapshot; BPF_FUNC_trace_vprintk; BPF_FUNC_skc_to_unix_sock;
     BPF_FUNC_kallsyms_lookup_name; BPF_FUNC_find_vma; BPF_FUNC_loop; BPF_FUNC_strncmp;
     BPF_FUNC_get_func_arg; BPF_FUNC_get_func_ret; BPF_FUNC_get_func_arg_cnt; BPF_FUNC_get_retval;
     BPF_FUNC_set_retval; BPF_FUNC_xdp_get_buff_len; BPF_FUNC_xdp_load_bytes; BPF_FUNC_xdp_store_bytes;
     BPF_FUNC_copy_from_user_task; BPF_FUNC_skb_set_tstamp; BPF_FUNC_ima_file_hash; BPF_FUNC_kptr_xchg;
     BPF_FUNC_map_lookup_percpu_elem; BPF_FUNC_skc_to_mptcp_sock; BPF_FUNC_dynptr_from_mem;
     BPF_FUNC_ringbuf_reserve_dynptr; BPF_FUNC_ringbuf_submit_dynptr; BPF_FUNC_ringbuf_discard_dynptr;
     BPF_FUNC_dynptr_read; BPF_FUNC_dynptr_write; BPF_FUNC_dynptr_data;
     BPF_FUNC_tcp_raw_gen_syncookie_ipv4; BPF_FUNC_tcp_raw_gen_syncookie_ipv6;
     BPF_FUNC_tcp_raw_check_syncookie_ipv4; BPF_FUNC_tcp_raw_check_syncookie_ipv6;
     BPF_FUNC_ktime_get_tai_ns; BPF_FUNC_user_ringbuf_drain; BPF_FUNC_cgrp_storage_get;
     BPF_FUNC_cgrp_storage_delete; __BPF_FUNC_MAX_ID]
}.

(** What an XDP program tells the driver to do with the frame. *)
Inductive xdp_action :=
| XDP_ABORTED | XDP_DROP | XDP_PASS | XDP_TX | XDP_REDIRECT.

#[global] Instance xdp_action_enum : CEnum xdp_action := {
  enum_value e := match e with
    | XDP_ABORTED => 0 | XDP_DROP => 1 | XDP_PASS => 2 | XDP_TX => 3 | XDP_REDIRECT => 4
    end;
  enumerators :=
    [XDP_ABORTED; XDP_DROP; XDP_PASS; XDP_TX; XDP_REDIRECT]
}.

(** ** Contexts and objects of eBPF programs *)

(** One instruction: two registers share a byte. *)
Definition struct_bpf_insn : ctype := TStruct
  ["code" ∷ __u8; bitfield "dst_reg" __u8 4; bitfield "src_reg" __u8 4; "off" ∷ __s16; "imm" ∷ __s32].

Definition struct_xdp_md : ctype := TStruct
  ["data" ∷ __u32; "data_end" ∷ __u32; "data_meta" ∷ __u32; "ingress_ifindex" ∷ __u32;
   "rx_queue_index" ∷ __u32; "egress_ifindex" ∷ __u32].

Definition struct_bpf_sock : ctype := TStruct
  ["bound_dev_if" ∷ __u32; "family" ∷ __u32; "type" ∷ __u32; "protocol" ∷ __u32; "mark" ∷ __u32;
   "priority" ∷ __u32; "src_ip4" ∷ __u32; "src_ip6" ∷ TArray __u32 4; "src_port" ∷ __u32;
   "dst_port" ∷ __be16; "dst_ip4" ∷ __u32; "dst_ip6" ∷ TArray __u32 4; "state" ∷ __u32;
   "rx_queue_mapping" ∷ __s32].

Definition struct___sk_buff : ctype := TStruct
  ["len" ∷ __u32; "pkt_type" ∷ __u32; "mark" ∷ __u32; "queue_mapping" ∷ __u32; "protocol" ∷ __u32;
   "vlan_present" ∷ __u32; "vlan_tci" ∷ __u32; "vlan_proto" ∷ __u32; "priority" ∷ __u32;
   "ingress_ifindex" ∷ __u32; "ifindex" ∷ __u32; "tc_index" ∷ __u32; "cb" ∷ TArray __u32 5;
   "hash" ∷ __u32; "tc_classid" ∷ __u32; "data" ∷ __u32; "data_end" ∷ __u32; "napi_id" ∷ __u32;
   "family" ∷ __u32; "remote_ip4" ∷ __u32; "local_ip4" ∷ __u32; "remote_ip6" ∷ TArray __u32 4;
   "local_ip6" ∷ TArray __u32 4; "remote_port" ∷ __u32; "local_port" ∷ __u32; "data_meta" ∷ __u32;
   anonymous (TUnion
     ["flow_keys" ∷ TPtr]);
   "tstamp" ∷ __u64; "wire_len" ∷ __u32; "gso_segs" ∷ __u32;
   anonymous (TUnion
     ["sk" ∷ TPtr]);
   "gso_size" ∷ __u32; "tstamp_type" ∷ __u8; "hwtstamp" ∷ __u64].

Definition struct_bpf_sock_tuple : ctype := TStruct
  [anonymous (TUnion
     ["ipv4" ∷ TStruct
        ["saddr" ∷ __be32; "daddr" ∷ __be32; "sport" ∷ __be16; "dport" ∷ __be16];
      "ipv6" ∷ TStruct
        ["saddr" ∷ TArray __be32 4; "daddr" ∷ TArray __be32 4; "sport" ∷ __be16; "dport" ∷ __be16]])].

Definition struct_bpf_tunnel_key : ctype := TStruct
  ["tunnel_id" ∷ __u32;
   anonymous (TUnion
     ["remote_ipv4" ∷ __u32; "remote_ipv6" ∷ TArray __u32 4]);
   "tunnel_tos" ∷ __u8; "tunnel_ttl" ∷ __u8;
   anonymous (TUnion
     ["tunnel_ext" ∷ __u16; "tunnel_flags" ∷ __be16]);
   "tunnel_label" ∷ __u32;
   anonymous (TUnion
     ["local_ipv4" ∷ __u32; "local_ipv6" ∷ TArray __u32 4])].

Definition struct_bpf_fib_lookup : ctype := TStruct
  ["family" ∷ __u8; "l4_protocol" ∷ __u8; "sport" ∷ __be16; "dport" ∷ __be16;
   anonymous (TUnion
     ["tot_len" ∷ __u16; "mtu_result" ∷ __u16]);
   "ifindex" ∷ __u32;
   anonymous (TUnion
     ["tos" ∷ __u8; "flowinfo" ∷ __be32; "rt_metric" ∷ __u32]);
   anonymous (TUnion
     ["ipv4_src" ∷ __be32; "ipv6_src" ∷ TArray __u32 4]);
   anonymous (TUnion
     ["ipv4_dst" ∷ __be32; "ipv6_dst" ∷ TArray __u32 4]);
   anonymous (TUnion
     [anonymous (TStruct
        ["h_vlan_proto" ∷ __be16; "h_vlan_TCI" ∷ __be16]);
      "tbid" ∷ __u32]);
   "smac" ∷ TArray __u8 6; "dmac" ∷ TArray __u8 6].

Definition struct_bpf_tcp_sock : ctype := TStruct
  ["snd_cwnd" ∷ __u32; "srtt_us" ∷ __u32; "rtt_min" ∷ __u32; "snd_ssthresh" ∷ __u32; "rcv_nxt" ∷ __u32;
   "snd_nxt" ∷ __u32; "snd_una" ∷ __u32; "mss_cache" ∷ __u32; "ecn_flags" ∷ __u32;
   "rate_delivered" ∷ __u32; "rate_interval_us" ∷ __u32; "packets_out" ∷ __u32; "retrans_out" ∷ __u32;
   "total_retrans" ∷ __u32; "segs_in" ∷ __u32; "data_segs_in" ∷ __u32; "segs_out" ∷ __u32;
   "data_segs_out" ∷ __u32; "lost_out" ∷ __u32; "sacked_out" ∷ __u32; "bytes_received" ∷ __u64;
   "bytes_acked" ∷ __u64; "dsack_dups" ∷ __u32; "delivered" ∷ __u32; "delivered_ce" ∷ __u32;
   "icsk_retransmits" ∷ __u32].

Definition struct_bpf_prog_info : ctype := TStruct
  ["type" ∷ __u32; "id" ∷ __u32; "tag" ∷ TArray __u8 8; "jited_prog_len" ∷ __u32;
   "xlated_prog_len" ∷ __u32; "jited_prog_insns" ∷ __u64; "xlated_prog_insns" ∷ __u64;
   "load_time" ∷ __u64; "created_by_uid" ∷ __u32; "nr_map_ids" ∷ __u32; "map_ids" ∷ __u64;
   "name" ∷ TArray int8 16; "ifindex" ∷ __u32; bitfield "gpl_compatible" __u32 1; "netns_dev" ∷ __u64;
   "netns_ino" ∷ __u64; "nr_jited_ksyms" ∷ __u32; "nr_jited_func_lens" ∷ __u32; "jited_ksyms" ∷ __u64;
   "jited_func_lens" ∷ __u64; "btf_id" ∷ __u32; "func_info_rec_size" ∷ __u32; "func_info" ∷ __u64;
   "nr_func_info" ∷ __u32; "nr_line_info" ∷ __u32; "line_info" ∷ __u64; "jited_line_info" ∷ __u64;
   "nr_jited_line_info" ∷ __u32; "line_info_rec_size" ∷ __u32; "jited_line_info_rec_size" ∷ __u32;
   "nr_prog_tags" ∷ __u32; "prog_tags" ∷ __u64; "run_time_ns" ∷ __u64; "run_cnt" ∷ __u64;
   "recursion_misses" ∷ __u64; "verified_insns" ∷ __u32; "attach_btf_obj_id" ∷ __u32;
   "attach_btf_id" ∷ __u32].

Definition struct_bpf_map_info : ctype := TStruct
  ["type" ∷ __u32; "id" ∷ __u32; "key_size" ∷ __u32; "value_size" ∷ __u32; "max_entries" ∷ __u32;
   "map_flags" ∷ __u32; "name" ∷ TArray int8 16; "ifindex" ∷ __u32; "btf_vmlinux_value_type_id" ∷ __u32;
   "netns_dev" ∷ __u64; "netns_ino" ∷ __u64; "btf_id" ∷ __u32; "btf_key_type_id" ∷ __u32;
   "btf_value_type_id" ∷ __u32; "map_extra" ∷ __u64].

(** *** [union bpf_attr]

    The argument of [bpf(2)]: one struct per group of commands. *)

Definition bpf_attr_map_create : ctype := TStruct
  ["map_type" ∷ __u32; "key_size" ∷ __u32; "value_size" ∷ __u32; "max_entries" ∷ __u32;
   "map_flags" ∷ __u32; "inner_map_fd" ∷ __u32; "numa_node" ∷ __u32; "map_name" ∷ TArray int8 16;
   "map_ifindex" ∷ __u32; "btf_fd" ∷ __u32; "btf_key_type_id" ∷ __u32; "btf_value_type_id" ∷ __u32;
   "btf_vmlinux_value_type_id" ∷ __u32; "map_extra" ∷ __u64].

Definition bpf_attr_elem : ctype := TStruct
  ["map_fd" ∷ __u32; "key" ∷ __u64;
   anonymous (TUnion
     ["value" ∷ __u64; "next_key" ∷ __u64]);
   "flags" ∷ __u64].

Definition bpf_attr_batch : ctype := TStruct
  ["in_batch" ∷ __u64; "out_batch" ∷ __u64; "keys" ∷ __u64; "values" ∷ __u64; "count" ∷ __u32;
   "map_fd" ∷ __u32; "elem_flags" ∷ __u64; "flags" ∷ __u64].

Definition bpf_attr_prog_load : ctype := TStruct
  ["prog_type" ∷ __u32; "insn_cnt" ∷ __u32; "insns" ∷ __u64; "license" ∷ __u64; "log_level" ∷ __u32;
   "log_size" ∷ __u32; "log_buf" ∷ __u64; "kern_version" ∷ __u32; "prog_flags" ∷ __u32;
   "prog_name" ∷ TArray int8 16; "prog_ifindex" ∷ __u32; "expected_attach_type" ∷ __u32;
   "prog_btf_fd" ∷ __u32; "func_info_rec_size" ∷ __u32; "func_info" ∷ __u64; "func_info_cnt" ∷ __u32;
   "line_info_rec_size" ∷ __u32; "line_info" ∷ __u64; "line_info_cnt" ∷ __u32; "attach_btf_id" ∷ __u32;
   anonymous (TUnion
     ["attach_prog_fd" ∷ __u32; "attach_btf_obj_fd" ∷ __u32]);
   "core_relo_cnt" ∷ __u32; "fd_array" ∷ __u64; "core_relos" ∷ __u64; "core_relo_rec_size" ∷ __u32;
   "log_true_size" ∷ __u32].

Definition bpf_attr_obj : ctype := TStruct
  ["pathname" ∷ __u64; "bpf_fd" ∷ __u32; "file_flags" ∷ __u32; "path_fd" ∷ __s32].

Definition bpf_attr_prog_attach : ctype := TStruct
  [anonymous (TUnion
     ["target_fd" ∷ __u32; "target_ifindex" ∷ __u32]);
   "attach_bpf_fd" ∷ __u32; "attach_type" ∷ __u32; "attach_flags" ∷ __u32; "replace_bpf_fd" ∷ __u32;
   anonymous (TUnion
     ["relative_fd" ∷ __u32; "relative_id" ∷ __u32]);
   "expected_revision" ∷ __u64].

Definition bpf_attr_test : ctype := TStruct
  ["prog_fd" ∷ __u32; "retval" ∷ __u32; "data_size_in" ∷ __u32; "data_size_out" ∷ __u32;
   "data_in" ∷ __u64; "data_out" ∷ __u64; "repeat" ∷ __u32; "duration" ∷ __u32; "ctx_size_in" ∷ __u32;
   "ctx_size_out" ∷ __u32; "ctx_in" ∷ __u64; "ctx_out" ∷ __u64; "flags" ∷ __u32; "cpu" ∷ __u32;
   "batch_size" ∷ __u32].

Definition bpf_attr_get_id : ctype := TStruct
  [anonymous (TUnion
     ["start_id" ∷ __u32; "prog_id" ∷ __u32; "map_id" ∷ __u32; "btf_id" ∷ __u32; "link_id" ∷ __u32]);
   "next_id" ∷ __u32; "open_flags" ∷ __u32].

Definition bpf_attr_info : ctype := TStruct
  ["bpf_fd" ∷ __u32; "info_len" ∷ __u32; "info" ∷ __u64].

Definition bpf_attr_query : ctype := TStruct
  [anonymous (TUnion
     ["target_fd" ∷ __u32; "target_ifindex" ∷ __u32]);
   "attach_type" ∷ __u32; "query_flags" ∷ __u32; "attach_flags" ∷ __u32; "prog_ids" ∷ __u64;
   anonymous (TUnion
     ["prog_cnt" ∷ __u32; "count" ∷ __u32]);
   "prog_attach_flags" ∷ __u64; "link_ids" ∷ __u64; "link_attach_flags" ∷ __u64; "revision" ∷ __u64].

Definition bpf_attr_raw_tracepoint : ctype := TStruct
  ["name" ∷ __u64; "prog_fd" ∷ __u32].

Definition bpf_attr_btf_load : ctype := TStruct
  ["btf" ∷ __u64; "btf_log_buf" ∷ __u64; "btf_size" ∷ __u32; "btf_log_size" ∷ __u32;
   "btf_log_level" ∷ __u32; "btf_log_true_size" ∷ __u32].

Definition bpf_attr_task_fd_query : ctype := TStruct
  ["pid" ∷ __u32; "fd" ∷ __u32; "flags" ∷ __u32; "buf_len" ∷ __u32; "buf" ∷ __u64; "prog_id" ∷ __u32;
   "fd_type" ∷ __u32; "probe_offset" ∷ __u64; "probe_addr" ∷ __u64].

Definition bpf_attr_link_create : ctype := TStruct
  [anonymous (TUnion
     ["prog_fd" ∷ __u32; "map_fd" ∷ __u32]);
   anonymous (TUnion
     ["target_fd" ∷ __u32; "target_ifindex" ∷ __u32]);
   "attach_type" ∷ __u32; "flags" ∷ __u32;
   anonymous (TUnion
     ["target_btf_id" ∷ __u32;
      anonymous (TStruct
        ["iter_info" ∷ __u64; "iter_info_len" ∷ __u32]);
      "perf_event" ∷ TStruct
        ["bpf_cookie" ∷ __u64];
      "kprobe_multi" ∷ TStruct
        ["flags" ∷ __u32; "cnt" ∷ __u32; "syms" ∷ __u64; "addrs" ∷ __u64; "cookies" ∷ __u64];
      "tracing" ∷ TStruct
        ["target_btf_id" ∷ __u32; "cookie" ∷ __u64];
      "netfilter" ∷ TStruct
        ["pf" ∷ __u32; "hooknum" ∷ __u32; "priority" ∷ __s32; "flags" ∷ __u32];
      "tcx" ∷ TStruct
        [anonymous (TUnion
           ["relative_fd" ∷ __u32; "relative_id" ∷ __u32]);
         "expected_revision" ∷ __u64];
      "uprobe_multi" ∷ TStruct
        ["path" ∷ __u64; "offsets" ∷ __u64; "ref_ctr_offsets" ∷ __u64; "cookies" ∷ __u64; "cnt" ∷ __u32;
         "flags" ∷ __u32; "pid" ∷ __u32];
      "netkit" ∷ TStruct
        [anonymous (TUnion
           ["relative_fd" ∷ __u32; "relative_id" ∷ __u32]);
         "expected_revision" ∷ __u64]])].

Definition bpf_attr_link_update : ctype := TStruct
  ["link_fd" ∷ __u32;
   anonymous (TUnion
     ["new_prog_fd" ∷ __u32; "new_map_fd" ∷ __u32]);
   "flags" ∷ __u32;
   anonymous (TUnion
     ["old_prog_fd" ∷ __u32; "old_map_fd" ∷ __u32])].

Definition bpf_attr_link_detach : ctype := TStruct
  ["link_fd" ∷ __u32].

Definition bpf_attr_enable_stats : ctype := TStruct
  ["type" ∷ __u32].

Definition bpf_attr_iter_create : ctype := TStruct
  ["link_fd" ∷ __u32; "flags" ∷ __u32].

Definition bpf_attr_prog_bind_map : ctype := TStruct
  ["prog_fd" ∷ __u32; "map_fd" ∷ __u32; "flags" ∷ __u32].

Definition union_bpf_attr : ctype := TUnion
  [anonymous bpf_attr_map_create; anonymous bpf_attr_elem; "batch" ∷ bpf_attr_batch;
   anonymous bpf_attr_prog_load; anonymous bpf_attr_obj; anonymous bpf_attr_prog_attach;
   "test" ∷ bpf_attr_test; anonymous bpf_attr_get_id; "info" ∷ bpf_attr_info; "query" ∷ bpf_attr_query;
   "raw_tracepoint" ∷ bpf_attr_raw_tracepoint; anonymous bpf_attr_btf_load;
   "task_fd_query" ∷ bpf_attr_task_fd_query; "link_create" ∷ bpf_attr_link_create;
   "link_update" ∷ bpf_attr_link_update; "link_detach" ∷ bpf_attr_link_detach;
   "enable_stats" ∷ bpf_attr_enable_stats; "iter_create" ∷ bpf_attr_iter_create;
   "prog_bind_map" ∷ bpf_attr_prog_bind_map].

(** ** Packet headers *)

Definition struct_ethhdr : ctype := TStruct
  ["h_dest" ∷ TArray uint8 6; "h_source" ∷ TArray uint8 6; "h_proto" ∷ __be16].

Definition struct_vlan_hdr : ctype := TStruct
  ["h_vlan_TCI" ∷ __be16; "h_vlan_encapsulated_proto" ∷ __be16].

Definition struct_vlan_ethhdr : ctype := TStruct
  [anonymous (TUnion
     [anonymous (TStruct
        ["h_dest" ∷ TArray uint8 6; "h_source" ∷ TArray uint8 6]);
      "addrs" ∷ TStruct
        ["h_dest" ∷ TArray uint8 6; "h_source" ∷ TArray uint8 6]]);
   "h_vlan_proto" ∷ __be16; "h_vlan_TCI" ∷ __be16; "h_vlan_encapsulated_proto" ∷ __be16].

Definition struct_arphdr : ctype := TStruct
  ["ar_hrd" ∷ __be16; "ar_pro" ∷ __be16; "ar_hln" ∷ uint8; "ar_pln" ∷ uint8; "ar_op" ∷ __be16].

Definition struct_iphdr : ctype := TStruct
  [bitfield "ihl" __u8 4; bitfield "version" __u8 4; "tos" ∷ __u8; "tot_len" ∷ __be16; "id" ∷ __be16;
   "frag_off" ∷ __be16; "ttl" ∷ __u8; "protocol" ∷ __u8; "check" ∷ __sum16;
   anonymous (TUnion
     [anonymous (TStruct
        ["saddr" ∷ __be32; "daddr" ∷ __be32]);
      "addrs" ∷ TStruct
        ["saddr" ∷ __be32; "daddr" ∷ __be32]])].

Definition struct_in6_addr : ctype := TStruct
  ["in6_u" ∷ TUnion
     ["u6_addr8" ∷ TArray __u8 16; "u6_addr16" ∷ TArray __be16 8; "u6_addr32" ∷ TArray __be32 4]].

Definition struct_ipv6hdr : ctype := TStruct
  [bitfield "priority" __u8 4; bitfield "version" __u8 4; "flow_lbl" ∷ TArray __u8 3;
   "payload_len" ∷ __be16; "nexthdr" ∷ __u8; "hop_limit" ∷ __u8;
   anonymous (TUnion
     [anonymous (TStruct
        ["saddr" ∷ struct_in6_addr; "daddr" ∷ struct_in6_addr]);
      "addrs" ∷ TStruct
        ["saddr" ∷ struct_in6_addr; "daddr" ∷ struct_in6_addr]])].

Definition struct_tcphdr : ctype := TStruct
  ["source" ∷ __be16; "dest" ∷ __be16; "seq" ∷ __be32; "ack_seq" ∷ __be32; bitfield "res1" __u16 4;
   bitfield "doff" __u16 4; bitfield "fin" __u16 1; bitfield "syn" __u16 1; bitfield "rst" __u16 1;
   bitfield "psh" __u16 1; bitfield "ack" __u16 1; bitfield "urg" __u16 1; bitfield "ece" __u16 1;
   bitfield "cwr" __u16 1; "window" ∷ __be16; "check" ∷ __sum16; "urg_ptr" ∷ __be16].

Definition struct_udphdr : ctype := TStruct
  ["source" ∷ __be16; "dest" ∷ __be16; "len" ∷ __be16; "check" ∷ __sum16].

Definition struct_icmphdr : ctype := TStruct
  ["type" ∷ __u8; "code" ∷ __u8; "checksum" ∷ __sum16;
   "un" ∷ TUnion
     ["echo" ∷ TStruct
        ["id" ∷ __be16; "sequence" ∷ __be16];
      "gateway" ∷ __be32;
      "frag" ∷ TStruct
        ["__unused" ∷ __be16; "mtu" ∷ __be16];
      "reserved" ∷ TArray __u8 4]].

Definition struct_in_addr : ctype := TStruct
  ["s_addr" ∷ __be32].

Definition struct_sockaddr_in : ctype := TStruct
  ["sin_family" ∷ __kernel_sa_family_t; "sin_port" ∷ __be16; "sin_addr" ∷ struct_in_addr;
   "__pad" ∷ TArray uint8 8].

(** ** The modelled types *)

Definition bpf_types : list ctype :=
  [struct_bpf_insn; struct_xdp_md; struct_bpf_sock; struct___sk_buff; struct_bpf_sock_tuple;
   struct_bpf_tunnel_key; struct_bpf_fib_lookup; struct_bpf_tcp_sock; struct_bpf_prog_info;
   struct_bpf_map_info; union_bpf_attr].

Definition header_types : list ctype :=
  [struct_ethhdr; struct_vlan_hdr; struct_vlan_ethhdr; struct_arphdr; struct_iphdr; struct_in6_addr;
   struct_ipv6hdr; struct_tcphdr; struct_udphdr; struct_icmphdr; struct_in_addr; struct_sockaddr_in].

(** ** The headers on the wire

    The headers as the standards draw them (IEEE 802.3 and 802.1Q, RFC 826, 791,
    8200, 9293, 768, 792), independent of any compiler: for each field its first
    octet, the lowest bit it has in that octet and its width in bits. *)

Definition wire_row : Type := list string * (Z * Z * Z).

Definition wire_formats : list (ctype * Z * list wire_row) :=
  [(struct_ethhdr, 14,
    [(["h_dest"], (0, 0, 48)); (["h_source"], (6, 0, 48)); (["h_proto"], (12, 0, 16))]);
   (struct_vlan_ethhdr, 18,
    [(["h_dest"], (0, 0, 48)); (["h_source"], (6, 0, 48)); (["h_vlan_proto"], (12, 0, 16));
     (["h_vlan_TCI"], (14, 0, 16)); (["h_vlan_encapsulated_proto"], (16, 0, 16))]);
   (struct_arphdr, 8,
    [(["ar_hrd"], (0, 0, 16)); (["ar_pro"], (2, 0, 16)); (["ar_hln"], (4, 0, 8)); (["ar_pln"], (5, 0, 8));
     (["ar_op"], (6, 0, 16))]);
   (struct_iphdr, 20,
    [(["ihl"], (0, 0, 4)); (["version"], (0, 4, 4)); (["tos"], (1, 0, 8)); (["tot_len"], (2, 0, 16));
     (["id"], (4, 0, 16)); (["frag_off"], (6, 0, 16)); (["ttl"], (8, 0, 8)); (["protocol"], (9, 0, 8));
     (["check"], (10, 0, 16)); (["saddr"], (12, 0, 32)); (["daddr"], (16, 0, 32))]);
   (struct_ipv6hdr, 40,
    [(["priority"], (0, 0, 4)); (["version"], (0, 4, 4)); (["flow_lbl"], (1, 0, 24));
     (["payload_len"], (4, 0, 16)); (["nexthdr"], (6, 0, 8)); (["hop_limit"], (7, 0, 8));
     (["addrs"; "saddr"], (8, 0, 128)); (["addrs"; "daddr"], (24, 0, 128))]);
   (struct_tcphdr, 20,
    [(["source"], (0, 0, 16)); (["dest"], (2, 0, 16)); (["seq"], (4, 0, 32)); (["ack_seq"], (8, 0, 32));
     (["res1"], (12, 0, 4)); (["doff"], (12, 4, 4)); (["fin"], (13, 0, 1)); (["syn"], (13, 1, 1));
     (["rst"], (13, 2, 1)); (["psh"], (13, 3, 1)); (["ack"], (13, 4, 1)); (["urg"], (13, 5, 1));
     (["ece"], (13, 6, 1)); (["cwr"], (13, 7, 1)); (["window"], (14, 0, 16)); (["check"], (16, 0, 16));
     (["urg_ptr"], (18, 0, 16))]);
   (struct_udphdr, 8,
    [(["source"], (0, 0, 16)); (["dest"], (2, 0, 16)); (["len"], (4, 0, 16)); (["check"], (6, 0, 16))]);
   (struct_icmphdr, 8,
    [(["type"], (0, 0, 8)); (["code"], (1, 0, 8)); (["checksum"], (2, 0, 16));
     (["un"; "echo"; "id"], (4, 0, 16)); (["un"; "echo"; "sequence"], (6, 0, 16))])].

(** First bit and width of a member. *)
Definition window_of (t : ctype) (path : list string) : option (Z * Z) :=
  match locate path t with
  | Some (o, t', b) => Some (o, default (8 * sizeof t') b)
  | None => None
  end.

(** Fields that follow one another without a gap, from bit [o] to bit [e]. *)
Fixpoint tiles (o e : Z) (rows : list wire_row) : bool :=
  match rows with
  | [] => o =? e
  | (_, (byte, bit, w)) :: rows => (8 * byte + bit =? o) && tiles (o + w) e rows
  end.

(** ** Properties *)

(** The packet header structs are the headers of the standards: every field of
    the standard is a member that occupies exactly the field's bits (the version,
    header length and flag bit-fields included), the size is the standard's and
    the fields cover the struct without padding. *)
Lemma headers_match_wire :
  Forall (fun '(t, size, rows) =>
    wf t = true /\ sizeof t = size /\ tiles 0 (8 * size) rows = true /\
    Forall (fun '(path, (byte, bit, w)) => window_of t path = Some (8 * byte + bit, w)) rows) wire_formats.
Proof. repeat constructor. Qed.

(** The enums of the bpf interface number their enumerators without gaps from
    0 on, and the number of an enumerator determines it; the exceptions are the
    three deliberate aliases, two deprecated names of map types and the old name
    of a command, each of which is read back as the name declared first. *)
Lemma enums_roundtrip :
  (forall e : bpf_prog_type, enum_of (enum_value e) = Some e) /\ enum_dense bpf_prog_type 34 /\
  (forall e : bpf_attach_type, enum_of (enum_value e) = Some e) /\ enum_dense bpf_attach_type 57 /\
  (forall e : bpf_link_type, enum_of (enum_value e) = Some e) /\ enum_dense bpf_link_type 15 /\
  (forall e : bpf_func_id, enum_of (enum_value e) = Some e) /\ enum_dense bpf_func_id 213 /\
  (forall e : xdp_action, enum_of (enum_value e) = Some e) /\ enum_dense xdp_action 5 /\
  (forall e : bpf_map_type, enum_of (enum_value e) =
     Some match e with
          | BPF_MAP_TYPE_CGROUP_STORAGE => BPF_MAP_TYPE_CGROUP_STORAGE_DEPRECATED
          | BPF_MAP_TYPE_PERCPU_CGROUP_STORAGE => BPF_MAP_TYPE_PERCPU_CGROUP_STORAGE_DEPRECATED
          | _ => e
          end) /\ enum_dense bpf_map_type 33 /\
  (forall e : bpf_cmd, enum_of (enum_value e) =
     Some match e with BPF_PROG_RUN => BPF_PROG_TEST_RUN | _ => e end) /\ enum_dense bpf_cmd 36.
Proof.
  split_and!; try (by intros []); by apply enum_dense_sound; vm_compute.
Qed.
