(* ===== verification/Types.v ===== *)
(** * Types: the C types of the program and of the kernel interface

    The remaining struct declarations of [include/velora/packet.h] and
    [include/velora/protocol.h], the list of all modelled struct and union types,
    and what their layouts guarantee to the code that takes addresses of members,
    copies objects and reads headers through pointers. *)

From S2P Require Import Prelude CType Core RingBuffer Packet Parser Protocol Connection Vmlinux.
#[local] Open Scope Z_scope.

(** [vr_packet_view_t] and [vr_protocol_action_t] are declared for the next
    version of the parser and not used yet. *)
Definition vr_packet_view_type `{Abi} : ctype := TStruct
  ["payload" ∷ TPtr; "payload_len" ∷ uint16; "type" ∷ enum; "stream_id" ∷ uint8; "flags" ∷ uint8;
   "conn_id" ∷ uint64; "seq" ∷ uint32; "ack" ∷ uint32; "recv_window" ∷ uint16].

Definition vr_protocol_action_type `{Abi} : ctype := TStruct
  ["send" ∷ uint8; "type" ∷ enum; "stream_id" ∷ uint8; "flags" ∷ enum; "payload" ∷ TPtr;
   "payload_len" ∷ uint16].

Definition program_types `{Abi} : list ctype :=
  [vr_packet_header_type; vr_packet_type; vr_packet_view_type; vr_protocol_action_type; vr_parser_type;
   vr_net_conn_type; vr_connection_ring_buf_type; vr_connection_type; vr_connection_manager_type].

Definition all_types `{Abi} : list ctype := program_types ++ bpf_types ++ header_types.

Lemma all_types_wf `{Abi} t : t ∈ all_types -> wf t = true.
Proof.
  intros Hin. enough (forallb wf all_types = true) as Hall.
  { rewrite forallb_forall in Hall. apply Hall. by apply list_elem_of_In. }
  unfold all_types, program_types, vr_packet_type, vr_packet_view_type, vr_protocol_action_type,
    vr_connection_type, vr_parser_type, vr_packet_header_type, enum.
  destruct sizeof_enum_ok as [-> | [-> | ->]]; by vm_compute.
Qed.

(** The placed members of a struct: width and first bit. *)
Definition placed (ms : list member) (i : nat) (o : Z) (s : slot) : Prop :=
  map slot_of ms !! i = Some s /\ place 0 (map slot_of ms) !! i = Some o.

(** ** Properties *)

(** The types of the program and of the kernel interface are laid out soundly,
    whatever size the compiler gives an enum.  The alignment is a power of two
    dividing the size.  What a path of member names reaches, through nested and
    anonymous structs and unions, lies inside the object at an aligned address, a
    bit-field inside one storage unit.  Members of a struct do not overlap: after
    an assignment to one of them, it holds the value truncated to its width and
    every other member, a bit-field of the same unit included, is unchanged. *)
Lemma layouts_sound `{Abi} (t : ctype) (Hin : t ∈ all_types) :
  align_ok (alignof t) /\ (alignof t | sizeof t) /\
  (forall path o t' b, locate path t = Some (o, t', b) ->
     0 <= o /\ o + default (8 * sizeof t') b <= 8 * sizeof t /\
     match b with
     | None => (8 * alignof t' | o)
     | Some w => o mod (8 * sizeof t') + w <= 8 * sizeof t'
     end) /\
  (forall ms, t = TStruct ms ->
     (forall i j o p s u, (i < j)%nat -> placed ms i o s -> placed ms j p u -> o + slot_width s <= p) /\
     (forall obj i o s x, zlen obj = sizeof t -> placed ms i o s ->
        let obj' := write_bits obj o (slot_width s) x in
        zlen obj' = zlen obj /\ read_bits obj' o (slot_width s) = x mod 2 ^ slot_width s /\
        forall j p u, j <> i -> placed ms j p u ->
          read_bits obj' p (slot_width u) = read_bits obj p (slot_width u))).
Proof.
  pose proof (all_types_wf t Hin) as Hw. destruct (layout_wf t Hw) as (Ha & _ & Hd). split_and!; [done|done| |].
  - intros path o t' b Hl. by destruct (locate_spec _ _ _ Hw Hl) as (_ & _ & _ & ? & ? & ?).
  - intros ms ->. split.
    + intros i j o p s u Hij [Hs Ho] [_ Hp].
      exact (place_ordered _ _ _ _ _ _ _ (slots_wf _ Hw) Hij Hs Ho Hp).
    + intros obj i o s x Hobj [Hs Ho] obj'.
      destruct (member_update ms obj i s o x Hw Hobj Hs Ho) as (? & _ & ? & Hne). split_and!; [done..|].
      intros j p u Hij [Hu Hp]. exact (Hne j u p Hij Hu Hp).
Qed.

(** Reading a member through a pointer.  When the object the pointer points to
    lies inside the block, as it does after the bounds check of an eBPF program,
    the access of any integer member or bit-field of any modelled type is defined
    and yields exactly the member's bits of the object. *)
Lemma member_access `{Abi} (t : ctype) (path : list string) (o : Z) (sg : bool) (n : Z) (b : option Z)
  (block : list Z) (base a : Z)
  (Hin : t ∈ all_types) (Hl : locate path t = Some (o, TInt sg n, b)) (Hb : Forall is_byte block)
  (Ha : base <= a) (He : a + sizeof t <= base + zlen block) :
  load_member t path block base a =
  Ok (read_bits (take (Z.to_nat (sizeof t)) (drop (Z.to_nat (a - base)) block)) o (default (8 * n) b)).
Proof. exact (load_member_safe _ _ _ _ _ _ _ _ _ (all_types_wf t Hin) Hl Hb Ha He). Qed.

(** ** Witnesses *)

(** The data offset of a TCP header, a bit-field of the 16-bit unit at octet 12. *)
Lemma member_access_witness :
  load_member struct_tcphdr ["doff"] (replicate 12 0 ++ [0x50; 0x12; 0; 0; 0; 0; 0; 0]) 4096 4096 = Ok 5.
Proof.
  rewrite (@member_access gcc_abi struct_tcphdr ["doff"] 100 false 2 (Some 4)
    (replicate 12 0 ++ [0x50; 0x12; 0; 0; 0; 0; 0; 0]) 4096 4096).
  - by vm_compute.
  - apply list_elem_of_In. simpl. tauto.
  - done.
  - by repeat constructor.
  - done.
  - by vm_compute.
Defined.
