(* ===== verification/Ebpf.v ===== *)
(** * Ebpf: ebpf-learning/xdp/xdp.bpf.c and ebpf-learning/02-maps/hello.ebpf.c

    The two kernel programs: one looks at the headers of a received frame, the
    other counts the processes' calls of execve in a hash map.  The frame is the
    block of bytes between [data] and [data_end]; a load outside it is undefined.
    The host is little-endian; what [bpf_printk] prints is collected in a trace. *)

From S2P Require Import Prelude CType Core Vmlinux.
#[local] Open Scope Z_scope.

(** ** xdp.bpf.c *)

(** The context as the program sees it: the verifier turns the 32-bit members
    [data] and [data_end] of [struct xdp_md] into the addresses of the frame. *)
Record xdp_md := XdpMd {
  data : Z;
  data_end : Z;
  data_meta : Z;
  ingress_ifindex : Z;
  rx_queue_index : Z;
  egress_ifindex : Z
}.

(** [&p->path] for a [p] of type [t *] that holds [a]; what an array member decays to. *)
Definition member_address (t : ctype) (path : list string) (a : Z) : outcome Z :=
  match offset_of t path with
  | Some o => Ok (a + o)
  | None => Undef
  end.

Definition bpf_ntohs (v : Z) : Z := (v mod 256) * 256 + v / 256.
Definition bpf_ntohl (v : Z) : Z := bpf_ntohs (v mod 65536) * 65536 + bpf_ntohs (v / 65536).

Inductive printed :=
| EtherType (v : Z)
| EtherSrc (address : Z)
| EtherDest (address : Z)
| IPv4Header (ihl ttl protocol : Z)
| IPv4Addresses (total_len src dest : Z).

Definition xdp_pass (ctx : xdp_md) (pkt : list Z) : outcome (xdp_action * list printed) :=
  let base := data ctx in
  let eth := base in
  if data_end ctx <? eth + sizeof struct_ethhdr then Ok (XDP_PASS, [])
  else
    h_proto ← load_member struct_ethhdr ["h_proto"] pkt base eth;
    h_source ← member_address struct_ethhdr ["h_source"] eth;
    h_dest ← member_address struct_ethhdr ["h_dest"] eth;
    let out := [EtherType (bpf_ntohs h_proto); EtherSrc h_source; EtherDest h_dest] in
    if negb (bpf_ntohs h_proto =? 0x0800) then Ok (XDP_PASS, out)
    else
      let ip := eth + sizeof struct_ethhdr in
      if data_end ctx <? ip + sizeof struct_iphdr then Ok (XDP_PASS, out)
      else
        ihl ← load_member struct_iphdr ["ihl"] pkt base ip;
        ttl ← load_member struct_iphdr ["ttl"] pkt base ip;
        protocol ← load_member struct_iphdr ["protocol"] pkt base ip;
        tot_len ← load_member struct_iphdr ["tot_len"] pkt base ip;
        saddr ← load_member struct_iphdr ["saddr"] pkt base ip;
        daddr ← load_member struct_iphdr ["daddr"] pkt base ip;
        Ok (XDP_PASS, out ++ [IPv4Header ihl ttl protocol;
                              IPv4Addresses (bpf_ntohs tot_len) (bpf_ntohl saddr) (bpf_ntohl daddr)]).

(** ** hello.ebpf.c *)

(** The map as [SEC(".maps")] declares it. *)
Record map_def := MapDef {
  md_type : bpf_map_type;
  md_max_entries : nat;
  md_key : ctype;
  md_value : ctype
}.

Definition counter_def : map_def := MapDef BPF_MAP_TYPE_HASH 1024 __u32 __u64.

Definition max_entries : nat := md_max_entries counter_def.

(** The kernel's helper [bpf_map_update_elem(map, &key, &value, BPF_ANY)], for a
    hash map with room for [max] entries, and what bpf-helpers(7) says of it: it
    sets the element of a key, a new one as long as there is room. *)
Class MapHelper := {
  map_update_elem (max : nat) (key value : Z) : gmap Z Z -> gmap Z Z
}.

Class MapLaws `{MapHelper} : Prop := {
  law_present max key value m : is_Some (m !! key) -> map_update_elem max key value m = <[key := value]> m;
  law_room max key value m : (size m < max)%nat -> map_update_elem max key value m = <[key := value]> m
}.

Section Counter.
Context `{MapHelper}.

(** [pid_tgid] is what [bpf_get_current_pid_tgid] returns. *)
Definition count_execve (pid_tgid : Z) (counter : gmap Z Z) : Z * gmap Z Z :=
  let pid := u32 (Z.shiftr pid_tgid 32) in
  match counter !! pid with
  | Some count => (0, <[pid := u64 (count + 1)]> counter)
  | None => (0, map_update_elem max_entries pid 1 counter)
  end.

(** Calls of the program one after the other. *)
Fixpoint count_all (calls : list Z) (counter : gmap Z Z) : gmap Z Z :=
  match calls with
  | [] => counter
  | c :: calls => count_all calls (count_execve c counter).2
  end.

(** *** The program on several processors

    The program takes no lock: its steps are the lookup, the load and the store of
    [( *count)++] through the pointer the lookup returned, or the update.  A
    processor is where it is in the program; [pid] is the key it works on. *)
Inductive cpu :=
| Called (pid : Z)
| Found (pid : Z)
| Loaded (pid count : Z)
| Missing (pid : Z)
| Returned (pid : Z).


Definition cpu_step (c : cpu) (counter : gmap Z Z) : cpu * gmap Z Z :=
  match c with
  | Called pid => (match counter !! pid with Some _ => Found pid | None => Missing pid end, counter)
  | Found pid => (Loaded pid (default 0 (counter !! pid)), counter)
  | Loaded pid count => (Returned pid, <[pid := u64 (count + 1)]> counter)
  | Missing pid => (Returned pid, map_update_elem max_entries pid 1 counter)
  | Returned pid => (Returned pid, counter)
  end.

End Counter.

(** ** Facts *)

(** A number in network byte order. *)
Definition be (bs : list Z) : Z := fold_left (fun a b => a * 256 + b) bs 0.

(** The [n] bytes at offset [k] of a frame. *)
Definition field (pkt : list Z) (k n : nat) : list Z := take n (drop k pkt).

Lemma ntohs_be bs : Forall is_byte bs -> length bs = 2%nat -> bpf_ntohs (le_value bs) = be bs.
Proof.
  intros Hb Hl. destruct bs as [|x [|y []]]; try done. unfold is_byte in Hb. decompose_Forall.
  unfold bpf_ntohs, be. simpl. Z.div_mod_to_equations. lia.
Qed.

Lemma ntohl_be bs : Forall is_byte bs -> length bs = 4%nat -> bpf_ntohl (le_value bs) = be bs.
Proof.
  intros Hb Hl. destruct bs as [|x [|y [|z [|t []]]]]; try done. unfold is_byte in Hb. decompose_Forall.
  unfold bpf_ntohl, bpf_ntohs, be. simpl. Z.div_mod_to_equations. lia.
Qed.

Section Frame.
Context (base : Z) (pkt : list Z).
Hypothesis Hbytes : Forall is_byte pkt.

Lemma field_byte k n : Forall is_byte (field pkt k n).
Proof. by apply Forall_take, Forall_drop. Qed.

Lemma field_length k n : (k + n <= length pkt)%nat -> length (field pkt k n) = n.
Proof. intros. unfold field. rewrite length_take, length_drop. lia. Qed.

(** The [n] bytes at offset [k] of the frame, loaded. *)
Lemma load_field k n a :
  a = base + Z.of_nat k -> (k + n <= length pkt)%nat -> load_le n pkt base a = Ok (le_value (field pkt k n)).
Proof.
  intros -> Hk. rewrite load_le_ok by (unfold zlen; lia).
  by replace (Z.to_nat (base + Z.of_nat k - base)) with k by lia.
Qed.

Lemma load_octet k a :
  a = base + Z.of_nat k -> (k < length pkt)%nat ->
  exists x, load_le 1 pkt base a = Ok x /\ is_byte x /\ pkt !! k = Some x.
Proof.
  intros Ha Hk. destruct (lookup_lt_is_Some_2 pkt k Hk) as [x Hx]. exists x.
  rewrite (load_field k 1 a Ha) by lia. unfold field. rewrite (drop_S _ _ _ Hx). simpl.
  split_and!; [f_equal; lia|by eapply Forall_lookup|done].
Qed.
End Frame.

(** ** The members the program reads

    Where the layouts of [vmlinux.h] put them; each is a load of whole octets,
    and [ihl] four bits of one. *)
Section Members.
Context (pkt : list Z) (base a : Z).

Lemma load_h_proto : load_member struct_ethhdr ["h_proto"] pkt base a = load_le 2 pkt base (a + 12).
Proof. done. Qed.
Lemma load_ihl :
  load_member struct_iphdr ["ihl"] pkt base a = (b ← load_le 1 pkt base (a + 0); Ok (get_bits b 0 4)).
Proof. done. Qed.
Lemma load_ttl : load_member struct_iphdr ["ttl"] pkt base a = load_le 1 pkt base (a + 8).
Proof. done. Qed.
Lemma load_protocol : load_member struct_iphdr ["protocol"] pkt base a = load_le 1 pkt base (a + 9).
Proof. done. Qed.
Lemma load_tot_len : load_member struct_iphdr ["tot_len"] pkt base a = load_le 2 pkt base (a + 2).
Proof. done. Qed.
Lemma load_saddr : load_member struct_iphdr ["saddr"] pkt base a = load_le 4 pkt base (a + 12).
Proof. done. Qed.
Lemma load_daddr : load_member struct_iphdr ["daddr"] pkt base a = load_le 4 pkt base (a + 16).
Proof. done. Qed.
End Members.

(** ** Counting *)

Definition pid_of (pid_tgid : Z) : Z := u32 (Z.shiftr pid_tgid 32).

Definition occurrences (pid : Z) (calls : list Z) : Z :=
  zlen (filter (fun c => pid_of c = pid) calls).

(** The processes the map has to hold for [calls]. *)
Definition seen (calls : list Z) (counter : gmap Z Z) : gset Z :=
  dom counter ∪ list_to_set (pid_of <$> calls).

Section Counting.
Context `{MapLaws}.


Lemma map_update_room key value counter (X : gset Z) :
  (size X <= max_entries)%nat -> dom counter ⊆ X -> key ∈ X ->
  map_update_elem max_entries key value counter = <[key := value]> counter.
Proof.
  intros Hs Hd Hk. destruct (counter !! key) eqn:E; [by apply law_present; eexists|].
  apply law_room. destruct (Nat.ltb_spec (size counter) max_entries) as [|Hge]; [done|]. exfalso.
  assert (Hsub : {[key]} ∪ dom counter ⊆ X).
  { apply union_subseteq. split; [|done]. by apply singleton_subseteq_l. }
  apply subseteq_size in Hsub. rewrite size_union in Hsub.
  - rewrite size_singleton, size_dom in Hsub. lia.
  - intros x ->%elem_of_singleton Hin. by apply elem_of_dom in Hin as [? ?]; simplify_eq.
Qed.

Lemma count_execve_lookup c calls counter :
  (size (seen (c :: calls) counter) <= max_entries)%nat ->
  (count_execve c counter).2 = <[pid_of c := u64 (default 0 (counter !! pid_of c) + 1)]> counter.
Proof.
  intros Hs. unfold count_execve. fold (pid_of c). destruct (counter !! pid_of c) as [n|] eqn:E; [done|].
  cbn [snd]. rewrite (map_update_room _ _ _ _ Hs); [done|..].
  - unfold seen. apply union_subseteq_l.
  - unfold seen. apply elem_of_union_r, elem_of_list_to_set. left.
Qed.

Lemma seen_insert c calls counter n :
  seen calls (<[pid_of c := n]> counter) = seen (c :: calls) counter.
Proof.
  unfold seen. rewrite dom_insert_L. apply set_eq. intros x. simpl.
  rewrite !elem_of_union. tauto.
Qed.

Lemma occurrences_cons pid c calls :
  occurrences pid (c :: calls) = (if decide (pid_of c = pid) then 1 else 0) + occurrences pid calls.
Proof.
  unfold occurrences, zlen. destruct (decide (pid_of c = pid)).
  - rewrite filter_cons_True by done. simpl length. lia.
  - by rewrite filter_cons_False.
Qed.


Lemma u64_add_l a b : u64 (u64 a + b) = u64 (a + b).
Proof. unfold u64. by rewrite Z.add_mod_idemp_l. Qed.

Lemma count_all_spec calls counter :
  (size (seen calls counter) <= max_entries)%nat ->
  (forall p, 0 <= default 0 (counter !! p) < 2 ^ 64) ->
  dom (count_all calls counter) = seen calls counter /\
  forall pid, default 0 (count_all calls counter !! pid)
    = u64 (default 0 (counter !! pid) + occurrences pid calls).
Proof.
  revert counter. induction calls as [|c calls IH]; intros counter Hs Hr; cbn [count_all].
  { split; [by unfold seen; simpl; rewrite (right_id_L ∅ (∪))|]. intros pid.
    rewrite Z.add_0_r, u64_id; [done|]. apply Hr. }
  rewrite (count_execve_lookup c calls) by done. set (counter' := <[_ := _]> counter).
  assert (Hse : seen calls counter' = seen (c :: calls) counter) by apply seen_insert.
  assert (Hlk : forall p, default 0 (counter' !! p)
    = if decide (pid_of c = p) then u64 (default 0 (counter !! p) + 1) else default 0 (counter !! p)).
  { intros p. unfold counter'. destruct (decide (pid_of c = p)) as [->|Hne].
    - by rewrite lookup_insert_eq.
    - by rewrite lookup_insert_ne. }
  destruct (IH counter') as [Hd Hl]; [by rewrite Hse| |].
  { intros p. rewrite Hlk. destruct (decide _); [|apply Hr]. unfold u64. apply Z.mod_pos_bound. lia. }
  split; [by rewrite Hd|]. intros pid. rewrite Hl, Hlk, occurrences_cons. destruct (decide _).
  - rewrite u64_add_l. f_equal. lia.
  - done.
Qed.

(** ** Interleavings *)

(** A processor that is not interrupted computes [count_execve]. *)
Lemma cpu_sequential pid_tgid counter :
  let step '(c, m) := cpu_step c m in
  step (step (step (Called (pid_of pid_tgid), counter))) =
  (Returned (pid_of pid_tgid), (count_execve pid_tgid counter).2).
Proof.
  unfold count_execve. fold (pid_of pid_tgid). cbn [cpu_step].
  destruct (counter !! pid_of pid_tgid) as [n|] eqn:E; cbn [cpu_step]; [by rewrite E|done].
Qed.
















End Counting.

(** ** Properties *)

(** C33. Whatever arrives, the program lets it pass and never reads outside the
    frame.  When there is a whole Ethernet header it prints the type of the frame
    and, where a reader expects the two hardware addresses, the places in memory
    where they are; it prints the fields of the IPv4 header exactly when the type
    is IPv4 and there is a whole IPv4 header, numbers converted from network byte
    order. *)
Theorem xdp_in_bounds (ctx : xdp_md) (pkt : list Z)
  (Hb : Forall is_byte pkt) (He : data_end ctx = data ctx + zlen pkt) :
  exists out, xdp_pass ctx pkt = Ok (XDP_PASS, out) /\
    ((length pkt < 14)%nat -> out = []) /\
    ((14 <= length pkt)%nat -> exists rest,
       out = [EtherType (be (field pkt 12 2)); EtherSrc (data ctx + 6); EtherDest (data ctx + 0)] ++ rest /\
       (be (field pkt 12 2) <> 0x0800 \/ (length pkt < 34)%nat -> rest = []) /\
       (be (field pkt 12 2) = 0x0800 -> (34 <= length pkt)%nat ->
          exists b ttl protocol, pkt !! 14%nat = Some b /\ pkt !! 22%nat = Some ttl /\
            pkt !! 23%nat = Some protocol /\
            rest = [IPv4Header (Z.land b 15) ttl protocol;
                    IPv4Addresses (be (field pkt 16 2)) (be (field pkt 26 4)) (be (field pkt 30 4))])).
Proof.
  unfold xdp_pass. rewrite He. unfold zlen.
  change (sizeof struct_ethhdr) with 14. change (sizeof struct_iphdr) with 20.
  change (member_address struct_ethhdr ["h_source"] (data ctx)) with (Ok (data ctx + 6)).
  change (member_address struct_ethhdr ["h_dest"] (data ctx)) with (Ok (data ctx + 0)).
  destruct (Z.ltb_spec (data ctx + Z.of_nat (length pkt)) (data ctx + 14)) as [Hs|Hs].
  { exists []. split_and!; [done|done|lia]. }
  rewrite load_h_proto, (load_field _ _ 12) by lia. ostep.
  rewrite ntohs_be by first [by apply field_byte | apply field_length; lia].
  destruct (Z.eqb_spec (be (field pkt 12 2)) 0x0800) as [Ht|Ht]; cbn [negb].
  2:{ eexists. split_and!; [done|lia|]. intros _. exists []. by split_and!. }
  destruct (Z.ltb_spec (data ctx + Z.of_nat (length pkt)) (data ctx + 14 + 20)) as [Hi|Hi].
  { eexists. split_and!; [done|lia|]. intros _. exists []. split_and!; [done|done|lia]. }
  rewrite load_ihl, load_ttl, load_protocol, load_tot_len, load_saddr, load_daddr.
  destruct (load_octet (data ctx) pkt Hb 14 (data ctx + 14 + 0)) as (b & -> & _ & L1); [lia..|]. ostep.
  destruct (load_octet (data ctx) pkt Hb 22 (data ctx + 14 + 8)) as (ttl & -> & _ & L2); [lia..|]. ostep.
  destruct (load_octet (data ctx) pkt Hb 23 (data ctx + 14 + 9)) as (pr & -> & _ & L3); [lia..|]. ostep.
  rewrite (load_field _ _ 16 2 (data ctx + 14 + 2)), (load_field _ _ 26 4 (data ctx + 14 + 12)),
    (load_field _ _ 30 4 (data ctx + 14 + 16)) by lia. ostep.
  rewrite ntohs_be, !ntohl_be by first [by apply field_byte | apply field_length; lia].
  eexists. split_and!; [done|lia|]. intros _. eexists. split_and!; [done|lia|].
  intros _ _. by exists b, ttl, pr.
Qed.

(** C34. The map counts calls that are made one after the other.  From an empty map,
    after any such calls made by at most 1024 processes, the map has an entry for
    exactly those processes and the entry is the number of the process's calls,
    modulo 2^64. *)
Theorem execve_counts `{MapLaws} (calls : list Z)
  (Hs : (size (list_to_set (pid_of <$> calls) : gset Z) <= max_entries)%nat) :
  dom (count_all calls ∅) = list_to_set (pid_of <$> calls) /\
  forall pid, default 0 (count_all calls ∅ !! pid) = u64 (occurrences pid calls).
Proof.
  assert (He : seen calls ∅ = list_to_set (pid_of <$> calls)).
  { unfold seen. by rewrite dom_empty_L, (left_id_L ∅ (∪)). }
  destruct (count_all_spec calls ∅) as [Hd Hl]; [by rewrite He| |].
  { intros p. rewrite lookup_empty. simpl. lia. }
  split; [by rewrite Hd|]. intros pid. rewrite Hl, lookup_empty. done.
Qed.


(** ** Witnesses *)

(** An IPv4 frame without payload. *)
Definition frame_example : list Z :=
  replicate 12 1 ++ [8; 0] ++ [69; 0; 0; 20; 0; 0; 0; 0; 64; 6; 0; 0; 10; 0; 0; 1; 10; 0; 0; 2].

Lemma xdp_in_bounds_witness :
  exists out, xdp_pass (XdpMd 4096 4130 0 1 0 0) frame_example = Ok (XDP_PASS, out) /\
    length out = 5%nat.
Proof.
  destruct (xdp_in_bounds (XdpMd 4096 4130 0 1 0 0) frame_example) as (out & E & _ & Hout);
    [by repeat constructor|done|].
  exists out. split; [exact E|]. destruct Hout as (rest & -> & _ & Hr); [simpl; lia|].
  destruct Hr as (b & ttl & pr & _ & _ & _ & ->); [done|simpl; lia|]. done.
Defined.

(** A hash map as the kernel has it: a full one refuses a new key. *)
Definition hash_map : MapHelper :=
  {| map_update_elem max key value m :=
       match m !! key with
       | Some _ => <[key := value]> m
       | None => if (size m <? max)%nat then <[key := value]> m else m
       end |}.

Lemma hash_map_laws : @MapLaws hash_map.
Proof.
  split; simpl.
  - by intros max key value m [v ->].
  - intros max key value m Hs. rewrite (proj2 (Nat.ltb_lt _ _) Hs). by destruct (m !! key).
Qed.

#[local] Existing Instance hash_map.
#[local] Existing Instance hash_map_laws.

Lemma execve_counts_witness :
  default 0 (count_all [Z.shiftl 7 32 + 1; Z.shiftl 8 32; Z.shiftl 7 32 + 2] ∅ !! 7) = 2.
Proof.
  destruct (execve_counts [Z.shiftl 7 32 + 1; Z.shiftl 8 32; Z.shiftl 7 32 + 2]) as [_ Hc].
  - vm_compute. lia.
  - rewrite Hc. by vm_compute.
Defined.

