(* ===== verification/Client.v ===== *)
(** * Client: what the load generators of tests/ share

    The programs in tests/ are the only clients the repository has.  They run on
    an operating system of their own, [Os]: one function per system call they
    make, on an abstract state, with laws in terms of the same view of the kernel
    as for the server ([kview]).  [prog] is the monad of their code.

    tests/throughput_pingpong.c, tests/packet_throughput.c and
    tests/throughput_c.c begin alike: a packet is built byte by byte, a blocking
    socket is connected, CONNECT is sent and the answer checked.  The functions
    they have in common up to their names are modelled once, with the lines of
    throughput_pingpong.c; where they differ, in the check of the answer, both
    variants are modelled. *)

From S2P Require Import Prelude Core Packet Parser World SocketUtils.
#[local] Open Scope Z_scope.

(** ** The operating system *)

(** The operations of epoll_ctl, with the event and the number the client attaches. *)
Inductive epoll_op :=
| Epoll_add (events data : Z)
| Epoll_mod (events data : Z)
| Epoll_del.

Class Os := {
  ost : Type;
  os_socket : ost -> answer Z * ost;
  os_connect : Z -> ost -> answer unit * ost;
  (** send(fd, bytes, length, MSG_NOSIGNAL) *)
  os_send : Z -> list Z -> ost -> answer Z * ost;
  os_recv : Z -> Z -> ost -> answer (list Z) * ost;
  os_getfl : Z -> ost -> answer Z * ost;
  os_setfl : Z -> Z -> ost -> answer unit * ost;
  os_close : Z -> ost -> answer unit * ost;
  (** connect, send or recv on this descriptor, in blocking mode, would never return:
      the peer is silent *)
  os_hangs : Z -> ost -> bool;
  os_epoll_create1 : ost -> answer Z * ost;
  os_epoll_ctl : Z -> epoll_op -> Z -> ost -> answer unit * ost;
  (** events with the attached numbers *)
  os_epoll_wait : Z -> Z -> Z -> ost -> answer (list (Z * Z)) * ost;
  (** getsockopt(fd, SOL_SOCKET, SO_ERROR) *)
  os_so_error : Z -> ost -> answer Z * ost;
  (** sleep(seconds); the seconds that were left when it was interrupted *)
  os_sleep : Z -> ost -> answer Z * ost;
  (** the flag the signal handler sets *)
  os_stop : ost -> bool;
  (** the clock has passed the end of the measurement *)
  os_expired : ost -> bool
}.

(** What a call that moves no bytes and opens nothing leaves as it was. *)
Definition same_io (v v' : kview) : Prop :=
  v_open v' = v_open v /\ v_sent v' = v_sent v /\ v_rcvd v' = v_rcvd v.

Class OsLaws `{Os} := {
  os_view : ost -> kview;
  os_law_range s fd : fd ∈ v_open (os_view s) -> 0 <= fd;
  os_law_socket s : match os_socket s with
    | (Done fd, s') => (fd ∉ v_open (os_view s)) /\ os_view s' = v_opened fd (os_view s)
    | (Fail _, s') => os_view s' = os_view s end;
  os_law_connect s fd : same_io (os_view s) (os_view (os_connect fd s).2);
  os_law_send s fd bs : match os_send fd bs s with
    | (Done n, s') => 0 <= n <= zlen bs /\
        os_view s' = v_accepted fd (take (Z.to_nat n) bs) (os_view s)
    | (Fail _, s') => os_view s' = os_view s end;
  os_law_recv s fd len : match os_recv fd len s with
    | (Done bs, s') => Forall is_byte bs /\ zlen bs <= Z.max 0 len /\
        os_view s' = v_received fd bs (os_view s)
    | (Fail _, s') => os_view s' = os_view s end;
  os_law_getfl s fd : same_io (os_view s) (os_view (os_getfl fd s).2);
  os_law_setfl s fd fl : same_io (os_view s) (os_view (os_setfl fd fl s).2);
  os_law_close s fd : os_view (os_close fd s).2 = v_closed fd (os_view s);
  os_law_epoll_create1 s : match os_epoll_create1 s with
    | (Done fd, s') => (fd ∉ v_open (os_view s)) /\ os_view s' = v_opened fd (os_view s)
    | (Fail _, s') => os_view s' = os_view s end;
  os_law_epoll_ctl s ep op fd : same_io (os_view s) (os_view (os_epoll_ctl ep op fd s).2);
  os_law_epoll_wait s ep n t : same_io (os_view s) (os_view (os_epoll_wait ep n t s).2);
  os_law_so_error s fd : same_io (os_view s) (os_view (os_so_error fd s).2);
  os_law_sleep s t : same_io (os_view s) (os_view (os_sleep t s).2)
}.

(** ** Programs *)

Section Prog.
Context `{Os}.

Definition prog (A : Type) : Type := ost -> outcome (A * ost).

#[global] Instance prog_ret : MRet prog := fun A x s => Ok (x, s).
#[global] Instance prog_bind : MBind prog := fun A B k m s =>
  match m s with
  | Ok (x, s') => k x s'
  | Undef => Undef
  | NoFuel => NoFuel
  end.

Definition sys {A} (f : ost -> answer A * ost) : prog (answer A) := fun s => Ok (f s).
Definition pure {A} (m : outcome A) : prog A := fun s =>
  match m with Ok x => Ok (x, s) | Undef => Undef | NoFuel => NoFuel end.
Definition too_long {A} : prog A := fun _ => NoFuel.
Definition get_os {A} (f : ost -> A) : prog A := fun s => Ok (f s, s).

(** A call on a blocking socket: it may never return. *)
Definition wait {A} (fd : Z) (f : ost -> answer A * ost) : prog (answer A) := fun s =>
  if os_hangs fd s then NoFuel else Ok (f s).

(** [m] does nothing undefined and, if it returns, [Q] holds. *)
Definition safe {A} (m : prog A) (Q : A -> ost -> Prop) (s : ost) : Prop :=
  match m s with Ok (x, s') => Q x s' | Undef => False | NoFuel => True end.

Lemma safe_ret {A} (x : A) Q s : Q x s -> safe (mret x) Q s.
Proof. done. Qed.

Lemma safe_bind {A B} (m : prog A) (k : A -> prog B) Q s :
  safe m (fun x s' => safe (k x) Q s') s -> safe (m ≫= k) Q s.
Proof. unfold safe, mbind, prog_bind. by destruct (m s) as [[x s']| |]. Qed.

Lemma safe_mono {A} (m : prog A) Q Q' s : safe m Q s -> (forall x s', Q x s' -> Q' x s') -> safe m Q' s.
Proof. unfold safe. destruct (m s) as [[x s']| |]; auto. Qed.

Lemma safe_sys {A} (f : ost -> answer A * ost) Q s : Q (f s).1 (f s).2 -> safe (sys f) Q s.
Proof. unfold safe, sys. by destruct (f s). Qed.

Lemma safe_wait {A} fd (f : ost -> answer A * ost) Q s : Q (f s).1 (f s).2 -> safe (wait fd f) Q s.
Proof. unfold safe, wait. destruct (os_hangs fd s); [done|]. by destruct (f s). Qed.

Lemma safe_pure {A} (m : outcome A) Q s x : m = Ok x -> Q x s -> safe (pure m) Q s.
Proof. by intros ->. Qed.

Lemma safe_get_os {A} (f : ost -> A) Q s : Q (f s) s -> safe (get_os f) Q s.
Proof. done. Qed.
End Prog.

#[global] Arguments prog {_} _%_type_scope.

(** ** Bytes through a descriptor *)

(** [out] was sent and [inp] received through [fd], and nothing else happened. *)
Record spoke (fd : Z) (out inp : list Z) (v v' : kview) : Prop := {
  sk_open : v_open v' = v_open v;
  sk_traffic : traffic v' fd = ((traffic v fd).1 ++ inp, (traffic v fd).2 ++ out);
  sk_quiet : quiet fd v v'
}.

Lemma spoke_same fd v v' : same_io v v' -> spoke fd [] [] v v'.
Proof.
  intros (Eo & Es & Er). split; [done| |]; unfold traffic; [by rewrite !app_nil_r, Es, Er|].
  intros fd' _. unfold traffic. by rewrite Es, Er.
Qed.

Lemma spoke_refl fd v : spoke fd [] [] v v.
Proof. by apply spoke_same. Qed.

Lemma spoke_trans fd o1 o2 i1 i2 v1 v2 v3 :
  spoke fd o1 i1 v1 v2 -> spoke fd o2 i2 v2 v3 -> spoke fd (o1 ++ o2) (i1 ++ i2) v1 v3.
Proof.
  intros [E1 T1 Q1] [E2 T2 Q2]. split; [congruence| |by eapply quiet_trans].
  rewrite T2, T1. simpl. by rewrite !app_assoc.
Qed.

Lemma spoke_accepted fd bs v : spoke fd bs [] v (v_accepted fd bs v).
Proof.
  split; [done| |]; unfold traffic; simpl; [by rewrite log_of_add, app_nil_r|].
  intros fd' Hne. unfold traffic. simpl. by rewrite log_of_add_ne.
Qed.

Lemma spoke_received fd bs v : spoke fd [] bs v (v_received fd bs v).
Proof.
  split; [done| |]; unfold traffic; simpl; [by rewrite log_of_add, app_nil_r|].
  intros fd' Hne. unfold traffic. simpl. by rewrite log_of_add_ne.
Qed.

(** ** Packets *)

Definition HEADER_SIZE : Z := 8.

(** [write_header(dst + off, type, payload_len)] of packet_throughput.c; the
    [build_packet] of the other two begins with the same stores. *)
Definition write_header (dst : list Z) (off type payload_len : Z) : outcome (list Z) :=
  dst ← store dst off (u8 (Z.shiftr VR_MAGIC 8));
  dst ← store dst (off + 1) (u8 (Z.land VR_MAGIC 0xff));
  dst ← store dst (off + 2) VR_PROTOCOL_VERSION;
  dst ← store dst (off + 3) type;
  dst ← store dst (off + 4) 0;
  dst ← store dst (off + 5) 0;
  dst ← store dst (off + 6) (u8 (Z.shiftr payload_len 8));
  store dst (off + 7) (u8 (Z.land payload_len 0xff)).

(** [build_packet] of throughput_pingpong.c. *)
Definition build_packet (packet : list Z) (type : Z) : outcome (list Z) :=
  packet ← store packet 0 (u8 (Z.shiftr VR_MAGIC 8));
  packet ← store packet 1 (u8 (Z.land VR_MAGIC 0xff));
  packet ← store packet 2 VR_PROTOCOL_VERSION;
  packet ← store packet 3 type;
  packet ← store packet 4 0;
  packet ← store packet 5 0;
  packet ← store packet 6 0;
  store packet 7 0.

(** The header the clients mean. *)
Definition client_header (type payload_len : Z) : vr_packet_header_t :=
  Header VR_MAGIC VR_PROTOCOL_VERSION type 0 0 payload_len.

(** The clients write headers as the server's serializer does. *)
Lemma write_header_splice dst off type payload_len :
  0 <= payload_len < 65536 ->
  write_header dst off type payload_len = splice dst off (header_bytes (client_header type payload_len)).
Proof.
  intros Hl. unfold write_header. rewrite store_splice, !splice_bind_store by done.
  rewrite <-(outcome_bind_ret (splice dst off (header_bytes _))).
  replace (u8 (Z.shiftr payload_len 8)) with (payload_len / 256).
  2:{ rewrite Z.shiftr_div_pow2 by lia. change (2 ^ 8) with 256. rewrite u8_id; [done|].
      Z.div_mod_to_equations; lia. }
  replace (u8 (Z.land payload_len 0xff)) with (payload_len mod 256).
  2:{ rewrite land_255. unfold u8. by rewrite Zmod_mod. }
  match goal with |- (d' ← splice dst off ?bs; store d' ?o ?x) = _ =>
    transitivity (d' ← splice dst off bs; d'' ← store d' o x; Ok d'') end.
  { destruct (splice _ _ _); ostep; [|done..]. by rewrite outcome_bind_ret. }
  by rewrite splice_bind_store.
Qed.

Lemma build_packet_header packet type : build_packet packet type = write_header packet 0 type 0.
Proof. done. Qed.

Section Blocking.
Context `{Os}.

(** [send_exact_blocking], from offset [sent] on; [true] is the result 0. *)
Fixpoint send_exact_blocking (fuel : nat) (fd : Z) (buf : list Z) (sent : Z) : prog bool :=
  if sent <? zlen buf then
    match fuel with
    | O => too_long
    | S fuel =>
        bs ← pure (slice buf sent (zlen buf - sent));
        n ← wait fd (os_send fd bs);
        match n with
        | Done n => if 0 <? n then send_exact_blocking fuel fd buf (sent + n) else mret false
        | Fail e => if e =? EINTR then send_exact_blocking fuel fd buf sent else mret false
        end
    end
  else mret true.

(** [recv_exact_blocking] into [buf], and the buffer. *)
Fixpoint recv_exact_blocking (fuel : nat) (fd : Z) (buf : list Z) (received : Z) : prog (bool * list Z) :=
  if received <? zlen buf then
    match fuel with
    | O => too_long
    | S fuel =>
        n ← wait fd (os_recv fd (zlen buf - received));
        match n with
        | Done [] => mret (false, buf)
        | Done bs => buf ← pure (splice buf received bs);
                     recv_exact_blocking fuel fd buf (received + zlen bs)
        | Fail e => if e =? EINTR then recv_exact_blocking fuel fd buf received else mret (false, buf)
        end
    end
  else mret (true, buf).

(** [set_nonblocking]; [true] unless it returns -1. *)
Definition set_nonblocking (fd : Z) : prog bool :=
  flags ← sys (os_getfl fd);
  match flags with
  | Fail _ => mret false
  | Done flags => r ← sys (os_setfl fd (Z.lor flags O_NONBLOCK));
                  mret (match r with Done _ => true | Fail _ => false end)
  end.

(** ** The handshake *)

(** [((uint16_t)response[0] << 8) | response[1]] *)
Definition be16 (buf : list Z) (off : Z) : outcome Z :=
  b0 ← load buf off;
  b1 ← load buf (off + 1);
  Ok (u16 (Z.lor (Z.shiftl b0 8) b1)).

(** The answer throughput_pingpong.c and packet_throughput.c accept. *)
Definition ack_strict (response : list Z) : outcome bool :=
  magic ← be16 response 0;
  version ← load response 2;
  type ← load response 3;
  b4 ← load response 4;
  b5 ← load response 5;
  b6 ← load response 6;
  b7 ← load response 7;
  Ok (negb (negb (magic =? VR_MAGIC) || negb (version =? VR_PROTOCOL_VERSION) ||
        negb (type =? pkt_int VR_PKT_CONNECT_ACK) || negb (b4 =? 0) || negb (b5 =? 0) ||
        negb (b6 =? 0) || negb (b7 =? 0))).

(** The answer throughput_c.c accepts. *)
Definition ack_lenient (response : list Z) : outcome bool :=
  magic ← be16 response 0;
  version ← load response 2;
  type ← load response 3;
  Ok (negb (negb (magic =? VR_MAGIC) || negb (version =? VR_PROTOCOL_VERSION) ||
        negb (type =? pkt_int VR_PKT_CONNECT_ACK))).

(** [close(fd); return -1;] *)
Definition give_back (fd : Z) : prog (option Z) := _ ← sys (os_close fd); mret None.

(** [establish_connection]: the descriptor of the new client, or -1.  [host_ok]:
    inet_pton accepts the address; [junk] and [junk'] are what the two arrays hold
    before they are written. *)
Definition establish_connection (check : list Z -> outcome bool) (fuel : nat) (host_ok : bool)
    (junk junk' : list Z) : prog (option Z) :=
  if negb host_ok then mret None
  else
    fd ← sys os_socket;
    match fd with
    | Fail _ => mret None
    | Done fd =>
        r ← wait fd (os_connect fd);
        match r with
        | Fail _ => give_back fd
        | Done _ =>
            connect_packet ← pure (build_packet junk (pkt_int VR_PKT_CONNECT));
            ok ← send_exact_blocking fuel fd connect_packet 0;
            if negb ok then give_back fd
            else
              '(ok, response) ← recv_exact_blocking fuel fd junk' 0;
              if negb ok then give_back fd
              else
                acked ← pure (check response);
                if negb acked then give_back fd
                else
                  ok ← set_nonblocking fd;
                  if negb ok then give_back fd else mret (Some fd)
        end
    end.
End Blocking.

(** ** Specifications *)

Section Specs.
Context `{OsLaws}.

Lemma send_exact_spec fuel fd buf sent s :
  0 <= sent <= zlen buf ->
  safe (send_exact_blocking fuel fd buf sent) (fun ok s' =>
    exists out, spoke fd out [] (os_view s) (os_view s') /\
      (ok = true -> out = drop (Z.to_nat sent) buf)) s.
Proof.
  revert sent s. induction fuel as [|fuel IH]; intros sent s Hs; cbn [send_exact_blocking];
    destruct (Z.ltb_spec sent (zlen buf)) as [Hlt|Hge]; try done.
  1, 3: apply safe_ret; exists []; split; [apply spoke_refl|]; intros _; rewrite drop_ge; [done|unfold zlen in *; lia].
  apply safe_bind. eapply safe_pure; [apply slice_ok; lia|]. set (bs := take _ _). apply safe_bind, safe_wait.
  pose proof (os_law_send s fd bs) as Hlaw. destruct (os_send fd bs s) as [[n|e] s1]; cbn [fst snd] in *.
  - destruct Hlaw as [Hn Hv]. destruct (Z.ltb_spec 0 n) as [Hp|Hp].
    2:{ apply safe_ret. exists (take (Z.to_nat n) bs). split; [|done]. rewrite Hv. apply spoke_accepted. }
    assert (Hbs : bs = drop (Z.to_nat sent) buf).
    { unfold bs. apply take_ge. rewrite length_drop. unfold zlen in *. lia. }
    assert (Hnb : n <= zlen buf - sent) by (rewrite Hbs in Hn; unfold zlen in *; rewrite length_drop in Hn; lia).
    eapply safe_mono; [apply IH; lia|]. intros ok s2 (out & Hsp & Hout).
    exists (take (Z.to_nat n) bs ++ out). split.
    + apply (spoke_trans fd _ _ [] [] _ (os_view s1)); [|done]. rewrite Hv. apply spoke_accepted.
    + intros ->. rewrite Hout, Hbs by done.
      replace (Z.to_nat (sent + n)) with (Z.to_nat sent + Z.to_nat n)%nat by lia.
      by rewrite <-drop_drop, take_drop.
  - destruct (_ =? EINTR).
    + eapply safe_mono; [by apply IH|]. intros ok s2. by rewrite Hlaw.
    + apply safe_ret. exists []. split; [|done]. rewrite Hlaw. apply spoke_refl.
Qed.

Lemma splice_prefix {A} (buf pre bs : list A) n :
  n = zlen pre -> take (length pre) buf = pre -> n + zlen bs <= zlen buf ->
  splice buf n bs = Ok (pre ++ bs ++ drop (length pre + length bs) buf).
Proof.
  intros -> Ht Hl. unfold zlen in *. rewrite splice_ok by (unfold zlen; lia).
  rewrite Nat2Z.id, Ht. done.
Qed.

Lemma recv_exact_spec fuel fd buf pre s :
  take (length pre) buf = pre ->
  safe (recv_exact_blocking fuel fd buf (zlen pre)) (fun r s' =>
    exists inp, spoke fd [] inp (os_view s) (os_view s') /\ Forall is_byte inp /\
      length r.2 = length buf /\ (r.1 = true -> r.2 = pre ++ inp)) s.
Proof.
  revert buf pre s. induction fuel as [|fuel IH]; intros buf pre s Hpre; cbn [recv_exact_blocking];
    destruct (Z.ltb_spec (zlen pre) (zlen buf)) as [Hlt|Hge]; try done.
  1, 3: apply safe_ret; exists []; (split_and!; [apply spoke_refl|done|done|]); intros _; simpl;
    rewrite app_nil_r, <-Hpre; symmetry; apply take_ge; unfold zlen in *; lia.
  apply safe_bind, safe_wait. pose proof (os_law_recv s fd (zlen buf - zlen pre)) as Hlaw.
  destruct (os_recv fd _ s) as [[bs|e] s1]; cbn [fst snd] in *.
  - destruct Hlaw as (Hb & Hl & Hv). destruct bs as [|b bs'] eqn:Ebs.
    { apply safe_ret. exists []. split_and!; [|done|done|done]. rewrite Hv. apply spoke_received. }
    rewrite <-Ebs in *. clear Ebs. apply safe_bind.
    eapply safe_pure; [apply (splice_prefix buf pre bs); [done|done|unfold zlen in *; lia]|].
    assert (Hlen : length (pre ++ bs ++ drop (length pre + length bs) buf) = length buf).
    { rewrite !length_app, length_drop. unfold zlen in *. lia. }
    replace (zlen pre + zlen bs) with (zlen (pre ++ bs)) by (unfold zlen; rewrite length_app; lia).
    eapply safe_mono; [apply IH; rewrite (assoc_L (++)); apply take_app_length|].
    intros r s2 (inp & Hsp & Hib & Hrl & Hr). exists (bs ++ inp). split_and!.
    + apply (spoke_trans fd [] [] bs inp _ (os_view s1)); [|done]. rewrite Hv. apply spoke_received.
    + by apply Forall_app.
    + by rewrite Hrl.
    + intros Et. rewrite Hr by done. by rewrite (assoc_L (++)).
  - destruct (_ =? EINTR).
    + eapply safe_mono; [by apply IH|]. intros r s2. by rewrite Hlaw.
    + apply safe_ret. exists []. split_and!; [|done..]. rewrite Hlaw. apply spoke_refl.
Qed.

Lemma set_nonblocking_spec fd s :
  safe (set_nonblocking fd) (fun _ s' => spoke fd [] [] (os_view s) (os_view s')) s.
Proof.
  apply safe_bind, safe_sys. pose proof (os_law_getfl s fd) as H1.
  destruct (os_getfl fd s) as [[fl|e] s1]; cbn [fst snd] in *; [|by apply safe_ret, spoke_same].
  apply safe_bind, safe_sys. pose proof (os_law_setfl s1 fd (Z.lor fl O_NONBLOCK)) as H2.
  destruct (os_setfl fd _ s1) as [r s2]; cbn [fst snd] in *. apply safe_ret.
  by apply (spoke_trans fd [] [] [] [] _ (os_view s1)); apply spoke_same.
Qed.

(** No signal interrupts a call, and no blocking call waits forever. *)
Definition undisturbed : Prop :=
  (forall fd bs s, (os_send fd bs s).1 <> Fail EINTR) /\
  (forall fd len s, (os_recv fd len s).1 <> Fail EINTR) /\
  (forall fd s, os_hangs fd s = false).

Definition finishes {A} (m : prog A) (s : ost) : Prop := m s <> NoFuel.

Lemma finishes_bind {A B} (m : prog A) (k : A -> prog B) s :
  finishes m s -> (forall x s', m s = Ok (x, s') -> finishes (k x) s') -> finishes (m ≫= k) s.
Proof.
  unfold finishes, mbind, prog_bind. intros Hm Hk. destruct (m s) as [[x s']| |]; [by apply Hk|done..].
Qed.

Lemma finishes_sys {A B} (f : ost -> answer A * ost) (k : answer A -> prog B) s :
  finishes (k (f s).1) (f s).2 -> finishes (sys f ≫= k) s.
Proof. unfold finishes, mbind, prog_bind, sys. by destruct (f s). Qed.

Lemma finishes_wait {A B} fd (f : ost -> answer A * ost) (k : answer A -> prog B) s :
  os_hangs fd s = false -> finishes (k (f s).1) (f s).2 -> finishes (wait fd f ≫= k) s.
Proof. unfold finishes, mbind, prog_bind, wait. intros ->. by destruct (f s). Qed.

Lemma send_exact_finishes fuel fd buf sent s :
  undisturbed -> 0 <= sent -> zlen buf - sent <= Z.of_nat fuel ->
  finishes (send_exact_blocking fuel fd buf sent) s.
Proof.
  intros (Hu & _ & Hh). revert sent s. induction fuel as [|fuel IH]; intros sent s Hs Hf; cbn [send_exact_blocking];
    destruct (Z.ltb_spec sent (zlen buf)); try done; [lia|].
  unfold finishes, pure. rewrite slice_ok by lia. apply finishes_wait; [done|].
  set (bs := take _ _). specialize (Hu fd bs s). destruct (os_send fd bs s) as [[n|e] s1]; cbn [fst snd] in *.
  - destruct (Z.ltb_spec 0 n); [|done]. apply IH; lia.
  - destruct (Z.eqb_spec e EINTR) as [->|]; done.
Qed.

Lemma recv_exact_finishes fuel fd buf received s :
  undisturbed -> zlen buf - received <= Z.of_nat fuel ->
  finishes (recv_exact_blocking fuel fd buf received) s.
Proof.
  intros (_ & Hu & Hh). revert buf received s.
  induction fuel as [|fuel IH]; intros buf received s Hf; cbn [recv_exact_blocking];
    destruct (Z.ltb_spec received (zlen buf)); try done; [lia|].
  apply finishes_wait; [done|]. specialize (Hu fd (zlen buf - received) s).
  destruct (os_recv fd _ s) as [[[|b bs]|e] s1]; cbn [fst snd] in *; [done| |].
  - unfold finishes, mbind, prog_bind, pure. unfold splice. destruct (in_range _ _ _) eqn:Er; [|done].
    apply in_range_true in Er. apply IH.
    match goal with |- zlen ?l - _ <= _ => replace (zlen l) with (zlen buf) end.
    + unfold zlen in *. simpl in *. lia.
    + unfold zlen in *. rewrite !length_app, length_take, length_drop. lia.
  - destruct (Z.eqb_spec e EINTR) as [->|]; done.
Qed.

(** Closing the new descriptor leaves what was open before. *)
Lemma remove_new (X : gset Z) fd : fd ∉ X -> ({[fd]} ∪ X) ∖ {[fd]} = X.
Proof.
  intros Hfd. rewrite difference_union_distr_l_L, difference_diag_L, (left_id_L ∅ (∪)).
  apply difference_disjoint_L. by apply disjoint_singleton_r.
Qed.

Lemma give_back_spec fd v s :
  fd ∉ v -> v_open (os_view s) = {[fd]} ∪ v ->
  safe (give_back fd) (fun r s' => r = None /\ v_open (os_view s') = v /\
    forall fd', traffic (os_view s') fd' = traffic (os_view s) fd') s.
Proof.
  intros Hfd Ho. apply safe_bind, safe_sys. pose proof (os_law_close s fd) as Hv.
  destruct (os_close fd s) as [r s']. cbn [fst snd] in *. apply safe_ret. rewrite Hv. split_and!; [done| |done].
  simpl. rewrite Ho. by apply remove_new.
Qed.

Definition CONNECT_BYTES : list Z := header_bytes (client_header (pkt_int VR_PKT_CONNECT) 0).

(** What [establish_connection] does: it opens a descriptor, sends CONNECT and
    nothing else through it, reads eight bytes and accepts them, or everything is
    as before on the descriptors that were open. *)
Definition dialled (check : list Z -> outcome bool) (v v' : kview) (r : option Z) : Prop :=
  (forall fd', fd' ∈ v_open v -> traffic v' fd' = traffic v fd') /\
  match r with
  | None => v_open v' = v_open v
  | Some fd => (fd ∉ v_open v) /\ v_open v' = {[fd]} ∪ v_open v /\
      exists response, length response = 8%nat /\ Forall is_byte response /\
        check response = Ok true /\ traffic v' fd = (response, CONNECT_BYTES)
  end.

Lemma dialled_back check fd v out inp s :
  fd ∉ v_open v -> spoke fd out inp (v_opened fd v) (os_view s) ->
  safe (give_back fd) (fun r s' => dialled check v (os_view s') r) s.
Proof.
  intros Hfd Hsp. eapply safe_mono; [apply (give_back_spec fd (v_open v)); [done|]|].
  { by rewrite (sk_open _ _ _ _ _ Hsp). }
  intros r s' (-> & Ho & Ht). split; [|done]. intros fd' Hin. assert (fd' <> fd) by (by intros ->).
  rewrite Ht, (sk_quiet _ _ _ _ _ Hsp) by done. unfold traffic, log_of. simpl. by rewrite !lookup_insert_ne.
Qed.

Lemma connect_packet_built junk :
  length junk = 8%nat -> build_packet junk (pkt_int VR_PKT_CONNECT) = Ok CONNECT_BYTES.
Proof. intros Hj. rewrite build_packet_header, write_header_splice by lia. by apply splice_whole. Qed.

Lemma dialled_acked check fd response v v' :
  fd ∉ v_open v -> spoke fd CONNECT_BYTES response (v_opened fd v) v' ->
  length response = 8%nat -> Forall is_byte response -> check response = Ok true ->
  dialled check v v' (Some fd).
Proof.
  intros Hfd [Ho Ht Hq] Hl Hb Hc. split.
  - intros fd' Hin. assert (fd' <> fd) by (by intros ->). rewrite Hq by done.
    unfold traffic, log_of. simpl. by rewrite !lookup_insert_ne.
  - split_and!; [done|by rewrite Ho|]. exists response. split_and!; [done..|]. rewrite Ht.
    unfold traffic, log_of. simpl. by rewrite !lookup_insert_eq.
Qed.

Lemma establish_spec check fuel host_ok junk junk' s :
  length junk = 8%nat -> length junk' = 8%nat ->
  (forall response, length response = 8%nat -> exists b, check response = Ok b) ->
  safe (establish_connection check fuel host_ok junk junk')
    (fun r s' => dialled check (os_view s) (os_view s') r) s.
Proof.
  intros Hj Hj' Hck. unfold establish_connection. destruct host_ok; [|by apply safe_ret]. cbn [negb].
  apply safe_bind, safe_sys. pose proof (os_law_socket s) as Hs.
  destruct (os_socket s) as [[fd|e] s1]; cbn [fst snd] in *; [|apply safe_ret; by rewrite Hs].
  destruct Hs as [Hfd Hv1]. apply safe_bind, safe_wait. pose proof (os_law_connect s1 fd) as Hsp%(spoke_same fd).
  destruct (os_connect fd s1) as [[u|e] s2]; cbn [fst snd] in *; rewrite Hv1 in Hsp;
    [|by eapply dialled_back].
  apply safe_bind. eapply safe_pure; [by apply connect_packet_built|].
  apply safe_bind. eapply safe_mono; [by apply send_exact_spec|].
  intros ok s3 (out & Hsp3 & Hout). pose proof (spoke_trans _ _ _ _ _ _ _ _ Hsp Hsp3) as Hsp'.
  destruct ok; [|by eapply dialled_back]. rewrite Hout in Hsp' by done. cbn [negb] in *.
  apply safe_bind. eapply safe_mono; [by apply (recv_exact_spec _ _ _ [])|].
  intros [ok response] s4 (inp & Hsp4 & Hb & Hl & Hr). cbn [fst snd] in *.
  pose proof (spoke_trans _ _ _ _ _ _ _ _ Hsp' Hsp4) as Hsp''.
  destruct ok; [|by eapply dialled_back]. specialize (Hr eq_refl). simpl in Hr. subst inp. cbn [negb].
  destruct (Hck response) as [acked Ha]; [lia|]. apply safe_bind. eapply safe_pure; [done|].
  destruct acked; [|by eapply dialled_back]. cbn [negb].
  apply safe_bind. eapply safe_mono; [by apply set_nonblocking_spec|]. intros ok s5 Hsp5.
  pose proof (spoke_trans _ _ _ _ _ _ _ _ Hsp'' Hsp5) as Hall.
  destruct ok; [|by eapply dialled_back]. apply safe_ret.
  cbn [app] in Hall. rewrite !app_nil_r in Hall. eapply dialled_acked; [done|exact Hall|lia|done|done].
Qed.

Lemma give_back_finishes fd s : finishes (give_back fd) s.
Proof. by apply finishes_sys. Qed.

(** When nothing disturbs it, eight turns of each loop are enough. *)
Lemma establish_finishes check fuel host_ok junk junk' s :
  undisturbed -> length junk = 8%nat -> length junk' = 8%nat -> (8 <= fuel)%nat ->
  (forall response, check response <> NoFuel) ->
  finishes (establish_connection check fuel host_ok junk junk') s.
Proof.
  intros Hu Hj Hj' Hf Hck. unfold establish_connection. destruct host_ok; [|done]. cbn [negb].
  apply finishes_sys. destruct (os_socket s) as [[fd|e] s1]; cbn [fst snd]; [|done].
  apply finishes_wait; [apply Hu|]. destruct (os_connect fd s1) as [[u|e] s2]; cbn [fst snd]; [|apply give_back_finishes].
  rewrite connect_packet_built by done.
  apply finishes_bind; [done|]. intros pkt s2' [= <- <-].
  apply finishes_bind; [apply send_exact_finishes; [done|lia|]; change (zlen CONNECT_BYTES) with 8; lia|].
  intros [] s3 _; [|apply give_back_finishes]. cbn [negb].
  apply finishes_bind; [apply recv_exact_finishes; [done|]; unfold zlen; lia|].
  intros [[] response] s4 _; [|apply give_back_finishes]. cbn [negb]. specialize (Hck response).
  apply finishes_bind; [unfold finishes, pure; by destruct (check response)|].
  intros [] s5 _; [|apply give_back_finishes]. cbn [negb]. apply finishes_bind.
  - apply finishes_sys. destruct (os_getfl fd s5) as [[fl|e] s6]; [by apply finishes_sys|done].
  - intros [] s6 _; [done|apply give_back_finishes].
Qed.
End Specs.

(** ** The answers that are accepted *)

Lemma be16_bytes b0 b1 bs off :
  is_byte b0 -> is_byte b1 -> load bs off = Ok b0 -> load bs (off + 1) = Ok b1 ->
  be16 bs off = Ok (b0 * 256 + b1).
Proof.
  intros H0 H1 E0 E1. unfold be16. rewrite E0, E1. ostep. rewrite Z.shiftl_mul_pow2 by lia.
  change (2 ^ 8) with 256. unfold is_byte in *. by rewrite lor_shifted, u16_id by lia.
Qed.

Lemma eight_bytes (bs : list Z) :
  length bs = 8%nat -> exists b0 b1 b2 b3 b4 b5 b6 b7, bs = [b0; b1; b2; b3; b4; b5; b6; b7].
Proof. intros E. do 8 (destruct bs as [|? bs]; [done|]). destruct bs; [by do 8 eexists|simpl in E; lia]. Qed.

Definition ack_bytes : list Z := header_bytes (client_header (pkt_int VR_PKT_CONNECT_ACK) 0).

Lemma bytes_magic b0 b1 : is_byte b0 -> is_byte b1 -> b0 * 256 + b1 = VR_MAGIC -> b0 = 87 /\ b1 = 137.
Proof. unfold is_byte. change VR_MAGIC with (87 * 256 + 137). lia. Qed.

Lemma ack_strict_iff response :
  length response = 8%nat -> Forall is_byte response ->
  ack_strict response = Ok (bool_decide (response = ack_bytes)).
Proof.
  intros (b0 & b1 & b2 & b3 & b4 & b5 & b6 & b7 & ->)%eight_bytes Hb.
  pose proof (Forall_inv Hb) as H0. pose proof (Forall_inv (Forall_inv_tail Hb)) as H1.
  unfold ack_strict. rewrite (be16_bytes b0 b1) by done. unfold load. simpl. ostep. f_equal.
  apply Bool.eq_true_iff_eq. rewrite bool_decide_eq_true, negb_true_iff, !orb_false_iff, !negb_false_iff, !Z.eqb_eq.
  unfold ack_bytes. cbn. split.
  - intros [[[[[[Hm ->] ->] ->] ->] ->] ->]. by destruct (bytes_magic b0 b1 H0 H1 Hm) as [-> ->].
  - by intros [= -> -> -> -> -> -> -> ->].
Qed.

Lemma ack_lenient_iff response :
  length response = 8%nat -> Forall is_byte response ->
  ack_lenient response = Ok (bool_decide (take 4 response = take 4 ack_bytes)).
Proof.
  intros (b0 & b1 & b2 & b3 & b4 & b5 & b6 & b7 & ->)%eight_bytes Hb.
  pose proof (Forall_inv Hb) as H0. pose proof (Forall_inv (Forall_inv_tail Hb)) as H1.
  unfold ack_lenient. rewrite (be16_bytes b0 b1) by done. unfold load. simpl. ostep. f_equal.
  apply Bool.eq_true_iff_eq. rewrite bool_decide_eq_true, negb_true_iff, !orb_false_iff, !negb_false_iff, !Z.eqb_eq.
  cbn. split.
  - intros [[Hm ->] ->]. by destruct (bytes_magic b0 b1 H0 H1 Hm) as [-> ->].
  - by intros [= -> -> -> ->].
Qed.

Lemma ack_strict_total response : length response = 8%nat -> exists b, ack_strict response = Ok b.
Proof.
  intros (b0 & b1 & b2 & b3 & b4 & b5 & b6 & b7 & ->)%eight_bytes. by eexists.
Qed.

Lemma ack_lenient_total response : length response = 8%nat -> exists b, ack_lenient response = Ok b.
Proof.
  intros (b0 & b1 & b2 & b3 & b4 & b5 & b6 & b7 & ->)%eight_bytes. by eexists.
Qed.

Lemma load_finishes {A} (buf : list A) off : load buf off <> NoFuel.
Proof. unfold load. by repeat case_match. Qed.

Lemma finishes_load `{Os} {A} (buf : list A) off s : finishes (pure (load buf off)) s.
Proof. unfold finishes, pure. pose proof (load_finishes buf off). by destruct (load buf off). Qed.

Lemma finishes_store `{Os} {A} (buf : list A) off x s : finishes (pure (store buf off x)) s.
Proof. unfold finishes, pure, store. by destruct (in_range _ _ _). Qed.

Lemma outcome_finishes {A B} (m : outcome A) (k : A -> outcome B) :
  m <> NoFuel -> (forall x, k x <> NoFuel) -> m ≫= k <> NoFuel.
Proof. destruct m; [intros _ Hk; apply Hk|done..]. Qed.

Lemma ack_strict_finishes response : ack_strict response <> NoFuel.
Proof.
  unfold ack_strict, be16.
  repeat first [apply load_finishes|done|apply outcome_finishes; [|intros ?]].
Qed.

Lemma ack_lenient_finishes response : ack_lenient response <> NoFuel.
Proof.
  unfold ack_lenient, be16.
  repeat first [apply load_finishes|done|apply outcome_finishes; [|intros ?]].
Qed.
