(* ===== verification/Bench.v ===== *)
(** * Bench: the frame of the load generators

    tests/throughput_pingpong.c, tests/packet_throughput.c and
    tests/throughput_c.c are one program up to what they do with an event: a table
    of clients is connected, registered with one epoll instance, driven round by
    round until the time is over or no client is left, and closed.  Here this
    frame is modelled once, over a [program]: the entries of the table, the state
    of the measurement and the body of a round.  The lines are those of
    throughput_pingpong.c where the three agree.

    [table_ok] is the invariant of the descriptors.  Each entry of the table is
    accompanied, in the proofs, by the descriptor it was connected through and by
    a number of its own ([slot]): what the entry has achieved is remembered when it
    is closed.  [BenchLaws] is what a program promises to the frame; from it follow
    [campaign_spec] (all descriptors are closed, the books are right) and
    [campaign_finishes]. *)

From S2P Require Import Prelude Core Packet World SocketUtils Client.
#[local] Open Scope Z_scope.

Definition MAX_EVENTS : Z := 1024.

(** ** The code *)

Section Code.
Context `{Os}.

(** What the three programs fill in. *)
Record program (C B : Type) := Program {
  pr_fd : C -> Z;
  pr_alive : C -> bool;
  pr_none : C;                            (* an entry before it is connected *)
  pr_new : Z -> C;                        (* connected through a descriptor *)
  pr_lost : C -> C;                       (* closed because it cannot be registered *)
  pr_check : list Z -> outcome bool;      (* the answer to CONNECT is accepted *)
  pr_events : Z;                          (* what is registered *)
  pr_begin : list C -> Z -> Z -> B;       (* from table, connections and lost ones *)
  pr_clients : B -> list C;
  pr_active : B -> Z;
  pr_round : Z -> list (Z * Z) -> B -> prog B
}.
#[global] Arguments Program {_ _}.
#[global] Arguments pr_fd {_ _}.
#[global] Arguments pr_alive {_ _}.
#[global] Arguments pr_none {_ _}.
#[global] Arguments pr_new {_ _}.
#[global] Arguments pr_lost {_ _}.
#[global] Arguments pr_check {_ _}.
#[global] Arguments pr_events {_ _}.
#[global] Arguments pr_begin {_ _}.
#[global] Arguments pr_clients {_ _}.
#[global] Arguments pr_active {_ _}.
#[global] Arguments pr_round {_ _}.

(** The cleanup of a table. *)
Fixpoint close_clients {C} (fd_of : C -> Z) (clients : list C) : prog unit :=
  match clients with
  | [] => mret tt
  | cl :: clients =>
      if 0 <=? fd_of cl then _ ← sys (os_close (fd_of cl)); close_clients fd_of clients
      else close_clients fd_of clients
  end.

Context {C B : Type} (P : program C B).

(** The connections of the table, and [established]. *)
Fixpoint establish_clients (fuel : nat) (host_ok : bool) (junk junk' : list Z) (clients : list C)
    (established : Z) : prog (list C * Z) :=
  match clients with
  | [] => mret ([], established)
  | cl :: clients =>
      r ← establish_connection (pr_check P) fuel host_ok junk junk';
      match r with
      | None => '(clients, established) ← establish_clients fuel host_ok junk junk' clients established;
                mret (cl :: clients, established)
      | Some fd => '(clients, established) ← establish_clients fuel host_ok junk junk' clients (established + 1);
                   mret (pr_new P fd :: clients, established)
      end
  end.

(** [register_client]; [true] unless it returns -1. *)
Definition register_client (epfd : Z) (client : C) (index : Z) : prog bool :=
  r ← sys (os_epoll_ctl epfd (Epoll_add (pr_events P) index) (pr_fd P client));
  mret (match r with Done _ => true | Fail _ => false end).

(** The registrations, from index [i] on; with the table, how many entries were
    given up. *)
Fixpoint register_clients (epfd i : Z) (clients : list C) : prog (list C * Z) :=
  match clients with
  | [] => mret ([], 0)
  | cl :: clients =>
      '(cl, n) ← (if negb (pr_alive P cl) then mret (cl, 0)
                  else
                    ok ← register_client epfd cl (u32 i);
                    if (ok : bool) then mret (cl, 0)
                    else _ ← sys (os_close (pr_fd P cl)); mret (pr_lost P cl, 1));
      '(clients, m) ← register_clients epfd (i + 1) clients;
      mret (cl :: clients, n + m)
  end.

(** The measurement. *)
Fixpoint measure (rounds : nat) (epfd : Z) (b : B) : prog B :=
  stop ← get_os os_stop;
  expired ← get_os os_expired;
  if (stop || expired : bool) then mret b
  else
    match rounds with
    | O => too_long
    | S rounds =>
        ready ← sys (os_epoll_wait epfd MAX_EVENTS 10);
        match ready with
        | Fail e => if e =? EINTR then measure rounds epfd b else mret b
        | Done evs =>
            b ← pr_round P epfd evs b;
            if pr_active P b =? 0 then mret b else measure rounds epfd b
        end
    end.

(** Registration, measurement and cleanup with the epoll instance [epfd]: the number
    of connections and the state at the end of the measurement, or EXIT_FAILURE.
    [events_ok]: the array of events is there, which only throughput_c.c allocates. *)
Definition drive (rounds : nat) (events_ok : bool) (epfd : Z) (clients : list C) (established : Z)
    : prog (option (Z * B)) :=
  '(clients, lost) ← register_clients epfd 0 clients;
  if negb events_ok then _ ← sys (os_close epfd); _ ← close_clients (pr_fd P) clients; mret None
  else
    b ← measure rounds epfd (pr_begin P clients established lost);
    _ ← close_clients (pr_fd P) (pr_clients P b);
    _ ← sys (os_close epfd);
    mret (Some (established, b)).

(** From the first connection to the last [close]. *)
Definition campaign (rounds fuel : nat) (host_ok events_ok : bool) (junk junk' : list Z) (client_count : Z)
    : prog (option (Z * B)) :=
  '(clients, established) ←
    establish_clients fuel host_ok junk junk' (replicate (Z.to_nat client_count) (pr_none P)) 0;
  if established =? 0 then mret None
  else
    ep ← sys os_epoll_create1;
    match ep with
    | Fail _ => _ ← close_clients (pr_fd P) clients; mret None
    | Done epfd => drive rounds events_ok epfd clients established
    end.
End Code.

Definition sum64 (xs : list Z) : Z := fold_left (fun acc x => u64 (acc + x)) xs 0.

(** ** Repetition and counters *)

(** [bs], [n] times over *)
Definition times (n : nat) (bs : list Z) : list Z := concat (replicate n bs).

Lemma times_S n bs : times (S n) bs = bs ++ times n bs.
Proof. done. Qed.

Lemma times_add n m bs : times (n + m) bs = times n bs ++ times m bs.
Proof. unfold times. by rewrite replicate_add, concat_app. Qed.

Lemma times_snoc n bs : times (S n) bs = times n bs ++ bs.
Proof. rewrite <-Nat.add_1_r, times_add. by rewrite times_S, app_nil_r. Qed.

Lemma times_times k n bs : times k (times n bs) = times (k * n) bs.
Proof. induction k as [|k IH]; [done|]. rewrite times_S, IH, <-times_add. done. Qed.

Lemma times_zlen n bs : zlen (times n bs) = Z.of_nat n * zlen bs.
Proof. unfold zlen. induction n as [|n IH]; [done|]. rewrite times_S, length_app. lia. Qed.

Lemma times_bytes n bs : Forall is_byte bs -> Forall is_byte (times n bs).
Proof. intros Hb. apply Forall_concat. by apply Forall_replicate. Qed.

(** Counters at their width: [n] on top of what was counted. *)
Definition counted (x x' : Z) (n : nat) : Prop := forall c : nat, x = u64 (Z.of_nat c) -> x' = u64 (Z.of_nat (c + n)).

Lemma counted_0 x : counted x x 0.
Proof. intros c ->. by rewrite Nat.add_0_r. Qed.

Lemma counted_1 x : counted x (u64 (x + 1)) 1.
Proof. intros c ->. unfold u64. rewrite Zplus_mod_idemp_l. f_equal. lia. Qed.

Lemma counted_trans x y z n m : counted x y n -> counted y z m -> counted x z (n + m).
Proof. intros Hn Hm c Hc. rewrite Nat.add_assoc. by apply Hm, Hn. Qed.

Lemma counted_add x n : counted x (u64 (x + u64 (Z.of_nat n))) n.
Proof. intros c ->. unfold u64. rewrite <-Zplus_mod. f_equal. lia. Qed.

Lemma sum64_spec (xs : list Z) (ns : list nat) :
  Forall2 (fun x n => x = u64 (Z.of_nat n)) xs ns -> sum64 xs = u64 (Z.of_nat (sum_list ns)).
Proof.
  intros HF. unfold sum64. change 0 with (u64 (Z.of_nat 0)).
  replace (sum_list ns) with (0 + sum_list ns)%nat by lia. generalize 0%nat as acc.
  induction HF as [|x n xs ns E HF IH]; intros acc; simpl; [by rewrite Nat.add_0_r|].
  rewrite E, (counted_add (u64 (Z.of_nat acc)) n acc eq_refl).
  rewrite IH. do 2 f_equal. lia.
Qed.

(** ** The table *)

(** An entry of the table with the descriptor it was connected through, -1 if it
    never was, and its ghost. *)
Record slot (C G : Type) := Slot { sl_home : Z; sl_client : C; sl_ghost : G }.
#[global] Arguments Slot {_ _}.
#[global] Arguments sl_home {_ _}.
#[global] Arguments sl_client {_ _}.
#[global] Arguments sl_ghost {_ _}.

(** The descriptors of a list of clients. *)
Definition descriptors {C} (fd_of : C -> Z) (clients : list C) : list Z :=
  filter (fun fd => fd <> -1) (fd_of <$> clients).

Lemma descriptors_app {C} (fd_of : C -> Z) xs ys :
  descriptors fd_of (xs ++ ys) = descriptors fd_of xs ++ descriptors fd_of ys.
Proof. unfold descriptors. by rewrite fmap_app, filter_app. Qed.

Lemma descriptors_cons {C} (fd_of : C -> Z) x xs :
  descriptors fd_of (x :: xs) = (if decide (fd_of x = -1) then [] else [fd_of x]) ++ descriptors fd_of xs.
Proof.
  unfold descriptors. cbn [fmap list_fmap].
  destruct (decide _) as [E|E]; [rewrite filter_cons_False; [done|by intros Hx; apply Hx]|].
  by rewrite filter_cons_True.
Qed.

Lemma minus_one (S X Y : gset Z) fd :
  fd ∉ S -> fd ∉ X -> fd ∉ Y -> (S ∪ (X ∪ ({[fd]} ∪ Y))) ∖ {[fd]} = S ∪ (X ∪ Y).
Proof.
  intros HB HX HY. apply set_eq. intros z. rewrite elem_of_difference, !elem_of_union, elem_of_singleton.
  split; [tauto|]. intros Hx. split; [tauto|]. intros ->. tauto.
Qed.

(** The cleanup closes every descriptor of the list, once, and does nothing else. *)
Lemma close_clients_spec `{OsLaws} {C} (fd_of : C -> Z) (base : gset Z) (xs : list C) s :
  NoDup (descriptors fd_of xs) -> Forall (fun fd => fd ∉ base) (descriptors fd_of xs) ->
  v_open (os_view s) = base ∪ list_to_set (descriptors fd_of xs) ->
  safe (close_clients fd_of xs) (fun _ s' => v_open (os_view s') = base /\
    forall fd, traffic (os_view s') fd = traffic (os_view s) fd) s.
Proof.
  revert s. induction xs as [|x xs IH]; intros s Hn Hb Ho.
  { apply safe_ret. rewrite Ho. split; [|done]. apply (right_id_L ∅ (∪)). }
  rewrite descriptors_cons in *. cbn [close_clients]. destruct (decide (_ = -1)) as [E|Hne].
  { rewrite E. by apply IH. }
  cbn [app list_to_set] in *.
  apply NoDup_cons in Hn as [Hni Hn]. apply Forall_cons in Hb as [Hb0 Hb].
  assert (Hp0 : 0 <= fd_of x).
  { apply (os_law_range s). rewrite Ho. by apply elem_of_union_r, elem_of_union_l, elem_of_singleton. }
  rewrite (proj2 (Z.leb_le _ _) Hp0). apply safe_bind, safe_sys. pose proof (os_law_close s (fd_of x)) as Hc.
  destruct (os_close _ s) as [r s1]; cbn [fst snd] in *. eapply safe_mono; [apply IH; try done|].
  - rewrite Hc. simpl. rewrite Ho, <-(left_id_L ∅ (∪) (_ ∪ list_to_set (descriptors fd_of xs))).
    rewrite (minus_one base ∅); [by rewrite (left_id_L ∅ (∪))|done|apply not_elem_of_empty|by rewrite elem_of_list_to_set].
  - intros u s2 [Ho2 Ht2]. split; [done|]. intros fd'. by rewrite Ht2, Hc.
Qed.

(** Whatever the list holds, its descriptors are closed and nothing is opened. *)
Lemma close_clients_all `{OsLaws} {C} (fd_of : C -> Z) (xs : list C) s :
  safe (close_clients fd_of xs) (fun _ s' => v_open (os_view s') ⊆ v_open (os_view s) /\
    forall x, x ∈ xs -> 0 <= fd_of x -> fd_of x ∉ v_open (os_view s')) s.
Proof.
  revert s. induction xs as [|x xs IH]; intros s; cbn [close_clients].
  { apply safe_ret. split; [done|]. by intros x ?%not_elem_of_nil. }
  destruct (Z.leb_spec 0 (fd_of x)) as [Hx|Hx].
  - apply safe_bind, safe_sys. pose proof (os_law_close s (fd_of x)) as Hc. destruct (os_close _ s) as [r s1].
    cbn [fst snd] in *. eapply safe_mono; [apply IH|]. intros _ s2 [Hsub Hcl].
    rewrite Hc in Hsub. cbn [v_open v_closed] in Hsub.
    split; [intros y Hy%Hsub; by apply elem_of_difference in Hy as [? _]|].
    intros y [->|Hy]%elem_of_cons Hy0; [|by apply Hcl].
    intros Hin%Hsub. apply elem_of_difference in Hin as [_ []]. by apply elem_of_singleton.
  - eapply safe_mono; [apply IH|]. intros _ s2 [Hsub Hcl]. split; [done|].
    intros y [->|Hy]%elem_of_cons Hy0; [lia|by apply Hcl].
Qed.

Section Table.
Context {C G : Type} (fd_of : C -> Z) (ok : kview -> slot C G -> Prop).
Implicit Types (x y : slot C G) (slots : list (slot C G)).

Definition homes slots : list Z := filter (fun fd => fd <> -1) (sl_home <$> slots).
Definition fds slots : list Z := descriptors fd_of (sl_client <$> slots).

Definition slot_ok (v : kview) x : Prop :=
  (fd_of (sl_client x) = -1 \/ fd_of (sl_client x) = sl_home x) /\ ok v x.

(** Every entry is in order and is closed or uses the descriptor it began with;
    these are distinct and not of [base]; open are [base] and those in use. *)
Record table_ok (base : gset Z) (v : kview) slots : Prop := {
  tb_slots : Forall (slot_ok v) slots;
  tb_nodup : NoDup (homes slots);
  tb_base : Forall (fun fd => fd ∉ base) (homes slots);
  tb_open : v_open v = base ∪ list_to_set (fds slots)
}.

(** What concerns an entry is what passed through its descriptor. *)
Definition local_ok : Prop := forall v v' x,
  ok v x -> (sl_home x <> -1 -> traffic v' (sl_home x) = traffic v (sl_home x)) -> ok v' x.

(** [x] becomes [x'], through its own descriptor, which may have been closed. *)
Record moved (v v' : kview) x x' : Prop := {
  mv_quiet : quiet (sl_home x) v v';
  mv_home : sl_home x' = sl_home x;
  mv_fd : (fd_of (sl_client x') = sl_home x /\ v_open v' = v_open v) \/
          (fd_of (sl_client x') = -1 /\ v_open v' = v_open v ∖ {[sl_home x]});
  mv_ok : ok v' x'
}.

Lemma moved_trans v1 v2 v3 x y z :
  moved v1 v2 x y -> fd_of (sl_client y) <> -1 -> moved v2 v3 y z -> moved v1 v3 x z.
Proof.
  intros [Q1 H1 F1 K1] Hne [Q2 H2 F2 K2]. destruct F1 as [[F1 O1]|[]]; [|done]. rewrite H1 in *. rewrite O1 in F2.
  split; [by eapply quiet_trans|done|done|done].
Qed.

Lemma fds_app xs ys : fds (xs ++ ys) = fds xs ++ fds ys.
Proof. unfold fds. by rewrite fmap_app, descriptors_app. Qed.

Lemma homes_app xs ys : homes (xs ++ ys) = homes xs ++ homes ys.
Proof. unfold homes. by rewrite fmap_app, filter_app. Qed.

Lemma fds_cons x xs : fds (x :: xs) = (if decide (fd_of (sl_client x) = -1) then [] else [fd_of (sl_client x)]) ++ fds xs.
Proof. apply (descriptors_cons fd_of (sl_client x)). Qed.

Lemma homes_cons x xs : homes (x :: xs) = (if decide (sl_home x = -1) then [] else [sl_home x]) ++ homes xs.
Proof.
  unfold homes. cbn [fmap list_fmap]. destruct (decide _) as [E|E]; [rewrite filter_cons_False; [done|by intros Hx; apply Hx]|].
  by rewrite filter_cons_True.
Qed.

Lemma elem_of_homes x xs : x ∈ xs -> sl_home x <> -1 -> sl_home x ∈ homes xs.
Proof. intros Hin Hne. apply list_elem_of_filter. split; [done|]. by apply list_elem_of_fmap_2. Qed.

(** The descriptors in use are among the homes. *)
Lemma fds_homes v xs fd : Forall (slot_ok v) xs -> fd ∈ fds xs -> fd ∈ homes xs.
Proof.
  unfold fds, descriptors. rewrite <-list_fmap_compose. intros HF [Hne (x & -> & Hin)%list_elem_of_fmap]%list_elem_of_filter.
  rewrite Forall_forall in HF. unfold compose in *. destruct (HF x Hin) as [[E|E] _]; [done|]. rewrite E in *.
  by apply elem_of_homes.
Qed.

Lemma nodup_fds v xs : Forall (slot_ok v) xs -> NoDup (homes xs) -> NoDup (fds xs).
Proof.
  induction xs as [|x xs IH]; intros HF Hn; [apply NoDup_nil_2|]. apply Forall_cons in HF as [[Hx _] HF].
  rewrite homes_cons in Hn. rewrite fds_cons. destruct (decide (fd_of _ = -1)) as [E|E].
  - apply IH; [done|]. by apply NoDup_app in Hn as (_ & _ & Hn).
  - destruct Hx as [Hx|Hx]; [done|]. rewrite <-Hx, decide_False in Hn by done. cbn [app] in *.
    apply NoDup_cons in Hn as [Hni Hn]. constructor; [|by apply IH]. intros Hin. by eapply Hni, fds_homes.
Qed.

Context (Hlocal : local_ok).

Lemma table_homes_apart base v pre x post y :
  table_ok base v (pre ++ x :: post) -> sl_home x <> -1 -> y ∈ pre ++ post -> sl_home y <> sl_home x.
Proof.
  intros [_ Hn _ _] Hne Hy E. rewrite homes_app, homes_cons, decide_False in Hn by done.
  apply NoDup_app in Hn as (_ & Hdis & [Hni _]%NoDup_cons).
  assert (Hy' : sl_home y <> -1) by congruence.
  apply elem_of_app in Hy as [Hy|Hy]; apply elem_of_homes in Hy; try done; rewrite E in Hy.
  - apply (Hdis _ Hy). by left.
  - done.
Qed.

Lemma table_update base v v' pre x post x' :
  table_ok base v (pre ++ x :: post) -> fd_of (sl_client x) <> -1 -> moved v v' x x' ->
  table_ok base v' (pre ++ x' :: post).
Proof.
  intros Htb Hne [Q Hh F K]. pose proof Htb as [Hc Hn Hb Ho].
  pose proof Hc as [Hpre [[Hx _] Hpost]%Forall_cons]%Forall_app. destruct Hx as [Hx|Hx]; [done|].
  rewrite Hx in Hne.
  assert (Hkeep : forall y, y ∈ pre ++ post -> slot_ok v y -> slot_ok v' y).
  { intros y Hin [Hf Hy]. split; [done|]. apply (Hlocal v); [done|]. intros _. apply Q.
    by eapply table_homes_apart. }
  assert (Hhomes : homes (pre ++ x' :: post) = homes (pre ++ x :: post)).
  { by rewrite !homes_app, !homes_cons, Hh. }
  split; rewrite ?Hhomes; [|done|done|].
  - apply Forall_app. split; [|constructor]; rewrite ?Forall_forall in *.
    + intros y Hy. apply Hkeep; [|by apply Hpre]. apply elem_of_app. by left.
    + split; [|done]. rewrite Hh. destruct F as [[F _]|[F _]]; auto.
    + intros y Hy. apply Hkeep; [|by apply Hpost]. apply elem_of_app. by right.
  - pose proof (nodup_fds _ _ Hc Hn) as Hnf. rewrite fds_app, fds_cons, Hx, decide_False in Ho, Hnf by done.
    rewrite fds_app, fds_cons. destruct F as [[F ->]|[F ->]].
    + by rewrite Ho, F, decide_False by done.
    + rewrite Ho, decide_True by done. cbn [app]. rewrite !list_to_set_app_L. cbn [list_to_set].
      apply NoDup_app in Hnf as (_ & Hdis & [Hni _]%NoDup_cons).
      rewrite homes_app, homes_cons, decide_False in Hb by done. apply Forall_app in Hb as [_ [Hb _]%Forall_cons].
      apply minus_one; [done|..]; rewrite elem_of_list_to_set; [|done].
      intros Hin. apply (Hdis _ Hin). by left.
Qed.

Lemma table_frame base v v' xs :
  table_ok base v xs -> (forall x, x ∈ xs -> sl_home x <> -1 -> traffic v' (sl_home x) = traffic v (sl_home x)) ->
  v_open v' = v_open v -> table_ok base v' xs.
Proof.
  intros [Hc Hn Hb Ho] Ht Eo. split; [|done|done|by rewrite Eo].
  rewrite Forall_forall in *. intros x Hx. destruct (Hc x Hx) as [Hf Hk]. split; [done|].
  apply (Hlocal v); [done|]. by apply Ht.
Qed.

Lemma table_same base v v' xs : table_ok base v xs -> same_io v v' -> table_ok base v' xs.
Proof.
  intros Htb (Eo & Es & Er). apply (table_frame _ v); [done| |done]. intros. unfold traffic. by rewrite Es, Er.
Qed.

(** Entries that have not been closed. *)
Definition at_home x : Prop := fd_of (sl_client x) = sl_home x.

Lemma table_home_open base v xs x :
  table_ok base v xs -> Forall at_home xs -> x ∈ xs -> sl_home x <> -1 -> sl_home x ∈ v_open v.
Proof.
  intros [_ _ _ Ho] Hh Hx Hne. rewrite Ho. apply elem_of_union_r, elem_of_list_to_set, list_elem_of_filter.
  split; [done|]. rewrite <-list_fmap_compose. apply list_elem_of_fmap. exists x. split; [|done].
  rewrite Forall_forall in Hh. symmetry. apply (Hh x Hx).
Qed.

(** A new connection takes the place of an empty entry. *)
Lemma table_add base v v' pre x post x' :
  table_ok base v (pre ++ x :: post) -> Forall at_home (pre ++ x :: post) -> sl_home x = -1 ->
  at_home x' -> sl_home x' <> -1 -> sl_home x' ∉ v_open v -> v_open v' = {[sl_home x']} ∪ v_open v ->
  (forall fd, fd ∈ v_open v -> traffic v' fd = traffic v fd) -> ok v' x' ->
  table_ok base v' (pre ++ x' :: post).
Proof.
  intros Htb Hat Hx Hx' Hne Hnew Ho' Ht Hok.
  assert (Hframe : forall y, y ∈ pre ++ x :: post -> slot_ok v y -> slot_ok v' y).
  { intros y Hy [Hf Hyok]. split; [done|]. apply (Hlocal v); [done|]. intros Hyne. apply Ht. by eapply table_home_open. }
  assert (Hfresh : sl_home x' ∉ homes (pre ++ x :: post)).
  { intros [_ (y & E & Hy)%list_elem_of_fmap]%list_elem_of_filter. apply Hnew. rewrite E. eapply table_home_open; try done.
    by rewrite <-E. }
  destruct Htb as [Hc Hn Hb Ho]. apply Forall_app in Hat as [_ [Hxh _]%Forall_cons]. unfold at_home in *. rewrite Hx in Hxh.
  rewrite homes_app, homes_cons, decide_True in Hn, Hb, Hfresh by done.
  rewrite fds_app, fds_cons, decide_True in Ho by done. cbn [app] in *.
  split; rewrite ?homes_app, ?homes_cons, ?fds_app, ?fds_cons, ?Hx', ?decide_False by done.
  - rewrite Forall_forall in Hc. rewrite Forall_forall. intros y [Hy|[->|Hy]%elem_of_cons]%elem_of_app.
    + apply Hframe; [|apply Hc]; apply elem_of_app; by left.
    + split; [by right|done].
    + apply Hframe; [|apply Hc]; apply elem_of_app; right; by right.
  - cbn [app]. rewrite <-Permutation_middle. by constructor.
  - cbn [app]. rewrite <-Permutation_middle. constructor; [|done]. intros Hin. apply Hnew. rewrite Ho. by apply elem_of_union_l.
  - cbn [app]. rewrite Ho', Ho, !list_to_set_app_L. cbn [list_to_set]. apply set_eq. intros z. rewrite !elem_of_union. tauto.
Qed.

Lemma table_opened base v fd xs :
  table_ok base v xs -> Forall at_home xs -> fd ∉ v_open v -> table_ok ({[fd]} ∪ base) (v_opened fd v) xs.
Proof.
  intros Htb Hat Hfd. assert (Hne : forall x, x ∈ xs -> sl_home x <> -1 -> sl_home x <> fd).
  { intros x Hx Hne <-. apply Hfd. by eapply table_home_open. }
  destruct Htb as [Hc Hn Hb Ho]. split; [|done| |].
  - rewrite Forall_forall in *. intros x Hx. destruct (Hc x Hx) as [Hf Hk]. split; [done|].
    apply (Hlocal v); [done|]. intros Hm. specialize (Hne x Hx Hm). unfold traffic, log_of. simpl.
    by rewrite !lookup_insert_ne.
  - rewrite Forall_forall in *. intros h Hh. rewrite elem_of_union, elem_of_singleton. intros [->|Hin]; [|by apply (Hb h)].
    apply list_elem_of_filter in Hh as [Hm (x & E & Hx)%list_elem_of_fmap]. rewrite E in Hm. by apply (Hne x Hx Hm).
  - simpl. by rewrite Ho, (assoc_L (∪)).
Qed.
End Table.

(** Another account of the same entries. *)
Lemma table_impl {C G} (fd_of : C -> Z) (ok ok' : kview -> slot C G -> Prop) base v xs :
  table_ok fd_of ok base v xs -> (forall x, ok v x -> ok' v x) -> table_ok fd_of ok' base v xs.
Proof.
  intros [Hc Hn Hb Ho] Himp. split; [|done..]. eapply Forall_impl; [exact Hc|]. intros x [Hf Hk]. split; auto.
Qed.

(** A descriptor of [base] is closed. *)
Lemma table_retired {C G} (fd_of : C -> Z) (ok : kview -> slot C G -> Prop) base v fd xs :
  table_ok fd_of ok ({[fd]} ∪ base) v xs -> fd ∉ base -> table_ok fd_of (fun _ _ => True) base (v_closed fd v) xs.
Proof.
  intros [H1 H2 H3 H4] Hfd. split; [|done| |].
  - eapply Forall_impl; [exact H1|]. by intros x [].
  - eapply Forall_impl; [exact H3|]. intros h Hin Hb. by apply Hin, elem_of_union_r.
  - simpl. rewrite H4, <-(assoc_L (∪)), difference_union_distr_l_L, difference_diag_L, (left_id_L ∅ (∪)).
    apply difference_disjoint_L, disjoint_singleton_r. intros [|Hin%elem_of_list_to_set]%elem_of_union; [done|].
    eapply fds_homes in Hin; [|done]. rewrite Forall_forall in H3.
    apply (H3 _ Hin), elem_of_union_l. by apply elem_of_singleton.
Qed.

(** The connections and what was done on them. *)
Definition connections {C G} (xs : list (slot C G)) : list (Z * G) :=
  filter (fun c => c.1 <> -1) ((fun x => (sl_home x, sl_ghost x)) <$> xs).

Lemma connections_homes {C G} (xs : list (slot C G)) : (connections xs).*1 = homes xs.
Proof.
  unfold connections, homes. induction xs as [|x xs IH]; [done|]. cbn [fmap list_fmap].
  destruct (decide (sl_home x = -1)) as [E|E].
  - rewrite !filter_cons_False; [done|by intros Hx; apply Hx..].
  - rewrite !filter_cons_True by done. cbn. by f_equal.
Qed.

Lemma elem_of_connections {C G} (xs : list (slot C G)) c :
  c ∈ connections xs -> exists x, x ∈ xs /\ c = (sl_home x, sl_ghost x) /\ sl_home x <> -1.
Proof. intros [Hne (x & -> & Hin)%list_elem_of_fmap]%list_elem_of_filter. by exists x. Qed.

Lemma connections_sum {C G} (f : G -> nat) (xs : list (slot C G)) :
  Forall (fun x => sl_home x = -1 -> f (sl_ghost x) = 0%nat) xs ->
  sum_list (f <$> (connections xs).*2) = sum_list (f <$> (sl_ghost <$> xs)).
Proof.
  unfold connections. induction 1 as [|x xs Hx _ IH]; [done|]. cbn [fmap list_fmap].
  destruct (decide (sl_home x = -1)) as [E|E].
  - rewrite filter_cons_False; [|by intros Hne; apply Hne]. simpl. by rewrite IH, (Hx E).
  - rewrite filter_cons_True by done. simpl. by rewrite <-IH.
Qed.

Lemma table_split {A} (xs : list A) i x :
  xs !! i = Some x -> exists pre post, xs = pre ++ x :: post /\ length pre = i /\ forall x', <[i := x']> xs = pre ++ x' :: post.
Proof.
  intros Hi. destruct (list_elem_of_split_length _ _ _ Hi) as (pre & post & -> & ->).
  exists pre, post. split_and!; [done|done|]. intros x'. by rewrite insert_app_r_alt, Nat.sub_diag by lia.
Qed.

Lemma store_insert {A} (d : list A) i x : 0 <= i < zlen d -> store d i x = Ok (<[Z.to_nat i := x]> d).
Proof. intros Hi. unfold store. by rewrite (proj2 (in_range_true _ _ _)) by lia. Qed.

Lemma sum_list_insert (ns : list nat) i n m :
  ns !! i = Some n -> sum_list (<[i := (n + m)%nat]> ns) = (sum_list ns + m)%nat.
Proof.
  revert i. induction ns as [|x ns IH]; intros [|i] Hi; simpl in *; [done|done| |].
  - injection Hi as ->. lia.
  - rewrite IH by done. lia.
Qed.

(** One entry changes. *)
Lemma table_step {C G} (fd_of : C -> Z) (ok : kview -> slot C G -> Prop) base v xs i cl :
  local_ok ok -> table_ok fd_of ok base v xs -> (sl_client <$> xs) !! i = Some cl -> fd_of cl <> -1 ->
  exists g, xs !! i = Some (Slot (fd_of cl) cl g) /\ ok v (Slot (fd_of cl) cl g) /\
    forall v' cl' g', let x' := Slot (fd_of cl) cl' g' in moved fd_of ok v v' (Slot (fd_of cl) cl g) x' ->
      table_ok fd_of ok base v' (<[i := x']> xs) /\ sl_home <$> <[i := x']> xs = sl_home <$> xs /\
      Z.of_nat (length (fds fd_of (<[i := x']> xs))) =
        Z.of_nat (length (fds fd_of xs)) - (if decide (fd_of cl' = -1) then 1 else 0).
Proof.
  intros Hlocal Htb (x & Ecl & Hx)%list_lookup_fmap_Some_1 Hne.
  destruct (Forall_lookup_1 _ _ _ _ (tb_slots _ _ _ _ _ Htb) Hx) as [Hfd Hok]. destruct x as [h cl0 g].
  cbn [sl_client sl_home] in *. subst cl0. destruct Hfd as [|<-]; [done|]. exists g. split_and!; [done|done|].
  intros v' cl' g' Hm. destruct (table_split _ _ _ Hx) as (pre & post & -> & Hl & Hins). rewrite Hins.
  split_and!; [by eapply table_update|by rewrite !fmap_app|].
  rewrite !fds_app, !fds_cons, !length_app. cbn [sl_client]. rewrite (decide_False (P:=fd_of cl = -1)) by done.
  destruct (decide (fd_of cl' = -1)); simpl length; lia.
Qed.

(** ** What a program promises to the frame *)

Section Laws.
Context `{OsLaws} {C B : Type} (P : program C B) {G : Type}.

(** [fd] has sent CONNECT and received an answer that is accepted, nothing else. *)
Definition acked (v : kview) (fd : Z) : Prop :=
  exists response, length response = 8%nat /\ Forall is_byte response /\ pr_check P response = Ok true /\
    traffic v fd = (response, CONNECT_BYTES).

(** An entry before the measurement. *)
Definition fresh (zero : G) (v : kview) (x : slot C G) : Prop :=
  sl_ghost x = zero /\
  ((sl_home x = -1 /\ sl_client x = pr_none P) \/
   (sl_home x <> -1 /\ acked v (sl_home x) /\
    (sl_client x = pr_new P (sl_home x) \/ sl_client x = pr_lost P (pr_new P (sl_home x))))).

(** The measurement in order: the table is, and the totals agree ([inv]) with the
    ghosts of the entries and with the number of descriptors in use; the entries
    began with the descriptors [hs], [lost] of them were given up before. *)
Definition bench_ok (ok : kview -> slot C G -> Prop) (inv : Z -> list G -> Z -> B -> Prop)
    (base : gset Z) (hs : list Z) (lost : Z) (v : kview) (b : B) : Prop :=
  exists slots, sl_home <$> slots = hs /\ sl_client <$> slots = pr_clients P b /\
    table_ok (pr_fd P) ok base v slots /\
    inv lost (sl_ghost <$> slots) (Z.of_nat (length (fds (pr_fd P) slots))) b.

Section Step.
Context (ok : kview -> slot C G -> Prop) (inv : Z -> list G -> Z -> B -> Prop) (base : gset Z) (hs : list Z) (lost : Z).

Lemma bench_entry v b i cl :
  bench_ok ok inv base hs lost v b -> pr_clients P b !! i = Some cl ->
  exists h g, (pr_fd P cl = -1 \/ pr_fd P cl = h) /\ ok v (Slot h cl g).
Proof.
  intros (xs & _ & Hc & Htb & _) Hi. rewrite <-Hc in Hi. apply list_lookup_fmap_Some_1 in Hi as ([h cl0 g] & E & Hx).
  cbn [sl_client] in E. subst cl0. destruct (Forall_lookup_1 _ _ _ _ (tb_slots _ _ _ _ _ Htb) Hx) as [Hfd Hok].
  by exists h, g.
Qed.

(** One entry of the measurement changes, through its own descriptor. *)
Lemma bench_step v b i cl :
  local_ok ok -> bench_ok ok inv base hs lost v b -> pr_clients P b !! i = Some cl -> pr_fd P cl <> -1 ->
  exists g gs n, inv lost gs n b /\ gs !! i = Some g /\ ok v (Slot (pr_fd P cl) cl g) /\
    forall v' cl' g' b', pr_clients P b' = <[i := cl']> (pr_clients P b) ->
      moved (pr_fd P) ok v v' (Slot (pr_fd P cl) cl g) (Slot (pr_fd P cl) cl' g') ->
      inv lost (<[i := g']> gs) (n - (if decide (pr_fd P cl' = -1) then 1 else 0)) b' ->
      bench_ok ok inv base hs lost v' b'.
Proof.
  intros Hlocal (xs & Hh & Hc & Htb & Hi) Hcl Hne. rewrite <-Hc in Hcl.
  destruct (table_step _ _ _ _ _ _ _ Hlocal Htb Hcl Hne) as (g & Hx & Hok & Hstep).
  exists g, (sl_ghost <$> xs), (Z.of_nat (length (fds (pr_fd P) xs))). split_and!; [done| |done|].
  { by rewrite list_lookup_fmap, Hx. }
  intros v' cl' g' b' Hb' Hm Hi'. destruct (Hstep v' cl' g' Hm) as (Ht & Hh' & Hl).
  exists (<[i := Slot (pr_fd P cl) cl' g']> xs). split_and!; [congruence| |done|].
  - by rewrite Hb', list_fmap_insert, Hc.
  - by rewrite list_fmap_insert, Hl.
Qed.
End Step.
End Laws.

Class BenchLaws `{OsLaws} {C B : Type} (P : program C B) (G : Type) := {
  bl_ok : kview -> slot C G -> Prop;
  bl_zero : G;
  bl_inv : Z -> list G -> Z -> B -> Prop;
  bl_check response : length response = 8%nat -> exists r, pr_check P response = Ok r;
  bl_none : pr_fd P (pr_none P) = -1 /\ pr_alive P (pr_none P) = false;
  bl_new fd : pr_fd P (pr_new P fd) = fd;
  bl_lost cl : pr_fd P (pr_lost P cl) = -1 /\ pr_alive P (pr_lost P cl) = false;
  bl_local : local_ok bl_ok;
  bl_fresh v x : fresh P bl_zero v x -> bl_ok v x;
  bl_begin clients established lost :
    pr_clients P (pr_begin P clients established lost) = clients /\
    bl_inv lost (replicate (length clients) bl_zero) (established - lost) (pr_begin P clients established lost);
  bl_round base hs lost epfd evs b s :
    bench_ok P bl_ok bl_inv base hs lost (os_view s) b ->
    safe (pr_round P epfd evs b) (fun b' s' => bench_ok P bl_ok bl_inv base hs lost (os_view s') b') s
}.
#[global] Hint Mode BenchLaws - - - - - - : typeclass_instances.

Section Frame.
Context `{OsLaws} {C B G : Type} (P : program C B) {L : BenchLaws P G}.

Local Abbreviation fresh_table := (table_ok (pr_fd P) (fresh P (bl_zero (P:=P) (G:=G)))).
Local Abbreviation fds := (fds (pr_fd P)).
Local Abbreviation at_home := (at_home (pr_fd P)).

Lemma fresh_local : local_ok (fresh P (bl_zero (P:=P) (G:=G))).
Proof.
  intros v v' x (Hg & Hx) Ht. split; [done|]. destruct Hx as [Hx|(Hne & (r & Hl & Hb & Hc & Hr) & Hx)]; [by left|right].
  split_and!; [done| |done]. exists r. by rewrite (Ht Hne).
Qed.

Definition empty_slot : slot C G := Slot (-1) (pr_none P) bl_zero.

Lemma empty_at_home : at_home empty_slot.
Proof. apply bl_none. Qed.

Lemma establish_clients_spec base fuel host_ok junk junk' pre n established s :
  length junk = 8%nat -> length junk' = 8%nat ->
  fresh_table base (os_view s) (pre ++ replicate n empty_slot) -> Forall at_home pre ->
  safe (establish_clients P fuel host_ok junk junk' (replicate n (pr_none P)) established) (fun r s' =>
    exists xs, sl_client <$> xs = r.1 /\ fresh_table base (os_view s') (pre ++ xs) /\ Forall at_home (pre ++ xs) /\
      r.2 = established + Z.of_nat (length (fds xs))) s.
Proof.
  intros Hj Hj'. revert pre established s. induction n as [|n IH]; intros pre established s Htb Hat.
  { apply safe_ret. exists []. cbn [fst snd replicate] in *. rewrite app_nil_r in *. split_and!; [done..|]. simpl. lia. }
  cbn [replicate establish_clients] in *. apply safe_bind.
  eapply safe_mono; [apply establish_spec; [done|done|apply bl_check]|].
  assert (Hall : Forall at_home (pre ++ empty_slot :: replicate n empty_slot)).
  { apply Forall_app. split; [done|]. apply (Forall_replicate _ (S n)), empty_at_home. }
  intros [fd|] s1 Hd; apply safe_bind.
  - destruct Hd as (Hq & Hnew & Ho & response & Hl & Hb & Hc & Ht).
    assert (Hfd : fd <> -1).
    { intros ->. assert (Hin : -1 ∈ v_open (os_view s1)) by (rewrite Ho; by apply elem_of_union_l, elem_of_singleton).
      apply os_law_range in Hin. lia. }
    set (x := Slot fd (pr_new P fd) (bl_zero (P:=P) (G:=G))).
    assert (Hx : at_home x) by apply bl_new.
    eapply safe_mono; [apply (IH (pre ++ [x]))|].
    + rewrite <-app_assoc. eapply (table_add _ _ fresh_local); try done. split; [done|right].
      split_and!; [done| |by left]. by exists response.
    + apply Forall_app. by split; [|constructor].
    + intros [cs est] s2 (xs & E & H1 & H2 & Ee). cbn [fst snd] in *. subst est. rewrite <-app_assoc in *.
      apply safe_ret. exists (x :: xs). cbn [fst snd]. split_and!; [cbn; by f_equal|done|done|].
      rewrite fds_cons, Hx, decide_False by done. simpl. lia.
  - destruct Hd as [Hq Eo]. eapply safe_mono; [apply (IH (pre ++ [empty_slot]))|].
    + rewrite <-app_assoc. apply (table_frame _ _ fresh_local _ (os_view s)); [done| |done]. intros x Hx Hne.
      apply Hq. by eapply table_home_open.
    + apply Forall_app. split; [done|constructor; [apply empty_at_home|constructor]].
    + intros [cs est] s2 (xs & E & H1 & H2 & Ee). cbn [fst snd] in *. subst est. rewrite <-app_assoc in *.
      apply safe_ret. exists (empty_slot :: xs). cbn [fst snd]. split_and!; [cbn; by f_equal|done|done|].
      rewrite fds_cons, decide_True by apply bl_none. done.
Qed.

Lemma fresh_alive v x : fresh P (bl_zero (P:=P) (G:=G)) v x -> pr_alive P (sl_client x) = true ->
  sl_home x <> -1 /\ sl_client x = pr_new P (sl_home x) /\ acked P v (sl_home x).
Proof.
  intros (_ & Hx) Ha. destruct bl_none as [_ Hn].
  destruct Hx as [[_ E]|(Hne & Hk & [E|E])]; [rewrite E in Ha; congruence|done|].
  destruct (bl_lost (pr_new P (sl_home x))) as [_ El]. rewrite E in Ha. congruence.
Qed.

Lemma closed_quiet fd v v1 : same_io v v1 -> forall fd', traffic (v_closed fd v1) fd' = traffic v fd'.
Proof. intros (_ & Es & Er) fd'. unfold traffic. simpl. by rewrite Es, Er. Qed.

Lemma register_clients_spec base epfd i pre xs s :
  fresh_table base (os_view s) (pre ++ xs) ->
  safe (register_clients P epfd i (sl_client <$> xs)) (fun r s' =>
    exists ys, sl_client <$> ys = r.1 /\ fresh_table base (os_view s') (pre ++ ys) /\
      sl_home <$> ys = sl_home <$> xs /\ r.2 = Z.of_nat (length (fds xs)) - Z.of_nat (length (fds ys))) s.
Proof.
  revert pre i s. induction xs as [|x xs IH]; intros pre i s Htb.
  { apply safe_ret. exists []. split_and!; [done..|]. simpl. lia. }
  cbn [fmap list_fmap register_clients].
  apply safe_bind, (safe_mono _ (fun r s' => exists y, sl_client y = r.1 /\
    fresh_table base (os_view s') (pre ++ y :: xs) /\ sl_home y = sl_home x /\
    r.2 = Z.of_nat (length (fds [x])) - Z.of_nat (length (fds [y])))).
  - destruct (pr_alive P (sl_client x)) eqn:Ha; cbn [negb].
    2:{ apply safe_ret. exists x. split_and!; [done..|]. cbn [snd]. lia. }
    pose proof (tb_slots _ _ _ _ _ Htb) as [_ [[_ Hx] _]%Forall_cons]%Forall_app.
    destruct (fresh_alive _ _ Hx Ha) as (Hne & Ecl & Hack).
    assert (Hfd : pr_fd P (sl_client x) = sl_home x) by (rewrite Ecl; apply bl_new).
    apply safe_bind, safe_bind, safe_sys.
    pose proof (os_law_epoll_ctl s epfd (Epoll_add (pr_events P) (u32 i)) (pr_fd P (sl_client x))) as H1.
    destruct (os_epoll_ctl _ _ _ s) as [[r|e] s1]; cbn [fst snd] in *; apply safe_ret.
    { apply safe_ret. exists x. cbn [fst snd]. split_and!; [done|by apply (table_same _ _ fresh_local _ (os_view s))|done|lia]. }
    apply safe_bind, safe_sys. pose proof (os_law_close s1 (pr_fd P (sl_client x))) as H2.
    destruct (os_close _ s1) as [r2 s2]; cbn [fst snd] in *. apply safe_ret. rewrite Hfd in H2.
    pose proof (closed_quiet (sl_home x) _ _ H1) as Hq. destruct (bl_lost (sl_client x)) as [El _].
    exists (Slot (sl_home x) (pr_lost P (sl_client x)) (sl_ghost x)). cbn [fst snd sl_client sl_home]. split_and!; [done| |done|].
    + apply (table_update _ _ fresh_local base (os_view s) _ _ x); [done|by rewrite Hfd|]. split; cbn [sl_home sl_client].
      * intros fd' _. rewrite H2. apply Hq.
      * done.
      * right. split; [done|]. rewrite H2. simpl. by destruct H1 as [-> _].
      * apply fresh_local with (v := os_view s); [|intros _; rewrite H2; apply Hq].
        destruct Hx as [Hg _]. split; [done|right]. split_and!; [done|done|right]. by rewrite Ecl.
    + rewrite !fds_cons. cbn [sl_client]. rewrite Hfd, El, decide_False, decide_True by done. simpl. lia.
  - intros [cl n] s1 (y & Ey & Htb1 & Hh & En). cbn [fst snd] in *. rewrite cons_middle, app_assoc in Htb1.
    apply safe_bind. eapply safe_mono; [by apply (IH (pre ++ [y]))|].
    intros [cs m] s2 (ys & Eys & Htb2 & Hhs & Em). cbn [fst snd] in *. apply safe_ret. exists (y :: ys).
    rewrite cons_middle, app_assoc. cbn [fst snd fmap list_fmap]. split_and!; [by f_equal|done|by f_equal|].
    rewrite (fds_app _ [x] xs : Bench.fds _ (x :: xs) = _), (fds_app _ [y] ys : Bench.fds _ (y :: ys) = _).
    rewrite !length_app. lia.
Qed.

Lemma close_table (ok : kview -> slot C G -> Prop) base xs s :
  table_ok (pr_fd P) ok base (os_view s) xs ->
  safe (close_clients (pr_fd P) (sl_client <$> xs)) (fun _ s' => v_open (os_view s') = base /\
    forall fd, traffic (os_view s') fd = traffic (os_view s) fd) s.
Proof.
  intros [Hc Hn Hb Ho]. apply close_clients_spec; [by apply (nodup_fds _ _ _ _ Hc)| |done].
  rewrite Forall_forall in Hb. apply Forall_forall. intros fd Hin. by apply Hb, (fds_homes _ _ _ _ _ Hc).
Qed.

Local Abbreviation ok_bench := (bench_ok P (bl_ok (P:=P) (G:=G)) bl_inv).

Lemma bench_frame base hs lost v v' b :
  ok_bench base hs lost v b -> same_io v v' -> ok_bench base hs lost v' b.
Proof.
  intros (xs & Hh & Hc & Htb & Hi) Hs. exists xs. split_and!; [done|done| |done]. by apply (table_same _ _ bl_local _ v).
Qed.

Lemma measure_spec base hs lost rounds epfd b s :
  ok_bench base hs lost (os_view s) b ->
  safe (measure P rounds epfd b) (fun b' s' => ok_bench base hs lost (os_view s') b') s.
Proof.
  revert b s. induction rounds as [|rounds IH]; intros b s Hb; cbn [measure];
    apply safe_bind, safe_get_os, safe_bind, safe_get_os; destruct (_ || _); try done.
  apply safe_bind, safe_sys. pose proof (os_law_epoll_wait s epfd MAX_EVENTS 10) as Hw.
  destruct (os_epoll_wait _ _ _ s) as [[evs|e] s1]; cbn [fst snd] in *; apply (bench_frame _ _ _ _ _ _ Hb) in Hw.
  - apply safe_bind. eapply safe_mono; [by apply bl_round|]. intros b2 s2 Hb2.
    destruct (_ =? 0); [by apply safe_ret|by apply IH].
  - destruct (e =? EINTR); [by apply IH|by apply safe_ret].
Qed.

(** The end of a campaign: every entry is in order with respect to what passed
    through the descriptor it was connected through; these are distinct, were not
    open before, and there are [established] of them; the totals agree. *)
Definition settled (base : gset Z) (established : Z) (v : kview) (b : B) : Prop :=
  exists (xs : list (slot C G)) lost, sl_client <$> xs = pr_clients P b /\ Forall (slot_ok (pr_fd P) bl_ok v) xs /\
    NoDup (homes xs) /\ Forall (fun fd => fd ∉ base) (homes xs) /\ Z.of_nat (length (homes xs)) = established /\
    bl_inv lost (sl_ghost <$> xs) (Z.of_nat (length (fds xs))) b.

Lemma empty_table n v : fresh_table (v_open v) v (replicate n empty_slot).
Proof.
  destruct bl_none as [Hn _].
  assert (Hf : fds (replicate n empty_slot) = [] /\ homes (replicate n empty_slot) = []).
  { induction n as [|n [IHf IHh]]; [done|]. cbn [replicate]. rewrite fds_cons, homes_cons, !decide_True by done.
    by rewrite IHf, IHh. }
  destruct Hf as [Hf Hh]. split; rewrite ?Hf, ?Hh; [|apply NoDup_nil_2|done|symmetry; apply (right_id_L ∅ (∪))].
  apply Forall_replicate. split; [by left|]. split; [done|]. by left.
Qed.

Lemma homes_fds_at_home (xs : list (slot C G)) : Forall at_home xs -> fds xs = homes xs.
Proof.
  intros Hat. unfold Bench.fds, descriptors, homes. rewrite <-list_fmap_compose. f_equal. apply list_fmap_ext. intros i x Hx. by eapply Forall_lookup_1 in Hat.
Qed.

Lemma fresh_ghosts v (xs : list (slot C G)) :
  Forall (slot_ok (pr_fd P) (fresh P (bl_zero (P:=P) (G:=G))) v) xs -> sl_ghost <$> xs = replicate (length xs) bl_zero.
Proof. induction 1 as [|x xs [_ [Hg _]] _ IH]; [done|]. cbn. by rewrite Hg, IH. Qed.

(** Registered, the table is ready for the measurement. *)
Lemma begin_ok base v xs established lost :
  fresh_table base v xs -> established - lost = Z.of_nat (length (fds xs)) ->
  ok_bench base (sl_home <$> xs) lost v (pr_begin P (sl_client <$> xs) established lost).
Proof.
  intros Htb E. destruct (bl_begin (G:=G) (sl_client <$> xs) established lost) as [Hc Hi].
  exists xs. split_and!; [done|done| |].
  - eapply table_impl; [done|]. apply bl_fresh.
  - rewrite (fresh_ghosts v) by apply Htb. by rewrite E, length_fmap in Hi.
Qed.

Lemma minus_new (base : gset Z) fd : fd ∉ base -> ({[fd]} ∪ base) ∖ {[fd]} = base.
Proof.
  intros Hfd. rewrite difference_union_distr_l_L, difference_diag_L, (left_id_L ∅ (∪)).
  apply difference_disjoint_L. by apply disjoint_singleton_r.
Qed.

Lemma drive_spec base rounds events_ok epfd xs established s :
  epfd ∉ base -> fresh_table ({[epfd]} ∪ base) (os_view s) xs -> Forall at_home xs ->
  established = Z.of_nat (length (fds xs)) ->
  safe (drive P rounds events_ok epfd (sl_client <$> xs) established) (fun r s' =>
    v_open (os_view s') = base /\
    match r with Some (established, b) => settled base established (os_view s') b | None => True end) s.
Proof.
  intros Hnb Htb Hat E. apply safe_bind. eapply safe_mono; [by apply (register_clients_spec ({[epfd]} ∪ base) _ _ [])|].
  intros [clients lost] s3 (ys & Eys & Htb3 & Hh & El). cbn [fst snd app] in *. subst clients. destruct events_ok; cbn [negb].
  2:{ apply safe_bind, safe_sys. pose proof (os_law_close s3 epfd) as Hc.
      destruct (os_close epfd s3) as [r s4]; cbn [fst snd] in *. apply safe_bind.
      eapply safe_mono; [eapply (close_table _ base)|intros u s5 [Ho _]; by apply safe_ret].
      rewrite Hc. by eapply table_retired. }
  apply safe_bind. eapply safe_mono; [eapply measure_spec, begin_ok; [exact Htb3|lia]|].
  intros b s4 (zs & Ehs & Ecl & Htb4 & Hi). apply safe_bind. rewrite <-Ecl. eapply safe_mono; [by eapply close_table|].
  intros u s5 [Ho5 Ht5]. apply safe_bind, safe_sys. pose proof (os_law_close s5 epfd) as Hc.
  destruct (os_close epfd s5) as [r s6]; cbn [fst snd] in *. apply safe_ret. split.
  { rewrite Hc. simpl. rewrite Ho5. by apply minus_new. }
  destruct Htb4 as [H1 H2 H3 H4]. exists zs, lost. split_and!; [done| |done| | |done].
  - eapply Forall_impl; [exact H1|]. intros x [Hfd Hx]. split; [done|]. apply (bl_local (os_view s4)); [done|].
    intros _. by rewrite Hc, <-Ht5.
  - eapply Forall_impl; [exact H3|]. intros h Hin Hb. by apply Hin, elem_of_union_r.
  - rewrite E, (homes_fds_at_home xs) by done. unfold homes. by rewrite Ehs, Hh.
Qed.

Lemma campaign_spec rounds fuel host_ok events_ok junk junk' client_count s :
  length junk = 8%nat -> length junk' = 8%nat ->
  safe (campaign P rounds fuel host_ok events_ok junk junk' client_count) (fun r s' =>
    v_open (os_view s') = v_open (os_view s) /\
    match r with Some (established, b) => settled (v_open (os_view s)) established (os_view s') b | None => True end) s.
Proof.
  intros Hj Hj'. unfold campaign. apply safe_bind. set (base := v_open (os_view s)).
  eapply safe_mono; [apply (establish_clients_spec base _ _ _ _ []); [done|done|apply empty_table|done]|].
  intros [clients established] s1 (xs & Exs & Htb & Hat & E). cbn [fst snd app] in *. subst clients. rewrite Z.add_0_l in E.
  destruct (Z.eqb_spec established 0) as [Hz|_].
  { apply safe_ret. split; [|done]. destruct (fds xs) eqn:Hf; [|simpl in E; lia].
    rewrite (tb_open _ _ _ _ _ Htb), Hf. apply (right_id_L ∅ (∪)). }
  apply safe_bind, safe_sys. pose proof (os_law_epoll_create1 s1) as Hep.
  destruct (os_epoll_create1 s1) as [[epfd|e] s2]; cbn [fst snd] in *.
  2:{ apply safe_bind. rewrite <-Hep in Htb. eapply safe_mono; [by eapply close_table|].
      intros u s3 [Ho _]. by apply safe_ret. }
  destruct Hep as [Hnew Hv]. apply drive_spec; [|rewrite Hv; by apply (table_opened _ _ fresh_local)|done|done].
  rewrite (tb_open _ _ _ _ _ Htb) in Hnew. intros Hin. by apply Hnew, elem_of_union_l.
Qed.
End Frame.

(** ** Time *)

(** Time passes: [remaining] is the number of calls of epoll_wait or sleep before the
    measurement is over. *)
Record clock `{Os} (remaining : ost -> nat) : Prop := {
  ck_socket s : (remaining (os_socket s).2 <= remaining s)%nat;
  ck_connect fd s : (remaining (os_connect fd s).2 <= remaining s)%nat;
  ck_send fd bs s : (remaining (os_send fd bs s).2 <= remaining s)%nat;
  ck_recv fd len s : (remaining (os_recv fd len s).2 <= remaining s)%nat;
  ck_getfl fd s : (remaining (os_getfl fd s).2 <= remaining s)%nat;
  ck_setfl fd fl s : (remaining (os_setfl fd fl s).2 <= remaining s)%nat;
  ck_close fd s : (remaining (os_close fd s).2 <= remaining s)%nat;
  ck_epoll_create1 s : (remaining (os_epoll_create1 s).2 <= remaining s)%nat;
  ck_epoll_ctl ep op fd s : (remaining (os_epoll_ctl ep op fd s).2 <= remaining s)%nat;
  ck_epoll_wait ep n t s : (remaining (os_epoll_wait ep n t s).2 <= pred (remaining s))%nat;
  ck_so_error fd s : (remaining (os_so_error fd s).2 <= remaining s)%nat;
  ck_sleep t s : (remaining (os_sleep t s).2 <= pred (remaining s))%nat;
  ck_expired s : remaining s = 0%nat -> os_expired s = true
}.

(** [m] does not turn the clock back. *)
Definition forward `{Os} (remaining : ost -> nat) {A} (m : prog A) : Prop :=
  forall s x s', m s = Ok (x, s') -> (remaining s' <= remaining s)%nat.

Section Forward.
Context `{Os} (remaining : ost -> nat).

Lemma forward_ret {A} (x : A) : forward remaining (mret x).
Proof. intros s y s' [= _ <-]. done. Qed.

Lemma forward_bind {A B} (m : prog A) (k : A -> prog B) :
  forward remaining m -> (forall x, forward remaining (k x)) -> forward remaining (m ≫= k).
Proof.
  intros Hm Hk s y s'. unfold mbind, prog_bind. destruct (m s) as [[x s1]| |] eqn:E; [|done..].
  intros E'. etransitivity; [by eapply Hk|by eapply Hm].
Qed.

Lemma forward_sys {A} (f : ost -> answer A * ost) :
  (forall s, (remaining (f s).2 <= remaining s)%nat) -> forward remaining (sys f).
Proof. intros Hf s x s' E. specialize (Hf s). unfold sys in E. injection E as E. by rewrite E in Hf. Qed.

Lemma forward_wait {A} fd (f : ost -> answer A * ost) :
  (forall s, (remaining (f s).2 <= remaining s)%nat) -> forward remaining (wait fd f).
Proof.
  intros Hf s x s' E. specialize (Hf s). unfold wait in E. destruct (os_hangs fd s); [done|]. injection E as E.
  by rewrite E in Hf.
Qed.

Lemma forward_pure {A} (m : outcome A) : forward remaining (pure m).
Proof. intros s x s'. unfold pure. destruct m; [|done..]. by intros [= _ <-]. Qed.

Lemma forward_too_long {A} : forward remaining (@too_long _ A).
Proof. by intros s x s'. Qed.

Lemma forward_get_os {A} (f : ost -> A) : forward remaining (get_os f).
Proof. intros s x s' [= _ <-]. done. Qed.
End Forward.

Create HintDb forward.
#[export] Hint Resolve ck_socket ck_connect ck_send ck_recv ck_getfl ck_setfl ck_close ck_epoll_create1
  ck_epoll_ctl ck_so_error : forward.

Ltac forward := repeat first
  [ apply forward_ret | apply forward_pure | apply forward_too_long | apply forward_get_os
  | solve [auto with forward]
  | apply forward_sys; intros; solve [auto with forward]
  | apply forward_wait; intros; solve [auto with forward]
  | apply forward_bind; [|intros ?]
  | case_match ].

Section Steps.
Context `{Os} (remaining : ost -> nat) (Hclock : clock remaining).

Lemma forward_send_exact fuel fd buf sent : forward remaining (send_exact_blocking fuel fd buf sent).
Proof using Hclock. revert sent. induction fuel; intros sent; cbn [send_exact_blocking]; forward. Qed.
#[local] Hint Resolve forward_send_exact : forward.

Lemma forward_recv_exact fuel fd buf received : forward remaining (recv_exact_blocking fuel fd buf received).
Proof using Hclock. revert buf received. induction fuel; intros buf received; cbn [recv_exact_blocking]; forward. Qed.
#[local] Hint Resolve forward_recv_exact : forward.

Lemma forward_establish check fuel host_ok junk junk' :
  forward remaining (establish_connection check fuel host_ok junk junk').
Proof using Hclock. unfold establish_connection, give_back, set_nonblocking. forward. Qed.
#[local] Hint Resolve forward_establish : forward.

Context {C B : Type} (P : program C B).

Lemma forward_establish_clients fuel host_ok junk junk' clients established :
  forward remaining (establish_clients P fuel host_ok junk junk' clients established).
Proof using Hclock. revert established. induction clients; intros established; cbn [establish_clients]; forward. Qed.

Lemma forward_register epfd i clients : forward remaining (register_clients P epfd i clients).
Proof using Hclock. revert i. induction clients; intros i; cbn [register_clients]; unfold register_client; forward. Qed.
End Steps.

(** ** The campaign ends *)

Lemma safe_ok `{Os} {A} (m : prog A) Q s x s' : safe m Q s -> m s = Ok (x, s') -> Q x s'.
Proof. unfold safe. by intros Hs E; rewrite E in Hs. Qed.

Lemma close_clients_finishes `{Os} {C} (fd_of : C -> Z) clients s : finishes (close_clients fd_of clients) s.
Proof.
  revert s. induction clients as [|cl clients IH]; intros s; [done|]. cbn [close_clients].
  destruct (0 <=? _); [by apply finishes_sys|done].
Qed.

Section Ends.
Context `{OsLaws} {C B G : Type} (P : program C B) {L : BenchLaws P G}.
Context (remaining : ost -> nat) (Hclock : clock remaining).
Hypothesis Hcalm : undisturbed.
Hypothesis Hcheck : forall response, pr_check P response <> NoFuel.
Hypothesis Hround : forall epfd evs b, forward remaining (pr_round P epfd evs b).
Hypothesis Hround_finishes : forall base hs lost epfd evs b s,
  bench_ok P (bl_ok (P:=P) (G:=G)) bl_inv base hs lost (os_view s) b -> finishes (pr_round P epfd evs b) s.

Lemma measure_finishes base hs lost rounds epfd b s :
  bench_ok P (bl_ok (P:=P) (G:=G)) bl_inv base hs lost (os_view s) b -> (remaining s <= rounds)%nat ->
  finishes (measure P rounds epfd b) s.
Proof using Hclock Hround Hround_finishes.
  revert b s. induction rounds as [|rounds IH]; intros b s Hb Hr; cbn [measure];
    unfold finishes, mbind, prog_bind, get_os; cbn.
  { rewrite (ck_expired _ Hclock s) by lia. by destruct (os_stop s). }
  destruct (os_stop s || os_expired s) eqn:Est; [done|].
  assert (Hne : remaining s <> 0%nat).
  { intros E. rewrite (ck_expired _ Hclock s E) in Est. by destruct (os_stop s). }
  pose proof (ck_epoll_wait _ Hclock epfd MAX_EVENTS 10 s) as Hlt.
  pose proof (os_law_epoll_wait s epfd MAX_EVENTS 10) as Hw. apply finishes_sys.
  destruct (os_epoll_wait _ _ _ s) as [[evs|e] s1]; cbn [fst snd] in *; apply (bench_frame _ _ _ _ _ _ _ Hb) in Hw.
  2:{ destruct (e =? EINTR); [|done]. apply IH; [done|lia]. }
  apply finishes_bind; [by eapply Hround_finishes|]. intros b2 s2 E2.
  pose proof (safe_ok _ _ _ _ _ (bl_round base hs lost epfd evs b s1 Hw) E2) as Hb2. apply Hround in E2.
  destruct (_ =? 0); [done|]. apply IH; [done|lia].
Qed.

Lemma register_finishes epfd i clients s : finishes (register_clients P epfd i clients) s.
Proof using.
  revert i s. induction clients as [|cl clients IH]; intros i s; [done|]. cbn [register_clients].
  apply finishes_bind.
  - destruct (negb _); [done|]. apply finishes_bind; [by apply finishes_sys|].
    intros [] s' _; [done|by apply finishes_sys].
  - intros [cl' n] s' _. apply finishes_bind; [apply IH|]. by intros [] s2 _.
Qed.

Lemma establish_clients_finish fuel host_ok junk junk' clients established s :
  length junk = 8%nat -> length junk' = 8%nat -> (8 <= fuel)%nat ->
  finishes (establish_clients P fuel host_ok junk junk' clients established) s.
Proof using Hcalm Hcheck.
  intros Hj Hj' Hf. revert established s. induction clients as [|cl clients IH]; intros established s; [done|].
  cbn [establish_clients]. apply finishes_bind.
  - by apply establish_finishes.
  - intros [fd|] s' _; (apply finishes_bind; [apply IH|]); by intros [? ?] s2 _.
Qed.

Lemma campaign_finishes rounds fuel host_ok events_ok junk junk' client_count s :
  length junk = 8%nat -> length junk' = 8%nat -> (8 <= fuel)%nat -> (remaining s <= rounds)%nat ->
  finishes (campaign P rounds fuel host_ok events_ok junk junk' client_count) s.
Proof using All.
  intros Hj Hj' Hf Hr. unfold campaign. apply finishes_bind; [by apply establish_clients_finish|].
  intros [clients established] s1 E1. destruct (_ =? 0); [done|].
  pose proof E1 as Hf1%(forward_establish_clients remaining Hclock).
  apply (safe_ok _ _ _ _ _ (establish_clients_spec P (v_open (os_view s)) fuel host_ok junk junk' []
    (Z.to_nat client_count) 0 s Hj Hj' (empty_table P _ _) (Forall_nil_2 _))) in E1.
  destruct E1 as (xs & Exs & Htb & Hat & E). cbn [fst snd app] in *. subst clients. rewrite Z.add_0_l in E.
  apply finishes_sys. pose proof (os_law_epoll_create1 s1) as Hep. pose proof (ck_epoll_create1 _ Hclock s1) as Hc2.
  destruct (os_epoll_create1 s1) as [[epfd|e] s2]; cbn [fst snd] in *.
  2:{ by apply finishes_bind; [apply close_clients_finishes|]. }
  destruct Hep as [Hnew Hv]. pose proof (table_opened _ _ (fresh_local P) _ _ _ _ Htb Hat Hnew) as Htb2.
  rewrite <-Hv in Htb2. apply finishes_bind; [apply register_finishes|]. intros [clients lost] s3 E3.
  pose proof E3 as Hf3%(forward_register remaining Hclock).
  apply (safe_ok _ _ _ _ _ (register_clients_spec P _ epfd 0 [] xs s2 Htb2)) in E3.
  destruct E3 as (ys & Eys & Htb3 & Hh & El). cbn [fst snd app] in *. subst clients. destruct events_ok; cbn [negb].
  - apply finishes_bind; [eapply measure_finishes; [eapply begin_ok; [exact Htb3|lia]|lia]|]. intros b s4 _.
    apply finishes_bind; [apply close_clients_finishes|]. intros u s5 _. by apply finishes_sys.
  - apply finishes_sys, finishes_bind; [apply close_clients_finishes|done].
Qed.
End Ends.
