(* ===== verification/ClientSim.v ===== *)
(** * ClientSim: an operating system whose network has one kind of peer

    A concrete instance of [Os] with its laws proved.  Everything succeeds; a peer,
    given as the function [peer] from the bytes it was sent to the bytes it has
    answered, is behind every connection.  No call waits: one that would have to
    fails.  Sends are taken whole, unless the peer
    takes no more than [peer_room] bytes on a connection; connect fails with
    [peer_connect], if that is given.  epoll_wait
    reports every client readable and writable, and the measurement is over after
    a given number of such calls. *)

From S2P Require Import Prelude Core World SocketUtils Client Bench.
#[local] Open Scope Z_scope.

Class Peer := {
  peer : list Z -> list Z;
  peer_room : option nat;
  peer_connect : option Z;
  peer_mono a b : peer a `prefix_of` peer (a ++ b);
  peer_bytes a : Forall is_byte (peer a)
}.

Section Net.
Context `{Peer}.

Record net := Net {
  nt_view : kview;
  nt_next : Z;      (* the next descriptor number *)
  nt_clients : Z;   (* events are reported for the numbers below *)
  nt_left : nat     (* calls of epoll_wait until the end *)
}.

Record net_ok (s : net) : Prop := {
  nk_next : 0 <= nt_next s;
  nk_open fd : fd ∈ v_open (nt_view s) -> 0 <= fd < nt_next s;
  nk_peer fd : (traffic (nt_view s) fd).1 `prefix_of` peer (traffic (nt_view s) fd).2
}.

Definition with_view (s : net) (v : kview) : net := Net v (nt_next s) (nt_clients s) (nt_left s).

Definition net_open (s : net) : net :=
  Net (v_opened (nt_next s) (nt_view s)) (nt_next s + 1) (nt_clients s) (nt_left s).

(** What the peer has answered and the client not yet received. *)
Definition waiting (s : net) (fd : Z) : list Z :=
  drop (length (traffic (nt_view s) fd).1) (peer (traffic (nt_view s) fd).2).

(** How many of [len] bytes are taken. *)
Definition takes (s : net) (fd : Z) (len : Z) : Z :=
  match peer_room with
  | None => len
  | Some room => Z.min len (Z.of_nat room - zlen (traffic (nt_view s) fd).2)
  end.

Definition net_tick (s : net) : net := Net (nt_view s) (nt_next s) (nt_clients s) (pred (nt_left s)).

Lemma net_open_ok s : net_ok s -> net_ok (net_open s).
Proof.
  intros [Hn Ho Hp]. split; simpl.
  - lia.
  - intros fd. rewrite elem_of_union, elem_of_singleton. intros [->|Hin]; [lia|]. specialize (Ho fd Hin). lia.
  - intros fd. destruct (decide (fd = nt_next s)) as [->|Hne].
    + unfold traffic, log_of. simpl. rewrite !lookup_insert_eq. simpl. apply prefix_nil.
    + unfold traffic, log_of in *. simpl. rewrite !lookup_insert_ne by done. apply Hp.
Qed.

Lemma net_send_ok s fd bs : net_ok s -> net_ok (with_view s (v_accepted fd bs (nt_view s))).
Proof.
  intros [Hn Ho Hp]. split; [done|done|]. intros fd'. cbn [nt_view with_view]. destruct (decide (fd' = fd)) as [->|Hne].
  - destruct (spoke_accepted fd bs (nt_view s)) as [_ T _]. rewrite T. cbn [fst snd]. rewrite app_nil_r.
    etransitivity; [apply Hp|]. apply peer_mono.
  - destruct (spoke_accepted fd bs (nt_view s)) as [_ _ Q]. by rewrite Q.
Qed.

Lemma net_recv_ok s fd n : net_ok s -> net_ok (with_view s (v_received fd (take n (waiting s fd)) (nt_view s))).
Proof.
  intros [Hn Ho Hp]. split; [done|done|]. intros fd'. cbn [nt_view with_view]. destruct (decide (fd' = fd)) as [->|Hne].
  - destruct (spoke_received fd (take n (waiting s fd)) (nt_view s)) as [_ T _]. rewrite T. cbn [fst snd].
    rewrite app_nil_r. unfold waiting. destruct (Hp fd) as [rest ->]. rewrite drop_app_length.
    apply prefix_app. by exists (drop n rest); rewrite take_drop.
  - destruct (spoke_received fd (take n (waiting s fd)) (nt_view s)) as [_ _ Q]. by rewrite Q.
Qed.

Lemma net_close_ok s fd : net_ok s -> net_ok (with_view s (v_closed fd (nt_view s))).
Proof.
  intros [Hn Ho Hp]. split; [done| |done]. intros fd' Hin. apply elem_of_difference in Hin as [Hin _]. by apply Ho.
Qed.

Lemma net_tick_ok s : net_ok s -> net_ok (net_tick s).
Proof. by intros [Hn Ho Hp]. Qed.

#[global] Instance net_os : Os := {|
  ost := { s : net | net_ok s };
  os_socket s := (Done (nt_next (proj1_sig s)), exist _ (net_open (proj1_sig s)) (net_open_ok _ (proj2_sig s)));
  os_connect fd s := (match peer_connect with None => Done tt | Some e => Fail e end, s);
  os_send fd bs s :=
    let n := takes (proj1_sig s) fd (zlen bs) in
    if n <? 0 then (Fail EAGAIN, s)
    else if bool_decide (n = 0 /\ bs <> []) then (Fail EAGAIN, s)
    else (Done n, exist _ _ (net_send_ok _ fd (take (Z.to_nat n) bs) (proj2_sig s)));
  os_recv fd len s :=
    let bs := take (Z.to_nat len) (waiting (proj1_sig s) fd) in
    if bool_decide (bs = []) then (Fail EAGAIN, s)
    else (Done bs, exist _ _ (net_recv_ok _ fd (Z.to_nat len) (proj2_sig s)));
  os_getfl fd s := (Done 0, s);
  os_setfl fd fl s := (Done tt, s);
  os_hangs fd s := false;
  os_close fd s := (Done tt, exist _ _ (net_close_ok _ fd (proj2_sig s)));
  os_epoll_create1 s := (Done (nt_next (proj1_sig s)), exist _ (net_open (proj1_sig s)) (net_open_ok _ (proj2_sig s)));
  os_epoll_ctl ep op fd s := (Done tt, s);
  os_epoll_wait ep n t s :=
    (Done ((fun i => (Z.lor EPOLLIN EPOLLOUT, Z.of_nat i)) <$> seq 0 (Z.to_nat (nt_clients (proj1_sig s)))),
     exist _ _ (net_tick_ok _ (proj2_sig s)));
  os_so_error fd s := (Done 0, s);
  os_sleep t s := (Done 0, exist _ _ (net_tick_ok _ (proj2_sig s)));
  os_stop s := bool_decide (nt_left (proj1_sig s) = 0%nat);
  os_expired s := bool_decide (nt_left (proj1_sig s) = 0%nat)
|}.

#[global, refine] Instance net_laws : OsLaws := {| os_view s := nt_view (proj1_sig s) |}.
Proof.
  - intros [s Hs] fd Hin. apply Hs in Hin. lia.
  - intros [s Hs]. simpl. split; [|done]. intros Hin. apply Hs in Hin. lia.
  - done.
  - intros [s Hs] fd bs. cbn [os_send net_os proj1_sig]. destruct (Z.ltb_spec (takes s fd (zlen bs)) 0) as [|Hn]; [done|].
    case_bool_decide; [done|]. split; [|done]. split; [done|]. unfold takes. destruct peer_room; lia.
  - intros [s Hs] fd len. cbn [os_recv net_os proj1_sig].
    case_bool_decide; [done|]. split_and!.
    + apply Forall_take, Forall_drop, peer_bytes.
    + unfold zlen. rewrite length_take. lia.
    + done.
  - done.
  - done.
  - done.
  - intros [s Hs]. simpl. split; [|done]. intros Hin. apply Hs in Hin. lia.
  - done.
  - done.
  - done.
  - done.
Defined.

Lemma net_undisturbed : undisturbed.
Proof.
  split_and!; [..|done]; intros fd ? s; cbn [os_send os_recv net_os]; [destruct (_ <? 0); [done|]|]; by case_bool_decide.
Qed.

(** Only the three standard descriptors are open; for [clients] clients and [left]
    rounds. *)
Definition net_start (clients : Z) (left : nat) : net := Net (KView {[0; 1; 2]} ∅ ∅ ∅) 3 clients left.

Lemma net_start_ok clients left : net_ok (net_start clients left).
Proof.
  split; [done| |intros fd; apply prefix_nil]. intros fd. cbn [net_start nt_view v_open nt_next].
  rewrite !elem_of_union, !elem_of_singleton. lia.
Qed.

(** Its clock. *)
Definition net_clock (s : ost) : nat := nt_left (proj1_sig s).

Lemma net_clock_ok : clock net_clock.
Proof.
  split; try done.
  - intros fd bs s. cbn [os_send net_os]. destruct (_ <? 0); [done|]. by case_bool_decide.
  - intros fd len s. cbn [os_recv net_os]. by case_bool_decide.
  - intros [s Hs] E. cbn [os_expired net_os]. by apply bool_decide_eq_true.
Qed.

Definition lab (clients : Z) (rounds : nat) : ost := exist _ _ (net_start_ok clients rounds).
End Net.

(** What a program returned. *)
Definition returned {A B} (o : outcome (A * B)) : option A := match o with Ok (x, _) => Some x | _ => None end.

Lemma safe_returned `{Os} {A B} (m : prog A) Q s (f : A -> B) y :
  safe m Q s -> f <$> returned (m s) = Some y -> exists x s', Q x s' /\ f x = y.
Proof. unfold safe. destruct (m s) as [[x s']| |]; [|done..]. intros Hs [= E]. by exists x, s'. Qed.
