(* ===== verification/Echo.v ===== *)
(** * Echo: clients that count PONGs

    tests/throughput_pingpong.c and tests/packet_throughput.c both wait for PONGs:
    the first sends PINGs and counts each PONG that comes back, the second sends
    sequences that end with a PING and takes its PONG as the confirmation of the
    whole.  Their [client_t] differ in the names of the fields, their functions
    that receive only in what a PONG does to the counters; this is the class
    [Echo].  The code below has the lines of throughput_pingpong.c.

    [books] ties the counters of a client to the bytes on its connection: what was
    sent is CONNECT and one [unit] for each completed and each outstanding message,
    and perhaps a part of one after a send that failed; what was received is the
    acknowledgement, one PONG for each completed message and each surplus one, and
    the bytes in [rx].  [honest] is the contract with the peer, [entry_ok] the
    account of an entry of the table for the frame in Bench, before and after it
    is closed. *)

From S2P Require Import Prelude Core Packet World SocketUtils Client Bench.
#[local] Open Scope Z_scope.

Definition RX_BUFFER_SIZE : Z := 4096.

(** [cl_outstanding] and [cl_completed] are [awaiting_marker] and
    [confirmed_packets] in packet_throughput.c. *)
Record client_t := Client {
  cl_fd : Z;
  cl_outstanding : Z;
  cl_rx : list Z;
  cl_rx_len : Z;
  cl_completed : Z;
  cl_errors : Z;
  cl_alive : bool
}.

Definition zeroed_rx : list Z := replicate (Z.to_nat RX_BUFFER_SIZE) 0.

(** [memset(client, 0, sizeof( *client)); client->fd = fd; client->alive = 1;] *)
Definition new_client (fd : Z) : client_t :=
  Client fd 0 zeroed_rx 0 0 0 true.

(** [calloc] and [fd = -1] *)
Definition no_client : client_t :=
  Client (-1) 0 zeroed_rx 0 0 0 false.

(** [client->errors++] *)
Definition bump_errors (cl : client_t) : client_t :=
  Client (cl_fd cl) (cl_outstanding cl) (cl_rx cl) (cl_rx_len cl) (cl_completed cl)
    (u64 (cl_errors cl + 1)) (cl_alive cl).

Definition set_alive (cl : client_t) (fd : Z) (alive : bool) : client_t :=
  Client fd (cl_outstanding cl) (cl_rx cl) (cl_rx_len cl) (cl_completed cl) (cl_errors cl) alive.

Definition set_rx (cl : client_t) (rx : list Z) (rx_len : Z) : client_t :=
  Client (cl_fd cl) (cl_outstanding cl) rx rx_len (cl_completed cl) (cl_errors cl) (cl_alive cl).

(** What a PONG that was due does to [cl_outstanding] and to [cl_completed]. *)
Class Echo := { paid : Z -> Z; tick : Z -> Z }.

Definition pong_received `{Echo} (cl : client_t) : client_t :=
  Client (cl_fd cl) (paid (cl_outstanding cl)) (cl_rx cl) (cl_rx_len cl) (tick (cl_completed cl))
    (cl_errors cl) (cl_alive cl).

(** The loop of [process_pongs], and its result [completed]. *)
Fixpoint process_pongs `{Echo} (fuel : nat) (client : client_t) (completed : Z) : outcome (client_t * Z) :=
  if HEADER_SIZE <=? cl_rx_len client then
    match fuel with
    | O => NoFuel
    | S fuel =>
        let packet := cl_rx client in
        magic ← be16 packet 0;
        version ← load packet 2;
        type ← load packet 3;
        stream_id ← load packet 4;
        flags ← load packet 5;
        payload_len ← be16 packet 6;
        if negb (magic =? VR_MAGIC) || negb (version =? VR_PROTOCOL_VERSION) ||
           negb (type =? pkt_int VR_PKT_PONG) || negb (stream_id =? 0) || negb (flags =? 0) ||
           negb (payload_len =? 0)
        then Ok (bump_errors client, completed)
        else
          rest ← slice packet HEADER_SIZE (cl_rx_len client - HEADER_SIZE);
          rx ← splice packet 0 rest;
          let client := set_rx client rx (cl_rx_len client - HEADER_SIZE) in
          if cl_outstanding client =? 0 then process_pongs fuel (bump_errors client) completed
          else process_pongs fuel (pong_received client) (u64 (completed + 1))
    end
  else Ok (client, completed).

Section Code.
Context `{Os} `{Echo}.

(** [drain_reads]: [true] unless it returns -1; the client and [*completed]. *)
Fixpoint drain_reads (fuel : nat) (client : client_t) (completed : Z) : prog (bool * client_t * Z) :=
  if cl_alive client then
    match fuel with
    | O => too_long
    | S fuel =>
        if cl_rx_len client =? RX_BUFFER_SIZE then mret (false, bump_errors client, completed)
        else
          n ← sys (os_recv (cl_fd client) (RX_BUFFER_SIZE - cl_rx_len client));
          match n with
          | Done [] => mret (false, set_alive client (cl_fd client) false, completed)
          | Done bs =>
              rx ← pure (splice (cl_rx client) (cl_rx_len client) bs);
              let client := set_rx client rx (cl_rx_len client + zlen bs) in
              '(client, n) ← pure (process_pongs (Z.to_nat (cl_rx_len client)) client 0);
              drain_reads fuel client (u64 (completed + n))
          | Fail e =>
              if e =? EINTR then drain_reads fuel client completed
              else if would_block e then mret (true, client, completed)
              else mret (false, bump_errors client, completed)
          end
    end
  else mret (false, client, completed).
(** [client->alive = 0; epoll_ctl(DEL); close(client->fd); client->fd = -1;] *)
Definition drop_client (epfd : Z) (client : client_t) : prog client_t :=
  _ ← sys (os_epoll_ctl epfd Epoll_del (cl_fd client));
  _ ← sys (os_close (cl_fd client));
  mret (set_alive client (-1) false).

End Code.

(** ** One client *)

Definition pong_bytes : list Z := header_bytes (client_header (pkt_int VR_PKT_PONG) 0).

(** The bytes received and not yet consumed. *)
Definition pending (cl : client_t) : list Z := take (Z.to_nat (cl_rx_len cl)) (cl_rx cl).

Record rx_ok (cl : client_t) : Prop := {
  rx_size : zlen (cl_rx cl) = RX_BUFFER_SIZE;
  rx_bytes : Forall is_byte (cl_rx cl);
  rx_range : 0 <= cl_rx_len cl <= RX_BUFFER_SIZE
}.

(** What the two programs make of their counters: [units] is the number of messages
    [cl_outstanding] stands for, [score] relates [cl_completed] to the number of
    messages completed. *)
Class EchoLaws `{Echo} := {
  units : Z -> nat;
  due_ok : Z -> Prop;
  score : Z -> nat -> Prop;
  law_none : due_ok 0 /\ units 0 = 0%nat;
  law_paid d : due_ok d -> d <> 0 -> due_ok (paid d) /\ units d = S (units (paid d));
  law_score : score 0 0;
  law_tick c n : score c n -> score (tick c) (S n)
}.

Section Process.
Context {Ech : Echo} {Ecl : EchoLaws}.

(** From [cl] to [cl']: [k] messages completed, [j] surplus PONGs, [e] errors. *)
Record pongs (cl cl' : client_t) (k j e : nat) : Prop := {
  po_fd : cl_fd cl' = cl_fd cl;
  po_alive : cl_alive cl' = cl_alive cl;
  po_outstanding : units (cl_outstanding cl) = (units (cl_outstanding cl') + k)%nat;
  po_due : due_ok (cl_outstanding cl');
  po_completed n : score (cl_completed cl) n -> score (cl_completed cl') (n + k);
  po_errors : counted (cl_errors cl) (cl_errors cl') e;
  po_surplus : (j <= e)%nat;
  po_rx : rx_ok cl';
  po_bytes : pending cl = times (k + j) pong_bytes ++ pending cl'
}.

Lemma pongs_trans cl1 cl2 cl3 k1 k2 j1 j2 e1 e2 :
  pongs cl1 cl2 k1 j1 e1 -> pongs cl2 cl3 k2 j2 e2 -> pongs cl1 cl3 (k1 + k2) (j1 + j2) (e1 + e2).
Proof.
  intros [] []. split; try congruence; [lia| |by eapply counted_trans|lia|].
  - intros n Hn. rewrite Nat.add_assoc. auto.
  - rewrite po_bytes0, po_bytes1, app_assoc, <-times_add. do 2 f_equal. lia.
Qed.

Lemma score_0 c n : score c n -> score c (n + 0).
Proof. by rewrite Nat.add_0_r. Qed.

Lemma pongs_refl cl : rx_ok cl -> due_ok (cl_outstanding cl) -> pongs cl cl 0 0 0.
Proof. intros Hrx Ho. split; [done|done|lia|done|apply score_0|apply counted_0|lia|done|done]. Qed.

Lemma pongs_error cl : rx_ok cl -> due_ok (cl_outstanding cl) -> pongs cl (bump_errors cl) 0 0 1.
Proof.
  intros [] Ho. split; [done|done|simpl; lia|done|apply score_0|apply counted_1|lia|done|done].
Qed.

(** Eight bytes that pass the tests are a PONG. *)
Lemma pong_checks b0 b1 b2 b3 b4 b5 b6 b7 :
  Forall is_byte [b0; b1; b2; b3; b4; b5; b6; b7] ->
  negb (b0 * 256 + b1 =? VR_MAGIC) || negb (b2 =? VR_PROTOCOL_VERSION) ||
    negb (b3 =? pkt_int VR_PKT_PONG) || negb (b4 =? 0) || negb (b5 =? 0) || negb (b6 * 256 + b7 =? 0)
  = negb (bool_decide ([b0; b1; b2; b3; b4; b5; b6; b7] = pong_bytes)).
Proof.
  rewrite !Forall_cons. intros (H0 & H1 & _ & _ & _ & _ & H6 & H7 & _). rewrite <-!negb_andb. f_equal.
  apply Bool.eq_true_iff_eq. rewrite bool_decide_eq_true, !andb_true_iff, !Z.eqb_eq. cbn. split.
  - intros [[[[[Hm ->] ->] ->] ->] Hp]. destruct (bytes_magic b0 b1 H0 H1 Hm) as [-> ->].
    unfold is_byte in *. by replace b6 with 0 by lia; replace b7 with 0 by lia.
  - by intros [= -> -> -> -> -> -> -> ->].
Qed.

(** [rx] without its first packet. *)
Definition consume (cl : client_t) : client_t :=
  let rest := take (Z.to_nat (cl_rx_len cl - 8)) (drop 8 (cl_rx cl)) in
  set_rx cl (rest ++ drop (length rest) (cl_rx cl)) (cl_rx_len cl - 8).

Lemma consume_ok cl :
  rx_ok cl -> 8 <= cl_rx_len cl -> rx_ok (consume cl) /\ pending cl = take 8 (cl_rx cl) ++ pending (consume cl).
Proof.
  intros [Hs Hb Hr] H8. unfold RX_BUFFER_SIZE, zlen in *.
  set (rest := take (Z.to_nat (cl_rx_len cl - 8)) (drop 8 (cl_rx cl))).
  assert (Hl : length rest = Z.to_nat (cl_rx_len cl - 8)).
  { unfold rest. rewrite length_take, length_drop. lia. }
  split.
  - split; cbn [cl_rx cl_rx_len consume set_rx]; fold rest; unfold RX_BUFFER_SIZE, zlen.
    + rewrite length_app, length_drop. lia.
    + apply Forall_app. split; [by apply Forall_take, Forall_drop|by apply Forall_drop].
    + lia.
  - unfold pending. cbn [cl_rx cl_rx_len consume set_rx]. fold rest.
    rewrite <-Hl, take_app_length. unfold rest. rewrite take_drop_commute.
    replace (8 + Z.to_nat (cl_rx_len cl - 8))%nat with (Z.to_nat (cl_rx_len cl)) by lia.
    rewrite <-(take_drop 8 (take (Z.to_nat (cl_rx_len cl)) (cl_rx cl))) at 1.
    by rewrite take_take, Nat.min_l by lia.
Qed.

Lemma process_pongs_step fuel cl n :
  rx_ok cl -> 8 <= cl_rx_len cl ->
  process_pongs (S fuel) cl n =
    if bool_decide (take 8 (cl_rx cl) = pong_bytes)
    then if cl_outstanding cl =? 0 then process_pongs fuel (bump_errors (consume cl)) n
         else process_pongs fuel (pong_received (consume cl)) (u64 (n + 1))
    else Ok (bump_errors cl, n).
Proof.
  intros [Hs Hb Hr] H8. unfold RX_BUFFER_SIZE, zlen in *. cbn [process_pongs].
  rewrite (proj2 (Z.leb_le HEADER_SIZE _)) by done.
  assert (Hsl : slice (cl_rx cl) HEADER_SIZE (cl_rx_len cl - HEADER_SIZE)
                = Ok (take (Z.to_nat (cl_rx_len cl - 8)) (drop 8 (cl_rx cl)))).
  { apply slice_ok; unfold HEADER_SIZE, zlen; lia. }
  rewrite Hsl. clear Hsl.
  set (rest := take (Z.to_nat (cl_rx_len cl - 8)) (drop 8 (cl_rx cl))).
  assert (Hl : length rest = Z.to_nat (cl_rx_len cl - 8)).
  { unfold rest. rewrite length_take, length_drop. lia. }
  assert (Hsp : splice (cl_rx cl) 0 rest = Ok (rest ++ drop (length rest) (cl_rx cl))).
  { by rewrite splice_ok by (unfold zlen; lia). }
  destruct (eight_bytes (take 8 (cl_rx cl))) as (b0 & b1 & b2 & b3 & b4 & b5 & b6 & b7 & E8).
  { rewrite length_take. lia. }
  assert (Hb8 : Forall is_byte [b0; b1; b2; b3; b4; b5; b6; b7]) by (rewrite <-E8; by apply Forall_take).
  rewrite E8. assert (Hld : forall i b, [b0; b1; b2; b3; b4; b5; b6; b7] !! Z.to_nat i = Some b -> 0 <= i ->
    load (cl_rx cl) i = Ok b).
  { intros i b Hi Hi0. apply load_ok; [done|]. rewrite <-(take_drop 8 (cl_rx cl)), E8. by apply lookup_app_l_Some. }
  pose proof Hb8 as Hb8'. rewrite !Forall_cons in Hb8'. destruct Hb8' as (H0 & H1 & _ & _ & _ & _ & H6 & H7 & _).
  rewrite (be16_bytes b0 b1 _ 0), (Hld 2 b2), (Hld 3 b3), (Hld 4 b4), (Hld 5 b5), (be16_bytes b6 b7 _ 6) by first [done | apply Hld; [done|lia]].
  ostep. rewrite pong_checks by done. destruct (bool_decide _); cbn [negb]; [|done].
  rewrite Hsp. ostep. done.
Qed.

Lemma prefix_times (bs : list Z) m :
  bs `prefix_of` times m pong_bytes -> (8 <= length bs)%nat ->
  exists m', m = S m' /\ take 8 bs = pong_bytes /\ drop 8 bs `prefix_of` times m' pong_bytes.
Proof.
  intros [k Hk] Hl. destruct m as [|m].
  - apply (f_equal length) in Hk. rewrite length_app in Hk. simpl in Hk. lia.
  - exists m. rewrite times_S in Hk. rewrite <-(take_drop 8 bs), <-app_assoc in Hk.
    apply app_inj_1 in Hk as [Ht Hd]; [|rewrite length_take, Nat.min_l by done; reflexivity].
    split_and!; [done|done|by exists k].
Qed.

Lemma pongs_surplus cl :
  rx_ok cl -> 8 <= cl_rx_len cl -> take 8 (cl_rx cl) = pong_bytes -> due_ok (cl_outstanding cl) ->
  pongs cl (bump_errors (consume cl)) 0 1 1.
Proof.
  intros Hrx H8 Hp Ho. destruct (consume_ok cl Hrx H8) as [[] Hb]. rewrite Hp in Hb.
  split; [done|done|simpl; lia|done|apply score_0|apply counted_1|lia|done|done].
Qed.

Lemma pongs_due cl :
  rx_ok cl -> 8 <= cl_rx_len cl -> take 8 (cl_rx cl) = pong_bytes -> due_ok (cl_outstanding cl) ->
  cl_outstanding cl <> 0 -> pongs cl (pong_received (consume cl)) 1 0 0.
Proof.
  intros Hrx H8 Hp Ho Hne. destruct (consume_ok cl Hrx H8) as [[] Hb]. rewrite Hp in Hb.
  destruct (law_paid _ Ho Hne) as [Hd Hu]. split; [done|done|simpl; lia|done| |apply counted_0|lia|done|done].
  intros n. rewrite Nat.add_1_r. apply law_tick.
Qed.

(** [process_pongs] returns, never reads outside [rx], and accounts for every
    packet it consumes; to PONGs that were due it finds no error. *)
Lemma process_pongs_spec fuel cl n :
  rx_ok cl -> due_ok (cl_outstanding cl) -> (Z.to_nat (cl_rx_len cl) <= fuel)%nat ->
  exists cl' n' k j e, process_pongs fuel cl n = Ok (cl', n') /\ pongs cl cl' k j e /\ counted n n' k /\
    (forall m, pending cl `prefix_of` times m pong_bytes -> (m <= units (cl_outstanding cl))%nat ->
       e = 0%nat /\ cl_rx_len cl' < 8).
Proof.
  revert cl n. induction fuel as [|fuel IH]; intros cl n Hrx Ho Hf; pose proof (rx_range _ Hrx) as Hr;
    pose proof (rx_size _ Hrx) as Hsz; unfold RX_BUFFER_SIZE in *.
  { cbn [process_pongs]. rewrite (proj2 (Z.leb_gt HEADER_SIZE _)) by (unfold HEADER_SIZE; lia).
    exists cl, n, 0%nat, 0%nat, 0%nat. split_and!; [done|by apply pongs_refl|apply counted_0|].
    intros. split; [done|lia]. }
  destruct (Z.le_gt_cases 8 (cl_rx_len cl)) as [H8|H8].
  2:{ cbn [process_pongs]. rewrite (proj2 (Z.leb_gt HEADER_SIZE _)) by done.
      exists cl, n, 0%nat, 0%nat, 0%nat. split_and!; [done|by apply pongs_refl|apply counted_0|done]. }
  rewrite process_pongs_step by done. destruct (consume_ok cl Hrx H8) as [Hrx' Hp].
  case_bool_decide as Hpong.
  2:{ exists (bump_errors cl), n, 0%nat, 0%nat, 1%nat.
      split_and!; [done|by apply pongs_error|apply counted_0|]. intros m Hm _. exfalso.
      destruct (prefix_times _ _ Hm) as (m' & _ & Ht & _); [|].
      - rewrite Hp, length_app, length_take. unfold zlen in *. lia.
      - apply Hpong. rewrite <-Ht. unfold pending. rewrite take_take. f_equal. lia. }
  destruct (Z.eqb_spec (cl_outstanding cl) 0) as [Hz|Hz].
  - pose proof (pongs_surplus cl Hrx H8 Hpong Ho) as Hst.
    destruct (IH (bump_errors (consume cl)) n) as (cl' & n' & k & j & e & E & Hpo & Hc & _);
      [exact (po_rx _ _ _ _ _ Hst)|done|simpl; lia|].
    exists cl', n', (0 + k)%nat, (1 + j)%nat, (1 + e)%nat.
    split_and!; [done|by eapply pongs_trans|done|]. intros m Hm Hmo. exfalso.
    destruct (prefix_times _ _ Hm) as (m' & -> & _); [|rewrite Hz, (proj2 law_none) in Hmo; lia].
    rewrite Hp, Hpong, length_app. simpl. lia.
  - pose proof (pongs_due cl Hrx H8 Hpong Ho Hz) as Hst. destruct (law_paid _ Ho Hz) as [Hd Hu].
    destruct (IH (pong_received (consume cl)) (u64 (n + 1))) as (cl' & n' & k & j & e & E & Hpo & Hc & Hh);
      [exact (po_rx _ _ _ _ _ Hst)|done|simpl; lia|].
    exists cl', n', (1 + k)%nat, (0 + j)%nat, (0 + e)%nat.
    split_and!; [done|by eapply pongs_trans|eapply counted_trans; [apply counted_1|done]|].
    intros m Hm Hmo. destruct (prefix_times _ _ Hm) as (m' & -> & _ & Hde).
    { rewrite Hp, Hpong, length_app. simpl. lia. }
    rewrite Hp, Hpong in Hde. apply (Hh m'); [exact Hde|]. simpl. lia.
Qed.
End Process.

Section Specs.
Context `{OsLaws} {Ech : Echo} {Ecl : EchoLaws} (unit : list Z).

(** What a client may rely on: once CONNECT is acknowledged, each unit is answered
    with at most one PONG and nothing else is sent. *)
Definition honest : Prop := forall s fd n rest,
  (traffic (os_view s) fd).2 = CONNECT_BYTES ++ times n unit ->
  (traffic (os_view s) fd).1 = ack_bytes ++ rest ->
  exists m, (m <= n)%nat /\ rest `prefix_of` times m pong_bytes.

(** The books of a client connected through [h]: [n] messages completed, [j] surplus
    PONGs, [e] errors, [part] of a unit sent. *)
Record books (v : kview) (h : Z) (cl : client_t) (n j e : nat) (part : list Z) : Prop := {
  bo_score : score (cl_completed cl) n;
  bo_errors : cl_errors cl = u64 (Z.of_nat e);
  bo_surplus : (j <= e)%nat;
  bo_sent : (traffic v h).2 = CONNECT_BYTES ++ times (n + units (cl_outstanding cl)) unit ++ part;
  bo_rcvd : (traffic v h).1 = ack_bytes ++ times (n + j) pong_bytes ++ pending cl;
  bo_part : part `prefix_of` unit
}.

(** At any time, and while the client is alive. *)
Definition kept (v : kview) (h : Z) (cl : client_t) (n : nat) : Prop := exists j e part, books v h cl n j e part.

Definition live (v : kview) (h : Z) (cl : client_t) (n : nat) : Prop :=
  exists j e, books v h cl n j e [] /\ (honest -> e = 0%nat /\ cl_rx_len cl < 8).

Lemma live_kept v h cl n : live v h cl n -> kept v h cl n.
Proof. intros (j & e & Hb & _). by exists j, e, []. Qed.

Definition shell (cl : client_t) : Prop := rx_ok cl /\ due_ok (cl_outstanding cl).

Lemma shell_error cl : shell cl -> shell (bump_errors cl).
Proof. by intros [[] ?]. Qed.

Lemma shell_alive cl fd alive : shell cl -> shell (set_alive cl fd alive).
Proof. by intros [[] ?]. Qed.

(** From [cl] to [cl'] through its own descriptor, which stays open. *)
Record touched (v v' : kview) (cl cl' : client_t) : Prop := {
  to_quiet : quiet (cl_fd cl) v v';
  to_open : v_open v' = v_open v;
  to_fd : cl_fd cl' = cl_fd cl;
  to_shell : shell cl'
}.

Lemma touched_refl v cl : shell cl -> touched v v cl cl.
Proof. intros Hs. by split. Qed.

Lemma touched_trans v1 v2 v3 cl1 cl2 cl3 :
  touched v1 v2 cl1 cl2 -> touched v2 v3 cl2 cl3 -> touched v1 v3 cl1 cl3.
Proof.
  intros [Q1 O1 F1 S1] [Q2 O2 F2 S2]. rewrite F1 in Q2. split; [by eapply quiet_trans|congruence|congruence|done].
Qed.

Lemma touched_spoke v v' cl cl' out inp :
  spoke (cl_fd cl) out inp v v' -> cl_fd cl' = cl_fd cl -> shell cl' -> touched v v' cl cl'.
Proof. intros [O T Q] Hf Hs. by split. Qed.

Lemma counted_error cl e : cl_errors cl = u64 (Z.of_nat e) -> cl_errors (bump_errors cl) = u64 (Z.of_nat (e + 1)).
Proof. apply counted_1. Qed.

(** Errors and the flag do not matter to the books. *)
Lemma kept_error v h cl n : kept v h cl n -> kept v h (bump_errors cl) n.
Proof.
  intros (j & e & part & []). exists j, (e + 1)%nat, part. split; try done; [by apply counted_error|lia].
Qed.

Lemma kept_alive v h cl fd alive n : kept v h cl n -> kept v h (set_alive cl fd alive) n.
Proof. intros (j & e & part & []). by exists j, e, part. Qed.

Lemma books_frame v v' h cl n j e part :
  books v h cl n j e part -> traffic v' h = traffic v h -> books v' h cl n j e part.
Proof. intros [] E. by split; rewrite ?E. Qed.

Lemma kept_frame v v' h cl n : kept v h cl n -> traffic v' h = traffic v h -> kept v' h cl n.
Proof. intros (j & e & part & Hb) E. exists j, e, part. by eapply books_frame. Qed.

Lemma live_frame v v' h cl n : live v h cl n -> traffic v' h = traffic v h -> live v' h cl n.
Proof. intros (j & e & Hb & Hh) E. exists j, e. split; [by eapply books_frame|done]. Qed.

(** A part of a unit was sent. *)
Lemma kept_part v v' h cl n part :
  live v h cl n -> part `prefix_of` unit -> spoke h part [] v v' -> kept v' h cl n.
Proof.
  intros (j & e & [] & _) Hp [_ T _]. exists j, e, part. split; try done; rewrite T; cbn [fst snd].
  - by rewrite bo_sent0, <-!(assoc_L (++)).
  - by rewrite app_nil_r.
Qed.

(** A whole unit was sent, and noted. *)
Lemma live_sent v v' h cl cl' n :
  live v h cl n -> spoke h unit [] v v' -> units (cl_outstanding cl') = S (units (cl_outstanding cl)) ->
  cl_completed cl' = cl_completed cl -> cl_errors cl' = cl_errors cl -> cl_rx cl' = cl_rx cl -> cl_rx_len cl' = cl_rx_len cl ->
  live v' h cl' n.
Proof.
  intros (j & e & [] & Hh) [_ T _] Hu Ec Ee Er El. exists j, e. rewrite El. split; [|done].
  split; [by rewrite Ec|by rewrite Ee|done| | |apply prefix_nil]; rewrite T; cbn [fst snd].
  - rewrite bo_sent0, Hu, !app_nil_r, <-app_assoc, <-times_snoc. do 2 f_equal. lia.
  - unfold pending in *. by rewrite Er, El, app_nil_r.
Qed.

Lemma pongs_length n : length (times n pong_bytes) = (8 * n)%nat.
Proof. pose proof (times_zlen n pong_bytes) as Hz. change (zlen pong_bytes) with 8 in Hz. unfold zlen in Hz. lia. Qed.

(** The packets of an honest peer that have not been counted yet are due. *)
Lemma honest_due s fd n k bs :
  honest -> (traffic (os_view s) fd).2 = CONNECT_BYTES ++ times (n + k) unit ->
  (traffic (os_view s) fd).1 = ack_bytes ++ times n pong_bytes ++ bs ->
  exists m, (m <= k)%nat /\ bs `prefix_of` times m pong_bytes.
Proof.
  intros Hh Hs Hr. destruct (Hh s fd _ _ Hs Hr) as (m & Hm & Hp). pose proof (prefix_length _ _ Hp) as Hl.
  rewrite length_app, !pongs_length in Hl.
  exists (m - n)%nat. split; [lia|]. replace m with (n + (m - n))%nat in Hp by lia.
  rewrite times_add in Hp. by apply prefix_app_inv in Hp.
Qed.

(** Bytes arrive behind the pending ones. *)
Lemma pending_received cl rx bs :
  rx_ok cl -> zlen bs <= RX_BUFFER_SIZE - cl_rx_len cl -> Forall is_byte bs ->
  splice (cl_rx cl) (cl_rx_len cl) bs = Ok rx ->
  let cl' := set_rx cl rx (cl_rx_len cl + zlen bs) in rx_ok cl' /\ pending cl' = pending cl ++ bs.
Proof.
  intros [Hs Hb Hr] Hl Hbs E cl'. rewrite splice_ok in E by lia. injection E as <-. unfold zlen in *.
  assert (Ht : length (take (Z.to_nat (cl_rx_len cl)) (cl_rx cl)) = Z.to_nat (cl_rx_len cl)).
  { rewrite length_take. lia. }
  split; [split; simpl; unfold zlen|].
  - rewrite !length_app, length_drop, Ht. lia.
  - apply Forall_app; split; [by apply Forall_take|]. apply Forall_app; split; [done|by apply Forall_drop].
  - lia.
  - unfold pending. simpl. rewrite (assoc_L (++)), take_app_le by (rewrite length_app; lia).
    apply take_ge. rewrite length_app. lia.
Qed.

Lemma live_processed s h cl1 cl2 n j e k j' e' :
  books (os_view s) h cl1 n j e [] -> (honest -> e = 0%nat) -> pongs cl1 cl2 k j' e' ->
  (forall m, pending cl1 `prefix_of` times m pong_bytes -> (m <= units (cl_outstanding cl1))%nat ->
     e' = 0%nat /\ cl_rx_len cl2 < 8) ->
  live (os_view s) h cl2 (n + k).
Proof.
  intros [] Hh0 [F A O1 O2 C E S R B] Hdue. rewrite app_nil_r in bo_sent0. exists (j + j')%nat, (e + e')%nat. split; [split|].
  - by apply C.
  - by apply E.
  - lia.
  - rewrite bo_sent0, app_nil_r. do 2 f_equal. lia.
  - rewrite bo_rcvd0, B, (assoc_L (++) (times _ _)), <-times_add. do 3 f_equal. lia.
  - apply prefix_nil.
  - intros Hh. specialize (Hh0 Hh) as ->. assert (j = 0%nat) as -> by lia. rewrite Nat.add_0_r in bo_rcvd0.
    destruct (honest_due s _ n _ _ Hh bo_sent0 bo_rcvd0) as (m & Hm & Hp). apply (Hdue m); [done|lia].
Qed.

(** A delivery: the bytes are stored and the packets processed. *)
Lemma delivered s s1 cl bs n :
  live (os_view s) (cl_fd cl) cl n -> shell cl -> zlen bs <= RX_BUFFER_SIZE - cl_rx_len cl -> Forall is_byte bs ->
  spoke (cl_fd cl) [] bs (os_view s) (os_view s1) ->
  exists rx, splice (cl_rx cl) (cl_rx_len cl) bs = Ok rx /\
    let cl1 := set_rx cl rx (cl_rx_len cl + zlen bs) in
    exists cl2 k, process_pongs (Z.to_nat (cl_rx_len cl1)) cl1 0 = Ok (cl2, u64 (Z.of_nat k)) /\
      touched (os_view s) (os_view s1) cl cl2 /\ cl_alive cl2 = cl_alive cl /\
      live (os_view s1) (cl_fd cl) cl2 (n + k).
Proof.
  intros (j & e & [] & Hh) [Hrx Hout] Hl Hb Hsp. pose proof Hsp as [O T Q].
  pose proof (rx_range _ Hrx) as Hrange. pose proof (rx_size _ Hrx) as Hsize.
  destruct (splice (cl_rx cl) (cl_rx_len cl) bs) as [rx| |] eqn:Esp;
    [|rewrite splice_ok in Esp; [done|lia..]..].
  exists rx. split; [done|]. destruct (pending_received cl rx bs Hrx Hl Hb Esp) as [Hrx1 Hpend].
  cbv zeta in *. set (cl1 := set_rx cl rx _) in *.
  destruct (process_pongs_spec (Z.to_nat (cl_rx_len cl1)) cl1 0) as (cl2 & n2 & k & j' & e' & Ep & Hpo & Hc2 & Hdue);
    [done|done|done|].
  exists cl2, k. specialize (Hc2 0%nat eq_refl). simpl in Hc2. subst n2. split_and!; [done| |exact (po_alive _ _ _ _ _ Hpo)|].
  - eapply touched_spoke; [done|exact (po_fd _ _ _ _ _ Hpo)|]. split; [exact (po_rx _ _ _ _ _ Hpo)|exact (po_due _ _ _ _ _ Hpo)].
  - apply (live_processed s1 _ cl1 cl2 n j e k j' e'); try done; [|by intros Hn; destruct (Hh Hn)].
    split; try done; rewrite T; cbn [fst snd].
    + by rewrite app_nil_r.
    + rewrite Hpend, bo_rcvd0. by rewrite <-!(assoc_L (++)).
Qed.

Lemma reads_spec fuel cl completed n s :
  cl_alive cl = true -> live (os_view s) (cl_fd cl) cl n -> shell cl ->
  safe (drain_reads fuel cl completed) (fun r s' => let '(ok, cl', completed') := r in
    exists k, touched (os_view s) (os_view s') cl cl' /\ counted completed completed' k /\
      kept (os_view s') (cl_fd cl) cl' (n + k) /\
      (ok = true -> cl_alive cl' = true /\ live (os_view s') (cl_fd cl) cl' (n + k))) s.
Proof.
  revert cl completed n s. induction fuel as [|fuel IH]; intros cl completed n s Ha Hlive Hsh;
    cbn [drain_reads]; rewrite Ha; [done|]. pose proof (live_kept _ _ _ _ Hlive) as Hkept.
  destruct (Z.eqb_spec (cl_rx_len cl) RX_BUFFER_SIZE) as [Hfull|Hroom].
  { apply safe_ret. exists 0%nat. rewrite Nat.add_0_r. split_and!; [|apply counted_0|by apply kept_error|done].
    eapply touched_spoke; [apply spoke_refl|done|by apply shell_error]. }
  pose proof (rx_range _ (proj1 Hsh)) as Hrange. apply safe_bind, safe_sys.
  pose proof (os_law_recv s (cl_fd cl) (RX_BUFFER_SIZE - cl_rx_len cl)) as Hlaw.
  destruct (os_recv _ _ s) as [[bs|e] s1]; cbn [fst snd] in *.
  2:{ assert (Hsp : spoke (cl_fd cl) [] [] (os_view s) (os_view s1)) by (rewrite Hlaw; apply spoke_refl).
      destruct (e =? EINTR); [rewrite <-Hlaw; apply IH; [done|by rewrite Hlaw|done]|]. rewrite <-Hlaw in Hkept, Hlive.
      destruct (would_block e); apply safe_ret; exists 0%nat; rewrite Nat.add_0_r; (split_and!; [|apply counted_0|..]);
        [by eapply touched_spoke|done|done|by eapply touched_spoke; [..|apply shell_error]|by apply kept_error|done]. }
  destruct Hlaw as (Hb & Hl & Hv). pose proof (spoke_received (cl_fd cl) bs (os_view s)) as Hsp.
  rewrite <-Hv in Hsp. destruct bs as [|b bs'] eqn:Ebs.
  { apply safe_ret. exists 0%nat. rewrite Nat.add_0_r. split_and!; [|apply counted_0| |done].
    - eapply touched_spoke; [done|done|by apply shell_alive].
    - apply kept_alive, (kept_frame (os_view s)); [done|]. rewrite (sk_traffic _ _ _ _ _ Hsp), !app_nil_r.
      by destruct (traffic _ _). }
  rewrite <-Ebs in *. clear Ebs b bs'.
  destruct (delivered s s1 cl bs n Hlive Hsh ltac:(lia) Hb Hsp) as (rx & Esp & cl2 & k & Ep & Ht & Ha2 & Hlive2).
  apply safe_bind. eapply safe_pure; [exact Esp|]. cbv zeta.
  apply safe_bind. eapply safe_pure; [exact Ep|]. pose proof (to_fd _ _ _ _ Ht) as Hfd. rewrite <-Hfd in Hlive2.
  eapply safe_mono; [apply (IH _ _ (n + k)%nat); [congruence|done|exact (to_shell _ _ _ _ Ht)]|].
  intros [[ok cl'] c'] s2 (k' & Ht' & Hc & Hk & Hok). exists (k + k')%nat. rewrite Nat.add_assoc, <-Hfd.
  split_and!; [by eapply touched_trans| |done|done]. eapply counted_trans; [apply counted_add|done].
Qed.

(** ** Entries of the table *)

(** The ghost is the number of messages completed. *)
Definition entry_ok (v : kview) (x : slot client_t nat) : Prop :=
  let cl := sl_client x in let h := sl_home x in let n := sl_ghost x in
  shell cl /\ score (cl_completed cl) n /\ (h = -1 -> n = 0%nat /\ cl_errors cl = 0) /\ (h <> -1 -> kept v h cl n) /\
  (cl_alive cl = true -> h <> -1 /\ cl_fd cl = h /\ live v h cl n).

Lemma entry_local : local_ok entry_ok.
Proof.
  intros v v' [h cl n] (Hs & Hc & Hn & Hk & Hl) Ht. unfold entry_ok. cbn [sl_home sl_client sl_ghost] in *.
  refine (conj Hs (conj Hc (conj Hn (conj _ _)))).
  - intros Hne. apply (kept_frame v); auto.
  - intros Ha. destruct (Hl Ha) as (Hne & Hf & Hlive). split_and!; [done|done|]. apply (live_frame v); auto.
Qed.

Lemma zeroed_rx_ok : zlen zeroed_rx = RX_BUFFER_SIZE /\ Forall is_byte zeroed_rx.
Proof.
  split; [unfold zlen, zeroed_rx; by rewrite length_replicate|]. apply Forall_replicate. by unfold is_byte.
Qed.

#[local] Opaque zeroed_rx.

Lemma new_client_shell fd : shell (new_client fd).
Proof.
  destruct zeroed_rx_ok, law_none. split; [split|]; cbn [new_client cl_rx cl_rx_len cl_outstanding]; done.
Qed.

Lemma new_client_live v fd response :
  length response = 8%nat -> Forall is_byte response -> ack_strict response = Ok true ->
  traffic v fd = (response, CONNECT_BYTES) -> live v fd (new_client fd) 0.
Proof.
  intros Hl Hb Ha Ht. exists 0%nat, 0%nat. rewrite ack_strict_iff in Ha by done. injection Ha as ->%bool_decide_eq_true.
  assert (Hp : pending (new_client fd) = []) by apply take_0. split; [|done].
  split; cbn [new_client cl_completed cl_errors cl_outstanding]; rewrite ?Ht, ?Hp; cbn [fst snd]; try done;
    [apply law_score|by rewrite (proj2 law_none)|apply prefix_nil].
Qed.

(** The parts of the frame that concern [client_t]. *)
Record echoes {B} (P : program client_t B) : Prop := {
  ec_fd : pr_fd P = cl_fd;
  ec_alive : pr_alive P = cl_alive;
  ec_none : pr_none P = no_client;
  ec_new : pr_new P = new_client;
  ec_lost : pr_lost P = fun cl => set_alive cl (-1) false;
  ec_check : pr_check P = ack_strict
}.

Lemma entry_fresh {B} (P : program client_t B) v x : echoes P -> fresh P 0%nat v x -> entry_ok v x.
Proof.
  intros [? ? En Ew El Ek] [Hg Hx]. destruct x as [h cl n]. cbn [sl_home sl_client sl_ghost] in *. subst n.
  unfold acked in Hx. rewrite En, Ew, El, Ek in Hx. unfold entry_ok. cbn [sl_home sl_client sl_ghost].
  destruct Hx as [[-> ->]|(Hne & (response & Hl & Hb & Hc & Ht) & Hx)].
  - split_and!; [|apply law_score|done|done|done]. exact (shell_alive _ (-1) false (new_client_shell (-1))).
  - pose proof (new_client_live v h response Hl Hb Hc Ht) as Hlive.
    destruct Hx as [->| ->]; (split_and!; [..|done| |]); try done; try apply law_score.
    + apply new_client_shell.
    + intros _. by apply live_kept.
    + apply shell_alive, new_client_shell.
    + intros _. by apply kept_alive, live_kept.
Qed.

Lemma touched_moved v v' cl cl' n n' :
  cl_fd cl <> -1 -> touched v v' cl cl' -> kept v' (cl_fd cl) cl' n' ->
  (cl_alive cl' = true -> live v' (cl_fd cl) cl' n') ->
  moved cl_fd entry_ok v v' (Slot (cl_fd cl) cl n) (Slot (cl_fd cl) cl' n').
Proof.
  intros Hne [Q O F S] Hk Hl. split; [done|done|by left|]. unfold entry_ok. cbn [sl_home sl_client sl_ghost].
  split_and!; [done| |done|done|auto]. by destruct Hk as (? & ? & ? & []).
Qed.

Lemma touched_then_moved v1 v2 v3 cl1 cl2 n1 n2 x :
  touched v1 v2 cl1 cl2 -> moved cl_fd entry_ok v2 v3 (Slot (cl_fd cl1) cl2 n2) x ->
  moved cl_fd entry_ok v1 v3 (Slot (cl_fd cl1) cl1 n1) x.
Proof.
  intros [Q1 O1 F1 S1] [Q2 H2 F2 K2]. cbn [sl_home] in *. rewrite O1 in F2. split; [by eapply quiet_trans|done|done|done].
Qed.

Lemma closed_moved v v1 v2 cl cl' n n' :
  cl_fd cl <> -1 -> touched v v1 cl cl' -> kept v1 (cl_fd cl) cl' n' -> same_io v1 v2 ->
  moved cl_fd entry_ok v (v_closed (cl_fd cl) v2) (Slot (cl_fd cl) cl n) (Slot (cl_fd cl) (set_alive cl' (-1) false) n').
Proof.
  intros Hne [Q O F S] Hk Hs. pose proof (closed_quiet (cl_fd cl) _ _ Hs) as Hq. split; cbn [sl_home sl_client].
  - intros fd Hfd. by rewrite Hq, Q.
  - done.
  - right. split; [done|]. simpl. destruct Hs as [-> _]. by rewrite O.
  - unfold entry_ok. cbn [sl_home sl_client sl_ghost]. split_and!; [by apply shell_alive| |done| |done].
    + by destruct Hk as (? & ? & ? & []).
    + intros _. by apply kept_alive, (kept_frame v1).
Qed.

Lemma drop_client_spec epfd v cl cl' n n' s :
  cl_fd cl <> -1 -> touched v (os_view s) cl cl' -> kept (os_view s) (cl_fd cl) cl' n' ->
  safe (drop_client epfd cl') (fun cl2 s' => cl_fd cl2 = -1 /\
    moved cl_fd entry_ok v (os_view s') (Slot (cl_fd cl) cl n) (Slot (cl_fd cl) cl2 n')) s.
Proof.
  intros Hne Ht Hk. apply safe_bind, safe_sys. pose proof (os_law_epoll_ctl s epfd Epoll_del (cl_fd cl')) as H1.
  destruct (os_epoll_ctl _ _ _ s) as [r1 s1]; cbn [fst snd] in *.
  apply safe_bind, safe_sys. pose proof (os_law_close s1 (cl_fd cl')) as H2.
  destruct (os_close _ s1) as [r2 s2]; cbn [fst snd] in *. apply safe_ret. rewrite H2, (to_fd _ _ _ _ Ht).
  split; [done|]. by eapply closed_moved.
Qed.

(** An aggregate counts no message that a client has not counted. *)
Definition tallied (total : Z) (ns : list nat) : Prop :=
  exists t : nat, total = u64 (Z.of_nat t) /\ (t <= sum_list ns)%nat.

Lemma tallied_update total total' ns i n k k' :
  tallied total ns -> ns !! i = Some n -> counted total total' k' -> (k' <= k)%nat ->
  tallied total' (<[i := (n + k)%nat]> ns).
Proof.
  intros (t & Et & Ht) Hi Hc Hk. exists (t + k')%nat. split; [by apply Hc|]. rewrite (sum_list_insert _ _ _ _ Hi). lia.
Qed.

(** What the end of a campaign says of the clients: their connections are distinct
    and new, [established] of them; on each the bytes are those its counters stand
    for, without errors as long as it is alive and the peer honest; [ns] are the
    numbers of messages completed, of which [total] counts no more. *)
Definition explained (base : gset Z) (v : kview) (established total : Z) (clients : list client_t) (ns : list nat) : Prop :=
  exists xs : list (slot client_t nat), sl_client <$> xs = clients /\ sl_ghost <$> xs = ns /\
    NoDup (homes xs) /\ Forall (fun fd => fd ∉ base) (homes xs) /\ Z.of_nat (length (homes xs)) = established /\
    Forall (fun x => score (cl_completed (sl_client x)) (sl_ghost x) /\
      (sl_home x = -1 -> sl_ghost x = 0%nat) /\
      (sl_home x <> -1 -> kept v (sl_home x) (sl_client x) (sl_ghost x)) /\
      (honest -> cl_alive (sl_client x) = true -> cl_errors (sl_client x) = 0)) xs /\
    tallied total ns.

Lemma entries_explained base v established total (xs : list (slot client_t nat)) :
  Forall (entry_ok v) xs -> NoDup (homes xs) -> Forall (fun fd => fd ∉ base) (homes xs) ->
  Z.of_nat (length (homes xs)) = established -> tallied total (sl_ghost <$> xs) ->
  explained base v established total (sl_client <$> xs) (sl_ghost <$> xs).
Proof.
  intros Hok Hn Hb Hl Ht. exists xs. split_and!; try done. eapply Forall_impl; [exact Hok|].
  intros [h cl n] (_ & Hs & Hz & Hk & Hlive). split_and!; [done|by intros E; apply Hz|done|].
  intros Hh Ha. destruct (Hlive Ha) as (_ & _ & j & e & [] & He). by destruct (He Hh) as [-> _].
Qed.

(** ** Programs of such clients in the frame *)

Section Moves.
Context {B : Type} (P : program client_t B) (Hec : echoes P) (total : B -> Z).

Definition tally (lost : Z) (ns : list nat) (open : Z) (b : B) : Prop := tallied (total b) ns.
Local Abbreviation ok_bench := (bench_ok P entry_ok tally).

Lemma bench_shells base hs lost v b : ok_bench base hs lost v b -> Forall shell (pr_clients P b).
Proof.
  intros Hb. apply Forall_lookup. intros i cl Hi. by destruct (bench_entry _ _ _ _ _ _ _ _ _ _ Hb Hi) as (h & g & _ & Hsh & _).
Qed.

(** A client that is alive makes a step in which [k] messages are completed. *)
Lemma bench_moves base hs lost v b i cl :
  ok_bench base hs lost v b -> pr_clients P b !! i = Some cl -> cl_alive cl = true ->
  cl_fd cl <> -1 /\ shell cl /\ exists n, live v (cl_fd cl) cl n /\
    forall v' cl' k k' b', pr_clients P b' = <[i := cl']> (pr_clients P b) -> (k' <= k)%nat ->
      counted (total b) (total b') k' ->
      moved cl_fd entry_ok v v' (Slot (cl_fd cl) cl n) (Slot (cl_fd cl) cl' (n + k)%nat) -> ok_bench base hs lost v' b'.
Proof using Hec.
  intros Hb Hi Ha. destruct (bench_entry _ _ _ _ _ _ _ _ _ _ Hb Hi) as (h & m & _ & (Hs & _ & _ & _ & Hl)).
  destruct (Hl Ha) as (Hne & Hfd & _). cbn [sl_home sl_client] in *. rewrite <-Hfd in Hne. split_and!; [done|done|].
  pose proof (bench_step _ _ _ base hs lost v b i cl entry_local Hb Hi) as Hstep. rewrite (ec_fd P Hec) in Hstep.
  destruct (Hstep Hne) as (n & gs & q & Htl & Hg & (_ & _ & _ & _ & Hl') & Hmove).
  destruct (Hl' Ha) as (_ & _ & Hlive). exists n. split; [done|].
  intros v' cl' k k' b' Eb Hk Hc Hm. eapply Hmove; [done|exact Hm|by eapply tallied_update].
Qed.

#[refine] Definition echo_laws
  (Hbegin : forall clients established lost, pr_clients P (pr_begin P clients established lost) = clients /\
    total (pr_begin P clients established lost) = 0)
  (Hround : forall base hs lost epfd evs b s, ok_bench base hs lost (os_view s) b ->
    safe (pr_round P epfd evs b) (fun b' s' => ok_bench base hs lost (os_view s') b') s) : BenchLaws P nat := {|
  bl_ok := entry_ok;
  bl_zero := 0%nat;
  bl_inv := tally
|}.
Proof using Hec.
  - rewrite (ec_check P Hec). apply ack_strict_total.
  - by rewrite (ec_fd P Hec), (ec_alive P Hec), (ec_none P Hec).
  - intros fd. by rewrite (ec_fd P Hec), (ec_new P Hec).
  - intros cl. by rewrite (ec_fd P Hec), (ec_alive P Hec), (ec_lost P Hec).
  - apply entry_local.
  - intros v x. by apply entry_fresh.
  - intros clients established lost. destruct (Hbegin clients established lost) as [Hc Ht]. split; [done|].
    exists 0%nat. split; [done|lia].
  - exact Hround.
Defined.

Lemma settled_explained Hbegin Hround base established v b :
  settled (L:=echo_laws Hbegin Hround) P base established v b ->
  exists ns, explained base v established (total b) (pr_clients P b) ns.
Proof using.
  intros (xs & lost & Hc & Hok & Hn & Hb & Hl & Ht). exists (sl_ghost <$> xs). rewrite <-Hc.
  apply entries_explained; try done. eapply Forall_impl; [exact Hok|]. by intros x [].
Qed.
End Moves.

Lemma explained_scores base v established total clients ns :
  explained base v established total clients ns -> Forall2 (fun cl n => score (cl_completed cl) n) clients ns.
Proof.
  intros (xs & <- & <- & _ & _ & _ & Hx & _). induction Hx as [|x xs [Hs _] _ IH]; [done|]. by constructor.
Qed.

Lemma explained_connections base v established total clients ns :
  explained base v established total clients ns ->
  exists cs : list (Z * nat), NoDup cs.*1 /\ Forall (fun c => (c.1 ∉ base) /\ exists cl, kept v c.1 cl c.2) cs /\
    Z.of_nat (length cs) = established /\ tallied total cs.*2.
Proof.
  intros (xs & _ & <- & Hn & Hb & Hl & Hx & t & Et & Ht). exists (connections xs).
  rewrite connections_homes. split_and!; [done| | |exists t; split; [done|]].
  - apply Forall_forall. intros c (x & Hin & -> & Hne)%elem_of_connections. cbn [fst snd] in *.
    rewrite Forall_forall in Hx. rewrite Forall_forall in Hb. destruct (Hx x Hin) as (_ & _ & Hk & _). split; [|by eexists; apply Hk].
    apply Hb. by apply elem_of_homes.
  - by rewrite <-Hl, <-connections_homes, length_fmap.
  - rewrite <-(list_fmap_id _), connections_sum, list_fmap_id; [done|]. eapply Forall_impl; [exact Hx|]. by intros x (_ & Hz & _).
Qed.

(** ** The loops of a client end *)

(** The bytes an honest peer still owes. *)
Definition owed (cl : client_t) : Z := 8 * Z.of_nat (units (cl_outstanding cl)) - zlen (pending cl).

Lemma owed_nonneg s h cl n : honest -> live (os_view s) h cl n -> 0 <= owed cl.
Proof.
  intros Hh (j & e & [] & He). destruct (He Hh) as [-> _]. assert (j = 0%nat) as -> by lia.
  rewrite app_nil_r in bo_sent0. rewrite Nat.add_0_r in bo_rcvd0.
  destruct (honest_due s _ n _ _ Hh bo_sent0 bo_rcvd0) as (m & Hm & Hp). apply prefix_length in Hp.
  rewrite pongs_length in Hp. unfold owed, zlen. lia.
Qed.

Lemma owed_received v v' h cl cl' n k bs :
  0 < zlen unit -> honest -> live v h cl n -> live v' h cl' (n + k) -> spoke h [] bs v v' ->
  owed cl' = owed cl - zlen bs.
Proof.
  intros Hu Hh (j & e & [] & He) (j' & e' & B' & He') [_ T _]. destruct (He Hh) as [-> _], (He' Hh) as [-> _].
  destruct B' as [_ _ Hj' Hs' Hr' _]. assert (j = 0%nat) as -> by lia. assert (j' = 0%nat) as -> by lia.
  rewrite T in Hs', Hr'. cbn [fst snd] in *. rewrite bo_sent0, !app_nil_r in Hs'. rewrite bo_rcvd0 in Hr'.
  apply (f_equal zlen) in Hs', Hr'. unfold zlen in Hs', Hr'.
  rewrite !length_app, !Nat2Z.inj_add in Hs'. rewrite !length_app in Hr'.
  pose proof (times_zlen (n + units (cl_outstanding cl)) unit) as Z1.
  pose proof (times_zlen (n + k + units (cl_outstanding cl')) unit) as Z2. unfold zlen in Z1, Z2, Hu.
  rewrite Z1, Z2 in Hs'. rewrite !pongs_length in Hr'. unfold owed, zlen.
  assert (Z.of_nat (n + units (cl_outstanding cl)) = Z.of_nat (n + k + units (cl_outstanding cl'))).
  { apply (Z.mul_reg_r _ _ (Z.of_nat (length unit))); lia. }
  lia.
Qed.

Lemma drain_reads_finishes fuel cl completed n s :
  0 < zlen unit -> honest -> undisturbed -> cl_alive cl = true -> live (os_view s) (cl_fd cl) cl n -> shell cl ->
  owed cl < Z.of_nat fuel -> finishes (drain_reads fuel cl completed) s.
Proof.
  intros Hun Hh Hu. revert cl completed n s. induction fuel as [|fuel IH]; intros cl completed n s Ha Hlive Hsh Hf.
  { pose proof (owed_nonneg _ _ _ _ Hh Hlive). lia. }
  cbn [drain_reads]. rewrite Ha. destruct (_ =? RX_BUFFER_SIZE) eqn:Efull; [done|].
  apply Z.eqb_neq in Efull. pose proof (rx_range _ (proj1 Hsh)) as Hrange.
  apply finishes_sys. pose proof (os_law_recv s (cl_fd cl) (RX_BUFFER_SIZE - cl_rx_len cl)) as Hlaw.
  pose proof (proj1 (proj2 Hu) (cl_fd cl) (RX_BUFFER_SIZE - cl_rx_len cl) s) as Hne.
  destruct (os_recv _ _ s) as [[bs|e] s1]; cbn [fst snd] in *.
  2:{ destruct (Z.eqb_spec e EINTR) as [->|]; [done|]. by destruct (would_block e). }
  destruct Hlaw as (Hb & Hl & Hv). pose proof (spoke_received (cl_fd cl) bs (os_view s)) as Hsp.
  rewrite <-Hv in Hsp. destruct bs as [|b bs'] eqn:Ebs; [done|].
  assert (Hpos : 0 < zlen bs) by (rewrite Ebs; unfold zlen; simpl; lia).
  rewrite <-Ebs in *. clear Ebs b bs'.
  destruct (delivered s s1 cl bs n Hlive Hsh ltac:(lia) Hb Hsp) as (rx & Esp & cl2 & k & Ep & Ht & Ha2 & Hlive2).
  rewrite Esp. apply finishes_bind; [done|]. intros rx' s1' [= <- <-]. cbv zeta in *. rewrite Ep.
  apply finishes_bind; [done|]. intros x s1' [= <- <-].
  pose proof (owed_received _ _ _ _ _ _ _ _ Hun Hh Hlive Hlive2 Hsp) as Hord.
  apply (IH _ _ (n + k)%nat); [congruence|by rewrite (to_fd _ _ _ _ Ht)|exact (to_shell _ _ _ _ Ht)|lia].
Qed.

Lemma drop_client_finishes epfd cl s : finishes (drop_client epfd cl) s.
Proof. apply finishes_sys, finishes_sys. done. Qed.
End Specs.

Section Forward.
Context `{Os} {Ech : Echo} (remaining : ost -> nat) (Hclock : clock remaining).

Lemma forward_drain fuel client completed : forward remaining (drain_reads fuel client completed).
Proof using Hclock. revert client completed. induction fuel; intros client completed; cbn [drain_reads]; forward. Qed.

Lemma forward_drop epfd client : forward remaining (drop_client epfd client).
Proof using Hclock. unfold drop_client. forward. Qed.
End Forward.
#[export] Hint Resolve forward_drain forward_drop : forward.
