(* ===== verification/PingPong.v ===== *)
(** * PingPong: tests/throughput_pingpong.c

    The benchmark: [client_count] connections, each with a pipeline of at most
    [pipeline] PINGs under way, counted when their PONGs come back.  The clients
    and their functions that receive are those of Echo, the frame is that of Bench;
    here are [fill_pipeline], the body of a round ([bench_event], [refill]) and
    [main].  What is printed is left out, but for the verdict.

    [accounts] is what the final report says of the bytes on the connections. *)

From S2P Require Import Prelude Core Packet World SocketUtils Client ClientSim Bench Echo.
#[local] Open Scope Z_scope.

Definition ping_packet : list Z :=
  [u8 (Z.shiftr VR_MAGIC 8); u8 (Z.land VR_MAGIC 0xff); VR_PROTOCOL_VERSION; pkt_int VR_PKT_PING; 0; 0; 0; 0].

(** [client->outstanding--; client->completed++;] *)
#[local] Instance ping_echo : Echo := {| paid d := u32 (d - 1); tick c := u64 (c + 1) |}.

(** [client->outstanding++] *)
Definition ping_sent (cl : client_t) : client_t :=
  Client (cl_fd cl) (u32 (cl_outstanding cl + 1)) (cl_rx cl) (cl_rx_len cl) (cl_completed cl)
    (cl_errors cl) (cl_alive cl).

Section Code.
Context `{Os}.

(** [fill_pipeline]: [true] unless it returns -1; the client and [*send_failures]. *)
Fixpoint fill_pipeline (fuel : nat) (client : client_t) (pipeline send_failures : Z)
    : prog (bool * client_t * Z) :=
  if cl_alive client && (cl_outstanding client <? pipeline) then
    match fuel with
    | O => too_long
    | S fuel =>
        n ← sys (os_send (cl_fd client) ping_packet);
        match n with
        | Done n =>
            if n =? zlen ping_packet then fill_pipeline fuel (ping_sent client) pipeline send_failures
            else mret (false, bump_errors client, u64 (send_failures + 1))
        | Fail e =>
            if would_block e then mret (true, client, send_failures)
            else if e =? EINTR then fill_pipeline fuel client pipeline send_failures
            else mret (false, bump_errors client, u64 (send_failures + 1))
        end
    end
  else mret (true, client, send_failures).

(** [clients], [total_completed], [total_errors] and [active]. *)
Record bench := Bench {
  be_clients : list client_t;
  be_completed : Z;
  be_errors : Z;
  be_active : Z
}.

(** The reading half of an event; [false] for [continue]. *)
Definition event_reads (fuel : nat) (client : client_t) (total_completed active : Z)
    : prog (bool * client_t * Z * Z) :=
  '(ok, client, completed) ← drain_reads fuel client 0;
  if (ok : bool) then mret (true, client, u64 (total_completed + completed), active)
  else
    client ← (if cl_alive client
              then _ ← sys (os_close (cl_fd client)); mret (set_alive client (-1) false)
              else mret client);
    mret (false, client, total_completed, active - 1).

(** The writing half. *)
Definition event_writes (fuel : nat) (epfd pipeline : Z) (client : client_t) (total_errors active : Z)
    : prog (client_t * Z * Z) :=
  let before := cl_errors client in
  '(ok, client, total_errors) ← fill_pipeline fuel client pipeline total_errors;
  if (ok : bool) then mret (client, total_errors, active)
  else
    let client := if cl_errors client =? before then bump_errors client else client in
    client ← drop_client epfd client;
    mret (client, total_errors, active - 1).

Definition bench_event (fuel : nat) (epfd pipeline : Z) (b : bench) (ev : Z * Z) : prog bench :=
  let '(events, data) := ev in
  let index := u32 data in
  if zlen (be_clients b) <=? index then mret b
  else
    client ← pure (load (be_clients b) index);
    if negb (cl_alive client) then mret b
    else
      '(go, client, completed, active) ←
        (if negb (Z.land events EPOLLIN =? 0)
         then event_reads fuel client (be_completed b) (be_active b)
         else mret (true, client, be_completed b, be_active b));
      '(client, errors, active) ←
        (if go && (cl_alive client && negb (Z.land events EPOLLOUT =? 0))
         then event_writes fuel epfd pipeline client (be_errors b) active
         else mret (client, be_errors b, active));
      clients ← pure (store (be_clients b) index client);
      mret (Bench clients completed errors active).

Fixpoint bench_events (fuel : nat) (epfd pipeline : Z) (b : bench) (evs : list (Z * Z)) : prog bench :=
  match evs with
  | [] => mret b
  | ev :: evs => b ← bench_event fuel epfd pipeline b ev; bench_events fuel epfd pipeline b evs
  end.

(** The second [for] of a round: every pipeline with room is filled. *)
Fixpoint refill (fuel : nat) (epfd pipeline : Z) (clients : list client_t) (total_errors active : Z)
    : prog (list client_t * Z * Z) :=
  match clients with
  | [] => mret ([], total_errors, active)
  | cl :: clients =>
      '(cl, total_errors, active) ←
        (if negb (cl_alive cl) then mret (cl, total_errors, active)
         else if pipeline <=? cl_outstanding cl then mret (cl, total_errors, active)
         else
           '(ok, cl, total_errors) ← fill_pipeline fuel cl pipeline total_errors;
           if (ok : bool) then mret (cl, total_errors, active)
           else cl ← drop_client epfd cl; mret (cl, total_errors, active - 1));
      '(clients, total_errors, active) ← refill fuel epfd pipeline clients total_errors active;
      mret (cl :: clients, total_errors, active)
  end.

(** The body of a round, behind epoll_wait. *)
Definition bench_round (fuel : nat) (pipeline epfd : Z) (evs : list (Z * Z)) (b : bench) : prog bench :=
  b ← bench_events fuel epfd pipeline b evs;
  '(clients, errors, active) ← refill fuel epfd pipeline (be_clients b) (be_errors b) (be_active b);
  mret (Bench clients (be_completed b) errors active).

(** The program in the frame.  A client that cannot be registered stays counted in
    [active]. *)
Definition pingpong (fuel : nat) (pipeline : Z) : program client_t bench :=
  Program cl_fd cl_alive no_client new_client (fun cl => set_alive cl (-1) false) ack_strict
    (Z.lor (Z.lor EPOLLIN EPOLLOUT) EPOLLET)
    (fun clients established lost => Bench clients 0 0 established)
    be_clients be_active (bench_round fuel pipeline).

(** What [main] reports: the totals, and whether it prints PASS. *)
Record report := Report {
  rp_completed : Z;
  rp_client_completed : Z;
  rp_errors : Z;
  rp_active : Z;
  rp_established : Z;
  rp_pass : bool
}.
Definition final_report (established : Z) (b : bench) : report :=
  let total_errors := sum64 (cl_errors <$> be_clients b) in
  Report (be_completed b) (sum64 (cl_completed <$> be_clients b)) total_errors (be_active b) established
    ((total_errors =? 0) && (be_active b =? established)).

(** [main] after its arguments are read; [None] is EXIT_FAILURE.  [calloc_ok]: the
    table was allocated. *)
Definition main (rounds fuel : nat) (host_ok calloc_ok : bool) (junk junk' : list Z)
    (client_count pipeline duration : Z) : prog (option report) :=
  if (client_count <=? 0) || (pipeline =? 0) || (duration <=? 0) then mret None
  else if negb calloc_ok then mret None
  else
    r ← campaign (pingpong fuel pipeline) rounds fuel host_ok true junk junk' client_count;
    mret (match r with Some (established, b) => Some (final_report established b) | None => None end).
End Code.

Lemma ping_packet_header : ping_packet = header_bytes (client_header (pkt_int VR_PKT_PING) 0).
Proof. reflexivity. Qed.

(** [cl_outstanding] is the number of PINGs under way, [cl_completed] the number of
    messages completed, at its width. *)
#[refine] Definition ping_laws (pipeline : Z) : EchoLaws := {|
  units d := Z.to_nat d;
  due_ok d := 0 <= d <= Z.max 0 pipeline /\ d < 2 ^ 32;
  score c n := c = u64 (Z.of_nat n)
|}.
Proof.
  - split; [lia|done].
  - intros d Hd Hne. cbn [paid ping_echo]. rewrite u32_id by lia. lia.
  - done.
  - intros c n ->. rewrite <-Nat.add_1_r. exact (counted_1 _ n eq_refl).
Defined.

Section Specs.
Context `{OsLaws} (pipeline : Z).
Hypothesis Hpipe : 0 < pipeline < 2 ^ 32.
#[local] Hint Extern 0 EchoLaws => exact (ping_laws pipeline) : typeclass_instances.
Local Abbreviation laws := (ping_laws pipeline).
Local Abbreviation live := (live (Ecl:=laws) ping_packet).
Local Abbreviation kept := (kept (Ecl:=laws) ping_packet).
Local Abbreviation shell := (shell (Ecl:=laws)).
Local Abbreviation touched := (touched (Ecl:=laws)).
Local Abbreviation entry_ok := (entry_ok (Ecl:=laws) ping_packet).

Lemma ping_sent_shell cl : shell cl -> cl_outstanding cl < pipeline -> shell (ping_sent cl).
Proof. intros [[] [Ho ?]] Hlt. split; [done|]. simpl. rewrite u32_id; lia. Qed.

Lemma fill_pipeline_spec fuel cl fails n s :
  cl_alive cl = true -> live (os_view s) (cl_fd cl) cl n -> shell cl ->
  safe (fill_pipeline fuel cl pipeline fails) (fun r s' => let '(ok, cl', _) := r in
    touched (os_view s) (os_view s') cl cl' /\ cl_alive cl' = true /\ kept (os_view s') (cl_fd cl) cl' n /\
    (ok = true -> live (os_view s') (cl_fd cl) cl' n)) s.
Proof.
  revert cl s. induction fuel as [|fuel IH]; intros cl s Ha Hlive Hsh; pose proof (live_kept _ _ _ _ _ Hlive) as Hkept;
    cbn [fill_pipeline]; rewrite Ha; cbn [andb];
    destruct (Z.ltb_spec (cl_outstanding cl) pipeline) as [Hlt|Hge]; try done.
  apply safe_bind, safe_sys. pose proof (os_law_send s (cl_fd cl) ping_packet) as Hlaw.
  destruct (os_send _ _ s) as [[m|e] s1]; cbn [fst snd] in *.
  - destruct Hlaw as [Hm Hv]. pose proof (spoke_accepted (cl_fd cl) (take (Z.to_nat m) ping_packet) (os_view s)) as Hsp.
    rewrite <-Hv in Hsp. destruct (Z.eqb_spec m (zlen ping_packet)) as [->|Hne].
    2:{ apply safe_ret. split_and!; [by eapply touched_spoke; [..|apply shell_error]|done| |done].
        apply kept_error. eapply kept_part; [done| |done]. by exists (drop (Z.to_nat m) ping_packet); rewrite take_drop. }
    change (take _ _) with ping_packet in Hsp. pose proof (ping_sent_shell cl Hsh Hlt) as Hsh'.
    eapply safe_mono; [apply (IH (ping_sent cl)); [done| |done]|].
    { eapply live_sent; [done|done| |done|done|done|done]. cbn. destruct Hsh as [_ [Ho ?]]. rewrite u32_id; lia. }
    intros [[ok cl'] fl] s2 (Ht & Ha' & Hk & Hl). split_and!; [|done|done|done].
    eapply touched_trans; [|done]. by eapply touched_spoke.
  - assert (Hsp : spoke (cl_fd cl) [] [] (os_view s) (os_view s1)) by (rewrite Hlaw; apply spoke_refl).
    destruct (would_block e); [apply safe_ret; rewrite Hlaw; split_and!; [by apply touched_refl|done|done|done]|].
    destruct (e =? EINTR).
    + rewrite <-Hlaw. apply IH; [done|by rewrite Hlaw|done].
    + apply safe_ret. split_and!; [by eapply touched_spoke; [..|apply shell_error]|done|rewrite Hlaw; by apply kept_error|done].
Qed.

Local Abbreviation moved := (moved cl_fd entry_ok).

Lemma event_reads_spec fuel cl completed active n s :
  cl_alive cl = true -> cl_fd cl <> -1 -> live (os_view s) (cl_fd cl) cl n -> shell cl ->
  safe (event_reads fuel cl completed active) (fun r s' => let '(go, cl', completed', _) := r in
    exists k k', (k' <= k)%nat /\ counted completed completed' k' /\
      if (go : bool) then touched (os_view s) (os_view s') cl cl' /\ cl_alive cl' = true /\
        live (os_view s') (cl_fd cl) cl' (n + k)
      else moved (os_view s) (os_view s') (Slot (cl_fd cl) cl n) (Slot (cl_fd cl) cl' (n + k)%nat)) s.
Proof.
  intros Ha Hfd Hlive Hsh. apply safe_bind. eapply safe_mono; [by apply reads_spec|].
  intros [[ok cl'] c'] s' (k & Ht & Hc & Hk & Hok). destruct ok.
  - apply safe_ret. exists k, k. destruct (Hok eq_refl). split_and!; [done| |done..].
    specialize (Hc 0%nat eq_refl). subst c'. apply counted_add.
  - apply safe_bind. destruct (cl_alive cl') eqn:Ha'.
    + apply safe_bind, safe_sys. pose proof (os_law_close s' (cl_fd cl')) as Hcl.
      destruct (os_close _ s') as [r2 s2]; cbn [fst snd] in *. apply safe_ret, safe_ret.
      exists k, 0%nat. split_and!; [lia|apply counted_0|]. rewrite Hcl, (to_fd _ _ _ _ Ht). by eapply closed_moved.
    + apply safe_ret, safe_ret. exists k, 0%nat. split_and!; [lia|apply counted_0|].
      apply touched_moved; [done|done|done|by rewrite Ha'].
Qed.

Lemma event_writes_spec fuel epfd cl errors active n s :
  cl_alive cl = true -> cl_fd cl <> -1 -> live (os_view s) (cl_fd cl) cl n -> shell cl ->
  safe (event_writes fuel epfd pipeline cl errors active) (fun r s' =>
    moved (os_view s) (os_view s') (Slot (cl_fd cl) cl n) (Slot (cl_fd cl) r.1.1 n)) s.
Proof.
  intros Ha Hfd Hlive Hsh. apply safe_bind. eapply safe_mono; [by apply fill_pipeline_spec|].
  intros [[ok cl'] e'] s' (Ht & Ha' & Hk & Hok). destruct ok.
  - apply safe_ret. apply touched_moved; auto.
  - apply safe_bind. eapply safe_mono; [apply (drop_client_spec (Ecl:=laws) ping_packet epfd (os_view s) cl _ n n); [done|..]|
      by intros cl2 s2 [_ Hm]; apply safe_ret].
    + destruct (_ =? _); [|done]. eapply touched_trans; [done|].
      eapply touched_spoke; [apply spoke_refl|done|]. apply shell_error. exact (to_shell _ _ _ _ Ht).
    + destruct (_ =? _); [by apply kept_error|done].
Qed.

Context (fuel : nat) (base : gset Z) (hs : list Z) (lost : Z).
Local Abbreviation ok_bench := (bench_ok (pingpong fuel pipeline) entry_ok (tally be_completed) base hs lost).

Lemma pingpong_echoes : echoes (pingpong fuel pipeline).
Proof using. done. Qed.

Lemma bench_event_spec epfd b ev s :
  ok_bench (os_view s) b ->
  safe (bench_event fuel epfd pipeline b ev) (fun b' s' => ok_bench (os_view s') b') s.
Proof.
  intros Hb. destruct ev as [events data]. unfold bench_event.
  destruct (Z.leb_spec (zlen (be_clients b)) (u32 data)) as [|Hlt]; [by apply safe_ret|].
  assert (Hu : 0 <= u32 data) by (apply Z.mod_pos_bound; lia). unfold zlen in Hlt.
  destruct (lookup_lt_is_Some_2 (be_clients b) (Z.to_nat (u32 data))) as [cl Hcl]; [lia|].
  apply safe_bind. eapply safe_pure; [by apply load_ok|].
  destruct (cl_alive cl) eqn:Ha; [|by apply safe_ret]. cbn [negb].
  destruct (bench_moves _ _ pingpong_echoes _ _ _ _ _ _ _ _ Hb Hcl Ha) as (Hfd & Hsh & n & Hlive & Hstep).
  assert (Hend : forall cl' completed errors active k k' s', (k' <= k)%nat -> counted (be_completed b) completed k' ->
    moved (os_view s) (os_view s') (Slot (cl_fd cl) cl n) (Slot (cl_fd cl) cl' (n + k)%nat) ->
    safe (clients ← pure (store (be_clients b) (u32 data) cl'); mret (Bench clients completed errors active))
      (fun b' s' => ok_bench (os_view s') b') s').
  { intros cl' completed errors active k k' s' Hk Hc Hm. apply safe_bind.
    eapply safe_pure; [apply store_insert; unfold zlen; lia|]. by apply safe_ret, (Hstep _ cl' k k'). }
  apply safe_bind, (safe_mono _ (fun r s' => let '(go, cl', completed', _) := r in
    exists k k', (k' <= k)%nat /\ counted (be_completed b) completed' k' /\
      if (go : bool) then touched (os_view s) (os_view s') cl cl' /\ cl_alive cl' = true /\
        live (os_view s') (cl_fd cl) cl' (n + k)
      else moved (os_view s) (os_view s') (Slot (cl_fd cl) cl n) (Slot (cl_fd cl) cl' (n + k)%nat))).
  { destruct (negb _); [by apply event_reads_spec|]. apply safe_ret. exists 0%nat, 0%nat. rewrite Nat.add_0_r.
    split_and!; [done|apply counted_0|by apply touched_refl|done|done]. }
  intros [[[go cl1] completed] active] s1 (k & k' & Hk & Hc & Hgo). apply safe_bind.
  destruct go; cbn [andb]; [|by apply safe_ret; eapply Hend].
  destruct Hgo as (Ht & Ha1 & Hlive1). rewrite Ha1. pose proof (to_fd _ _ _ _ Ht) as Hf. destruct (negb _).
  - rewrite <-Hf in Hlive1, Hfd. eapply safe_mono; [by apply event_writes_spec; [..|exact (to_shell _ _ _ _ Ht)]|].
    intros [[cl2 errors] active'] s2 Hm. eapply Hend; [done|done|]. rewrite Hf in Hm. by eapply touched_then_moved.
  - apply safe_ret. eapply Hend; [done|done|]. by apply touched_moved; [|done|apply live_kept|].
Qed.

Lemma bench_events_spec epfd b evs s :
  ok_bench (os_view s) b ->
  safe (bench_events fuel epfd pipeline b evs) (fun b' s' => ok_bench (os_view s') b') s.
Proof.
  revert b s. induction evs as [|ev evs IH]; intros b s Hb; [by apply safe_ret|].
  apply safe_bind. eapply safe_mono; [by apply bench_event_spec|]. intros b' s'. apply IH.
Qed.

(** The second loop of a round: [pre] is behind. *)
Lemma refill_spec epfd pre clients completed errors active s :
  ok_bench (os_view s) (Bench (pre ++ clients) completed errors active) ->
  safe (refill fuel epfd pipeline clients errors active) (fun r s' =>
    ok_bench (os_view s') (Bench (pre ++ r.1.1) completed r.1.2 r.2)) s.
Proof.
  revert pre errors active s. induction clients as [|cl clients IH]; intros pre errors active s Hb; [by apply safe_ret|].
  apply safe_bind, (safe_mono _ (fun r s' => ok_bench (os_view s') (Bench (pre ++ r.1.1 :: clients) completed r.1.2 r.2))).
  - destruct (cl_alive cl) eqn:Ha; [|by apply safe_ret]. cbn [negb].
    destruct (pipeline <=? _); [by apply safe_ret|].
    destruct (bench_moves _ _ pingpong_echoes _ _ _ _ _ _ (length pre) cl Hb) as (Hfd & Hsh & n & Hlive & Hstep); [by apply list_lookup_middle|done|].
    assert (Hend : forall cl' e a s', moved (os_view s) (os_view s') (Slot (cl_fd cl) cl n) (Slot (cl_fd cl) cl' n) ->
      ok_bench (os_view s') (Bench (pre ++ cl' :: clients) completed e a)).
    { intros cl' e a s' Hm. apply (Hstep _ cl' 0%nat 0%nat); [|done|apply counted_0|by rewrite Nat.add_0_r].
      cbn [be_clients pr_clients pingpong]. by rewrite insert_app_r_alt, Nat.sub_diag by lia. }
    apply safe_bind. eapply safe_mono; [by apply fill_pipeline_spec|].
    intros [[ok cl'] e'] s' (Ht & Ha' & Hk & Hok). destruct ok.
    + apply safe_ret, Hend, touched_moved; auto.
    + apply safe_bind. eapply safe_mono; [by apply drop_client_spec|]. intros cl2 s2 [_ Hm]. by apply safe_ret, Hend.
  - intros [[cl' errors'] active'] s' Hb'. cbn [fst snd] in *. rewrite cons_middle, app_assoc in Hb'.
    apply safe_bind. eapply safe_mono; [by apply (IH (pre ++ [cl']))|].
    intros [[cs e] a] s2 Hb2. cbn [fst snd] in *. apply safe_ret. cbn [fst snd]. by rewrite cons_middle, app_assoc.
Qed.

Lemma bench_round_spec epfd evs b s :
  ok_bench (os_view s) b ->
  safe (bench_round fuel pipeline epfd evs b) (fun b' s' => ok_bench (os_view s') b') s.
Proof.
  intros Hb. apply safe_bind. eapply safe_mono; [by apply bench_events_spec|]. intros [cs c e a] s2 Hb2.
  apply safe_bind. eapply safe_mono; [by apply (refill_spec epfd [])|]. intros [[cs' e'] a'] s3 Hb3. by apply safe_ret.
Qed.
End Specs.

(** ** The benchmark in the frame *)

Section Whole.
Context `{OsLaws} (pipeline : Z).
Hypothesis Hpipe : 0 < pipeline < 2 ^ 32.
Local Abbreviation laws := (ping_laws pipeline).

Definition pingpong_laws (fuel : nat) : BenchLaws (pingpong fuel pipeline) nat :=
  echo_laws (Ecl:=laws) ping_packet (pingpong fuel pipeline) (pingpong_echoes pipeline fuel) be_completed
    (fun clients established lost => conj eq_refl eq_refl) (bench_round_spec pipeline Hpipe fuel).

(** What the report says: the connections it counts are explained, the sum of
    completed messages is theirs, and the aggregate at most that. *)
Definition accounts (base : gset Z) (v : kview) (r : report) : Prop :=
  exists (clients : list client_t) (ns : list nat),
    explained (Ecl:=laws) ping_packet base v (rp_established r) (rp_completed r) clients ns /\
    rp_client_completed r = u64 (Z.of_nat (sum_list ns)) /\ rp_errors r = sum64 (cl_errors <$> clients).

Lemma settled_accounts fuel base established v b :
  settled (L:=pingpong_laws fuel) (pingpong fuel pipeline) base established v b ->
  accounts base v (final_report established b).
Proof using.
  intros [ns Hex]%settled_explained. exists (be_clients b), ns. split_and!; [done| |done].
  apply sum64_spec. apply explained_scores in Hex. cbn [pr_clients pingpong] in Hex. clear -Hex.
  induction Hex as [|cl n cls ns Hs _ IH]; [done|]. cbn. by constructor.
Qed.

Lemma main_spec rounds fuel host_ok calloc_ok junk junk' client_count duration s :
  length junk = 8%nat -> length junk' = 8%nat ->
  safe (main rounds fuel host_ok calloc_ok junk junk' client_count pipeline duration) (fun r s' =>
    v_open (os_view s') = v_open (os_view s) /\
    match r with Some rep => accounts (v_open (os_view s)) (os_view s') rep | None => True end) s.
Proof using Hpipe.
  intros Hj Hj'. unfold main. destruct (_ || _); [by apply safe_ret|]. destruct calloc_ok; [|by apply safe_ret].
  cbn [negb]. apply safe_bind.
  eapply safe_mono; [by apply (campaign_spec (L:=pingpong_laws fuel) (pingpong fuel pipeline))|].
  intros r s' [Ho Hr]. apply safe_ret. split; [done|]. destruct r as [[established b]|]; [|done]. by eapply settled_accounts.
Qed.

(** ** The benchmark ends *)

Context (remaining : ost -> nat) (Hclock : clock remaining) (fuel : nat).
Hypothesis Hhonest : honest ping_packet.
Hypothesis Hcalm : undisturbed.
Hypothesis Hfuel : 8 * pipeline < Z.of_nat fuel.

Lemma fill_pipeline_finishes turns cl fails s :
  0 <= cl_outstanding cl -> pipeline - cl_outstanding cl <= Z.of_nat turns ->
  finishes (fill_pipeline turns cl pipeline fails) s.
Proof using All.
  destruct Hcalm as [Hu _]. revert cl s. induction turns as [|turns IH]; intros cl s Ho Hf; cbn [fill_pipeline];
    destruct (cl_alive cl); cbn [andb]; try done;
    destruct (Z.ltb_spec (cl_outstanding cl) pipeline); try done; [lia|].
  apply finishes_sys. specialize (Hu (cl_fd cl) ping_packet s).
  destruct (os_send _ _ s) as [[n|e] s1]; cbn [fst snd] in *.
  - destruct (_ =? _); [|done]. apply IH; simpl; rewrite u32_id; lia.
  - destruct (would_block e); [done|]. destruct (Z.eqb_spec e EINTR) as [->|]; done.
Qed.

Lemma fill_finishes cl fails s : shell (Ecl:=laws) cl -> finishes (fill_pipeline fuel cl pipeline fails) s.
Proof using All. intros [_ [Ho _]]. apply fill_pipeline_finishes; lia. Qed.

Lemma owed_bound cl : shell (Ecl:=laws) cl -> owed (Ecl:=laws) cl <= 8 * pipeline.
Proof using All. intros [_ [Ho _]]. unfold owed, zlen. cbn [units ping_laws]. lia. Qed.

Lemma event_finishes base hs lost epfd b ev s :
  bench_ok (pingpong fuel pipeline) (entry_ok (Ecl:=laws) ping_packet) (tally be_completed) base hs lost (os_view s) b ->
  finishes (bench_event fuel epfd pipeline b ev) s.
Proof using All.
  intros Hb. destruct ev as [events data]. unfold bench_event. destruct (_ <=? _); [done|].
  unfold load. destruct (0 <=? _); [|done].
  destruct (be_clients b !! Z.to_nat (u32 data)) as [cl|] eqn:Hcl; [|done].
  apply finishes_bind; [done|]. intros x s0 [= <- <-]. destruct (cl_alive cl) eqn:Ha; [|done].
  destruct (bench_moves _ _ (pingpong_echoes pipeline fuel) _ _ _ _ _ _ _ _ Hb Hcl Ha) as (Hfd & Hsh & n & Hlive & _). cbn [negb]. apply finishes_bind.
  - destruct (negb _); [|done]. apply finishes_bind.
    + pose proof (owed_bound _ Hsh). eapply drain_reads_finishes; try done; [by vm_compute|lia].
    + intros [[ok cl1] c1] s1 _. destruct ok; [done|]. apply finishes_bind; [|done].
      destruct (cl_alive cl1); [|done]. by apply finishes_sys.
  - intros [[[go cl1] c1] a1] s1 E1. apply finishes_bind; [|intros [[cl2 e2] a2] s2 _; apply finishes_bind; [|done]].
    + destruct go; [|done]. destruct (cl_alive cl1 && _) eqn:Hgo; [|done]. apply finishes_bind.
      * apply fill_finishes. destruct (negb _).
        -- pose proof (safe_ok _ _ _ _ _ (event_reads_spec pipeline fuel cl (be_completed b) (be_active b) n s Ha Hfd Hlive Hsh) E1)
             as (k & k' & _ & _ & Ht & _). exact (to_shell _ _ _ _ Ht).
        -- by injection E1 as <- <- <- <-.
      * intros [[ok cl2] e2] s2 _. destruct ok; [done|]. by apply finishes_bind; [apply drop_client_finishes|].
    + unfold finishes, pure, store. by destruct (in_range _ _ _).
Qed.

Lemma refill_finishes epfd clients errors active s :
  Forall (shell (Ecl:=laws)) clients -> finishes (refill fuel epfd pipeline clients errors active) s.
Proof using All.
  intros Hc. revert errors active s. induction Hc as [|cl clients Hsh _ IH]; intros errors active s; [done|].
  cbn [refill]. apply finishes_bind.
  - destruct (cl_alive cl); [|done]. cbn [negb]. destruct (_ <=? _); [done|].
    apply finishes_bind; [by apply fill_finishes|]. intros [[ok cl'] e'] s' _. destruct ok; [done|].
    by apply finishes_bind; [apply drop_client_finishes|].
  - intros [[cl' e'] a'] s' _. apply finishes_bind; [apply IH|]. by intros [[? ?] ?] s2 _.
Qed.

Lemma round_finishes base hs lost epfd evs b s :
  bench_ok (pingpong fuel pipeline) (entry_ok (Ecl:=laws) ping_packet) (tally be_completed) base hs lost (os_view s) b ->
  finishes (bench_round fuel pipeline epfd evs b) s.
Proof using All.
  intros Hb. apply finishes_bind.
  - revert b s Hb. induction evs as [|ev evs IH]; intros b s Hb; [done|]. apply finishes_bind; [by eapply event_finishes|].
    intros b1 s1 E. apply IH. exact (safe_ok _ _ _ _ _ (bench_event_spec pipeline Hpipe fuel base hs lost epfd b ev s Hb) E).
  - intros b2 s2 E2. apply finishes_bind; [|by intros [[? ?] ?] s3 _]. apply refill_finishes.
    pose proof (safe_ok _ _ _ _ _ (bench_events_spec pipeline Hpipe fuel base hs lost epfd b evs s Hb) E2) as Hb2.
    exact (bench_shells _ _ _ _ _ _ _ _ Hb2).
Qed.

Lemma forward_fill turns client fails : forward remaining (fill_pipeline turns client pipeline fails).
Proof using All. revert client. induction turns; intros client; cbn [fill_pipeline]; forward. Qed.
#[local] Hint Resolve forward_fill : forward.

Lemma forward_round epfd evs b : forward remaining (bench_round fuel pipeline epfd evs b).
Proof using All.
  apply forward_bind; [|intros b2; apply forward_bind; [|intros [[? ?] ?]; forward]].
  - revert b. induction evs; intros b; cbn [bench_events]; [forward|].
    unfold bench_event, event_reads, event_writes. forward.
  - generalize (be_errors b2), (be_active b2). induction (be_clients b2) as [|c cs IHc]; intros e a; cbn [refill]; forward.
Qed.

Lemma main_finishes rounds host_ok calloc_ok junk junk' client_count duration s :
  length junk = 8%nat -> length junk' = 8%nat -> (remaining s <= rounds)%nat ->
  finishes (main rounds fuel host_ok calloc_ok junk junk' client_count pipeline duration) s.
Proof using All.
  intros Hj Hj' Hr. unfold main. destruct (_ || _); [done|]. destruct calloc_ok; [|done]. cbn [negb].
  apply finishes_bind; [|done].
  apply (campaign_finishes (L:=pingpong_laws fuel) (pingpong fuel pipeline) remaining Hclock); try done.
  - apply ack_strict_finishes.
  - apply forward_round.
  - apply round_finishes.
  - lia.
Qed.
End Whole.

(** ** Properties *)

(** C12. The benchmark's report is right.  Whatever the network and the peers do,
    [main] has no undefined behaviour, and if it reports, then the connections it
    counts are distinct and new, and on each of them, still open or given up: the
    bytes sent are CONNECT, one PING per completed and per outstanding message and
    at most a part of one more; the bytes received are the acknowledgement, one
    PONG per completed and per surplus message and the bytes in [rx], which never
    overflows.  The reported sum is that of the messages completed on these
    connections, and the aggregate is at most that sum.  With an honest peer no
    live client has counted an error. *)
Theorem benchmark_books `{OsLaws} (rounds fuel : nat) (host_ok calloc_ok : bool) (junk junk' : list Z)
  (client_count pipeline duration : Z) (s : ost)
  (Hp : 0 < pipeline < 2 ^ 32) (Hj : length junk = 8%nat) (Hj' : length junk' = 8%nat) :
  match main rounds fuel host_ok calloc_ok junk junk' client_count pipeline duration s with
  | Ok (Some rep, s') => accounts pipeline (v_open (os_view s)) (os_view s') rep
  | Ok (None, _) | NoFuel => True
  | Undef => False
  end.
Proof.
  pose proof (main_spec pipeline Hp rounds fuel host_ok calloc_ok junk junk' client_count duration s Hj Hj') as Hs.
  unfold safe in Hs. by destruct (main _ _ _ _ _ _ _ _ _ s) as [[[rep|] s']| |]; [destruct Hs|..].
Qed.

(** C13. The benchmark as a whole.  When [main] returns, every descriptor it opened
    has been closed, on all its paths.  It does return, with [8 * pipeline + 1]
    turns for the loops of a client, when no signal interrupts a call and no
    blocking call of the handshake waits forever, the peers are honest and the
    clock advances. *)
Theorem benchmark_runs `{OsLaws} (rounds fuel : nat) (host_ok calloc_ok : bool) (junk junk' : list Z)
  (client_count pipeline duration : Z) (s : ost)
  (Hp : 0 < pipeline < 2 ^ 32) (Hj : length junk = 8%nat) (Hj' : length junk' = 8%nat) :
  match main rounds fuel host_ok calloc_ok junk junk' client_count pipeline duration s with
  | Ok (r, s') => v_open (os_view s') = v_open (os_view s)
  | Undef => False
  | NoFuel => ~ (honest ping_packet /\ undisturbed /\ 8 * pipeline < Z.of_nat fuel /\
      exists remaining, clock remaining /\ (remaining s <= rounds)%nat)
  end.
Proof.
  pose proof (main_spec pipeline Hp rounds fuel host_ok calloc_ok junk junk' client_count duration s Hj Hj') as Hs.
  unfold safe in Hs. destruct (main _ _ _ _ _ _ _ _ _ s) as [[r s']| |] eqn:E; [by destruct Hs|done|].
  intros (Hh & Hu & Hf & remaining & Hck & Hr).
  by apply (main_finishes pipeline Hp remaining Hck fuel Hh Hu Hf rounds host_ok calloc_ok junk junk'
    client_count duration s Hj Hj' Hr).
Qed.

(** ** Witnesses *)

Section Witness.

(** A peer that answers CONNECT and every PING. *)
Definition ponger (a : list Z) : list Z :=
  match (length a / 8)%nat with O => [] | S n => ack_bytes ++ times n pong_bytes end.

Lemma ponger_mono a b : ponger a `prefix_of` ponger (a ++ b).
Proof.
  unfold ponger. assert (Hle : (length a / 8 <= length (a ++ b) / 8)%nat).
  { apply Nat.Div0.div_le_mono. rewrite length_app. lia. }
  destruct (length a / 8)%nat as [|n]; [apply prefix_nil|].
  destruct (length (a ++ b) / 8)%nat as [|m]; [lia|]. apply prefix_app.
  replace m with (n + (m - n))%nat by lia. rewrite times_add. by eexists.
Qed.

Lemma ponger_bytes a : Forall is_byte (ponger a).
Proof.
  unfold ponger. destruct (_ / _)%nat as [|n]; [constructor|]. apply Forall_app. split; [by repeat constructor|].
  apply times_bytes. by repeat constructor.
Qed.

#[local] Instance pong_peer : Peer := {| peer := ponger; peer_room := None; peer_connect := None; peer_mono := ponger_mono; peer_bytes := ponger_bytes |}.

Lemma ponger_honest : honest ping_packet.
Proof.
  intros [s Hs] fd n rest Hsent Hrcvd. exists n. split; [done|]. pose proof (nk_peer _ Hs fd) as Hp.
  cbn [os_view net_laws proj1_sig] in *. rewrite Hsent, Hrcvd in Hp. cbn [peer pong_peer] in Hp. unfold ponger in Hp.
  replace (length (CONNECT_BYTES ++ times n ping_packet) / 8)%nat with (S n) in Hp.
  - by apply prefix_app_inv in Hp.
  - pose proof (times_zlen n ping_packet) as Hz. unfold zlen in Hz. change (length ping_packet) with 8%nat in Hz.
    rewrite length_app. change (length CONNECT_BYTES) with 8%nat.
    replace (8 + length (times n ping_packet))%nat with (S n * 8)%nat by lia. by rewrite Nat.div_mul.
Qed.

(** Two clients, a pipeline of three, four rounds: all PINGs come back. *)
Lemma benchmark_books_witness :
  returned (main 4 30 true true (replicate 8 0) (replicate 8 0) 2 3 1 (lab 2 4))
    = Some (Some (Report 18 18 0 2 2 true)) /\
  match main 4 30 true true (replicate 8 0) (replicate 8 0) 2 3 1 (lab 2 4) with
  | Ok (Some rep, s') => accounts 3 (v_open (os_view (lab 2 4))) (os_view s') rep
  | Ok (None, _) | NoFuel => True
  | Undef => False
  end.
Proof.
  split; [by vm_compute|]. apply (benchmark_books 4 30 true true (replicate 8 0) (replicate 8 0) 2 3 1 (lab 2 4)); [lia|done..].
Defined.

Lemma benchmark_runs_witness :
  (honest ping_packet /\ undisturbed /\ 8 * 3 < Z.of_nat 30 /\
     exists remaining, clock remaining /\ (remaining (lab 2 4) <= 4)%nat) /\
  match main 4 30 true true (replicate 8 0) (replicate 8 0) 2 3 1 (lab 2 4) with
  | Ok (r, s') => v_open (os_view s') = v_open (os_view (lab 2 4))
  | Undef => False
  | NoFuel => ~ (honest ping_packet /\ undisturbed /\ 8 * 3 < Z.of_nat 30 /\
      exists remaining, clock remaining /\ (remaining (lab 2 4) <= 4)%nat)
  end.
Proof.
  split.
  - refine (conj ponger_honest (conj net_undisturbed (conj _ (ex_intro _ net_clock (conj net_clock_ok _))))); [lia|done].
  - apply (benchmark_runs 4 30 true true (replicate 8 0) (replicate 8 0) 2 3 1 (lab 2 4)); [lia|done..].
Defined.
End Witness.
