(* ===== verification/Compose.v ===== *)
(** * Compose: the clients of tests/ against the server

    [linked] is a TCP connection between a client's descriptor and a connection
    object of the server: each side has received a prefix of what the other has
    sent.  For every state the server can reach, [clients_served] says what it has
    sent in terms of what it has received; here that is turned into what the
    client receives in terms of what it has sent.

    With the header size of the wire format (enums of one byte), a server that has
    acknowledged CONNECT is the honest peer the benchmark of PingPong relies on.
    With the header size of gcc's enums, it never answers the eight bytes of
    CONNECT, and no client of tests/ gets past its handshake. *)

From S2P Require Import Prelude Core RingBuffer Packet Parser Protocol Machine Connection World Reactor.
From S2P Require Import Sim SocketUtils Enqueue Preserve ReactorSpec EventLoop Service History Client Bench ClientSim Echo PingPong.
#[local] Open Scope Z_scope.

(** ** The packets in a stream of headers *)

Section Streams.
Context `{Abi}.
Implicit Types (h : vr_packet_header_t) (k : vr_packet_t).

Lemma parsed_packet h payload e :
  sizeof_vr_packet_header_t = 8 -> header_fits h -> header_valid h = true ->
  zlen payload = h_payload_len h -> Forall is_byte payload -> Forall is_byte e ->
  parsed zeroed_parser (header_bytes h ++ payload ++ e)
  = after [Packet h (if h_payload_len h =? 0 then None else Some payload)] (parsed zeroed_parser e).
Proof.
  intros H8 Hf Hv Hl Hp He. rewrite (assoc_L (++)).
  set (k := Packet h _). rewrite (parsed_success _ _ _ zeroed_parser [] k); [done|done| |done|].
  - apply Forall_app. split; [by apply header_bytes_bytes|done].
  - pose proof (parse_spec_packet mem_ok h payload [] [] Hf Hv Hl) as E. rewrite app_nil_r in E. apply E; [|done].
    by rewrite H8.
Qed.

(** The packets in [q]. *)
Definition packets_in (q : list Z) : list vr_packet_t := (parsed zeroed_parser q).1.1.1.

Lemma packets_in_packet h payload e :
  sizeof_vr_packet_header_t = 8 -> header_fits h -> header_valid h = true ->
  zlen payload = h_payload_len h -> Forall is_byte payload -> Forall is_byte e ->
  packets_in (header_bytes h ++ payload ++ e)
  = Packet h (if h_payload_len h =? 0 then None else Some payload) :: packets_in e.
Proof.
  intros. unfold packets_in. rewrite parsed_packet by done. by destruct (parsed zeroed_parser e) as [[[? ?] ?] ?].
Qed.

Lemma packets_in_nil : packets_in [] = [].
Proof.
  unfold packets_in, parsed. cbn [stream_spec length]. unfold parse_spec. cbn [ps_state zeroed_parser].
  pose proof sizeof_header_range. by rewrite (proj2 (Z.ltb_lt (zlen _) _)) by (unfold zlen; simpl; lia).
Qed.

(** A packet without payload, as the clients send and the server answers them. *)
Definition bare (type : vr_packet_type_t) : vr_packet_t := Packet (client_header (pkt_int type) 0) None.

Lemma client_header_ok type payload_len :
  0 <= payload_len < 65536 ->
  header_fits (client_header (pkt_int type) payload_len) /\
  header_valid (client_header (pkt_int type) payload_len) = true.
Proof.
  intros Hl. split; [split; simpl; unfold is_byte; try done|]; by destruct type.
Qed.

Lemma packets_in_bare type e :
  sizeof_vr_packet_header_t = 8 -> Forall is_byte e ->
  packets_in (packet_bytes (bare type) ++ e) = bare type :: packets_in e.
Proof.
  intros H8 He. destruct (client_header_ok type 0) as [Hf Hv]; [lia|].
  exact (packets_in_packet (client_header (pkt_int type) 0) [] e H8 Hf Hv eq_refl (Forall_nil_2 _) He).
Qed.

Lemma packets_in_pings n :
  sizeof_vr_packet_header_t = 8 ->
  packets_in (CONNECT_BYTES ++ times n ping_packet) = bare VR_PKT_CONNECT :: replicate n (bare VR_PKT_PING).
Proof.
  intros H8. assert (Hb : forall m, Forall is_byte (times m ping_packet)).
  { intros m. induction m as [|m IH]; [constructor|]. rewrite times_S. apply Forall_app. split; [|done].
    rewrite ping_packet_header. apply header_bytes_bytes, client_header_ok. lia. }
  etransitivity; [exact (packets_in_bare VR_PKT_CONNECT _ H8 (Hb n))|]. f_equal.
  induction n as [|n IH]; [apply packets_in_nil|]. rewrite times_S.
  etransitivity; [exact (packets_in_bare VR_PKT_PING _ H8 (Hb n))|]. by rewrite IH.
Qed.

(** What has been taken from a prefix of a stream begins the packets of the stream. *)
Lemma taken_prefix input pks parser q stream :
  taken input pks parser q -> input `prefix_of` stream -> Forall is_byte stream ->
  pks `prefix_of` packets_in stream.
Proof.
  intros Ht [e ->] Hb. apply Forall_app in Hb as [_ He]. unfold packets_in. rewrite (Ht e He).
  destruct (parsed parser (q ++ e)) as [[[pks' ?] ?] ?]. by exists pks'.
Qed.
End Streams.

(** ** The answers *)

Lemma answers_pings n :
  answers (bare VR_PKT_CONNECT :: replicate n (bare VR_PKT_PING))
  = bare VR_PKT_CONNECT_ACK :: replicate n (bare VR_PKT_PONG).
Proof.
  unfold answers. cbn. f_equal. induction n as [|n IH]; [done|]. cbn. by rewrite IH.
Qed.

Section Link.
Context `{Libc} `{Abi}.
Hypothesis H8 : sizeof_vr_packet_header_t = 8.

(** Without padding, a frame is the packet. *)
Lemma frames_packets kept frames : Forall2 frame kept frames -> concat frames = concat (packet_bytes <$> kept).
Proof.
  induction 1 as [|k bs kept frames (stale & Hl & ->) _ IH]; [done|]. rewrite H8 in Hl. cbn. rewrite IH.
  destruct stale as [|z stale]; [by rewrite app_nil_r|unfold zlen in Hl; simpl in Hl; lia].
Qed.

Lemma replicate_sublist {A} (x : A) xs n :
  sublist xs (replicate n x) -> xs = replicate (length xs) x /\ (length xs <= n)%nat.
Proof.
  intros Hs. split; [|apply sublist_length in Hs; by rewrite length_replicate in Hs].
  symmetry. apply replicate_as_Forall. split; [done|]. apply Forall_forall. intros y Hy.
  apply sublist_submseteq in Hs. apply (elem_of_submseteq _ _ _ Hy) in Hs.
  by apply elem_of_replicate in Hs as [-> _].
Qed.

Lemma prefix_pings pks n :
  pks `prefix_of` bare VR_PKT_CONNECT :: replicate n (bare VR_PKT_PING) ->
  pks = [] \/ exists m, (m <= n)%nat /\ pks = bare VR_PKT_CONNECT :: replicate m (bare VR_PKT_PING).
Proof.
  intros [e He]. destruct pks as [|k pks]; [by left|right]. injection He as <- He.
  destruct (replicate_sublist (bare VR_PKT_PING) pks n) as [E Hl]; [rewrite He; by apply sublist_inserts_r|].
  exists (length pks). split; [done|]. by f_equal.
Qed.

(** The acknowledgement alone. *)
Lemma only_ack kept got :
  sublist kept [bare VR_PKT_CONNECT_ACK] -> got `prefix_of` concat (packet_bytes <$> kept) -> (8 <= length got)%nat ->
  got = ack_bytes.
Proof.
  intros Hk [e He] Hl. apply sublist_cons_r in Hk as [Hk|(kept' & -> & Hk)]; apply sublist_nil_r in Hk as ->.
  - apply (f_equal length) in He. rewrite length_app in He. simpl in He. lia.
  - pose proof (f_equal length He) as Hlen. rewrite length_app in Hlen. simpl in Hlen.
    destruct e; [|simpl in Hlen; lia]. by rewrite app_nil_r in He.
Qed.

(** What the client finds behind the acknowledgement. *)
Lemma acked_pongs kept m output rest :
  sublist kept (bare VR_PKT_CONNECT_ACK :: replicate m (bare VR_PKT_PONG)) ->
  output `prefix_of` concat (packet_bytes <$> kept) -> ack_bytes ++ rest `prefix_of` output ->
  rest `prefix_of` times m pong_bytes.
Proof.
  intros Hk Ho Hr. assert (Hp : ack_bytes ++ rest `prefix_of` concat (packet_bytes <$> kept)) by (by etransitivity).
  clear Ho Hr. apply sublist_cons_r in Hk as [Hk|(kept' & -> & Hk)].
  - exfalso. apply replicate_sublist in Hk as [E _]. rewrite E in Hp. destruct (length kept) as [|n].
    { apply prefix_nil_inv in Hp. done. }
    destruct Hp as [e He]. discriminate He.
  - apply replicate_sublist in Hk as [E Hl]. rewrite E in Hp. cbn in Hp. do 8 (apply prefix_cons_inv_2 in Hp).
    etransitivity; [exact Hp|]. rewrite fmap_replicate. change (concat (replicate _ _)) with (times (length kept') pong_bytes).
    replace m with (length kept' + (m - length kept'))%nat by lia. rewrite times_add. by eexists.
Qed.
End Link.

(** A connection between descriptor [fd] of a client that sees [cv] and the
    object [c] of the server in state [w]: TCP delivers in order and without
    loss, and may be late. *)
Record linked `{Libc} `{Abi} `{KernelLaws} (cv : kview) (fd : Z) (w : world) (c : vr_connection_t) : Prop := {
  lk_up : (traffic (view w) (c_fd c)).1 `prefix_of` (traffic cv fd).2;
  lk_down : (traffic cv fd).1 `prefix_of` (traffic (view w) (c_fd c)).2
}.

Section Serve.
Context `{Libc} `{Abi} `{KernelLaws}.
Hypothesis Hresp : allocates sizeof_vr_packet_t.

(** What the server can have sent to a client: the answers to a prefix of the
    packets the client has sent, some of them dropped. *)
Lemma linked_answers port w0 lst w l c cv fd :
  idle w0 -> reachable port w0 lst w -> l <> lst -> w_heap w !! l = Some c ->
  linked cv fd w c -> Forall is_byte (traffic cv fd).2 ->
  exists pks kept frames,
    taken (traffic (view w) (c_fd c)).1 pks (c_parser c) (ring_contents (c_read_buf c)) /\
    pks `prefix_of` packets_in (traffic cv fd).2 /\
    sublist kept (answers pks) /\ Forall2 frame kept frames /\
    (traffic (view w) (c_fd c)).2 `prefix_of` concat frames.
Proof.
  intros Hi Hr Hl Hc [Hup Hdown] Hb. destruct (reachable_ok Hresp port w0 lst w Hi Hr) as [_ Hh].
  destruct (Hh l c Hl Hc) as (pks & kept & frames & [Hpa Hby Ht Hf Hpr Hk Hfr Hsz Ho] & _).
  exists pks, kept, frames. split_and!; [done|by eapply taken_prefix|done|done|].
  rewrite <-Ho. by eexists.
Qed.

(** With memory, and answers that fit the ring together, what the server has
    sent and what waits in its ring are the answers to all it has received. *)
Lemma answered_all port w0 lst w l c :
  idle w0 -> reachable port w0 lst w -> l <> lst -> w_heap w !! l = Some c ->
  Forall is_byte (traffic (view w) (c_fd c)).1 ->
  (forall n, allocates n) -> few (packets_in (traffic (view w) (c_fd c)).1) ->
  exists frames, Forall2 frame (answers (packets_in (traffic (view w) (c_fd c)).1)) frames /\
    (traffic (view w) (c_fd c)).2 ++ ring_contents (c_write_buf c) = concat frames.
Proof.
  intros Hi Hr Hl Hc Hb Ha Hfew. destruct (reachable_ok Hresp port w0 lst w Hi Hr) as [_ Hh].
  destruct (Hh l c Hl Hc) as (pks & kept & frames & Hex & Hall). pose proof Hex as [_ _ Ht _ _ _ Hfr _ Ho].
  destruct (taken_prefix _ _ _ _ _ Ht (reflexivity _) Hb) as [more Hmore].
  destruct (Hall Ha) as [-> Hs]; [right; rewrite Hmore in Hfew; by eapply few_app|].
  exists frames. split; [|done]. unfold packets_in. by rewrite (explained_settled _ _ _ _ _ _ Hex Hs).
Qed.
End Serve.

(** ** Properties *)

(** C29. The clients' handshake, with the strict check of throughput_pingpong.c and
    packet_throughput.c or the lenient one of throughput_c.c.  It has no undefined
    behaviour.  When it returns a descriptor, that descriptor is new, exactly CONNECT
    has been sent through it and exactly eight bytes received: the acknowledgement,
    or with the lenient check eight bytes that begin like it.  When it returns -1,
    the open descriptors are those from before.  Descriptors that were open are not
    touched.  It returns, with eight turns for its loops, if no signal interrupts a
    call and no blocking call waits forever. *)
Theorem connection_established `{OsLaws} (strict : bool) (fuel : nat) (host_ok : bool) (junk junk' : list Z) (s : ost)
  (Hj : length junk = 8%nat) (Hj' : length junk' = 8%nat) :
  match establish_connection (if strict then ack_strict else ack_lenient) fuel host_ok junk junk' s with
  | Ok (r, s') =>
      (forall fd', fd' ∈ v_open (os_view s) -> traffic (os_view s') fd' = traffic (os_view s) fd') /\
      match r with
      | Some fd => (fd ∉ v_open (os_view s)) /\ v_open (os_view s') = {[fd]} ∪ v_open (os_view s) /\
          exists response, traffic (os_view s') fd = (response, CONNECT_BYTES) /\ length response = 8%nat /\
            take 4 response = take 4 ack_bytes /\ (strict = true -> response = ack_bytes)
      | None => v_open (os_view s') = v_open (os_view s)
      end
  | Undef => False
  | NoFuel => ~ (undisturbed /\ (8 <= fuel)%nat)
  end.
Proof.
  set (check := if strict then ack_strict else ack_lenient).
  assert (Htotal : forall response, length response = 8%nat -> exists b, check response = Ok b)
    by (unfold check; destruct strict; [apply ack_strict_total|apply ack_lenient_total]).
  pose proof (establish_spec check fuel host_ok junk junk' s Hj Hj' Htotal) as Hs. unfold safe in Hs.
  destruct (establish_connection _ _ _ _ _ s) as [[r s']| |] eqn:E; [|done|].
  - destruct Hs as [Hq Hr]. split; [done|]. destruct r as [fd|]; [|done].
    destruct Hr as (Hn & Ho & response & Hl & Hb & Hc & Ht). split_and!; [done|done|]. exists response.
    split_and!; [done|done|..]; unfold check in Hc; destruct strict; try done.
    + rewrite ack_strict_iff in Hc by done. by injection Hc as ->%bool_decide_eq_true.
    + rewrite ack_lenient_iff in Hc by done. by injection Hc as ?%bool_decide_eq_true.
    + rewrite ack_strict_iff in Hc by done. by injection Hc as ->%bool_decide_eq_true.
  - intros [Hu Hf]. apply (establish_finishes check fuel host_ok junk junk' s Hu Hj Hj' Hf); [|done].
    unfold check. destruct strict; [apply ack_strict_finishes|apply ack_lenient_finishes].
Qed.

Lemma sizeof_header_8 `{Abi} : sizeof_enum = 1 <-> sizeof_vr_packet_header_t = 8.
Proof. destruct sizeof_header_cases as [[E ->]|[[E ->]|[E ->]]]; rewrite E; lia. Qed.

(** C10. The server is the peer the benchmark relies on.  Let enums have one byte, so
    that the server's header has the eight bytes of the wire format, and let a
    client be linked to a connection of a server in any state it can reach.  If
    the client has sent CONNECT, the eight bytes it waits for are those that both
    handshakes of tests/ accept; if it has sent CONNECT and [n] PINGs and was
    acknowledged, what follows the acknowledgement is PONGs, at most [n] of them,
    and nothing else, whichever answers the server had to drop.  And the answers do
    come: once the server has received CONNECT and the [n] PINGs, what it has sent
    and what waits in its outgoing ring are the acknowledgement and [n] PONGs, if no
    request for memory is refused and the [n + 1] answers fit the ring.  All of it
    where a response object can be allocated, which the server does not check. *)
Theorem server_honest `{Libc} `{Abi} `{KernelLaws} (port : Z) (w0 : world) (lst : loc) (w : world) (l : loc)
  (c : vr_connection_t) (cv : kview) (fd : Z) (n : nat)
  (Hsize : sizeof_enum = 1) (Ha : allocates sizeof_vr_packet_t) (Hidle : idle w0)
  (Hr : reachable port w0 lst w) (Hl : l <> lst) (Hc : w_heap w !! l = Some c)
  (Hlink : linked cv fd w c) (Hsent : (traffic cv fd).2 = CONNECT_BYTES ++ times n ping_packet) :
  let got := (traffic cv fd).1 in
  (n = 0%nat -> (8 <= length got)%nat -> ack_strict got = Ok true /\ ack_lenient got = Ok true) /\
  (forall rest, got = ack_bytes ++ rest -> exists m, (m <= n)%nat /\ rest `prefix_of` times m pong_bytes) /\
  ((forall k, allocates k) -> 8 * (Z.of_nat n + 1) <= VR_CONNECTION_BUFFER_MAX_SIZE ->
   (traffic (view w) (c_fd c)).1 = (traffic cv fd).2 ->
   (traffic (view w) (c_fd c)).2 ++ ring_contents (c_write_buf c) = ack_bytes ++ times n pong_bytes).
Proof.
  apply sizeof_header_8 in Hsize as H8.
  assert (Hbytes : Forall is_byte (CONNECT_BYTES ++ times n ping_packet)).
  { apply Forall_app. split; [by repeat constructor|]. unfold times. apply Forall_concat, Forall_replicate.
    by repeat constructor. }
  rewrite <-Hsent in Hbytes. cbv zeta.
  destruct (linked_answers Ha port w0 lst w l c cv fd Hidle Hr Hl Hc Hlink Hbytes) as (pks & kept & frames & _ & Hp & Hk & Hf & Hg).
  rewrite (frames_packets H8 _ _ Hf) in Hg. apply (transitivity (lk_down _ _ _ _ Hlink)) in Hg. rewrite Hsent, packets_in_pings in Hp by done.
  assert (Hm : exists m, (m <= n)%nat /\ sublist kept (bare VR_PKT_CONNECT_ACK :: replicate m (bare VR_PKT_PONG))).
  { destruct (prefix_pings pks n Hp) as [->|(m & Hm & ->)]; [|by exists m; rewrite <-answers_pings].
    apply sublist_nil_r in Hk as ->. exists 0%nat. split; [lia|apply sublist_nil_l]. }
  destruct Hm as (m & Hm & Hkm). split_and!.
  - intros -> H8l. assert (m = 0%nat) as -> by lia.
    assert (Hack : (traffic cv fd).1 = ack_bytes); [|by rewrite Hack].
    apply (only_ack kept); [done|done|done].
  - intros rest E. exists m. split; [done|]. by apply (acked_pongs kept m (traffic cv fd).1); [done|done|rewrite E].
  - intros Hall Hfit E. rewrite <-E in Hsent, Hbytes. assert (Hpk : packets_in (traffic (view w) (c_fd c)).1 = bare VR_PKT_CONNECT :: replicate n (bare VR_PKT_PING))
      by (by rewrite Hsent, packets_in_pings).
    destruct (answered_all Ha port w0 lst w l c Hidle Hr Hl Hc Hbytes Hall) as (fs & Hfs & ->).
    + unfold few. rewrite Hpk, answers_pings, H8. unfold zlen. cbn [length]. rewrite length_replicate. lia.
    + rewrite (frames_packets H8 _ _ Hfs), Hpk, answers_pings. cbn [fmap list_fmap concat].
      by rewrite fmap_replicate.
Qed.

(** Too few bytes for a header hold no packet. *)
Lemma packets_in_short `{Abi} q : zlen q < sizeof_vr_packet_header_t -> packets_in q = [].
Proof.
  intros Hq. unfold packets_in, parsed. cbn [stream_spec]. unfold parse_spec. cbn [ps_state zeroed_parser].
  by rewrite (proj2 (Z.ltb_lt _ _) Hq).
Qed.

(** C11. With wider enums the handshake never completes.  If enums have two or four
    bytes, as gcc makes them, a server in any state it can reach has sent nothing
    to a client that has sent CONNECT and waits for the answer: the eight bytes
    are less than the header the parser waits for. *)
Theorem handshake_stalls `{Libc} `{Abi} `{KernelLaws} (port : Z) (w0 : world) (lst : loc) (w : world) (l : loc)
  (c : vr_connection_t) (cv : kview) (fd : Z)
  (Hsize : sizeof_enum <> 1) (Ha : allocates sizeof_vr_packet_t) (Hidle : idle w0)
  (Hr : reachable port w0 lst w) (Hl : l <> lst) (Hc : w_heap w !! l = Some c)
  (Hlink : linked cv fd w c) (Hsent : (traffic cv fd).2 = CONNECT_BYTES) :
  (traffic cv fd).1 = [] /\ (traffic (view w) (c_fd c)).2 = [].
Proof.
  assert (Hbytes : Forall is_byte (traffic cv fd).2) by (rewrite Hsent; by repeat constructor).
  destruct (linked_answers Ha port w0 lst w l c cv fd Hidle Hr Hl Hc Hlink Hbytes) as (pks & kept & frames & _ & Hp & Hk & Hf & Hg).
  rewrite Hsent, packets_in_short in Hp.
  2:{ change (zlen CONNECT_BYTES) with 8. destruct sizeof_header_cases as [[E ->]|[[E ->]|[E ->]]]; [done|lia|lia]. }
  apply prefix_nil_inv in Hp as ->. apply sublist_nil_r in Hk as ->. apply Forall2_nil_inv_l in Hf as ->.
  apply prefix_nil_inv in Hg as Ho. split; [|done]. pose proof (lk_down _ _ _ _ Hlink) as Hd. rewrite Ho in Hd.
  by apply prefix_nil_inv in Hd.
Qed.

(** ** Witnesses *)

Section Witness.
#[local] Existing Instance sim_kernel.
#[local] Existing Instance sim_laws.
#[local] Instance libc_170 : Libc := libc_fill 170.
#[local] Existing Instance pong_peer.

(** The client of the benchmark dials. *)
Lemma connection_established_witness :
  returned (establish_connection ack_strict 8 true (replicate 8 0) (replicate 8 0) (lab 1 1)) = Some (Some 3) /\
  match establish_connection (if true then ack_strict else ack_lenient) 8 true (replicate 8 0) (replicate 8 0) (lab 1 1) with
  | Ok (r, s') =>
      (forall fd', fd' ∈ v_open (os_view (lab 1 1)) -> traffic (os_view s') fd' = traffic (os_view (lab 1 1)) fd') /\
      match r with
      | Some fd => (fd ∉ v_open (os_view (lab 1 1))) /\
          v_open (os_view s') = {[fd]} ∪ v_open (os_view (lab 1 1)) /\
          exists response, traffic (os_view s') fd = (response, CONNECT_BYTES) /\ length response = 8%nat /\
            take 4 response = take 4 ack_bytes /\ (true = true -> response = ack_bytes)
      | None => v_open (os_view s') = v_open (os_view (lab 1 1))
      end
  | Undef => False
  | NoFuel => ~ (undisturbed /\ (8 <= 8)%nat)
  end.
Proof.
  refine (conj _ (connection_established true 8 true (replicate 8 0) (replicate 8 0) (lab 1 1) eq_refl eq_refl)).
  by vm_compute.
Defined.

(** A server, and a client that sends [rx] once it is accepted. *)
Definition dial_world (rx : list Z) : world :=
  World (sim_start 3 [SockaddrIn AF_INET 1 1] {[5 := rx]} ∅ {[5 := 1000]}
      [{[4 := EPOLLIN]}; {[5 := EPOLLIN]}; {[5 := EPOLLOUT]}; ∅] : kst)
    (Proc 1 1 0) ∅ (Manager (Some [None; None]) 0 2) (Reactor (-1) [] 0).

Lemma dial_idle rx : idle (dial_world rx).
Proof. split; [done|]. constructor; [done|done|simpl; lia|done]. Qed.

(** Start-up, and three rounds. *)
Definition dial_1 `{Abi} rx : world := state_of (reactor_bootstrap_listener 22409 (dial_world rx)).
Definition dial_2 `{Abi} rx : world := state_of (loop_round 5 (dial_1 rx)).
Definition dial_3 `{Abi} rx : world := state_of (loop_round 5 (dial_2 rx)).
Definition dial_4 `{Abi} rx : world := state_of (loop_round 5 (dial_3 rx)).

Lemma dial_reachable `{Abi} rx :
  result_of (reactor_bootstrap_listener 22409 (dial_world rx)) = Some (VR_SUCCESS, Some 1%positive, 4) ->
  k_signalled (w_kern (dial_1 rx)) = false -> result_of (loop_round 5 (dial_1 rx)) = Some true ->
  k_signalled (w_kern (dial_2 rx)) = false -> result_of (loop_round 5 (dial_2 rx)) = Some true ->
  k_signalled (w_kern (dial_3 rx)) = false -> result_of (loop_round 5 (dial_3 rx)) = Some true ->
  reachable 22409 (dial_world rx) 1%positive (dial_4 rx).
Proof.
  intros H0 S1 R1 S2 R2 S3 R3.
  assert (Hrun : forall w, k_signalled (w_kern w) = false -> running w = Ok (true, w))
    by (intros w E; unfold running; by rewrite E).
  apply (reachable_round _ _ 5 _ (dial_3 rx)), (state_of_ok _ true); [|by apply Hrun|exact R3].
  apply (reachable_round _ _ 5 _ (dial_2 rx)), (state_of_ok _ true); [|by apply Hrun|exact R2].
  apply (reachable_round _ _ 5 _ (dial_1 rx)), (state_of_ok _ true); [|by apply Hrun|exact R1].
  by apply (reachable_start _ _ _ 4), (state_of_ok _ (VR_SUCCESS, Some 1%positive, 4)).
Qed.

(** A client's view of its descriptor 7. *)
Definition client_view (sent rcvd : list Z) : kview := KView {[7]} ∅ {[7 := sent]} {[7 := rcvd]}.

Lemma dial_allocates `{Abi} : allocates sizeof_vr_packet_t.
Proof. apply libc_fill_allocates. Qed.

Lemma dial_client `{Abi} rx got :
  c_fd <$> (w_heap (dial_4 rx) !! 2%positive) = Some 5 ->
  traffic (view (dial_4 rx)) 5 = (rx, got) ->
  exists c, w_heap (dial_4 rx) !! 2%positive = Some c /\ linked (client_view rx got) 7 (dial_4 rx) c.
Proof.
  intros (c & Hc & Hfd)%fmap_Some Ht. exists c. split; [done|].
  split; rewrite <-Hfd, Ht; cbn [fst snd]; by exists []; rewrite app_nil_r.
Qed.

(** CONNECT and a PING. *)
Definition greeting : list Z := CONNECT_BYTES ++ times 1 ping_packet.

Lemma short_reachable : @reachable _ short_enums_abi _ 22409 (dial_world greeting) 1%positive (@dial_4 short_enums_abi greeting).
Proof. apply (@dial_reachable short_enums_abi); by vm_compute. Qed.

Lemma short_client :
  exists c, w_heap (@dial_4 short_enums_abi greeting) !! 2%positive = Some c /\
    @linked _ short_enums_abi _ _ (client_view greeting (ack_bytes ++ pong_bytes)) 7 (@dial_4 short_enums_abi greeting) c.
Proof. apply (@dial_client short_enums_abi); by vm_compute. Qed.

(** They are answered with CONNECT_ACK and PONG. *)
Lemma server_honest_witness : exists m, (m <= 1)%nat /\ pong_bytes `prefix_of` times m pong_bytes.
Proof.
  destruct short_client as (c & Hc & Hlink).
  exact (proj1 (proj2 (@server_honest _ short_enums_abi _ _ 22409 (dial_world greeting) 1%positive _ 2%positive c _ 7 1
    eq_refl (@dial_allocates short_enums_abi) (dial_idle greeting) short_reachable ltac:(done) Hc Hlink eq_refl))
    pong_bytes eq_refl).
Defined.

Lemma gcc_reachable : @reachable _ gcc_abi _ 22409 (dial_world CONNECT_BYTES) 1%positive (@dial_4 gcc_abi CONNECT_BYTES).
Proof. apply (@dial_reachable gcc_abi); by vm_compute. Qed.

Lemma gcc_client :
  exists c, w_heap (@dial_4 gcc_abi CONNECT_BYTES) !! 2%positive = Some c /\
    @linked _ gcc_abi _ _ (client_view CONNECT_BYTES []) 7 (@dial_4 gcc_abi CONNECT_BYTES) c.
Proof. apply (@dial_client gcc_abi); by vm_compute. Qed.

(** CONNECT has arrived and is not answered. *)
Lemma handshake_stalls_witness :
  exists c, w_heap (@dial_4 gcc_abi CONNECT_BYTES) !! 2%positive = Some c /\
    (traffic (view (@dial_4 gcc_abi CONNECT_BYTES)) (c_fd c)).2 = [].
Proof.
  destruct gcc_client as (c & Hc & Hlink). exists c. refine (conj Hc _).
  exact (proj2 (@handshake_stalls _ gcc_abi _ _ 22409 (dial_world CONNECT_BYTES) 1%positive _ 2%positive c _ 7
    ltac:(done) (@dial_allocates gcc_abi) (dial_idle CONNECT_BYTES) gcc_reachable ltac:(done) Hc Hlink eq_refl)).
Defined.
End Witness.
