(* ===== verification/Workload.v ===== *)
(** * Workload: the PUBLISH packets of the benchmarks

    tests/packet_throughput.c and tests/throughput_c.c send PUBLISH packets with one
    payload over and over.  Here are the packet and its payload, and the packets
    the server finds in runs of them, cut off anywhere. *)

From S2P Require Import Prelude Core RingBuffer Packet Parser Protocol Machine Connection World Reactor.
From S2P Require Import Sim SocketUtils Enqueue Preserve ReactorSpec EventLoop Service History Client ClientSim Bench Echo PingPong Compose.
#[local] Open Scope Z_scope.

(** [payload[i] = (uint8_t)(i % 251)] *)
Definition make_payload (payload_size : Z) : list Z :=
  (fun i => u8 (Z.of_nat i mod 251)) <$> seq 0 (Z.to_nat payload_size).

Lemma make_payload_ok n : 0 <= n -> zlen (make_payload n) = n /\ Forall is_byte (make_payload n).
Proof.
  intros Hn. unfold make_payload, zlen. rewrite length_fmap, length_seq. split; [lia|].
  apply Forall_fmap, Forall_forall. intros i _. apply Z.mod_pos_bound. lia.
Qed.

(** A PUBLISH packet with this payload. *)
Definition publish_bytes (payload : list Z) : list Z :=
  header_bytes (client_header (pkt_int VR_PKT_PUBLISH) (zlen payload)) ++ payload.

Lemma publish_bytes_length payload : length (publish_bytes payload) = (8 + length payload)%nat.
Proof. unfold publish_bytes. by rewrite length_app, header_bytes_length. Qed.

Section Packets.
Context `{Abi}.

(** The PUBLISH packet as the server parses it. *)
Definition publish (payload : list Z) : vr_packet_t :=
  Packet (client_header (pkt_int VR_PKT_PUBLISH) (zlen payload))
    (if zlen payload =? 0 then None else Some payload).

Hypothesis H8 : sizeof_vr_packet_header_t = 8.
Context (payload : list Z).
Hypothesis Hlen : zlen payload < 65536.
Hypothesis Hpay : Forall is_byte payload.

Lemma publish_bytes_bytes : Forall is_byte (publish_bytes payload).
Proof.
  apply Forall_app. split; [|done]. apply header_bytes_bytes, client_header_ok.
  pose proof (zlen_nonneg payload). lia.
Qed.

Lemma packets_in_publishes n e :
  Forall is_byte e -> packets_in (times n (publish_bytes payload) ++ e) = replicate n (publish payload) ++ packets_in e.
Proof.
  intros He. induction n as [|n IH]; [done|]. rewrite times_S. unfold publish_bytes at 1. rewrite <-!app_assoc.
  destruct (client_header_ok VR_PKT_PUBLISH (zlen payload)) as [Hf Hv]; [pose proof (zlen_nonneg payload); lia|].
  rewrite packets_in_packet; try done.
  - simpl. by rewrite IH.
  - apply Forall_app. split; [apply times_bytes, publish_bytes_bytes|done].
Qed.

(** No packet in a part of one. *)
Lemma packets_in_part i : (i < length (publish_bytes payload))%nat -> packets_in (take i (publish_bytes payload)) = [].
Proof.
  intros Hi. rewrite publish_bytes_length in Hi. destruct (decide (i < 8)%nat) as [Hs|Hs].
  { apply packets_in_short. rewrite H8. unfold zlen. rewrite length_take. lia. }
  assert (Ht : take i (publish_bytes payload) = header_bytes (client_header (pkt_int VR_PKT_PUBLISH) (zlen payload))
    ++ take (i - 8) payload).
  { unfold publish_bytes. rewrite take_app, header_bytes_length, take_ge; [done|]. rewrite header_bytes_length. lia. }
  rewrite Ht. destruct (client_header_ok VR_PKT_PUBLISH (zlen payload)) as [Hf Hv]; [unfold zlen in *; lia|].
  unfold packets_in, parsed. cbn [stream_spec]. unfold parse_spec. cbn [ps_state zeroed_parser]. rewrite H8.
  rewrite (proj2 (Z.ltb_ge _ 8)) by (unfold zlen; rewrite length_app, header_bytes_length; lia).
  rewrite header_of_bytes_app, header_of_bytes_bytes, Hv by (rewrite ?header_bytes_length; done || lia).
  cbn [client_header h_payload_len]. rewrite (proj2 (Z.eqb_neq _ 0)) by (unfold zlen; lia).
  unfold spec_payload. cbn [ps_header h_payload_len client_header].
  rewrite (proj2 (Z.ltb_lt _ _)); [done|]. unfold zlen. rewrite length_drop, length_app, header_bytes_length, length_take.
  cbn [h_payload_len client_header]. lia.
Qed.

Lemma take_times i n (bs : list Z) :
  (0 < length bs)%nat -> (i < n * length bs)%nat ->
  take i (times n bs) = times (i / length bs) bs ++ take (i mod length bs) bs.
Proof.
  intros Hb Hi. pose proof (Nat.div_mod i (length bs) ltac:(lia)) as Hdm.
  pose proof (Nat.mod_upper_bound i (length bs) ltac:(lia)) as Hmod.
  assert (Hq : (i / length bs < n)%nat) by (apply Nat.Div0.div_lt_upper_bound; lia).
  replace n with (i / length bs + S (n - S (i / length bs)))%nat by lia. rewrite times_add, times_S.
  assert (Hl : length (times (i / length bs) bs) = (i / length bs * length bs)%nat).
  { pose proof (times_zlen (i / length bs) bs) as Hz. unfold zlen in Hz. lia. }
  rewrite take_app, take_ge, Hl by lia. f_equal.
  replace (i - i / length bs * length bs)%nat with (i mod length bs)%nat by lia. by rewrite take_app_le by lia.
Qed.
End Packets.
