(* ===== verification/Sequence.v ===== *)
(** * Sequence: tests/packet_throughput.c

    Each client sends a sequence of PUBLISH packets that ends with a PING, and takes
    the PONG as the proof that the whole sequence was processed.  The sequence is
    built by [build_sequence]; the clients are those of Echo with the instance
    [marker_echo], the frame is that of Bench.  [seq_event] is the body of a round.

    The theorem joins benchmark and server: what the one reports as confirmed, the
    other has parsed. *)

From S2P Require Import Prelude Core RingBuffer Packet Parser Protocol Machine Connection World Reactor.
From S2P Require Import Sim SocketUtils Enqueue Preserve ReactorSpec EventLoop Service History Client ClientSim Bench Echo PingPong Compose Workload.
#[local] Open Scope Z_scope.

(** The loop of [build_sequence] from packet [i] on, [todo] more; with the buffer,
    [offset].  memcpy from a NULL [payload] is undefined, also for no bytes. *)
Fixpoint publishes (todo : nat) (dst : list Z) (payload : option (list Z)) (payload_len offset : Z)
    : outcome (list Z * Z) :=
  match todo with
  | O => Ok (dst, offset)
  | S todo =>
      dst ← write_header dst offset (pkt_int VR_PKT_PUBLISH) payload_len;
      let offset := offset + HEADER_SIZE in
      bs ← (src ← deref payload; slice src 0 payload_len);
      dst ← splice dst offset bs;
      publishes todo dst payload payload_len (offset + payload_len)
  end.

Definition build_sequence (dst : list Z) (packet_count : Z) (payload : option (list Z)) (payload_len : Z)
    : outcome (list Z * Z) :=
  '(dst, offset) ← publishes (Z.to_nat packet_count) dst payload payload_len 0;
  dst ← write_header dst offset (pkt_int VR_PKT_PING) 0;
  Ok (dst, offset + HEADER_SIZE).

(** [sequence_size] of [main] *)
Definition sequence_size (packets_per_sequence payload_size : Z) : Z :=
  packets_per_sequence * (HEADER_SIZE + payload_size) + HEADER_SIZE.

(** What [main] sends: the payload, NULL when its size is 0, the buffer [junk] and what
    is built in it. *)
Definition sequence (junk : list Z) (packets_per_sequence payload_size : Z) : outcome (list Z * Z) :=
  build_sequence junk packets_per_sequence (if 0 <? payload_size then Some (make_payload payload_size) else None)
    (u16 payload_size).

(** [client->awaiting_marker = 0]; [confirmed_packets] is never written. *)
#[local] Instance marker_echo : Echo := {| paid d := 0; tick c := c |}.

(** [client->awaiting_marker = (uint32_t)packets_per_sequence] *)
Definition sequence_sent (packets_per_sequence : Z) (cl : client_t) : client_t :=
  Client (cl_fd cl) (u32 packets_per_sequence) (cl_rx cl) (cl_rx_len cl) (cl_completed cl) (cl_errors cl) (cl_alive cl).

(** [clients], [completed_sequences] and [active]. *)
Record state := State {
  sq_clients : list client_t;
  sq_completed : Z;
  sq_active : Z
}.

Record report := Report {
  rp_sequences : Z;
  rp_publishes : Z;
  rp_packets : Z;
  rp_errors : Z;
  rp_active : Z;
  rp_established : Z;
  rp_pass : bool
}.

Section Code.
Context `{Os}.

(** The reading half of an event; [false] for [continue]. *)
Definition collect_pongs (fuel : nat) (epfd : Z) (client : client_t) (completed_sequences active : Z)
    : prog (bool * client_t * Z * Z) :=
  '(ok, client, n) ← drain_reads fuel client 0;
  if (ok : bool) then mret (true, client, u64 (completed_sequences + n), active)
  else client ← drop_client epfd client; mret (false, client, completed_sequences, active - 1).

(** The writing half: [size] bytes of [sequence]. *)
Definition send_sequence (epfd : Z) (sequence : list Z) (size packets_per_sequence : Z) (client : client_t) (active : Z)
    : prog (client_t * Z) :=
  bs ← pure (slice sequence 0 size);
  sent ← sys (os_send (cl_fd client) bs);
  let fail := client ← drop_client epfd (bump_errors client); mret (client, active - 1) in
  match sent with
  | Done n => if n =? size then mret (sequence_sent packets_per_sequence client, active) else fail
  | Fail e => if would_block e then mret (client, active)
              else if e =? EINTR then mret (client, active)
              else fail
  end.

Definition seq_event (fuel : nat) (sequence : list Z) (size packets_per_sequence epfd : Z) (b : state) (ev : Z * Z)
    : prog state :=
  let '(events, data) := ev in
  let index := u32 data in
  if zlen (sq_clients b) <=? index then mret b
  else
    client ← pure (load (sq_clients b) index);
    if negb (cl_alive client) then mret b
    else
      '(go, client, completed, active) ←
        (if negb (Z.land events EPOLLIN =? 0)
         then collect_pongs fuel epfd client (sq_completed b) (sq_active b)
         else mret (true, client, sq_completed b, sq_active b));
      '(client, active) ←
        (if go && (cl_alive client && (cl_outstanding client =? 0))
         then send_sequence epfd sequence size packets_per_sequence client active
         else mret (client, active));
      clients ← pure (store (sq_clients b) index client);
      mret (State clients completed active).

Fixpoint seq_round (fuel : nat) (sequence : list Z) (size packets_per_sequence epfd : Z) (evs : list (Z * Z)) (b : state)
    : prog state :=
  match evs with
  | [] => mret b
  | ev :: evs => b ← seq_event fuel sequence size packets_per_sequence epfd b ev;
                 seq_round fuel sequence size packets_per_sequence epfd evs b
  end.

(** The program in the frame. *)
Definition markers (fuel : nat) (sequence : list Z) (size packets_per_sequence : Z) : program client_t state :=
  Program cl_fd cl_alive no_client new_client (fun cl => set_alive cl (-1) false) ack_strict
    (Z.lor (Z.lor EPOLLIN EPOLLOUT) EPOLLET)
    (fun clients established lost => State clients 0 established)
    sq_clients sq_active (seq_round fuel sequence size packets_per_sequence).

Definition final_results (packets_per_sequence established : Z) (b : state) : report :=
  let total_errors := sum64 (cl_errors <$> sq_clients b) in
  Report (sq_completed b) (u64 (sq_completed b * packets_per_sequence))
    (u64 (sq_completed b * u64 (packets_per_sequence + 1))) total_errors (sq_active b) established
    ((total_errors =? 0) && (sq_active b =? established)).

(** [main] after its arguments are read; [None] is EXIT_FAILURE.  [block] is the
    result of malloc for the sequence; [payload_ok] and [calloc_ok]: the payload and
    the table were allocated. *)
Definition main (rounds fuel : nat) (host_ok : bool) (block : option (list Z)) (payload_ok calloc_ok : bool)
    (junk junk' : list Z) (client_count packets_per_sequence payload_size duration : Z) : prog (option report) :=
  if (client_count <=? 0) || (packets_per_sequence <=? 0) || (payload_size <? 0) || (65535 <? payload_size) ||
     (duration <=? 0)
  then mret None
  else
    match block with
    | None => mret None
    | Some block =>
        if (0 <? payload_size) && negb payload_ok then mret None
        else
          '(seq, size) ← pure (sequence block packets_per_sequence payload_size);
          if negb calloc_ok then mret None
          else
            r ← campaign (markers fuel seq size packets_per_sequence) rounds fuel host_ok true junk junk' client_count;
            mret (match r with
                  | Some (established, b) => Some (final_results packets_per_sequence established b)
                  | None => None
                  end)
    end.
End Code.

(** ** The sequence *)

(** The bytes of a sequence of [n] packets. *)
Definition sequence_bytes (n : nat) (payload : list Z) : list Z :=
  times n (publish_bytes payload) ++ ping_packet.

Lemma publishes_spec todo (dst payload : list Z) off :
  0 <= off -> 0 <= zlen payload < 65536 -> off + Z.of_nat todo * (8 + zlen payload) <= zlen dst ->
  exists dst', splice dst off (times todo (publish_bytes payload)) = Ok dst' /\
    publishes todo dst (Some payload) (zlen payload) off = Ok (dst', off + Z.of_nat todo * (8 + zlen payload)).
Proof.
  revert dst off. induction todo as [|todo IH]; intros dst off Ho Hl Hr.
  { exists dst. split; [|cbn [publishes]; do 2 f_equal; lia].
    change (times 0 _) with (@nil Z). rewrite splice_ok by (change (zlen []) with 0; lia). simpl.
    by rewrite Nat.add_0_r, take_drop. }
  pose proof (publish_bytes_length payload) as Hpl. unfold zlen in *.
  destruct (splice dst off (publish_bytes payload)) as [d1| |] eqn:E1;
    [|rewrite splice_ok in E1; [done|lia|unfold zlen; lia]..].
  pose proof (splice_zlen _ _ _ _ E1) as Hz. unfold zlen in Hz.
  destruct (IH d1 (off + (8 + Z.of_nat (length payload)))) as (d' & Es & Ep); [lia|lia|lia|].
  exists d'. split.
  - rewrite times_S, <-Es, <-(splice_splice _ _ _ _ _ E1). unfold zlen. rewrite Hpl. f_equal. lia.
  - cbn [publishes]. rewrite write_header_splice by lia.
    replace (src ← deref (Some payload); slice src 0 (Z.of_nat (length payload)))
      with (slice payload 0 (Z.of_nat (length payload))) by done. rewrite (slice_ok payload 0) by (unfold zlen; lia). rewrite drop_0, take_ge by lia.
    etransitivity; [|etransitivity; [exact Ep|do 2 f_equal; lia]].
    transitivity (d ← splice dst off (publish_bytes payload);
      publishes todo d (Some payload) (Z.of_nat (length payload)) (off + HEADER_SIZE + Z.of_nat (length payload))).
    + apply splice_bind. unfold zlen. by rewrite header_bytes_length.
    + rewrite E1. ostep. f_equal. unfold HEADER_SIZE. lia.
Qed.

Lemma build_sequence_spec (dst payload : list Z) (n : nat) :
  zlen payload < 65536 -> zlen dst = sequence_size (Z.of_nat n) (zlen payload) ->
  build_sequence dst (Z.of_nat n) (Some payload) (zlen payload) = Ok (sequence_bytes n payload, zlen dst).
Proof.
  intros Hl Hd. unfold sequence_size, HEADER_SIZE in Hd. pose proof (zlen_nonneg payload) as Hn.
  unfold build_sequence. rewrite Nat2Z.id.
  destruct (publishes_spec n dst payload 0) as (d1 & E1 & ->); [lia|lia|lia|]. ostep.
  rewrite write_header_splice by lia. rewrite <-ping_packet_header.
  pose proof (splice_splice _ _ _ _ ping_packet E1) as E2.
  assert (Ht : zlen (times n (publish_bytes payload)) = Z.of_nat n * (8 + zlen payload)).
  { rewrite times_zlen. f_equal. unfold zlen. rewrite publish_bytes_length. lia. }
  rewrite Ht in E2. rewrite E2. fold (sequence_bytes n payload). rewrite splice_whole.
  - ostep. do 2 f_equal. unfold HEADER_SIZE. lia.
  - unfold sequence_bytes. rewrite length_app. change (length ping_packet) with 8%nat. unfold zlen in *. lia.
Qed.

(** What [main] builds. *)
Lemma sequence_spec block n payload_size :
  0 < payload_size < 65536 -> zlen block = sequence_size (Z.of_nat n) payload_size ->
  sequence block (Z.of_nat n) payload_size
    = Ok (sequence_bytes n (make_payload payload_size), zlen (sequence_bytes n (make_payload payload_size))).
Proof.
  intros Hp Hb. destruct (make_payload_ok payload_size) as [Hl _]; [lia|]. unfold sequence.
  rewrite (proj2 (Z.ltb_lt 0 payload_size)), u16_id by lia.
  rewrite <-Hl in Hb. rewrite <-Hl at 2. rewrite build_sequence_spec by (done || lia). do 2 f_equal.
  rewrite Hb. unfold sequence_bytes, sequence_size, HEADER_SIZE, zlen. rewrite length_app, Nat2Z.inj_add.
  pose proof (times_zlen n (publish_bytes (make_payload payload_size))) as Ht. unfold zlen in Ht. rewrite Ht.
  rewrite publish_bytes_length. change (length ping_packet) with 8%nat. lia.
Qed.

(** Without a payload memcpy is called with NULL. *)
Lemma sequence_null block n : (0 < n)%nat -> sequence block (Z.of_nat n) 0 = Undef.
Proof.
  intros Hn. unfold sequence, build_sequence. rewrite Nat2Z.id. destruct n as [|n]; [lia|]. cbn [publishes].
  rewrite write_header_splice by done. unfold splice. by destruct (in_range _ _ _).
Qed.

(** ** The clients *)

(** [awaiting_marker] stands for one sequence under way, or none. *)
#[refine] Definition marker_laws : EchoLaws := {|
  units d := if d =? 0 then 0%nat else 1%nat;
  due_ok d := True;
  score c n := c = 0
|}.
Proof.
  - done.
  - intros d _ Hne. cbn [paid marker_echo]. by rewrite (proj2 (Z.eqb_neq _ _) Hne).
  - done.
  - done.
Defined.
#[local] Existing Instance marker_laws.

Section Specs.
Context `{OsLaws} (seq : list Z) (packets : Z) (fuel : nat).
Hypothesis Hseq : 0 < zlen seq.
Hypothesis Hpackets : 0 < packets < 2 ^ 32.
Local Abbreviation size := (zlen seq).
Local Abbreviation moved := (moved cl_fd (entry_ok seq)).

Lemma collect_pongs_spec epfd cl completed active n s :
  cl_alive cl = true -> cl_fd cl <> -1 -> live seq (os_view s) (cl_fd cl) cl n -> shell cl ->
  safe (collect_pongs fuel epfd cl completed active) (fun r s' => let '(go, cl', completed', _) := r in
    exists k k', (k' <= k)%nat /\ counted completed completed' k' /\
      if (go : bool) then touched (os_view s) (os_view s') cl cl' /\ cl_alive cl' = true /\
        live seq (os_view s') (cl_fd cl) cl' (n + k)
      else moved (os_view s) (os_view s') (Slot (cl_fd cl) cl n) (Slot (cl_fd cl) cl' (n + k)%nat)) s.
Proof.
  intros Ha Hfd Hlive Hsh. apply safe_bind. eapply safe_mono; [by apply reads_spec|].
  intros [[ok cl'] c'] s' (k & Ht & Hc & Hk & Hok). destruct ok.
  - apply safe_ret. exists k, k. destruct (Hok eq_refl). split_and!; [done| |done..].
    specialize (Hc 0%nat eq_refl). subst c'. apply counted_add.
  - apply safe_bind. eapply safe_mono; [by apply drop_client_spec|]. intros cl2 s2 [_ Hm]. apply safe_ret.
    exists k, 0%nat. split_and!; [lia|apply counted_0|done].
Qed.

Lemma send_sequence_spec epfd cl active n s :
  cl_alive cl = true -> cl_fd cl <> -1 -> cl_outstanding cl = 0 -> live seq (os_view s) (cl_fd cl) cl n -> shell cl ->
  safe (send_sequence epfd seq size packets cl active) (fun r s' =>
    moved (os_view s) (os_view s') (Slot (cl_fd cl) cl n) (Slot (cl_fd cl) r.1 n)) s.
Proof.
  intros Ha Hfd Hout Hlive Hsh. pose proof (live_kept _ _ _ _ _ Hlive) as Hkept. apply safe_bind.
  eapply safe_pure; [apply slice_ok; lia|]. rewrite drop_0, take_ge by (unfold zlen; lia).
  assert (Hfail : forall s', touched (os_view s) (os_view s') cl (bump_errors cl) -> kept seq (os_view s') (cl_fd cl) cl n ->
    safe (client ← drop_client epfd (bump_errors cl); mret (client, active - 1)) (fun r s' =>
      moved (os_view s) (os_view s') (Slot (cl_fd cl) cl n) (Slot (cl_fd cl) r.1 n)) s').
  { intros s' Ht Hk. apply safe_bind. eapply safe_mono; [by apply (drop_client_spec seq epfd (os_view s) cl _ n n); [..|apply kept_error]|].
    intros cl2 s2 [_ Hm]. by apply safe_ret. }
  apply safe_bind, safe_sys. pose proof (os_law_send s (cl_fd cl) seq) as Hlaw.
  destruct (os_send _ _ s) as [[m|e] s1]; cbn [fst snd] in *; cbv zeta.
  - destruct Hlaw as [Hm Hv]. pose proof (spoke_accepted (cl_fd cl) (take (Z.to_nat m) seq) (os_view s)) as Hsp.
    rewrite <-Hv in Hsp. destruct (Z.eqb_spec m size) as [->|Hne].
    + rewrite take_ge in Hsp by (unfold zlen; lia). apply safe_ret. cbn [fst].
      assert (Hl : live seq (os_view s1) (cl_fd cl) (sequence_sent packets cl) n).
      { eapply live_sent; [done|done| |done|done|done|done]. cbn. rewrite Hout, u32_id by lia.
        by rewrite (proj2 (Z.eqb_neq _ _)) by lia. }
      apply touched_moved; [done| |by apply live_kept|done]. eapply touched_spoke; [done|done|].
      by destruct Hsh as [[] ?].
    + apply Hfail; [by eapply touched_spoke; [..|apply shell_error]|]. eapply kept_part; [done| |done].
      by exists (drop (Z.to_nat m) seq); rewrite take_drop.
  - assert (Hsp : spoke (cl_fd cl) [] [] (os_view s) (os_view s1)) by (rewrite Hlaw; apply spoke_refl).
    assert (Hsame : moved (os_view s) (os_view s1) (Slot (cl_fd cl) cl n) (Slot (cl_fd cl) cl n)).
    { rewrite Hlaw. apply touched_moved; [done|by apply touched_refl|done|done]. }
    destruct (would_block e); [by apply safe_ret|]. destruct (e =? EINTR); [by apply safe_ret|].
    apply Hfail; [by eapply touched_spoke; [..|apply shell_error]|by rewrite Hlaw].
Qed.

Lemma markers_echoes : echoes (markers fuel seq size packets).
Proof using. done. Qed.

Context (base : gset Z) (hs : list Z) (lost : Z).
Local Abbreviation ok_state := (bench_ok (markers fuel seq size packets) (entry_ok seq) (tally sq_completed) base hs lost).

Lemma seq_event_spec epfd b ev s :
  ok_state (os_view s) b -> safe (seq_event fuel seq size packets epfd b ev) (fun b' s' => ok_state (os_view s') b') s.
Proof.
  intros Hb. destruct ev as [events data]. unfold seq_event.
  destruct (Z.leb_spec (zlen (sq_clients b)) (u32 data)) as [|Hlt]; [by apply safe_ret|].
  assert (Hu : 0 <= u32 data) by (apply Z.mod_pos_bound; lia). unfold zlen in Hlt.
  destruct (lookup_lt_is_Some_2 (sq_clients b) (Z.to_nat (u32 data))) as [cl Hcl]; [lia|].
  apply safe_bind. eapply safe_pure; [by apply load_ok|].
  destruct (cl_alive cl) eqn:Ha; [|by apply safe_ret]. cbn [negb].
  destruct (bench_moves _ _ markers_echoes _ _ _ _ _ _ _ _ Hb Hcl Ha) as (Hfd & Hsh & n & Hlive & Hstep).
  assert (Hend : forall cl' completed active k k' s', (k' <= k)%nat -> counted (sq_completed b) completed k' ->
    moved (os_view s) (os_view s') (Slot (cl_fd cl) cl n) (Slot (cl_fd cl) cl' (n + k)%nat) ->
    safe (clients ← pure (store (sq_clients b) (u32 data) cl'); mret (State clients completed active))
      (fun b' s' => ok_state (os_view s') b') s').
  { intros cl' completed active k k' s' Hk Hc Hm. apply safe_bind.
    eapply safe_pure; [apply store_insert; unfold zlen; lia|]. by apply safe_ret, (Hstep _ cl' k k'). }
  apply safe_bind, (safe_mono _ (fun r s' => let '(go, cl', completed', _) := r in
    exists k k', (k' <= k)%nat /\ counted (sq_completed b) completed' k' /\
      if (go : bool) then touched (os_view s) (os_view s') cl cl' /\ cl_alive cl' = true /\
        live seq (os_view s') (cl_fd cl) cl' (n + k)
      else moved (os_view s) (os_view s') (Slot (cl_fd cl) cl n) (Slot (cl_fd cl) cl' (n + k)%nat))).
  { destruct (negb _); [by apply collect_pongs_spec|]. apply safe_ret. exists 0%nat, 0%nat. rewrite Nat.add_0_r.
    split_and!; [done|apply counted_0|by apply touched_refl|done|done]. }
  intros [[[go cl1] completed] active] s1 (k & k' & Hk & Hc & Hgo). apply safe_bind.
  destruct go; cbn [andb]; [|by apply safe_ret; eapply Hend].
  destruct Hgo as (Ht & Ha1 & Hlive1). rewrite Ha1. pose proof (to_fd _ _ _ _ Ht) as Hf. cbn [andb].
  destruct (Z.eqb_spec (cl_outstanding cl1) 0).
  - rewrite <-Hf in Hlive1, Hfd. eapply safe_mono; [by apply send_sequence_spec; [..|exact (to_shell _ _ _ _ Ht)]|].
    intros [cl2 active'] s2 Hm. eapply Hend; [done|done|]. rewrite Hf in Hm. by eapply touched_then_moved.
  - apply safe_ret. eapply Hend; [done|done|]. by apply touched_moved; [|done|apply live_kept|].
Qed.

Lemma seq_round_spec epfd evs b s :
  ok_state (os_view s) b -> safe (seq_round fuel seq size packets epfd evs b) (fun b' s' => ok_state (os_view s') b') s.
Proof.
  revert b s. induction evs as [|ev evs IH]; intros b s Hb; [by apply safe_ret|].
  apply safe_bind. eapply safe_mono; [by apply seq_event_spec|]. intros b' s'. apply IH.
Qed.
End Specs.

(** ** The benchmark in the frame *)

Section Whole.
Context `{OsLaws} (seq : list Z) (packets : Z).
Hypothesis Hseq : 0 < zlen seq.
Hypothesis Hpackets : 0 < packets < 2 ^ 32.

Definition markers_laws (fuel : nat) : BenchLaws (markers fuel seq (zlen seq) packets) nat :=
  echo_laws seq (markers fuel seq (zlen seq) packets) (markers_echoes seq packets fuel) sq_completed
    (fun clients established lost => conj eq_refl eq_refl) (seq_round_spec seq packets fuel Hseq Hpackets).

Context (remaining : ost -> nat) (Hclock : clock remaining) (fuel : nat).
Hypothesis Hhonest : honest seq.
Hypothesis Hcalm : undisturbed.
Hypothesis Hfuel : (8 < fuel)%nat.

Lemma seq_event_finishes base hs lost epfd b ev s :
  bench_ok (markers fuel seq (zlen seq) packets) (entry_ok seq) (tally sq_completed) base hs lost (os_view s) b ->
  finishes (seq_event fuel seq (zlen seq) packets epfd b ev) s.
Proof using All.
  intros Hb. destruct ev as [events data]. unfold seq_event. destruct (_ <=? _); [done|].
  unfold load. destruct (0 <=? _); [|done].
  destruct (sq_clients b !! Z.to_nat (u32 data)) as [cl|] eqn:Hcl; [|done].
  apply finishes_bind; [done|]. intros x s0 [= <- <-]. destruct (cl_alive cl) eqn:Ha; [|done].
  destruct (bench_moves _ _ (markers_echoes seq packets fuel) _ _ _ _ _ _ _ _ Hb Hcl Ha) as (Hfd & Hsh & n & Hlive & _).
  cbn [negb]. apply finishes_bind.
  - destruct (negb _); [|done]. apply finishes_bind.
    + eapply drain_reads_finishes; try done. unfold owed, zlen. cbn [units marker_laws]. destruct (_ =? 0); lia.
    + intros [[ok cl1] c1] s1 _. destruct ok; [done|]. by apply finishes_bind; [apply drop_client_finishes|].
  - intros [[[go cl1] c1] a1] s1 _. apply finishes_bind; [|intros [cl2 a2] s2 _; apply finishes_bind; [|done]].
    + destruct (go && _); [|done]. unfold finishes, send_sequence, pure. rewrite slice_ok by lia. apply finishes_sys.
      destruct (os_send _ _ s1) as [[m|e] s2]; cbn [fst snd]; repeat case_match; try done;
        by apply finishes_bind; [apply drop_client_finishes|].
    + unfold finishes, pure, store. by destruct (in_range _ _ _).
Qed.

Lemma seq_round_finishes base hs lost epfd evs b s :
  bench_ok (markers fuel seq (zlen seq) packets) (entry_ok seq) (tally sq_completed) base hs lost (os_view s) b ->
  finishes (seq_round fuel seq (zlen seq) packets epfd evs b) s.
Proof using All.
  revert b s. induction evs as [|ev evs IH]; intros b s Hb; [done|]. apply finishes_bind; [by eapply seq_event_finishes|].
  intros b1 s1 E. apply IH.
  exact (safe_ok _ _ _ _ _ (seq_event_spec seq packets fuel Hseq Hpackets base hs lost epfd b ev s Hb) E).
Qed.

Lemma forward_seq_round epfd evs b : forward remaining (seq_round fuel seq (zlen seq) packets epfd evs b).
Proof using All.
  revert b. induction evs; intros b; cbn [seq_round]; [forward|]. unfold seq_event, collect_pongs, send_sequence. forward.
Qed.

Lemma markers_finish rounds host_ok junk junk' client_count s :
  length junk = 8%nat -> length junk' = 8%nat -> (remaining s <= rounds)%nat ->
  finishes (campaign (markers fuel seq (zlen seq) packets) rounds fuel host_ok true junk junk' client_count) s.
Proof using All.
  intros Hj Hj' Hr. apply (campaign_finishes (L:=markers_laws fuel) _ remaining Hclock); try done.
  - apply ack_strict_finishes.
  - apply forward_seq_round.
  - apply seq_round_finishes.
  - lia.
Qed.
End Whole.

(** ** The packets in a sequence *)

Definition block (n : nat) (payload : list Z) : list vr_packet_t :=
  replicate n (publish payload) ++ [bare VR_PKT_PING].

Section Packets.
Context `{Abi}.
Hypothesis H8 : sizeof_vr_packet_header_t = 8.
Context (payload : list Z).
Hypothesis Hlen : zlen payload < 65536.
Hypothesis Hpay : Forall is_byte payload.

Lemma sequence_bytes_bytes n : Forall is_byte (sequence_bytes n payload).
Proof. apply Forall_app. split; [by apply times_bytes, publish_bytes_bytes|by repeat constructor]. Qed.

Lemma packets_in_sequences k n :
  packets_in (CONNECT_BYTES ++ times k (sequence_bytes n payload))
  = bare VR_PKT_CONNECT :: concat (replicate k (block n payload)).
Proof.
  etransitivity; [exact (packets_in_bare VR_PKT_CONNECT _ H8 (times_bytes k _ (sequence_bytes_bytes n)))|]. f_equal.
  induction k as [|k IH]; [apply packets_in_nil|]. rewrite times_S. unfold sequence_bytes at 1.
  rewrite <-app_assoc, (packets_in_publishes H8 payload Hlen Hpay).
  2:{ apply Forall_app. split; [by repeat constructor|]. apply times_bytes, sequence_bytes_bytes. }
  cbn [replicate concat]. unfold block at 1. rewrite <-app_assoc. f_equal.
  etransitivity; [exact (packets_in_bare VR_PKT_PING _ H8 (times_bytes k _ (sequence_bytes_bytes n)))|]. by rewrite IH.
Qed.
End Packets.

(** The number of PINGs, each of which is answered. *)
Definition pings (pks : list vr_packet_t) : nat :=
  length (filter (fun k => h_type (pk_header k) = pkt_int VR_PKT_PING) pks).

Lemma pings_app pks pks' : pings (pks ++ pks') = (pings pks + pings pks')%nat.
Proof. unfold pings. by rewrite filter_app, length_app. Qed.

Lemma pings_blocks k n payload : pings (concat (replicate k (block n payload))) = k.
Proof.
  induction k as [|k IH]; [done|]. cbn [replicate concat]. rewrite pings_app, IH. unfold block. rewrite pings_app.
  replace (pings (replicate n (publish payload))) with 0%nat; [done|]. clear IH.
  induction n as [|n IH]; [done|]. done.
Qed.

Lemma established_answers X a pks payload :
  Forall (fun k => k = publish payload \/ k = bare VR_PKT_PING) pks ->
  machine_answers (Machine VR_PROTO_ESTABILISHED X a) (pk_header <$> pks) = replicate (pings pks) (bare VR_PKT_PONG).
Proof. induction 1 as [|k pks [->| ->] _ IH]; [done| |]; cbn; rewrite IH; done. Qed.

Lemma answers_stream pks payload :
  Forall (fun k => k = publish payload \/ k = bare VR_PKT_PING) pks ->
  answers (bare VR_PKT_CONNECT :: pks) = bare VR_PKT_CONNECT_ACK :: replicate (pings pks) (bare VR_PKT_PONG).
Proof. intros HF. unfold answers. cbn. by erewrite established_answers. Qed.

Lemma blocks_kinds k n payload :
  Forall (fun p => p = publish payload \/ p = bare VR_PKT_PING) (concat (replicate k (block n payload))).
Proof.
  apply Forall_concat, Forall_replicate, Forall_app. split; [apply Forall_replicate; by left|].
  constructor; [by right|constructor].
Qed.

(** A beginning of a run of blocks with [j] PINGs in it contains [j] whole blocks. *)
Lemma pings_confirm pks j k n payload :
  pks `prefix_of` concat (replicate k (block n payload)) -> (j <= pings pks)%nat ->
  concat (replicate j (block n payload)) `prefix_of` pks.
Proof.
  intros Hp Hj. assert (Hjk : (j <= k)%nat).
  { destruct Hp as [e He]. apply (f_equal pings) in He. rewrite pings_app, pings_blocks in He. lia. }
  assert (Hpj : concat (replicate j (block n payload)) `prefix_of` concat (replicate k (block n payload))).
  { replace k with (j + (k - j))%nat by lia. rewrite replicate_add, concat_app. by eexists. }
  destruct (prefix_weak_total _ _ _ Hpj Hp) as [?|[e He]]; [done|].
  destruct j as [|j]; [apply prefix_nil|]. destruct e as [|x e] using rev_ind; [rewrite app_nil_r in He; by rewrite He|].
  clear IHe. exfalso. rewrite replicate_S_end, concat_app in He. cbn [concat] in He. unfold block at 2 in He.
  rewrite app_nil_r, !app_assoc in He. apply app_inj_tail in He as [He _].
  apply (f_equal pings) in He. rewrite !pings_app, pings_blocks in He.
  replace (pings (replicate n (publish payload))) with 0%nat in He by (clear; by induction n).
  lia.
Qed.

Lemma kept_length kept m :
  sublist kept (bare VR_PKT_CONNECT_ACK :: replicate m (bare VR_PKT_PONG)) ->
  (length (concat (packet_bytes <$> kept)) <= 8 * S m)%nat.
Proof.
  intros Hk. pose proof (sublist_length _ _ Hk) as Hl. simpl in Hl. rewrite length_replicate in Hl.
  assert (Hb : Forall (fun k => length (packet_bytes k) = 8%nat) kept).
  { apply Forall_forall. intros k Hin. pose proof (elem_of_submseteq _ _ _ Hin (sublist_submseteq _ _ Hk)) as Hin'.
    apply elem_of_cons in Hin' as [->|[-> _]%elem_of_replicate]; done. }
  clear Hk. transitivity (8 * length kept)%nat; [|lia]. clear Hl.
  induction Hb as [|k kept Hk _ IH]; [done|]. cbn [fmap list_fmap concat length]. rewrite length_app, Hk. lia.
Qed.

(** A client that has sent CONNECT, [k] sequences and a part of one, and has received
    [j] PONGs behind the acknowledgement: the server it is linked to has parsed [j]
    sequences. *)
Definition server_parsed `{Libc} `{Abi} `{KernelLaws} (v : kview) (fd : Z) (n j : nat) (payload : list Z) : Prop :=
  forall port w0 lst w l c,
    idle w0 -> reachable port w0 lst w -> l <> lst -> w_heap w !! l = Some c -> linked v fd w c ->
    exists pks, taken (traffic (view w) (c_fd c)).1 pks (c_parser c) (ring_contents (c_read_buf c)) /\
      bare VR_PKT_CONNECT :: concat (replicate j (block n payload)) `prefix_of` pks.

Section Confirm.
Context `{Libc} `{Abi} `{KernelLaws}.
Hypothesis Hresp : allocates sizeof_vr_packet_t.
Hypothesis H8 : sizeof_vr_packet_header_t = 8.
Context (payload : list Z) (n : nat).
Hypothesis Hlen : zlen payload < 65536.
Hypothesis Hpay : Forall is_byte payload.
Local Abbreviation seq := (sequence_bytes n payload).

Lemma pongs_confirm v fd k j part rest :
  (traffic v fd).2 = CONNECT_BYTES ++ times k seq ++ part -> part `prefix_of` seq ->
  (traffic v fd).1 = ack_bytes ++ times j pong_bytes ++ rest -> server_parsed v fd n j payload.
Proof.
  intros Hsent [part' Hpart] Hgot port w0 lst w l c Hidle Hr Hl Hc [Hup Hdown].
  set (stream := CONNECT_BYTES ++ times (S k) seq).
  assert (Hext : (traffic v fd).2 `prefix_of` stream).
  { exists part'. unfold stream. by rewrite Hsent, times_snoc, Hpart, <-!(assoc_L (++)). }
  set (cv := KView ∅ ∅ {[fd := stream]} {[fd := (traffic v fd).1]}).
  assert (Ht : traffic cv fd = ((traffic v fd).1, stream)).
  { unfold traffic at 1, log_of, cv. cbn [v_rcvd v_sent]. by rewrite !lookup_singleton_eq. }
  assert (Hlink : linked cv fd w c) by (split; rewrite Ht; cbn [fst snd]; [by etransitivity|done]).
  assert (Hbytes : Forall is_byte (traffic cv fd).2).
  { rewrite Ht. apply Forall_app. split; [by repeat constructor|]. by apply times_bytes, sequence_bytes_bytes. }
  destruct (linked_answers Hresp port w0 lst w l c cv fd Hidle Hr Hl Hc Hlink Hbytes)
    as (pks & kept & frames & Htk & Hpre & Hk & Hf & Hg).
  exists pks. split; [done|]. rewrite (frames_packets H8 _ _ Hf) in Hg.
  apply (transitivity Hdown) in Hg. rewrite Hgot in Hg. rewrite Ht in Hpre. cbn [snd] in Hpre. unfold stream in Hpre.
  rewrite packets_in_sequences in Hpre by done.
  destruct pks as [|p pks].
  { apply sublist_nil_r in Hk as ->. by apply prefix_nil_inv in Hg. }
  apply prefix_cons_inv_1 in Hpre as Ep. subst p. apply prefix_cons_inv_2 in Hpre. apply prefix_cons.
  rewrite (answers_stream pks payload) in Hk.
  2:{ destruct Hpre as [e He]. pose proof (blocks_kinds (S k) n payload) as HF. rewrite He in HF.
      by apply Forall_app in HF as [HF _]. }
  apply (pings_confirm pks j (S k)); [done|]. apply kept_length in Hk. apply prefix_length in Hg.
  rewrite !length_app, pongs_length in Hg. change (length ack_bytes) with 8%nat in Hg. lia.
Qed.

(** The books of a client are enough. *)
Lemma kept_confirm `{OsLaws} v fd cl m : kept seq v fd cl m -> server_parsed v fd n m payload.
Proof.
  intros (j & e & part & [_ _ _ Hs Hr Hp]). rewrite times_add, <-(assoc_L (++)) in Hr. by eapply pongs_confirm.
Qed.
End Confirm.

(** ** Properties *)

(** What the report of [main] promises, for sequences of [n] packets: there are
    distinct new connections, [established] of them, each with a number of
    confirmed sequences that every server it is linked to has parsed; the reported
    number of sequences is at most their sum, and the reported numbers of packets
    are its multiples, at their width. *)
Definition confirmed `{Libc} `{Abi} `{KernelLaws} (base : gset Z) (v : kview) (n : nat) (payload : list Z) (r : report) : Prop :=
  exists cs : list (Z * nat),
    NoDup cs.*1 /\ Forall (fun c => (c.1 ∉ base) /\ server_parsed v c.1 n c.2 payload) cs /\
    Z.of_nat (length cs) = rp_established r /\
    exists t : nat, (t <= sum_list cs.*2)%nat /\ rp_sequences r = u64 (Z.of_nat t) /\
      rp_publishes r = u64 (Z.of_nat t * Z.of_nat n) /\ rp_packets r = u64 (Z.of_nat t * (Z.of_nat n + 1)).

Lemma final_confirmed `{OsLaws} `{Libc} `{Abi} `{KernelLaws} base v n payload established b ns :
  allocates sizeof_vr_packet_t -> sizeof_vr_packet_header_t = 8 -> zlen payload < 65536 -> Forall is_byte payload ->
  Z.of_nat n < 2 ^ 32 -> explained (sequence_bytes n payload) base v established (sq_completed b) (sq_clients b) ns ->
  confirmed base v n payload (final_results (Z.of_nat n) established b).
Proof.
  intros Ha H8 Hl Hb Hn Hex. apply explained_connections in Hex as (cs & Hnd & Hcs & Hlen & t & Et & Ht).
  exists cs. split_and!; [done| |done|].
  - eapply Forall_impl; [exact Hcs|]. intros c [Hnew [cl Hk]]. split; [done|]. by eapply kept_confirm.
  - exists t. cbn [final_results rp_sequences rp_publishes rp_packets]. rewrite Et. unfold u64.
    split_and!; [done|done|by rewrite Zmult_mod_idemp_l|by rewrite <-Zmult_mod].
Qed.

(** C14. What tests/packet_throughput.c reports as confirmed, the server has processed.
    [main] closes every descriptor it opened on all its paths, and does nothing
    undefined unless the payload is empty, when memcpy is given NULL.  Let it report,
    let the server's enums have one byte (gcc's have four, see
    [Compose.handshake_stalls]) and its responses be allocated: there are
    [established] new connections, and for each a number of sequences such that, if
    it leads to a connection of a server in any state it can reach, the server has
    taken all packets of so many sequences from its bytes, payloads included; the
    reported number of sequences is at most the sum of these numbers, and the
    reported packets are [n] PUBLISH and one PING for each.  [main] returns, with nine
    turns for the loops of a client, when no signal interrupts a call, no blocking
    call of the set-up waits forever, the peers are honest and the clock advances. *)
Theorem sequences_confirmed `{OsLaws} `{Libc} `{Abi} `{KernelLaws} (rounds fuel : nat) (host_ok : bool)
  (mem : option (list Z)) (payload_ok calloc_ok : bool) (junk junk' : list Z) (client_count : Z) (n : nat)
  (payload_size duration : Z) (s : ost)
  (Hn : Z.of_nat n < 2 ^ 31) (Hmem : forall m, mem = Some m -> zlen m = sequence_size (Z.of_nat n) payload_size)
  (Hj : length junk = 8%nat) (Hj' : length junk' = 8%nat) :
  match main rounds fuel host_ok mem payload_ok calloc_ok junk junk' client_count (Z.of_nat n) payload_size duration s with
  | Ok (r, s') => v_open (os_view s') = v_open (os_view s) /\
      match r with
      | Some rep => sizeof_enum = 1 -> allocates sizeof_vr_packet_t ->
          confirmed (v_open (os_view s)) (os_view s') n (make_payload payload_size) rep
      | None => True
      end
  | Undef => payload_size = 0
  | NoFuel => ~ (honest (sequence_bytes n (make_payload payload_size)) /\ undisturbed /\ (8 < fuel)%nat /\
      exists remaining, clock remaining /\ (remaining s <= rounds)%nat)
  end.
Proof.
  unfold main. destruct (_ || _) eqn:Eargs; [done|]. rewrite !orb_false_iff, !Z.leb_gt, !Z.ltb_ge in Eargs.
  destruct Eargs as [[[[_ Hpos] Hp0] Hp1] _]. destruct mem as [m|]; [|done]. specialize (Hmem m eq_refl).
  destruct (_ && _); [done|]. destruct (decide (payload_size = 0)) as [->|Hne].
  { by rewrite sequence_null by lia. }
  rewrite sequence_spec by (done || lia). destruct calloc_ok; [|done].
  destruct (make_payload_ok payload_size) as [Hpl Hpb]; [lia|].
  set (seq := sequence_bytes n (make_payload payload_size)).
  assert (Hseq : 0 < zlen seq) by (unfold seq, sequence_bytes, zlen; rewrite length_app; simpl; lia).
  pose proof (campaign_spec (L:=markers_laws seq (Z.of_nat n) Hseq ltac:(lia) fuel) (markers fuel seq (zlen seq) (Z.of_nat n))
    rounds fuel host_ok true junk junk' client_count s Hj Hj') as Hs.
  unfold safe in Hs. unfold mbind at 1, prog_bind at 1, pure. cbn [negb]. unfold mbind, prog_bind, mret, prog_ret.
  destruct (campaign _ _ _ _ _ _ _ _ s) as [[[[established b]|] s']| |] eqn:E; [|by destruct Hs|done|].
  - destruct Hs as [Ho [ns Hex]%settled_explained]. split; [done|]. intros Hsize%sizeof_header_8 Ha.
    eapply final_confirmed; try done; lia.
  - intros (Hh & Hu & Hf & remaining & Hck & Hr).
    by apply (markers_finish seq (Z.of_nat n) Hseq ltac:(lia) remaining Hck fuel Hh Hu Hf rounds host_ok junk junk' client_count s Hj Hj' Hr).
Qed.

(** ** Witnesses *)

Section Witness.
#[local] Existing Instance sim_kernel.
#[local] Existing Instance sim_laws.
#[local] Existing Instance Compose.libc_170.
#[local] Existing Instance short_enums_abi.

(** A peer that answers CONNECT and every sequence of 18 bytes. *)
Definition confirmer (a : list Z) : list Z :=
  match length a with
  | 0%nat => []
  | n => if (n <? 8)%nat then [] else ack_bytes ++ times ((n - 8) / 18) pong_bytes
  end.

Lemma confirmer_eq a : confirmer a = if (length a <? 8)%nat then [] else ack_bytes ++ times ((length a - 8) / 18) pong_bytes.
Proof. unfold confirmer. by destruct (length a). Qed.

Lemma confirmer_mono a b : confirmer a `prefix_of` confirmer (a ++ b).
Proof.
  rewrite !confirmer_eq, length_app. destruct (Nat.ltb_spec (length a) 8) as [|Ha]; [apply prefix_nil|].
  destruct (Nat.ltb_spec (length a + length b) 8) as [|_]; [lia|]. apply prefix_app.
  assert (Hle : ((length a - 8) / 18 <= (length a + length b - 8) / 18)%nat) by (apply Nat.Div0.div_le_mono; lia).
  replace ((length a + length b - 8) / 18)%nat with
    ((length a - 8) / 18 + ((length a + length b - 8) / 18 - (length a - 8) / 18))%nat by lia.
  rewrite times_add. by eexists.
Qed.

Lemma confirmer_bytes a : Forall is_byte (confirmer a).
Proof.
  rewrite confirmer_eq. destruct (_ <? _)%nat; [constructor|]. apply Forall_app. split; [by repeat constructor|].
  apply times_bytes. by repeat constructor.
Qed.

#[local] Instance confirm_peer : Peer :=
  {| peer := confirmer; peer_room := None; peer_connect := None; peer_mono := confirmer_mono; peer_bytes := confirmer_bytes |}.

Lemma confirmer_honest : honest (sequence_bytes 1 (make_payload 2)).
Proof.
  intros [s Hs] fd n rest Hsent Hrcvd. exists n. split; [done|]. pose proof (nk_peer _ Hs fd) as Hp.
  cbn [os_view net_laws proj1_sig] in *. rewrite Hsent, Hrcvd in Hp. cbn [peer confirm_peer] in Hp.
  rewrite confirmer_eq, length_app in Hp. change (length CONNECT_BYTES) with 8%nat in Hp.
  pose proof (times_zlen n (sequence_bytes 1 (make_payload 2))) as Hz. unfold zlen in Hz.
  change (length (sequence_bytes 1 (make_payload 2))) with 18%nat in Hz.
  rewrite (proj2 (Nat.ltb_ge _ 8)) in Hp by lia.
  replace (8 + length (times n (sequence_bytes 1 (make_payload 2))) - 8)%nat with (n * 18)%nat in Hp by lia.
  rewrite Nat.div_mul in Hp by done. by apply prefix_app_inv in Hp.
Qed.

(** Two clients, sequences of one PUBLISH of two bytes, four rounds. *)
Lemma sequences_confirmed_witness :
  returned (main 4 9 true (Some (replicate 18 0)) true true (replicate 8 0) (replicate 8 0) 2 1 2 1 (lab 2 4))
    = Some (Some (Report 6 6 12 0 2 2 true)) /\
  (honest (sequence_bytes 1 (make_payload 2)) /\ undisturbed /\ clock net_clock /\ (net_clock (lab 2 4) <= 4)%nat) /\
  (sizeof_enum = 1 /\ allocates sizeof_vr_packet_t) /\
  match main 4 9 true (Some (replicate 18 0)) true true (replicate 8 0) (replicate 8 0) 2 (Z.of_nat 1) 2 1 (lab 2 4) with
  | Ok (r, s') => v_open (os_view s') = v_open (os_view (lab 2 4)) /\
      match r with
      | Some rep => sizeof_enum = 1 -> allocates sizeof_vr_packet_t ->
          confirmed (v_open (os_view (lab 2 4))) (os_view s') 1 (make_payload 2) rep
      | None => True
      end
  | Undef => 2 = 0
  | NoFuel => ~ (honest (sequence_bytes 1 (make_payload 2)) /\ undisturbed /\ (8 < 9)%nat /\
      exists remaining, clock remaining /\ (remaining (lab 2 4) <= 4)%nat)
  end.
Proof.
  split; [by vm_compute|]. split; [exact (conj confirmer_honest (conj net_undisturbed (conj net_clock_ok (le_n 4))))|].
  split; [exact (conj eq_refl (@dial_allocates short_enums_abi))|].
  exact (sequences_confirmed 4 9 true (Some (replicate 18 0)) true true (replicate 8 0) (replicate 8 0) 2 1 2 1
    (lab 2 4) ltac:(lia) ltac:(by intros m [= <-]) eq_refl eq_refl).
Defined.
End Witness.
