(* ===== verification/Batch.v ===== *)
(** * Batch: tests/throughput_c.c

    Each client sends a batch of PUBLISH packets over and over, as far as the kernel
    takes it, and counts the packets that crossed whole.  [build_batch] makes the
    batch, [push] is the loop of a writable event, [account] its bookkeeping; the
    frame is that of Bench.

    The theorem compares the counts with the packets the server finds in the bytes
    that were handed to the kernel. *)

From S2P Require Import Prelude Core RingBuffer Packet Parser Protocol Machine Connection World Reactor.
From S2P Require Import Sim SocketUtils Enqueue Preserve ReactorSpec EventLoop Service History Client Bench ClientSim Compose Workload.
#[local] Open Scope Z_scope.

(** [build_packet] of this program. *)
Definition build_packet (packet : list Z) (type : Z) (payload : list Z) (payload_len : Z) : outcome (list Z) :=
  packet ← write_header packet 0 type payload_len;
  if 0 <? payload_len then
    bs ← slice payload 0 payload_len;
    splice packet HEADER_SIZE bs
  else Ok packet.

(** The copies of [packet] in [batch], from the [i]-th on, [todo] more. *)
Fixpoint fill_batch (todo : nat) (batch packet : list Z) (i : Z) : outcome (list Z) :=
  match todo with
  | O => Ok batch
  | S todo =>
      batch ← splice batch (i * zlen packet) packet;
      fill_batch todo batch packet (i + 1)
  end.

(** The batch of [main], from the arrays [junk] and [junk'] for it and for the packet. *)
Definition build_batch (junk junk' : list Z) (payload_size batch_packets : Z) : outcome (list Z) :=
  packet ← build_packet junk' (pkt_int VR_PKT_PUBLISH) (make_payload payload_size) (u16 payload_size);
  fill_batch (Z.to_nat batch_packets) junk packet 0.

Record client_t := Client {
  cl_fd : Z;
  cl_batch_offset : Z;
  cl_messages : Z;
  cl_bytes : Z;
  cl_failures : Z
}.

(** [total_messages], [total_bytes], [total_failures], [benchmark_active] *)
Record totals := Totals {
  to_messages : Z;
  to_bytes : Z;
  to_failures : Z;
  to_active : Z
}.

(** The bookkeeping of [n] bytes the kernel has taken. *)
Definition account (batch_size packet_size n : Z) (cl : client_t) (t : totals) : client_t * totals :=
  let previous_offset := cl_batch_offset cl in
  let batch_offset := previous_offset + n in
  let completed_before := previous_offset / packet_size in
  let completed_after := batch_offset / packet_size in
  let completed := completed_after - completed_before in
  let messages := if 0 <? completed then u64 (cl_messages cl + completed) else cl_messages cl in
  let total := if 0 <? completed then u64 (to_messages t + completed) else to_messages t in
  (Client (cl_fd cl) (if batch_offset =? batch_size then 0 else batch_offset) messages
     (u64 (cl_bytes cl + n)) (cl_failures cl),
   Totals total (u64 (to_bytes t + n)) (to_failures t) (to_active t)).

(** [clients] and the totals. *)
Record state := State { st_clients : list client_t; st_totals : totals }.

Record report := Report {
  rp_messages : Z;
  rp_bytes : Z;
  rp_failures : Z;
  rp_active : Z;
  rp_pass : bool
}.

Section Code.
Context `{Os}.

(** The loop of a writable event. *)
Fixpoint push (fuel : nat) (epfd : Z) (batch : list Z) (packet_size : Z) (cl : client_t) (t : totals)
    : prog (client_t * totals) :=
  stop ← get_os os_stop;
  if (stop : bool) then mret (cl, t)
  else
    match fuel with
    | O => too_long
    | S fuel =>
        let remaining := zlen batch - cl_batch_offset cl in
        bs ← pure (slice batch (cl_batch_offset cl) remaining);
        n ← sys (os_send (cl_fd cl) bs);
        let fail :=
          _ ← sys (os_epoll_ctl epfd Epoll_del (cl_fd cl));
          _ ← sys (os_close (cl_fd cl));
          mret (Client (-1) (cl_batch_offset cl) (cl_messages cl) (cl_bytes cl) (u64 (cl_failures cl + 1)),
                Totals (to_messages t) (to_bytes t) (u64 (to_failures t + 1)) (to_active t - 1)) in
        match n with
        | Done n =>
            if 0 <? n then
              let '(cl, t) := account (zlen batch) packet_size n cl t in
              push fuel epfd batch packet_size cl t
            else fail
        | Fail e =>
            if would_block e then mret (cl, t)
            else if e =? EINTR then push fuel epfd batch packet_size cl t
            else fail
        end
    end.

Definition batch_event (fuel : nat) (batch : list Z) (packet_size epfd : Z) (b : state) (ev : Z * Z) : prog state :=
  let '(_, data) := ev in
  let idx := u32 data in
  if zlen (st_clients b) <=? idx then mret b
  else
    client ← pure (load (st_clients b) idx);
    if cl_fd client <? 0 then mret b
    else
      '(client, totals) ← push fuel epfd batch packet_size client (st_totals b);
      clients ← pure (store (st_clients b) idx client);
      mret (State clients totals).

Fixpoint batch_round (fuel : nat) (batch : list Z) (packet_size epfd : Z) (evs : list (Z * Z)) (b : state) : prog state :=
  match evs with
  | [] => mret b
  | ev :: evs => b ← batch_event fuel batch packet_size epfd b ev; batch_round fuel batch packet_size epfd evs b
  end.

(** [client->fd = fd] and zeros *)
Definition new_client (fd : Z) : client_t := Client fd 0 0 0 0.

(** The program in the frame.  An entry is in use when its descriptor is not
    negative; one that cannot be registered is subtracted from [active_clients]. *)
Definition batches (fuel : nat) (batch : list Z) (packet_size : Z) : program client_t state :=
  Program cl_fd (fun cl => 0 <=? cl_fd cl) (new_client (-1)) new_client
    (fun cl => Client (-1) (cl_batch_offset cl) (cl_messages cl) (cl_bytes cl) (cl_failures cl)) ack_lenient
    (Z.lor EPOLLOUT EPOLLET)
    (fun clients established lost => State clients (Totals 0 0 0 (established - lost)))
    st_clients (fun b => to_active (st_totals b)) (batch_round fuel batch packet_size).

Definition final_results (b : state) : report :=
  let t := st_totals b in
  Report (to_messages t) (to_bytes t) (to_failures t) (to_active t) (to_failures t =? 0).

(** [main] after its arguments are read; [None] is EXIT_FAILURE.  [mem] and [mem'] are
    the results of malloc for the batch and for the packet; [payload_ok], [calloc_ok]
    and [events_ok]: payload, table and array of events were allocated. *)
Definition main (rounds fuel : nat) (host_ok : bool) (mem mem' : option (list Z)) (payload_ok calloc_ok events_ok : bool)
    (junk junk' : list Z) (client_count payload_size batch_packets duration : Z) : prog (option report) :=
  if (client_count <=? 0) || (payload_size <? 0) || (65535 <? payload_size) || (batch_packets <=? 0) || (duration <=? 0)
  then mret None
  else
    match mem with
    | None => mret None
    | Some mem =>
        if (0 <? payload_size) && negb payload_ok then mret None
        else
          match mem' with
          | None => mret None
          | Some mem' =>
              batch ← pure (build_batch mem mem' payload_size batch_packets);
              if negb calloc_ok then mret None
              else
                r ← campaign (batches fuel batch (HEADER_SIZE + payload_size)) rounds fuel host_ok events_ok junk junk'
                      client_count;
                mret (match r with Some (_, b) => Some (final_results b) | None => None end)
          end
    end.
End Code.

(** ** The batch *)

(** The batch is [n] packets. *)
Lemma build_packet_spec packet payload :
  zlen payload < 65536 -> zlen packet = 8 + zlen payload ->
  build_packet packet (pkt_int VR_PKT_PUBLISH) payload (zlen payload) = Ok (publish_bytes payload).
Proof.
  intros Hl Hp. pose proof (zlen_nonneg payload) as Hn. unfold build_packet.
  rewrite write_header_splice by lia. set (h := header_bytes _).
  assert (Hw : splice packet 0 (h ++ payload) = Ok (publish_bytes payload)).
  { apply (splice_whole packet (publish_bytes payload)). rewrite publish_bytes_length. unfold zlen in *. lia. }
  destruct (Z.ltb_spec 0 (zlen payload)) as [Hpos|Hz].
  - rewrite slice_ok by lia. rewrite drop_0, take_ge by (unfold zlen; lia). ostep.
    rewrite <-Hw. rewrite <-(outcome_bind_ret (splice packet 0 (h ++ payload))).
    rewrite <-(splice_bind packet 0 HEADER_SIZE h payload); [|unfold zlen, h; by rewrite header_bytes_length].
    destruct (splice packet 0 h); ostep; [|done..]. by rewrite outcome_bind_ret.
  - destruct payload; [|unfold zlen in Hz; simpl in Hz; lia]. rewrite app_nil_r in Hw. rewrite Hw. done.
Qed.

Lemma fill_batch_spec todo (batch packet : list Z) i pre :
  i * zlen packet = zlen pre -> take (length pre) batch = pre -> 0 <= i ->
  zlen batch = zlen pre + Z.of_nat todo * zlen packet ->
  fill_batch todo batch packet i = Ok (pre ++ times todo packet).
Proof.
  revert batch i pre. induction todo as [|todo IH]; intros batch i pre Hi Ht H0 Hl.
  { cbn [fill_batch]. rewrite app_nil_r, <-Ht at 1. f_equal. symmetry. apply take_ge. unfold zlen in *. lia. }
  pose proof (zlen_nonneg packet). cbn [fill_batch]. rewrite Hi, (splice_prefix batch pre packet) by (done || lia). ostep.
  rewrite (IH _ _ (pre ++ packet)).
  - by rewrite times_S, (assoc_L (++)).
  - unfold zlen in *. rewrite length_app. lia.
  - by rewrite (assoc_L (++)), take_app_length.
  - lia.
  - unfold zlen in *. rewrite !length_app, length_drop. lia.
Qed.

Lemma build_batch_spec mem mem' payload_size n :
  0 <= payload_size < 65536 -> zlen mem = Z.of_nat n * (8 + payload_size) -> zlen mem' = 8 + payload_size ->
  build_batch mem mem' payload_size (Z.of_nat n) = Ok (times n (publish_bytes (make_payload payload_size))).
Proof.
  intros Hp Hm Hm'. destruct (make_payload_ok payload_size) as [Hl _]; [lia|]. unfold build_batch.
  rewrite u16_id by lia. rewrite <-Hl at 2. rewrite build_packet_spec by lia. ostep. rewrite Nat2Z.id.
  apply (fill_batch_spec n mem _ 0 []); [done|done|lia|]. change (zlen []) with 0. rewrite Hm. unfold zlen in *.
  rewrite publish_bytes_length. lia.
Qed.

(** ** What a client has done *)

(** Packets and bytes handed to the kernel, and failures. *)
Record work := Work { wk_messages : nat; wk_bytes : nat; wk_failures : nat }.

Definition more (g : work) (m b f : nat) : work :=
  Work (wk_messages g + m) (wk_bytes g + b) (wk_failures g + f).

Section Specs.
Context `{OsLaws} (packet : list Z) (n : nat).
Hypothesis Hps : 0 < zlen packet.
Hypothesis Hn : (0 < n)%nat.
Local Abbreviation ps := (zlen packet).
Local Abbreviation batch := (times n packet).

(** [k] batches of [n] packets have been handed to the kernel, and [batch_offset]
    bytes of the next one. *)
Record pushed (k : nat) (v : kview) (h : Z) (cl : client_t) (g : work) : Prop := {
  pu_offset : 0 <= cl_batch_offset cl < Z.of_nat n * ps;
  pu_work : Z.of_nat (wk_messages g) = Z.of_nat (k * n) + cl_batch_offset cl / ps /\
    Z.of_nat (wk_bytes g) = Z.of_nat (k * n) * ps + cl_batch_offset cl;
  pu_sent : (traffic v h).2 =
    CONNECT_BYTES ++ times (k * n) packet ++ take (Z.to_nat (cl_batch_offset cl)) batch
}.

(** The counters at their width. *)
Record counts (cl : client_t) (g : work) : Prop := {
  co_messages : cl_messages cl = u64 (Z.of_nat (wk_messages g));
  co_bytes : cl_bytes cl = u64 (Z.of_nat (wk_bytes g));
  co_failures : cl_failures cl = u64 (Z.of_nat (wk_failures g))
}.

Definition entry_ok (v : kview) (x : slot client_t work) : Prop :=
  let cl := sl_client x in let h := sl_home x in let g := sl_ghost x in
  counts cl g /\ (h = -1 -> g = Work 0 0 0) /\ (h <> -1 -> exists k, pushed k v h cl g) /\
  (wk_failures g <= 1)%nat /\ (cl_fd cl <> -1 -> wk_failures g = 0%nat).

Lemma batch_entry_local : local_ok entry_ok.
Proof.
  intros v v' [h cl g] (Hc & Hz & Hp & Hf & Ha) Ht. unfold entry_ok. cbn [sl_home sl_client sl_ghost] in *.
  refine (conj Hc (conj Hz (conj _ (conj Hf Ha)))). intros Hne. destruct (Hp Hne) as (k & []). exists k.
  split; [done|done|]. by rewrite (Ht Hne).
Qed.

Lemma counted_plus x m : counted x (u64 (x + Z.of_nat m)) m.
Proof. intros c ->. unfold u64. rewrite Zplus_mod_idemp_l. f_equal. lia. Qed.

(** What [account] adds to a counter of packets. *)
Lemma counted_if x c : 0 <= c -> counted x (if 0 <? c then u64 (x + c) else x) (Z.to_nat c).
Proof.
  intros Hc. destruct (Z.ltb_spec 0 c).
  - rewrite <-(Z2Nat.id c) at 1 by lia. apply counted_plus.
  - replace c with 0 by lia. apply counted_0.
Qed.

Lemma offset_grows off m : 0 <= off -> 0 < m -> 0 <= off / ps <= (off + m) / ps.
Proof. intros Ho Hm. split; [apply Z.div_pos; lia|apply Z.div_le_mono; lia]. Qed.

(** The bytes of [account] in terms of what was sent. *)
Lemma account_pushed k v v' h cl g t m :
  pushed k v h cl g -> 0 < m -> m <= zlen batch - cl_batch_offset cl ->
  spoke h (take (Z.to_nat m) (drop (Z.to_nat (cl_batch_offset cl)) batch)) [] v v' ->
  let c := Z.to_nat ((cl_batch_offset cl + m) / ps - cl_batch_offset cl / ps) in
  exists k', pushed k' v' h (account (zlen batch) ps m cl t).1 (more g c (Z.to_nat m) 0).
Proof.
  intros [Hoff [Hm Hb] Hs] Hpos Hle [O T Q] c. rewrite times_zlen in *. unfold account. cbn [fst].
  set (off := cl_batch_offset cl) in *. pose proof (offset_grows off m ltac:(lia) Hpos) as Hdiv.
  assert (Hsent : (traffic v' h).2 = CONNECT_BYTES ++ times (k * n) packet ++ take (Z.to_nat (off + m)) batch).
  { rewrite T. cbn [snd]. rewrite Hs, <-!(assoc_L (++)). do 2 f_equal.
    rewrite Z2Nat.inj_add by lia. by rewrite take_take_drop. }
  destruct (Z.eqb_spec (off + m) (Z.of_nat n * ps)) as [E|E].
  - exists (S k). split; cbn [cl_batch_offset more wk_messages wk_bytes]; [lia| |].
    + unfold c. rewrite E, Z.div_mul, Z.div_0_l by lia. rewrite E, Z.div_mul in Hdiv by lia. lia.
    + rewrite Hsent, take_0, app_nil_r, take_ge, <-times_add; [do 2 f_equal; lia|].
      pose proof (times_zlen n packet) as Hz. unfold zlen in *. lia.
  - exists k. split; cbn [cl_batch_offset more wk_messages wk_bytes]; [lia| |done]. unfold c. lia.
Qed.

Lemma account_counts cl g t m :
  counts cl g -> 0 <= cl_batch_offset cl -> 0 < m ->
  let c := Z.to_nat ((cl_batch_offset cl + m) / ps - cl_batch_offset cl / ps) in
  let r := account (zlen batch) ps m cl t in
  counts r.1 (more g c (Z.to_nat m) 0) /\ counted (to_messages t) (to_messages r.2) c /\
  counted (to_bytes t) (to_bytes r.2) (Z.to_nat m) /\ to_failures r.2 = to_failures t /\
  to_active r.2 = to_active t /\ cl_fd r.1 = cl_fd cl.
Proof.
  intros [Hm Hb Hf] Ho Hpos. cbv zeta. pose proof (offset_grows _ m Ho Hpos) as Hdiv. unfold account.
  cbn [fst snd to_messages to_bytes to_failures to_active cl_fd].
  assert (Hbm : forall x, counted x (u64 (x + m)) (Z.to_nat m)).
  { intros x. rewrite <-(Z2Nat.id m) at 1 by lia. apply counted_plus. }
  split_and!; [|apply counted_if; lia|apply Hbm|done|done|done].
  split; cbn [cl_messages cl_bytes cl_failures more wk_messages wk_bytes wk_failures].
  - by apply counted_if; [lia|].
  - by apply Hbm.
  - by rewrite Nat.add_0_r.
Qed.

(** From [cl] to [cl'], with more work done, which the totals count. *)
Definition push_post (v : kview) (cl : client_t) (t : totals) (g : work) (r : client_t * totals) (v' : kview) : Prop :=
  exists m b f,
    moved cl_fd entry_ok v v' (Slot (cl_fd cl) cl g) (Slot (cl_fd cl) r.1 (more g m b f)) /\
    counted (to_messages t) (to_messages r.2) m /\ counted (to_bytes t) (to_bytes r.2) b /\
    counted (to_failures t) (to_failures r.2) f /\
    to_active r.2 = to_active t - (if decide (cl_fd r.1 = -1) then 1 else 0).

Lemma more_0 g : more g 0 0 0 = g.
Proof. destruct g. unfold more. cbn. by rewrite !Nat.add_0_r. Qed.

Lemma more_more g m b f m' b' f' : more (more g m b f) m' b' f' = more g (m + m') (b + b') (f + f').
Proof. unfold more. cbn. f_equal; lia. Qed.

Lemma push_done v cl t g : cl_fd cl <> -1 -> entry_ok v (Slot (cl_fd cl) cl g) -> push_post v cl t g (cl, t) v.
Proof.
  intros Hfd Hok. exists 0%nat, 0%nat, 0%nat. rewrite more_0. split_and!; [|apply counted_0..|].
  - split; [done|done|by left|done].
  - cbn [fst]. rewrite decide_False by done. cbn [snd]. lia.
Qed.

Lemma push_post_trans v1 v2 v3 cl t g cl2 t2 m b f r :
  moved cl_fd entry_ok v1 v2 (Slot (cl_fd cl) cl g) (Slot (cl_fd cl) cl2 (more g m b f)) -> cl_fd cl2 = cl_fd cl ->
  cl_fd cl <> -1 -> counted (to_messages t) (to_messages t2) m -> counted (to_bytes t) (to_bytes t2) b ->
  counted (to_failures t) (to_failures t2) f -> to_active t2 = to_active t ->
  push_post v2 cl2 t2 (more g m b f) r v3 -> push_post v1 cl t g r v3.
Proof.
  intros Hm Hf Hne Hcm Hcb Hcf Ha (m' & b' & f' & Hm' & Hcm' & Hcb' & Hcf' & Ha'). rewrite Hf in Hm'.
  exists (m + m')%nat, (b + b')%nat, (f + f')%nat. rewrite <-more_more.
  split_and!; [|by eapply counted_trans..|congruence]. eapply moved_trans; [done|by rewrite <-Hf in Hne|done].
Qed.

(** The connection is given up: one failure. *)
Lemma push_fails epfd v s cl t g :
  cl_fd cl <> -1 -> entry_ok v (Slot (cl_fd cl) cl g) -> os_view s = v ->
  safe (_ ← sys (os_epoll_ctl epfd Epoll_del (cl_fd cl));
        _ ← sys (os_close (cl_fd cl));
        mret (Client (-1) (cl_batch_offset cl) (cl_messages cl) (cl_bytes cl) (u64 (cl_failures cl + 1)),
              Totals (to_messages t) (to_bytes t) (u64 (to_failures t + 1)) (to_active t - 1)))
    (fun r s' => push_post v cl t g r (os_view s')) s.
Proof.
  intros Hfd (Hc & Hz & Hp & Hf & Ha) <-. cbn [sl_home sl_client sl_ghost] in *. apply safe_bind, safe_sys.
  pose proof (os_law_epoll_ctl s epfd Epoll_del (cl_fd cl)) as H1.
  destruct (os_epoll_ctl _ _ _ s) as [r1 s1]; cbn [fst snd] in *.
  apply safe_bind, safe_sys. pose proof (os_law_close s1 (cl_fd cl)) as H2.
  destruct (os_close _ s1) as [r2 s2]; cbn [fst snd] in *. apply safe_ret.
  pose proof (closed_quiet (cl_fd cl) _ _ H1) as Hq. rewrite <-H2 in Hq. exists 0%nat, 0%nat, 1%nat.
  split_and!; [|apply counted_0|apply counted_0|apply counted_1|done]. split; cbn [sl_home sl_client fst].
  - by intros fd' _.
  - done.
  - right. split; [done|]. rewrite H2. simpl. by destruct H1 as [-> _].
  - unfold entry_ok. cbn [sl_home sl_client sl_ghost more wk_failures]. rewrite (Ha Hfd). split_and!; [|done| |lia|done].
    + destruct Hc as [Cm Cb Cf]. split; cbn [cl_messages cl_bytes cl_failures more wk_messages wk_bytes wk_failures].
      * by rewrite Nat.add_0_r.
      * by rewrite Nat.add_0_r.
      * by apply counted_1.
    + intros _. destruct (Hp Hfd) as (k & [Po Pw Psent]). exists k. split; [done| |by rewrite Hq].
      cbn [more wk_messages wk_bytes cl_batch_offset]. by rewrite !Nat.add_0_r.
Qed.

(** A part of the batch was taken. *)
Lemma push_step v v' cl t g m :
  cl_fd cl <> -1 -> entry_ok v (Slot (cl_fd cl) cl g) -> 0 < m -> m <= zlen batch - cl_batch_offset cl ->
  spoke (cl_fd cl) (take (Z.to_nat m) (drop (Z.to_nat (cl_batch_offset cl)) batch)) [] v v' ->
  let r := account (zlen batch) ps m cl t in
  exists c, let g' := more g c (Z.to_nat m) 0 in
    cl_fd r.1 = cl_fd cl /\ entry_ok v' (Slot (cl_fd cl) r.1 g') /\
    forall q v3, push_post v' r.1 r.2 g' q v3 -> push_post v cl t g q v3.
Proof.
  intros Hfd (Hc & Hz & Hp & Hf & Ha) Hpos Hle Hsp r. cbn [sl_home sl_client sl_ghost] in *. destruct (Hp Hfd) as (k & Hk).
  destruct (account_pushed k v v' _ cl g t m Hk Hpos Hle Hsp) as [k' Hk'].
  destruct (account_counts cl g t m Hc (proj1 (pu_offset _ _ _ _ _ Hk)) Hpos) as (Hc' & Hm & Hb & Hfl & Hact & Hfd').
  fold r in Hk', Hc', Hm, Hb, Hfl, Hact, Hfd'. eexists. cbv zeta.
  assert (Hok : entry_ok v' (Slot (cl_fd cl) r.1 (more g (Z.to_nat ((cl_batch_offset cl + m) / ps - cl_batch_offset cl / ps)) (Z.to_nat m) 0))).
  { unfold entry_ok. cbn [sl_home sl_client sl_ghost more wk_failures]. rewrite Nat.add_0_r, Hfd'.
    split_and!; [done|done|by exists k'|done|done]. }
  split_and!; [done|exact Hok|]. intros q v3. apply push_post_trans; try done.
  - destruct Hsp as [O T Q]. split; [done|done|left; cbn [sl_client sl_home]; by split|done].
  - rewrite Hfl. apply counted_0.
Qed.

Lemma push_spec' fuel epfd cl t g s :
  cl_fd cl <> -1 -> entry_ok (os_view s) (Slot (cl_fd cl) cl g) ->
  safe (push fuel epfd batch ps cl t) (fun r s' => push_post (os_view s) cl t g r (os_view s')) s.
Proof.
  revert cl t g s. induction fuel as [|fuel IH]; intros cl t g s Hfd Hok; cbn [push];
    pose proof (push_done _ _ t _ Hfd Hok) as Hdone;
    apply safe_bind, safe_get_os; destruct (os_stop s); try done.
  pose proof Hok as (_ & _ & Hp & _). cbn [sl_home sl_client] in Hp. destruct (Hp Hfd) as (k & Hk).
  pose proof (pu_offset _ _ _ _ _ Hk) as Hoff.
  apply safe_bind. eapply safe_pure; [apply slice_ok; rewrite ?times_zlen; lia|].
  rewrite take_ge by (pose proof (times_zlen n packet); unfold zlen in *; rewrite length_drop; lia).
  set (bs := drop _ _). apply safe_bind, safe_sys. pose proof (os_law_send s (cl_fd cl) bs) as Hlaw.
  destruct (os_send (cl_fd cl) bs s) as [[m|e] s1]; cbn [fst snd] in *; cbv zeta.
  2:{ destruct (would_block e); [apply safe_ret; by rewrite Hlaw|]. rewrite <-Hlaw in *.
      destruct (e =? EINTR); [by apply IH|by apply push_fails]. }
  destruct Hlaw as [Hm Hv]. pose proof (spoke_accepted (cl_fd cl) (take (Z.to_nat m) bs) (os_view s)) as Hsp.
  rewrite <-Hv in Hsp. destruct (Z.ltb_spec 0 m) as [Hpos|Hz].
  - assert (Hml : m <= zlen batch - cl_batch_offset cl) by (unfold bs, zlen in *; rewrite length_drop in Hm; lia).
    destruct (push_step _ _ cl t g m Hfd Hok Hpos Hml Hsp) as (c & Hfd' & Hok' & Htrans).
    destruct (account _ _ _ _ _) as [cl' t'] eqn:Eacc. cbn [fst snd] in *. rewrite <-Hfd' in Hok', Hfd.
    eapply safe_mono; [by apply IH|]. intros q s2. apply Htrans.
  - assert (m = 0) as -> by lia. change (take _ _) with (@nil Z) in Hsp.
    assert (Hok1 : entry_ok (os_view s1) (Slot (cl_fd cl) cl g)).
    { apply (batch_entry_local (os_view s)); [done|]. intros _. cbn [sl_home]. rewrite (sk_traffic _ _ _ _ _ Hsp), !app_nil_r.
      by destruct (traffic _ _). }
    eapply safe_mono; [by apply (push_fails epfd (os_view s1))|]. intros r s2 Hr.
    apply (push_post_trans _ (os_view s1) _ cl t g cl t 0 0 0); try done; rewrite ?more_0; try apply counted_0; [|done].
    destruct Hsp as [O T Q]. split; [done|done|by left|done].
Qed.
End Specs.

(** ** The benchmark in the frame *)

Section Whole.
Context `{OsLaws} (packet : list Z) (n : nat).
Hypothesis Hps : 0 < zlen packet.
Hypothesis Hn : (0 < n)%nat.
Local Abbreviation prog_of fuel := (batches fuel (times n packet) (zlen packet)).

(** The totals are the sums of what the clients did; [benchmark_active] is the number
    of descriptors in use. *)
Record totalled (lost : Z) (gs : list work) (open : Z) (b : state) : Prop := {
  tt_messages : to_messages (st_totals b) = u64 (Z.of_nat (sum_list (wk_messages <$> gs)));
  tt_bytes : to_bytes (st_totals b) = u64 (Z.of_nat (sum_list (wk_bytes <$> gs)));
  tt_failures : to_failures (st_totals b) = u64 (Z.of_nat (sum_list (wk_failures <$> gs)));
  tt_active : to_active (st_totals b) = open
}.

Lemma sum_more (f : work -> nat) gs i g g' k :
  gs !! i = Some g -> f g' = (f g + k)%nat -> sum_list (f <$> <[i := g']> gs) = (sum_list (f <$> gs) + k)%nat.
Proof. intros Hi E. rewrite list_fmap_insert, E. apply sum_list_insert. by rewrite list_lookup_fmap, Hi. Qed.

Lemma totalled_update lost gs open b i g m c f b' d :
  totalled lost gs open b -> gs !! i = Some g -> counted (to_messages (st_totals b)) (to_messages (st_totals b')) m ->
  counted (to_bytes (st_totals b)) (to_bytes (st_totals b')) c ->
  counted (to_failures (st_totals b)) (to_failures (st_totals b')) f ->
  to_active (st_totals b') = to_active (st_totals b) - d -> totalled lost (<[i := more g m c f]> gs) (open - d) b'.
Proof.
  intros [Tm Tb Tf Ta] Hi Hm Hb Hf Ha. split.
  - rewrite (sum_more wk_messages gs i g (more g m c f) m Hi eq_refl). by apply Hm.
  - rewrite (sum_more wk_bytes gs i g (more g m c f) c Hi eq_refl). by apply Hb.
  - rewrite (sum_more wk_failures gs i g (more g m c f) f Hi eq_refl). by apply Hf.
  - by rewrite Ha, Ta.
Qed.

Lemma batch_event_spec fuel base hs lost epfd b ev s :
  bench_ok (prog_of fuel) (entry_ok packet n) totalled base hs lost (os_view s) b ->
  safe (batch_event fuel (times n packet) (zlen packet) epfd b ev)
    (fun b' s' => bench_ok (prog_of fuel) (entry_ok packet n) totalled base hs lost (os_view s') b') s.
Proof.
  intros Hb. destruct ev as [events data]. unfold batch_event.
  destruct (Z.leb_spec (zlen (st_clients b)) (u32 data)) as [|Hlt]; [by apply safe_ret|].
  assert (Hu : 0 <= u32 data) by (apply Z.mod_pos_bound; lia). unfold zlen in Hlt.
  destruct (lookup_lt_is_Some_2 (st_clients b) (Z.to_nat (u32 data))) as [cl Hcl]; [lia|].
  apply safe_bind. eapply safe_pure; [by apply load_ok|].
  destruct (Z.ltb_spec (cl_fd cl) 0) as [|Hfd]; [by apply safe_ret|]. assert (Hne : cl_fd cl <> -1) by lia.
  destruct (bench_step (prog_of fuel) _ _ _ _ _ _ _ _ _ (batch_entry_local packet n) Hb Hcl Hne) as (g & gs & q & Htl & Hg & Hok & Hstep).
  apply safe_bind. eapply safe_mono; [by apply push_spec'|].
  intros [cl' t'] s1 (m & c & f & Hm & Hcm & Hcb & Hcf & Ha). cbn [fst snd] in *. apply safe_bind.
  eapply safe_pure; [apply store_insert; unfold zlen; lia|]. apply safe_ret.
  eapply (Hstep _ cl' _ (State (<[Z.to_nat (u32 data) := cl']> (st_clients b)) t')); [done|exact Hm|].
  by eapply totalled_update.
Qed.

Lemma batch_round_spec fuel base hs lost epfd evs b s :
  bench_ok (prog_of fuel) (entry_ok packet n) totalled base hs lost (os_view s) b ->
  safe (batch_round fuel (times n packet) (zlen packet) epfd evs b)
    (fun b' s' => bench_ok (prog_of fuel) (entry_ok packet n) totalled base hs lost (os_view s') b') s.
Proof.
  revert b s. induction evs as [|ev evs IH]; intros b s Hb; [by apply safe_ret|].
  apply safe_bind. eapply safe_mono; [by apply batch_event_spec|]. intros b' s'. apply IH.
Qed.

Lemma batch_entry_fresh fuel v x : fresh (prog_of fuel) (Work 0 0 0) v x -> entry_ok packet n v x.
Proof.
  intros [Hg Hx]. destruct x as [h cl g]. cbn [sl_home sl_client sl_ghost] in *. subst g. unfold entry_ok.
  cbn [sl_home sl_client sl_ghost wk_failures]. destruct Hx as [[-> ->]|(Hne & (response & _ & _ & _ & Ht) & Hx)].
  - split_and!; [done|done|done|lia|done].
  - assert (Hcl : cl_batch_offset cl = 0 /\ counts cl (Work 0 0 0)) by (by destruct Hx as [->| ->]).
    destruct Hcl as [Ho Hc]. split_and!; [done|done| |lia|done]. intros _. exists 0%nat.
    split; rewrite Ho; [nia|by rewrite Z.div_0_l by lia|]. by rewrite Ht, app_nil_r.
Qed.

Lemma sum_zeros (f : work -> nat) k : f (Work 0 0 0) = 0%nat -> sum_list (f <$> replicate k (Work 0 0 0)) = 0%nat.
Proof. intros E. rewrite fmap_replicate, E. by induction k. Qed.

#[refine] Definition batches_laws (fuel : nat) : BenchLaws (prog_of fuel) work := {|
  bl_ok := entry_ok packet n;
  bl_zero := Work 0 0 0;
  bl_inv := totalled
|}.
Proof.
  - apply ack_lenient_total.
  - done.
  - done.
  - done.
  - apply batch_entry_local.
  - intros v x. apply batch_entry_fresh.
  - intros clients established lost. split; [done|]. split; [by rewrite sum_zeros..|done].
  - intros base hs lost epfd evs b s. apply batch_round_spec.
Defined.

(** ** The benchmark ends *)

(** A connection takes at most [bound] bytes between two calls of epoll_wait:
    [room] is what is left of it. *)
Record finite_buffers (room : ost -> Z -> nat) (bound : nat) : Prop := {
  fb_bound s fd : (room s fd <= bound)%nat;
  fb_send s fd bs m s' : os_send fd bs s = (Done m, s') -> 0 < m -> (room s' fd < room s fd)%nat
}.

Lemma push_finishes room bound fuel epfd batch packet_size cl t s :
  undisturbed -> finite_buffers room bound -> (room s (cl_fd cl) < fuel)%nat ->
  finishes (push fuel epfd batch packet_size cl t) s.
Proof.
  intros [Hu _] Hr. revert cl t s. induction fuel as [|fuel IH]; intros cl t s Hf; [lia|]. cbn [push].
  apply finishes_bind; [done|]. intros st s' [= <- <-]. destruct (os_stop s); [done|].
  apply finishes_bind; [unfold finishes, pure, slice; by destruct (in_range _ _ _)|].
  intros bs s' Ebs. assert (s' = s) as ->.
  { unfold pure in Ebs. destruct (slice _ _ _); [|done..]. by injection Ebs. }
  apply finishes_sys. specialize (Hu (cl_fd cl) bs s).
  destruct (os_send (cl_fd cl) bs s) as [[m|e] s1] eqn:E; cbn [fst snd] in *; cbv zeta.
  - destruct (Z.ltb_spec 0 m) as [Hpos|]; [|by apply finishes_sys, finishes_sys].
    apply (fb_send _ _ Hr) in E; [|done]. unfold account. apply IH. cbn [cl_fd]. lia.
  - destruct (would_block e); [done|]. destruct (Z.eqb_spec e EINTR) as [->|]; [done|by apply finishes_sys, finishes_sys].
Qed.

Context (remaining : ost -> nat) (Hclock : clock remaining).

Lemma forward_push fuel epfd batch packet_size cl t : forward remaining (push fuel epfd batch packet_size cl t).
Proof using Hclock. revert cl t. induction fuel; intros cl t; cbn [push]; forward. Qed.
#[local] Hint Resolve forward_push : forward.

Lemma forward_batch_round fuel batch packet_size epfd evs b :
  forward remaining (batch_round fuel batch packet_size epfd evs b).
Proof using Hclock. revert b. induction evs; intros b; cbn [batch_round]; [forward|]. unfold batch_event. forward. Qed.

Lemma batches_finish room bound rounds fuel host_ok events_ok junk junk' client_count s :
  undisturbed -> finite_buffers room bound -> (bound < fuel)%nat -> (8 <= fuel)%nat ->
  length junk = 8%nat -> length junk' = 8%nat -> (remaining s <= rounds)%nat ->
  finishes (campaign (prog_of fuel) rounds fuel host_ok events_ok junk junk' client_count) s.
Proof using All.
  intros Hu Hr Hb Hf Hj Hj' Hrem. apply (campaign_finishes (L:=batches_laws fuel) _ remaining Hclock); try done.
  - apply ack_lenient_finishes.
  - intros. apply forward_batch_round.
  - intros base hs lost epfd evs b s1 _. revert b s1. induction evs as [|ev evs IH]; intros b s1; [done|].
    apply finishes_bind; [|intros; apply IH]. destruct ev as [events data]. unfold batch_event. destruct (_ <=? _); [done|].
    apply finishes_bind; [apply finishes_load|].
    intros cl s2 _. destruct (_ <? 0); [done|]. apply finishes_bind.
    + eapply push_finishes; [done|done|]. pose proof (fb_bound _ _ Hr s2 (cl_fd cl)). lia.
    + intros [cl' t'] s3 _. by apply finishes_bind; [apply finishes_store|].
Qed.
End Whole.

(** ** The packets in what was sent *)

Section Sent.
Context `{Abi} (payload : list Z).
Hypothesis H8 : sizeof_vr_packet_header_t = 8.
Hypothesis Hlen : zlen payload < 65536.
Hypothesis Hpay : Forall is_byte payload.

Lemma packets_in_pushed n k v h cl g :
  pushed (publish_bytes payload) n k v h cl g ->
  packets_in (traffic v h).2 = bare VR_PKT_CONNECT :: replicate (wk_messages g) (publish payload) /\
  (length (traffic v h).2 - 8)%nat = wk_bytes g.
Proof.
  intros [Hoff [Hm Hb] Hs]. pose proof (publish_bytes_length payload) as Hpl. rewrite Hs.
  set (off := cl_batch_offset cl) in *. unfold zlen in Hoff, Hm, Hb |- *.
  rewrite take_times by lia. split.
  - assert (Hrest : Forall is_byte (take (Z.to_nat off mod length (publish_bytes payload)) (publish_bytes payload)))
      by (by apply Forall_take, publish_bytes_bytes).
    assert (Hall : forall m, Forall is_byte (times m (publish_bytes payload)))
      by (intros; by apply times_bytes, publish_bytes_bytes).
    etransitivity; [apply (packets_in_bare VR_PKT_CONNECT); [done|by rewrite !Forall_app]|]. f_equal.
    rewrite (assoc_L (++)), <-times_add, packets_in_publishes, packets_in_part, app_nil_r by
      (done || apply Nat.mod_upper_bound; lia).
    f_equal. rewrite <-(Z2Nat.id off) in Hm by lia. rewrite <-Nat2Z.inj_div in Hm. lia.
  - rewrite !length_app, length_take. change (length CONNECT_BYTES) with 8%nat.
    pose proof (times_zlen (k * n) (publish_bytes payload)) as Z1.
    pose proof (times_zlen (Z.to_nat off / length (publish_bytes payload)) (publish_bytes payload)) as Z2. unfold zlen in Z1, Z2.
    pose proof (Nat.div_mod (Z.to_nat off) (length (publish_bytes payload)) ltac:(lia)) as Hdm.
    pose proof (Nat.mod_upper_bound (Z.to_nat off) (length (publish_bytes payload)) ltac:(lia)) as Hmod. nia.
Qed.
End Sent.

(** ** Properties *)

(** What the report says: there are distinct new connections, and what was handed to
    the kernel on each of them is CONNECT and a number of PUBLISH packets, as a
    server parses it, and nothing malformed; the reported numbers of packets and
    bytes are the sums, at their width; failures and connections in use are at most
    all. *)
Definition counted_right `{Abi} (base : gset Z) (v : kview) (payload : list Z) (r : report) : Prop :=
  exists cs : list (Z * nat),
    NoDup cs.*1 /\
    Forall (fun c => (c.1 ∉ base) /\
      packets_in (traffic v c.1).2 = bare VR_PKT_CONNECT :: replicate c.2 (publish payload)) cs /\
    rp_messages r = u64 (Z.of_nat (sum_list cs.*2)) /\
    rp_bytes r = u64 (Z.of_nat (sum_list ((fun c => length (traffic v c.1).2 - 8)%nat <$> cs))) /\
    exists f : nat, rp_failures r = u64 (Z.of_nat f) /\ Z.of_nat f + rp_active r <= Z.of_nat (length cs).

Lemma failures_bound packet n v (xs : list (slot client_t work)) :
  Forall (slot_ok cl_fd (entry_ok packet n) v) xs ->
  (sum_list (wk_failures <$> (sl_ghost <$> xs)) + length (fds cl_fd xs) <= length (homes xs))%nat.
Proof.
  induction 1 as [|[h cl g] xs [Hfd (_ & Hz & _ & Hf & Ha)] _ IH]; [done|]. rewrite fds_cons, homes_cons, !length_app.
  cbn [sl_home sl_client sl_ghost fmap list_fmap sum_list] in *. destruct (decide (cl_fd cl = -1)) as [E|E].
  - destruct (decide (h = -1)) as [Eh|Eh]; [rewrite (Hz Eh)|]; simpl in *; lia.
  - destruct Hfd as [|<-]; [done|]. rewrite decide_False, (Ha E) by done. simpl. lia.
Qed.

Lemma settled_counted `{OsLaws} `{Abi} payload n Hps Hn fuel base established v b :
  sizeof_vr_packet_header_t = 8 -> zlen payload < 65536 -> Forall is_byte payload ->
  settled (L:=batches_laws (publish_bytes payload) n Hps Hn fuel)
    (batches fuel (times n (publish_bytes payload)) (zlen (publish_bytes payload))) base established v b ->
  counted_right base v payload (final_results b).
Proof.
  intros H8 Hl Hb (xs & lost & Hc & Hok & Hnd & Hbase & Hlen & [Tm Tb Tf Ta]). cbn [bl_ok batches_laws pr_fd batches] in *.
  assert (Hx : forall x, x ∈ xs -> entry_ok (publish_bytes payload) n v x).
  { intros x Hin. rewrite Forall_forall in Hok. by destruct (Hok x Hin). }
  assert (Hz : forall f : work -> nat, f (Work 0 0 0) = 0%nat ->
    sum_list (f <$> (connections xs).*2) = sum_list (f <$> (sl_ghost <$> xs))).
  { intros f Ef. apply connections_sum, Forall_forall. intros x Hin E. destruct (Hx x Hin) as (_ & Hz & _). by rewrite (Hz E). }
  assert (Hcs : Forall (fun c => (c.1 ∉ base) /\ packets_in (traffic v c.1).2 =
      bare VR_PKT_CONNECT :: replicate (wk_messages c.2) (publish payload) /\
      (length (traffic v c.1).2 - 8)%nat = wk_bytes c.2) (connections xs)).
  { apply Forall_forall. intros c (x & Hin & -> & Hne)%elem_of_connections. cbn [fst snd].
    destruct (Hx x Hin) as (_ & _ & Hp & _). destruct (Hp Hne) as [k Hk]. split; [|by eapply packets_in_pushed].
    rewrite Forall_forall in Hbase. apply Hbase. by apply elem_of_homes. }
  exists ((fun c => (c.1, wk_messages c.2)) <$> connections xs). rewrite <-!list_fmap_compose. split_and!.
  - by rewrite <-(connections_homes xs) in Hnd.
  - apply Forall_fmap. eapply Forall_impl; [exact Hcs|]. by intros c (? & ? & ?).
  - cbn [final_results rp_messages]. rewrite Tm, <-(Hz wk_messages eq_refl), <-list_fmap_compose. done.
  - cbn [final_results rp_bytes]. rewrite Tb, <-(Hz wk_bytes eq_refl), <-list_fmap_compose. do 3 f_equal.
    apply list_fmap_ext. intros i c Hi. symmetry. by destruct (Forall_lookup_1 _ _ _ _ Hcs Hi) as (_ & _ & ?).
  - exists (sum_list (wk_failures <$> (sl_ghost <$> xs))). split; [done|]. cbn [final_results rp_active]. rewrite Ta, length_fmap.
    pose proof (failures_bound _ _ _ _ Hok) as Hbound. rewrite <-(connections_homes xs), length_fmap in Hbound. lia.
Qed.

(** C15. tests/throughput_c.c counts the packets a server that reads its format will
    find.  However the kernel cuts the sends, [main] has no undefined behaviour and
    closes every descriptor it opened on all its paths.  If it reports and the
    server's enums have one byte (with gcc's four the server reads a longer header),
    then: on each of its connections, given up or not, the server's parser finds
    CONNECT and PUBLISH packets in the bytes handed to the kernel, nothing malformed;
    the reported number of packets is their number over all connections, and the
    reported bytes are all that was sent behind CONNECT.  [main] returns when no
    signal interrupts a call, no blocking call of the set-up waits forever, the kernel
    buffers finitely many bytes and the clock advances. *)
Theorem batch_counts_packets `{OsLaws} `{Abi} (rounds fuel : nat) (host_ok : bool) (mem mem' : option (list Z))
  (payload_ok calloc_ok events_ok : bool) (junk junk' : list Z) (client_count payload_size : Z) (n : nat) (duration : Z)
  (s : ost) (Hmem : forall m, mem = Some m -> zlen m = Z.of_nat n * (8 + payload_size))
  (Hmem' : forall m, mem' = Some m -> zlen m = 8 + payload_size)
  (Hj : length junk = 8%nat) (Hj' : length junk' = 8%nat) :
  match main rounds fuel host_ok mem mem' payload_ok calloc_ok events_ok junk junk' client_count payload_size (Z.of_nat n)
    duration s with
  | Ok (r, s') => v_open (os_view s') = v_open (os_view s) /\
      match r with
      | Some rep => sizeof_enum = 1 -> counted_right (v_open (os_view s)) (os_view s') (make_payload payload_size) rep
      | None => True
      end
  | Undef => False
  | NoFuel => ~ (undisturbed /\ (8 <= fuel)%nat /\
      (exists room bound, finite_buffers room bound /\ (bound < fuel)%nat) /\
      exists remaining, clock remaining /\ (remaining s <= rounds)%nat)
  end.
Proof.
  unfold main. destruct (_ || _) eqn:Eargs; [done|]. rewrite !orb_false_iff, !Z.leb_gt, !Z.ltb_ge in Eargs.
  destruct Eargs as [[[[_ Hp0] Hp1] Hpos] _]. destruct mem as [m|]; [|done]. specialize (Hmem m eq_refl).
  destruct (_ && _); [done|]. destruct mem' as [m'|]; [|done]. specialize (Hmem' m' eq_refl).
  rewrite build_batch_spec by (done || lia). destruct calloc_ok; [|done].
  destruct (make_payload_ok payload_size) as [Hpl Hpb]; [lia|].
  set (payload := make_payload payload_size) in *.
  assert (Hz : HEADER_SIZE + payload_size = zlen (publish_bytes payload)).
  { unfold zlen in *. rewrite publish_bytes_length. unfold HEADER_SIZE. lia. }
  rewrite Hz. assert (Hps : 0 < zlen (publish_bytes payload)) by (rewrite <-Hz; unfold HEADER_SIZE; lia).
  assert (Hn : (0 < n)%nat) by lia.
  pose proof (campaign_spec (L:=batches_laws (publish_bytes payload) n Hps Hn fuel)
    (batches fuel (times n (publish_bytes payload)) (zlen (publish_bytes payload)))
    rounds fuel host_ok events_ok junk junk' client_count s Hj Hj') as Hs.
  unfold safe in Hs. unfold mbind at 1, prog_bind at 1, pure. cbn [negb]. unfold mbind, prog_bind, mret, prog_ret.
  destruct (campaign _ _ _ _ _ _ _ _ s) as [[[[established b]|] s']| |] eqn:E; [|by destruct Hs|done|].
  - destruct Hs as [Ho Hset]. split; [done|]. intros Hsize%sizeof_header_8. eapply settled_counted; [done|lia|done|exact Hset].
  - intros (Hu & Hf & (room & bound & Hr & Hb) & remaining & Hck & Hrem).
    by apply (batches_finish (publish_bytes payload) n Hps Hn remaining Hck room bound rounds fuel host_ok events_ok junk junk'
      client_count s Hu Hr Hb Hf Hj Hj' Hrem).
Qed.

(** ** Witnesses *)

Section Witness.
#[local] Existing Instance short_enums_abi.

(** A peer that acknowledges CONNECT and takes 45 bytes. *)
Definition sink (a : list Z) : list Z := if (length a <? 8)%nat then [] else ack_bytes.

Lemma sink_mono a b : sink a `prefix_of` sink (a ++ b).
Proof.
  unfold sink. rewrite length_app. destruct (Nat.ltb_spec (length a) 8); [apply prefix_nil|].
  by rewrite (proj2 (Nat.ltb_ge _ _)) by lia.
Qed.

Lemma sink_bytes a : Forall is_byte (sink a).
Proof. unfold sink. destruct (_ <? _)%nat; by repeat constructor. Qed.

#[local] Instance sink_peer : Peer :=
  {| peer := sink; peer_room := Some 45%nat; peer_connect := None; peer_mono := sink_mono; peer_bytes := sink_bytes |}.

Definition sink_room (s : ost) (fd : Z) : nat := (45 - length (traffic (nt_view (proj1_sig s)) fd).2)%nat.

Lemma sink_finite : finite_buffers sink_room 45.
Proof.
  split; [unfold sink_room; lia|]. intros [s Hs] fd bs m s'. cbn [os_send net_os proj1_sig].
  destruct (_ <? 0); [done|]. case_bool_decide as Hb; [done|]. intros [= <- <-] Hm. unfold sink_room. cbn [proj1_sig nt_view with_view].
  destruct (spoke_accepted fd (take (Z.to_nat (takes s fd (zlen bs))) bs) (nt_view s)) as [_ T _]. rewrite T. cbn [snd].
  unfold takes, zlen in *. cbn [peer_room sink_peer] in *. rewrite length_app, length_take. lia.
Qed.

(** Two clients, batches of two packets of ten bytes: each connection takes three
    packets and seven bytes of a fourth. *)
Lemma batch_counts_packets_witness :
  returned (main 4 46 true (Some (replicate 20 0)) (Some (replicate 10 0)) true true true (replicate 8 0) (replicate 8 0)
    2 2 2 1 (lab 2 4)) = Some (Some (Report 6 74 0 2 true)) /\
  (undisturbed /\ finite_buffers sink_room 45 /\ clock net_clock /\ (net_clock (lab 2 4) <= 4)%nat) /\ sizeof_enum = 1 /\
  match main 4 46 true (Some (replicate 20 0)) (Some (replicate 10 0)) true true true (replicate 8 0) (replicate 8 0)
    2 2 (Z.of_nat 2) 1 (lab 2 4) with
  | Ok (r, s') => v_open (os_view s') = v_open (os_view (lab 2 4)) /\
      match r with
      | Some rep => sizeof_enum = 1 -> counted_right (v_open (os_view (lab 2 4))) (os_view s') (make_payload 2) rep
      | None => True
      end
  | Undef => False
  | NoFuel => ~ (undisturbed /\ (8 <= 46)%nat /\
      (exists room bound, finite_buffers room bound /\ (bound < 46)%nat) /\
      exists remaining, clock remaining /\ (remaining (lab 2 4) <= 4)%nat)
  end.
Proof.
  split; [by vm_compute|].
  split; [exact (conj net_undisturbed (conj sink_finite (conj net_clock_ok (le_n 4))))|].
  split; [done|].
  exact (batch_counts_packets 4 46 true (Some (replicate 20 0)) (Some (replicate 10 0)) true true true (replicate 8 0)
    (replicate 8 0) 2 2 2 1 (lab 2 4) ltac:(by intros m [= <-]) ltac:(by intros m [= <-]) eq_refl eq_refl).
Defined.
End Witness.
