(* ===== verification/Flood.v ===== *)
(** * Flood: tests/conn_flood.c

    The program opens [target] connections at once and holds them: it keeps up to
    8192 connects under way ([fill_connections]), learns from epoll which of them
    are through ([completion]), waits for a signal and closes everything.  It sends
    nothing.

    [books] ties the four counters together, on any operating system.  Where no
    registration fails and no connect fails at once ([smooth]), [tidy] says that
    the table lists exactly the descriptors the program has opened.  Otherwise the
    table is wrong: a refused connection leaves an entry with descriptor 0. *)

From S2P Require Import Prelude Core Packet World SocketUtils Client Bench ClientSim.
#[local] Open Scope Z_scope.

Definition MAX_EVENTS : Z := 4096.
Definition ENFILE : Z := 23.
Definition EMFILE : Z := 24.
Definition EINPROGRESS : Z := 115.
Definition EPOLLERR : Z := 8.
Definition EPOLLHUP : Z := 16.
Definition EPOLLRDHUP : Z := 8192.

Record client_t := Client { cl_fd : Z; cl_state : Z }.

Definition CONNECTING : Z := 1.
Definition ESTABLISHED : Z := 2.

(** The limits getrlimit reports, -1 as [None]; with the result, what setrlimit is
    asked for. *)
Definition raise_fd_limit (rl : option (Z * Z)) : Z * option (Z * Z) :=
  match rl with
  | None => (-1, None)
  | Some (rlim_cur, rlim_max) => (0, if rlim_cur <? rlim_max then Some (rlim_max, rlim_max) else None)
  end.

(** The variables of [main]; [fl_stop]: the program has set [stop] itself. *)
Record flood := Flood {
  fl_clients : list client_t;
  fl_created : Z;
  fl_established : Z;
  fl_connecting : Z;
  fl_failed : Z;
  fl_stop : bool
}.

Section Code.
Context `{Os}.

Definition EV_HOLD : Z := Z.lor (Z.lor (Z.lor EPOLLIN EPOLLERR) EPOLLHUP) EPOLLRDHUP.
Definition EV_CONNECT : Z := Z.lor (Z.lor (Z.lor EPOLLOUT EPOLLERR) EPOLLHUP) EPOLLRDHUP.

(** connect returned 0. *)
Definition connected (epfd fd : Z) (b : flood) : prog flood :=
  clients ← pure (store (fl_clients b) (fl_created b) (Client fd ESTABLISHED));
  let established := fl_established b + 1 in
  let created := fl_created b + 1 in
  r ← sys (os_epoll_ctl epfd (Epoll_add EV_HOLD (u32 (created - 1))) fd);
  match r with
  | Done _ => mret (Flood clients created established (fl_connecting b) (fl_failed b) (fl_stop b))
  | Fail _ => _ ← sys (os_close fd);
              mret (Flood clients created (established - 1) (fl_connecting b) (fl_failed b + 1) (fl_stop b))
  end.

(** connect failed, and not with EINPROGRESS. *)
Definition refused (fd : Z) (b : flood) : prog flood :=
  _ ← sys (os_close fd);
  mret (Flood (fl_clients b) (fl_created b + 1) (fl_established b) (fl_connecting b) (fl_failed b + 1) (fl_stop b)).

(** connect is under way. *)
Definition in_progress (epfd fd : Z) (b : flood) : prog flood :=
  clients ← pure (store (fl_clients b) (fl_created b) (Client fd CONNECTING));
  r ← sys (os_epoll_ctl epfd (Epoll_add EV_CONNECT (u32 (fl_created b))) fd);
  match r with
  | Done _ => mret (Flood clients (fl_created b + 1) (fl_established b) (fl_connecting b + 1) (fl_failed b) (fl_stop b))
  | Fail _ => _ ← sys (os_close fd);
              mret (Flood clients (fl_created b + 1) (fl_established b) (fl_connecting b) (fl_failed b + 1) (fl_stop b))
  end.

Definition dial (epfd fd : Z) (b : flood) : prog flood :=
  ret ← sys (os_connect fd);
  match ret with
  | Done _ => connected epfd fd b
  | Fail e => if negb (e =? EINPROGRESS) then refused fd b else in_progress epfd fd b
  end.

(** The inner loop. *)
Fixpoint fill_connections (fuel : nat) (epfd target : Z) (b : flood) : prog flood :=
  stop ← get_os os_stop;
  if (negb (fl_stop b || stop) && (fl_created b <? target) && (fl_created b - fl_established b <? 8192) : bool) then
    match fuel with
    | O => too_long
    | S fuel =>
        fd ← sys os_socket;
        match fd with
        | Fail e =>
            if (e =? EMFILE) || (e =? ENFILE)
            then mret (Flood (fl_clients b) (fl_created b) (fl_established b) (fl_connecting b) (fl_failed b) true)
            else fill_connections fuel epfd target
                   (Flood (fl_clients b) (fl_created b) (fl_established b) (fl_connecting b) (fl_failed b + 1) (fl_stop b))
        | Done fd => b ← dial epfd fd b; fill_connections fuel epfd target b
        end
    end
  else mret b.

(** One event. *)
Definition completion (epfd : Z) (b : flood) (ev : Z * Z) : prog flood :=
  let '(_, data) := ev in
  let idx := u32 data in
  if u32 (fl_created b) <=? idx then mret b
  else
    c ← pure (load (fl_clients b) idx);
    if negb (cl_state c =? CONNECTING) then mret b
    else
      r ← sys (os_so_error (cl_fd c));
      let err := match r with Done err => err | Fail e => e end in
      if err =? 0 then
        clients ← pure (store (fl_clients b) idx (Client (cl_fd c) ESTABLISHED));
        _ ← sys (os_epoll_ctl epfd (Epoll_mod EV_HOLD idx) (cl_fd c));
        mret (Flood clients (fl_created b) (fl_established b + 1) (fl_connecting b - 1) (fl_failed b) (fl_stop b))
      else
        _ ← sys (os_close (cl_fd c));
        clients ← pure (store (fl_clients b) idx (Client (-1) 0));
        mret (Flood clients (fl_created b) (fl_established b) (fl_connecting b - 1) (fl_failed b + 1) (fl_stop b)).

Fixpoint completions (epfd : Z) (b : flood) (evs : list (Z * Z)) : prog flood :=
  match evs with
  | [] => mret b
  | ev :: evs => b ← completion epfd b ev; completions epfd b evs
  end.

(** The main loop. *)
Fixpoint flood_loop (rounds fuel : nat) (epfd target : Z) (b : flood) : prog flood :=
  stop ← get_os os_stop;
  if (fl_stop b || stop || (target <=? fl_established b) : bool) then mret b
  else
    match rounds with
    | O => too_long
    | S rounds =>
        b ← fill_connections fuel epfd target b;
        n ← sys (os_epoll_wait epfd MAX_EVENTS 10);
        match n with
        | Fail e => if e =? EINTR then flood_loop rounds fuel epfd target b else mret b
        | Done evs => b ← completions epfd b evs; flood_loop rounds fuel epfd target b
        end
    end.

(** [while (!stop) sleep(1);] *)
Fixpoint hold (rounds : nat) (b : flood) : prog unit :=
  stop ← get_os os_stop;
  if (fl_stop b || stop : bool) then mret tt
  else
    match rounds with
    | O => too_long
    | S rounds => _ ← sys (os_sleep 1); hold rounds b
    end.

(** [main] after its arguments are read; [None] is a failure before the loop.
    [calloc_ok] and [events_ok]: the two arrays were allocated. *)
Definition main (rounds fuel : nat) (host_ok calloc_ok events_ok : bool) (target : Z) : prog (option flood) :=
  if target <=? 0 then mret None
  else if negb calloc_ok then mret None
  else
    ep ← sys os_epoll_create1;
    match ep with
    | Fail _ => mret None
    | Done epfd =>
        if negb host_ok then _ ← sys (os_close epfd); mret None
        else if negb events_ok then _ ← sys (os_close epfd); mret None
        else
          b ← flood_loop rounds fuel epfd target (Flood (replicate (Z.to_nat target) (Client 0 0)) 0 0 0 0 false);
          _ ← hold rounds b;
          _ ← close_clients cl_fd (take (Z.to_nat (fl_created b)) (fl_clients b));
          _ ← sys (os_close epfd);
          mret (Some b)
    end.
End Code.

(** ** The books *)

(** [created] connections were tried and [k] times socket failed for another reason
    than the number of descriptors: each of them is established, under way or
    failed. *)
Record books (target : Z) (k : nat) (b : flood) : Prop := {
  bk_table : zlen (fl_clients b) = target;
  bk_created : 0 <= fl_created b <= target;
  bk_failed : 0 <= fl_failed b;
  bk_sum : fl_established b + fl_connecting b + fl_failed b = fl_created b + Z.of_nat k
}.

(** The entries in use. *)
Definition made (b : flood) : list client_t := take (Z.to_nat (fl_created b)) (fl_clients b).

Definition count (st : Z) (cs : list client_t) : nat := length (filter (fun c => cl_state c = st) cs).

(** The table lists the descriptors that were opened, each once; the counters count
    its entries. *)
Record tidy (base : gset Z) (v : kview) (b : flood) : Prop := {
  td_nodup : NoDup (descriptors cl_fd (made b));
  td_base : Forall (fun fd => fd ∉ base) (descriptors cl_fd (made b));
  td_open : v_open v = base ∪ list_to_set (descriptors cl_fd (made b));
  td_connecting : Forall (fun c => cl_state c = CONNECTING -> cl_fd c <> -1) (made b);
  td_counts : fl_established b = Z.of_nat (count ESTABLISHED (made b)) /\
              fl_connecting b = Z.of_nat (count CONNECTING (made b))
}.

Lemma count_app st cs cs' : count st (cs ++ cs') = (count st cs + count st cs')%nat.
Proof. unfold count. by rewrite filter_app, length_app. Qed.

Lemma count_one st c : count st [c] = if cl_state c =? st then 1%nat else 0%nat.
Proof. unfold count. rewrite filter_cons, filter_nil. by destruct (decide _), (Z.eqb_spec (cl_state c) st). Qed.

Lemma count_cons st c cs : count st (c :: cs) = (count st [c] + count st cs)%nat.
Proof. apply (count_app st [c]). Qed.

(** [made] grows by an entry, or one of its entries changes. *)
Lemma made_grows b c clients created established connecting failed stop :
  0 <= fl_created b < zlen (fl_clients b) -> clients = <[Z.to_nat (fl_created b) := c]> (fl_clients b) ->
  created = fl_created b + 1 ->
  made (Flood clients created established connecting failed stop) = made b ++ [c].
Proof.
  intros Hr -> ->. unfold made, zlen in *. cbn [fl_clients fl_created].
  replace (Z.to_nat (fl_created b + 1)) with (S (Z.to_nat (fl_created b))) by lia.
  erewrite take_S_r; [|apply list_lookup_insert_eq; lia]. by rewrite take_insert_ge by lia.
Qed.

Lemma made_changes b i c c' clients established connecting failed stop :
  (i < Z.to_nat (fl_created b))%nat -> fl_clients b !! i = Some c -> clients = <[i := c']> (fl_clients b) ->
  exists pre post, made b = pre ++ c :: post /\
    made (Flood clients (fl_created b) established connecting failed stop) = pre ++ c' :: post.
Proof.
  intros Hi Hc ->. unfold made. cbn [fl_clients fl_created].
  assert (Hm : take (Z.to_nat (fl_created b)) (fl_clients b) !! i = Some c) by (by rewrite lookup_take_lt).
  destruct (table_split _ _ _ Hm) as (pre & post & E & _ & Hins). exists pre, post. split; [done|].
  by rewrite take_insert_lt, <-Hins.
Qed.

Section Specs.
Context `{OsLaws}.

(** No registration fails, and connect succeeds or is under way. *)
Definition smooth : Prop :=
  (forall ep ev d fd s, exists u, (os_epoll_ctl ep (Epoll_add ev d) fd s).1 = Done u) /\
  (forall fd s e, (os_connect fd s).1 = Fail e -> e = EINPROGRESS).

(** [m] counts the calls of socket that fail for another reason than the number of
    descriptors, and no other call the program makes. *)
Record meter (m : ost -> nat) : Prop := {
  mt_socket s : m (os_socket s).2 =
    match (os_socket s).1 with
    | Fail e => if (e =? EMFILE) || (e =? ENFILE) then m s else S (m s)
    | Done _ => m s
    end;
  mt_connect fd s : m (os_connect fd s).2 = m s;
  mt_epoll_ctl ep op fd s : m (os_epoll_ctl ep op fd s).2 = m s;
  mt_close fd s : m (os_close fd s).2 = m s;
  mt_so_error fd s : m (os_so_error fd s).2 = m s;
  mt_epoll_wait ep n t s : m (os_epoll_wait ep n t s).2 = m s;
  mt_sleep n s : m (os_sleep n s).2 = m s;
  mt_epoll_create1 s : m (os_epoll_create1 s).2 = m s
}.

(** Between [s] and [s'] the count went from [k] to [k']. *)
Definition counted (k k' : nat) (s s' : ost) : Prop :=
  forall m, meter m -> (m s' + k = m s + k')%nat.

Lemma metered_trans k1 k2 k3 s1 s2 s3 : counted k1 k2 s1 s2 -> counted k2 k3 s2 s3 -> counted k1 k3 s1 s3.
Proof. intros H12 H23 m Hm. specialize (H12 m Hm). specialize (H23 m Hm). lia. Qed.

(** Calls that do not count. *)
Definition uncounted {A} (f : ost -> A * ost) : Prop := forall m s, meter m -> m (f s).2 = m s.

Lemma uncounted_step {A} (f : ost -> A * ost) k k' s s1 x s2 :
  uncounted f -> counted k k' s s1 -> f s1 = (x, s2) -> counted k k' s s2.
Proof. intros Hf Hc E m Hm. pose proof (Hf m s1 Hm) as Hs. rewrite E in Hs. cbn in Hs. rewrite Hs. by apply Hc. Qed.

Lemma counted_call {A} (f : ost -> A * ost) k s x s' : uncounted f -> f s = (x, s') -> counted k k s s'.
Proof. intros Hf E. by eapply uncounted_step; [exact Hf| |exact E]. Qed.

Lemma uncounted_connect fd : uncounted (os_connect fd).
Proof. intros m s Hm. by apply mt_connect. Qed.
Lemma uncounted_epoll_ctl ep op fd : uncounted (os_epoll_ctl ep op fd).
Proof. intros m s Hm. by apply mt_epoll_ctl. Qed.
Lemma uncounted_close fd : uncounted (os_close fd).
Proof. intros m s Hm. by apply mt_close. Qed.
Lemma uncounted_so_error fd : uncounted (os_so_error fd).
Proof. intros m s Hm. by apply mt_so_error. Qed.
Lemma uncounted_epoll_wait ep n t : uncounted (os_epoll_wait ep n t).
Proof. intros m s Hm. by apply mt_epoll_wait. Qed.
Lemma uncounted_sleep n : uncounted (os_sleep n).
Proof. intros m s Hm. by apply mt_sleep. Qed.
#[local] Hint Resolve uncounted_connect uncounted_epoll_ctl uncounted_close uncounted_so_error
  uncounted_epoll_wait uncounted_sleep counted_call uncounted_step : velora.

Context (target : Z) (base : gset Z).

(** The invariant, with what holds on a smooth system. *)
Definition flood_ok (k : nat) (v : kview) (b : flood) : Prop := books target k b /\ (smooth -> tidy base v b).

(** What a part of the program does to it. *)
Definition kept_ok (k : nat) (s : ost) (b' : flood) (s' : ost) : Prop :=
  exists k', flood_ok k' (os_view s') b' /\ counted k k' s s'.

Lemma kept_trans k k1 s s1 b' s' : counted k k1 s s1 -> kept_ok k1 s1 b' s' -> kept_ok k s b' s'.
Proof. intros Hc (k' & Hok & Hc'). exists k'. split; [done|]. by eapply metered_trans. Qed.

Lemma tidy_frame v v' b : tidy base v b -> v_open v' = v_open v -> tidy base v' b.
Proof. intros [] E. by split; rewrite ?E. Qed.

Lemma flood_frame k v v' b : flood_ok k v b -> v_open v' = v_open v -> flood_ok k v' b.
Proof. intros [Hk Ht] E. split; [done|]. intros Hs. eapply tidy_frame; eauto. Qed.

(** A new entry. *)
Lemma tidy_grows v v' b b' fd st :
  tidy base v b -> made b' = made b ++ [Client fd st] -> fd <> -1 -> fd ∉ v_open v -> v_open v' = {[fd]} ∪ v_open v ->
  fl_established b' = Z.of_nat (count ESTABLISHED (made b')) -> fl_connecting b' = Z.of_nat (count CONNECTING (made b')) ->
  tidy base v' b'.
Proof.
  intros [Hn Hb Ho Hc _] Em Hfd Hnew Ho' He Hk. rewrite Ho in Hnew.
  assert (Ed : descriptors cl_fd (made b') = descriptors cl_fd (made b) ++ [fd]).
  { rewrite Em, descriptors_app, descriptors_cons. cbn [cl_fd]. by rewrite decide_False. }
  split; rewrite ?Ed; [| | | |done].
  - apply NoDup_app. split_and!; [done| |apply NoDup_singleton]. intros x Hx ->%list_elem_of_singleton.
    apply Hnew, elem_of_union_r. by rewrite elem_of_list_to_set.
  - apply Forall_app. split; [done|]. constructor; [|done]. intros Hin. by apply Hnew, elem_of_union_l.
  - rewrite Ho', Ho, list_to_set_app_L. apply set_eq. intros x. cbn [list_to_set]. rewrite !elem_of_union, elem_of_empty. tauto.
  - rewrite Em. apply Forall_app. split; [done|]. by constructor.
Qed.

(** An entry is established, or given up. *)
Lemma tidy_through v b b' pre c post :
  tidy base v b -> made b = pre ++ c :: post -> cl_state c = CONNECTING ->
  made b' = pre ++ Client (cl_fd c) ESTABLISHED :: post ->
  fl_established b' = fl_established b + 1 -> fl_connecting b' = fl_connecting b - 1 -> tidy base v b'.
Proof.
  intros [Hn Hb Ho Hc [He Hk]] E Est E' Ee Ek.
  assert (Ed : descriptors cl_fd (made b') = descriptors cl_fd (made b)).
  { by rewrite E, E', !descriptors_app, !descriptors_cons. }
  split; rewrite ?Ed; try done.
  - rewrite E'. rewrite E in Hc. apply Forall_app in Hc as [H1 [_ H2]%Forall_cons]. apply Forall_app. split; [done|].
    by constructor.
  - rewrite Ee, Ek, He, Hk, E, E', !count_app, !(count_cons _ _ post), !count_one, Est. cbn. lia.
Qed.

Lemma tidy_closed v v' b b' pre c post :
  tidy base v b -> made b = pre ++ c :: post -> cl_state c = CONNECTING -> made b' = pre ++ Client (-1) 0 :: post ->
  v_open v' = v_open v ∖ {[cl_fd c]} ->
  fl_established b' = fl_established b -> fl_connecting b' = fl_connecting b - 1 -> tidy base v' b'.
Proof.
  intros [Hn Hb Ho Hc [He Hk]] E Est E' Ho' Ee Ek.
  rewrite E in Hc. apply Forall_app in Hc as [H1 [Hc H2]%Forall_cons]. specialize (Hc Est).
  assert (Ed : descriptors cl_fd (made b) = descriptors cl_fd pre ++ cl_fd c :: descriptors cl_fd post).
  { by rewrite E, descriptors_app, descriptors_cons, decide_False. }
  assert (Ed' : descriptors cl_fd (made b') = descriptors cl_fd pre ++ descriptors cl_fd post).
  { by rewrite E', descriptors_app, descriptors_cons. }
  rewrite Ed in Hn, Hb, Ho. pose proof Hn as (N1 & Hdis & [Hni N2]%NoDup_cons)%NoDup_app.
  apply Forall_app in Hb as [B1 [B0 B2]%Forall_cons]. split; rewrite ?Ed'.
  - apply NoDup_app. split_and!; [done| |done]. intros x Hx Hx'. apply (Hdis x Hx). by right.
  - by apply Forall_app.
  - rewrite Ho', Ho, !list_to_set_app_L. cbn [list_to_set]. apply minus_one; [done|..]; rewrite elem_of_list_to_set; [|done].
    intros Hin. apply (Hdis _ Hin). by left.
  - rewrite E'. apply Forall_app. split; [done|]. by constructor.
  - rewrite Ee, Ek, He, Hk, E, E', !count_app, !(count_cons _ _ post), !count_one, Est. cbn. lia.
Qed.

(** What the operations on a new descriptor [fd] keep: [v] is the view before it was
    opened. *)
Section Dial.
Context (epfd fd : Z) (k : nat) (v : kview) (b : flood).
Hypothesis Hok : flood_ok k v b.
Hypothesis Hroom : fl_created b < target.
Hypothesis Hnew : fd ∉ v_open v.

Definition dialled_ok (s : ost) (b' : flood) (s' : ost) : Prop :=
  (flood_ok k (os_view s') b' /\ fl_created b' = fl_created b + 1) /\ counted k k s s'.

Definition entered_ok (b' : flood) (s' : ost) : Prop :=
  flood_ok k (os_view s') b' /\ fl_created b' = fl_created b + 1.

Lemma store_entry c : 0 <= fl_created b < zlen (fl_clients b) /\
  store (fl_clients b) (fl_created b) c = Ok (<[Z.to_nat (fl_created b) := c]> (fl_clients b)) /\
  zlen (<[Z.to_nat (fl_created b) := c]> (fl_clients b)) = target.
Proof using Hok Hroom.
  destruct Hok as [[Hl Hc _ _] _]. split_and!; [lia|lia|apply store_insert; lia|].
  unfold zlen in *. by rewrite length_insert.
Qed.

Lemma add_smooth ep ev d s e s' : os_epoll_ctl ep (Epoll_add ev d) fd s = (Fail e, s') -> ~ smooth.
Proof using. intros E [Hs _]. destruct (Hs ep ev d fd s) as [u Hu]. by rewrite E in Hu. Qed.

(** The new entry is noted as it should be, or only counted on a system that is not
    smooth. *)
Lemma entry_noted st clients established connecting failed stop s :
  v_open (os_view s) = {[fd]} ∪ v_open v -> clients = <[Z.to_nat (fl_created b) := Client fd st]> (fl_clients b) ->
  established + connecting + failed = fl_established b + fl_connecting b + fl_failed b + 1 ->
  established = fl_established b + (if st =? ESTABLISHED then 1 else 0) ->
  connecting = fl_connecting b + (if st =? CONNECTING then 1 else 0) -> fl_failed b <= failed ->
  entered_ok (Flood clients (fl_created b + 1) established connecting failed stop) s.
Proof using Hok Hroom Hnew.
  intros Ho -> Hsum' He Hk Hfd0. destruct (store_entry (Client fd st)) as (Hr & _ & Hz).
  pose proof Hok as [[Hl Hc Hf Hsum] _]. split; [|done]. split.
  { split; cbn [fl_clients fl_created fl_established fl_connecting fl_failed]; [done|lia|lia|lia]. }
  intros Hs. pose proof (proj2 Hok Hs) as Ht. destruct (td_counts _ _ _ Ht) as [He' Hk'].
  assert (Hfd : fd <> -1).
  { intros ->. assert (Hin : -1 ∈ v_open (os_view s)) by (rewrite Ho; by apply elem_of_union_l, elem_of_singleton).
    apply os_law_range in Hin. lia. }
  apply (tidy_grows v _ b _ fd st); [done|by apply made_grows|done|done|done| |];
    erewrite made_grows by done; rewrite count_app, count_one; cbn [fl_established fl_connecting cl_state];
    [destruct (st =? ESTABLISHED)|destruct (st =? CONNECTING)]; lia.
Qed.

Lemma entry_botched clients established connecting failed stop s :
  ~ smooth -> zlen clients = target ->
  established + connecting + failed = fl_established b + fl_connecting b + fl_failed b + 1 -> fl_failed b <= failed ->
  entered_ok (Flood clients (fl_created b + 1) established connecting failed stop) s.
Proof using Hok Hroom.
  intros Hns Hz Hsum' Hfd0. destruct Hok as [[Hl Hc Hf Hsum] _]. split; [|done]. split; [|by intros Hs].
  split; cbn [fl_clients fl_created fl_established fl_connecting fl_failed]; [done|lia|lia|lia].
Qed.

Lemma connected_spec s : v_open (os_view s) = {[fd]} ∪ v_open v -> safe (connected epfd fd b) (dialled_ok s) s.
Proof using Hok Hroom Hnew.
  intros Hv. destruct (store_entry (Client fd ESTABLISHED)) as (Hr & Est & Hz). apply safe_bind.
  eapply safe_pure; [exact Est|]. cbv zeta. apply safe_bind, safe_sys. set (d := u32 _).
  pose proof (os_law_epoll_ctl s epfd (Epoll_add EV_HOLD d) fd) as (Ho & _).
  destruct (os_epoll_ctl epfd _ fd s) as [[u|e] s1] eqn:E; cbn [fst snd] in *.
  - apply safe_ret. split; [apply (entry_noted ESTABLISHED); [by rewrite Ho|done|lia|done|cbn; lia|lia]|].
    eauto with velora.
  - apply safe_bind, safe_sys. destruct (os_close fd s1) as [r s2] eqn:E2. apply safe_ret. split.
    + apply entry_botched; [by eapply add_smooth|done|lia|lia].
    + eauto with velora.
Qed.

Lemma in_progress_spec s : v_open (os_view s) = {[fd]} ∪ v_open v -> safe (in_progress epfd fd b) (dialled_ok s) s.
Proof using Hok Hroom Hnew.
  intros Hv. destruct (store_entry (Client fd CONNECTING)) as (Hr & Est & Hz). apply safe_bind.
  eapply safe_pure; [exact Est|]. apply safe_bind, safe_sys. set (d := u32 _).
  pose proof (os_law_epoll_ctl s epfd (Epoll_add EV_CONNECT d) fd) as (Ho & _).
  destruct (os_epoll_ctl epfd _ fd s) as [[u|e] s1] eqn:E; cbn [fst snd] in *.
  - apply safe_ret. split; [apply (entry_noted CONNECTING); [by rewrite Ho|done|lia|cbn; lia|done|lia]|].
    eauto with velora.
  - apply safe_bind, safe_sys. destruct (os_close fd s1) as [r s2] eqn:E2. apply safe_ret. split.
    + apply entry_botched; [by eapply add_smooth|done|lia|lia].
    + eauto with velora.
Qed.

Lemma dial_spec s : v_open (os_view s) = {[fd]} ∪ v_open v -> safe (dial epfd fd b) (dialled_ok s) s.
Proof using Hok Hroom Hnew.
  intros Hv. apply safe_bind, safe_sys. pose proof (os_law_connect s fd) as (Ho & _).
  destruct (os_connect fd s) as [ret s1] eqn:E; cbn [fst snd] in *.
  assert (Hcnt : counted k k s s1).
  { eauto with velora. }
  assert (Hthen : forall x b' s', dialled_ok s1 b' s' -> x = b' -> dialled_ok s x s').
  { intros x b' s' [? ?] ->. split; [done|]. by eapply metered_trans. }
  destruct ret as [u|e]; [eapply safe_mono; [apply connected_spec; by rewrite Ho|eauto]|].
  destruct (Z.eqb_spec e EINPROGRESS) as [->|Hne]; cbn [negb];
    [eapply safe_mono; [apply in_progress_spec; by rewrite Ho|eauto]|].
  apply safe_bind, safe_sys. destruct (os_close fd s1) as [r s2] eqn:E2. apply safe_ret. split.
  - apply entry_botched; [| |lia|lia].
    + intros [_ Hs]. apply Hne, (Hs fd s). by rewrite E.
    + by destruct Hok as [[] _].
  - eauto with velora.
Qed.
End Dial.

Lemma fill_connections_spec fuel epfd k b s :
  flood_ok k (os_view s) b -> safe (fill_connections fuel epfd target b) (kept_ok k s) s.
Proof.
  revert k b s. induction fuel as [|fuel IH]; intros k b s Hok; cbn [fill_connections];
    apply safe_bind, safe_get_os; destruct (_ && _) eqn:Eg; try done; try by (apply safe_ret; exists k).
  rewrite !andb_true_iff, !Z.ltb_lt in Eg. destruct Eg as [[_ Hroom] _].
  apply safe_bind, safe_sys. pose proof (os_law_socket s) as Hs. pose proof (fun m (Hm : meter m) => mt_socket m Hm s) as Hm.
  destruct (os_socket s) as [[fd|e] s1]; cbn [fst snd] in *.
  - destruct Hs as [Hnew Hv]. apply safe_bind. eapply safe_mono; [by apply (dial_spec epfd fd k (os_view s) b); [..|rewrite Hv]|].
    intros b' s2 [[Hok' _] Hc]. eapply safe_mono; [by apply IH|]. intros b'' s3. apply kept_trans.
    intros m Hmm. specialize (Hc m Hmm). specialize (Hm m Hmm). lia.
  - rewrite <-Hs in Hok. destruct Hok as [[Hl Hcr Hf Hsum] Ht]. destruct (_ || _).
    + apply safe_ret. exists k. split; [split; [by split|]; intros Hsm; by destruct (Ht Hsm)|].
      intros m Hmm. specialize (Hm m Hmm). lia.
    + eapply safe_mono; [apply (IH (S k)); split; [|intros Hsm; by destruct (Ht Hsm)]|].
      * split; cbn [fl_clients fl_created fl_established fl_connecting fl_failed]; [done|done|lia|lia].
      * intros b'' s3. apply kept_trans. intros m Hmm. specialize (Hm m Hmm). lia.
Qed.

Lemma completion_spec epfd k b ev s :
  flood_ok k (os_view s) b -> safe (completion epfd b ev) (kept_ok k s) s.
Proof.
  intros Hok. assert (Hsame : kept_ok k s b s) by (by exists k). destruct ev as [events data]. unfold completion.
  destruct (Z.leb_spec (u32 (fl_created b)) (u32 data)) as [|Hlt]; [by apply safe_ret|]. pose proof Hok as [[Hl Hc Hf Hsum] Ht].
  assert (Hu : 0 <= u32 data) by (apply Z.mod_pos_bound; lia).
  assert (Hle : u32 (fl_created b) <= fl_created b) by (apply Z.mod_le; lia). unfold zlen in Hl.
  destruct (lookup_lt_is_Some_2 (fl_clients b) (Z.to_nat (u32 data))) as [c Hcl]; [lia|].
  apply safe_bind. eapply safe_pure; [by apply load_ok|].
  destruct (Z.eqb_spec (cl_state c) CONNECTING) as [Est|]; [|by apply safe_ret]. cbn [negb].
  apply safe_bind, safe_sys. pose proof (os_law_so_error s (cl_fd c)) as (Ho1 & _).
  destruct (os_so_error _ s) as [r s1] eqn:E1; cbn [fst snd] in *. cbv zeta.
  assert (Hc1 : counted k k s s1) by (eauto with velora).
  assert (Hst : forall c', store (fl_clients b) (u32 data) c' = Ok (<[Z.to_nat (u32 data) := c']> (fl_clients b)))
    by (intros; apply store_insert; unfold zlen; lia).
  assert (Hz : forall c', zlen (<[Z.to_nat (u32 data) := c']> (fl_clients b)) = target)
    by (intros; unfold zlen; by rewrite length_insert).
  destruct (_ =? 0).
  - apply safe_bind. eapply safe_pure; [apply Hst|]. apply safe_bind, safe_sys.
    pose proof (os_law_epoll_ctl s1 epfd (Epoll_mod EV_HOLD (u32 data)) (cl_fd c)) as (Ho2 & _).
    destruct (os_epoll_ctl _ _ _ s1) as [r2 s2] eqn:E2; cbn [fst snd] in *. apply safe_ret. exists k.
    split; [|eauto with velora]. split.
    + split; cbn [fl_clients fl_created fl_established fl_connecting fl_failed]; [done|lia|lia|lia].
    + intros Hs. edestruct (made_changes b (Z.to_nat (u32 data)) c) as (pre & post & E & E'); [lia|done|done|].
      apply (tidy_frame (os_view s)); [|by rewrite Ho2, Ho1]. by eapply tidy_through; [by apply Ht|..].
  - apply safe_bind, safe_sys. pose proof (os_law_close s1 (cl_fd c)) as Hcl1.
    destruct (os_close _ s1) as [r2 s2] eqn:E2; cbn [fst snd] in *. apply safe_bind. eapply safe_pure; [apply Hst|]. apply safe_ret.
    exists k. split; [|eauto with velora]. split.
    + split; cbn [fl_clients fl_created fl_established fl_connecting fl_failed]; [done|lia|lia|lia].
    + intros Hs. edestruct (made_changes b (Z.to_nat (u32 data)) c) as (pre & post & E & E'); [lia|done|done|].
      eapply tidy_closed; [by apply Ht|done|done|done|rewrite Hcl1; simpl; by rewrite Ho1|done|done].
Qed.

Lemma completions_spec epfd k b evs s :
  flood_ok k (os_view s) b -> safe (completions epfd b evs) (kept_ok k s) s.
Proof.
  revert k b s. induction evs as [|ev evs IH]; intros k b s Hb; [by apply safe_ret; exists k|].
  apply safe_bind. eapply safe_mono; [by apply completion_spec|]. intros b' s' (k' & Hb' & Hc).
  eapply safe_mono; [by apply IH|]. intros b'' s''. by apply kept_trans.
Qed.

Lemma flood_loop_spec rounds fuel epfd k b s :
  flood_ok k (os_view s) b -> safe (flood_loop rounds fuel epfd target b) (kept_ok k s) s.
Proof.
  revert k b s. induction rounds as [|rounds IH]; intros k b s Hb; cbn [flood_loop];
    apply safe_bind, safe_get_os; destruct (_ || _); try done; try by (apply safe_ret; exists k).
  apply safe_bind. eapply safe_mono; [by apply fill_connections_spec|]. intros b1 s1 (k1 & Hb1 & Hc1).
  apply safe_bind, safe_sys. pose proof (os_law_epoll_wait s1 epfd MAX_EVENTS 10) as (Ho & _).
  destruct (os_epoll_wait _ _ _ s1) as [res s2] eqn:E; cbn [fst snd] in *; apply (flood_frame _ _ _ _ Hb1) in Ho.
  assert (Hc2 : counted k k1 s s2).
  { eauto with velora. }
  destruct res as [evs|e].
  - apply safe_bind. eapply safe_mono; [by apply completions_spec|]. intros b2 s3 (k3 & Hb3 & Hc3).
    eapply safe_mono; [by apply IH|]. intros b4 s4. apply kept_trans. by eapply metered_trans.
  - destruct (e =? EINTR); [|apply safe_ret; by exists k1].
    eapply safe_mono; [by apply IH|]. intros b4 s4. by apply kept_trans.
Qed.

Lemma hold_spec rounds b s :
  safe (hold rounds b) (fun _ s' => v_open (os_view s') = v_open (os_view s) /\ counted 0 0 s s') s.
Proof.
  revert s. induction rounds as [|rounds IH]; intros s; cbn [hold]; apply safe_bind, safe_get_os;
    destruct (_ || _); try done.
  apply safe_bind, safe_sys. pose proof (os_law_sleep s 1) as (Ho & _). destruct (os_sleep 1 s) as [r s1] eqn:E; cbn [fst snd] in *.
  rewrite <-Ho. eapply safe_mono; [apply IH|]. intros u s2 [Ho2 Hc]. split; [done|]. eapply metered_trans; [|done].
  eauto with velora.
Qed.

Lemma start_ok v : 0 < target -> v_open v = base ->
  flood_ok 0 v (Flood (replicate (Z.to_nat target) (Client 0 0)) 0 0 0 0 false).
Proof.
  intros Ht Hv. split.
  - split; cbn [fl_clients fl_created fl_established fl_connecting fl_failed]; [|lia|lia|lia].
    unfold zlen. rewrite length_replicate. lia.
  - intros _. split; try done; try constructor. rewrite Hv. symmetry. apply (right_id_L ∅ (∪)).
Qed.

Lemma close_uncounted (cs : list client_t) s s' : close_clients cl_fd cs s = Ok (tt, s') -> counted 0 0 s s'.
Proof.
  revert s. induction cs as [|c cs IH]; intros s; cbn [close_clients]; [by intros [= <-]|].
  destruct (_ <=? _); [|apply IH]. unfold mbind, prog_bind, sys. destruct (os_close _ s) as [r s1] eqn:E.
  intros Hc%IH. eapply metered_trans; [|done].
  eauto with velora.
Qed.

Lemma flood_closed k b s :
  flood_ok k (os_view s) b ->
  safe (close_clients cl_fd (made b)) (fun _ s' => (smooth -> v_open (os_view s') = base) /\ counted 0 0 s s') s.
Proof.
  intros [_ Ht]. unfold safe. pose proof (close_clients_all cl_fd (made b) s) as Hall. unfold safe in Hall.
  destruct (close_clients _ _ s) as [[[] s']| |] eqn:E; [|done..]. split; [|by eapply close_uncounted].
  intros Hs. destruct (Ht Hs) as [Hn Hb Ho _ _].
  pose proof (close_clients_spec cl_fd base (made b) s Hn Hb Ho) as Hc. unfold safe in Hc. rewrite E in Hc. apply Hc.
Qed.
End Specs.

(** What is left of a run: the books, and on a smooth system every descriptor closed
    and the counters those of the table. *)
Definition flood_done `{OsLaws} (target : Z) (s : ost) (r : option flood) (s' : ost) : Prop :=
  match r with
  | None => v_open (os_view s') = v_open (os_view s)
  | Some b => (exists k, books target k b /\ counted 0 k s s') /\
      (smooth -> v_open (os_view s') = v_open (os_view s) /\
         fl_established b = Z.of_nat (count ESTABLISHED (made b)) /\
         fl_connecting b = Z.of_nat (count CONNECTING (made b)))
  end.

Section Main.
Context `{OsLaws}.

Lemma flood_main_spec rounds fuel host_ok calloc_ok events_ok target s :
  safe (main rounds fuel host_ok calloc_ok events_ok target) (flood_done target s) s.
Proof.
  unfold main. destruct (Z.leb_spec target 0) as [|Ht]; [by apply safe_ret|]. destruct calloc_ok; [|by apply safe_ret].
  cbn [negb]. apply safe_bind, safe_sys. pose proof (os_law_epoll_create1 s) as Hep.
  destruct (os_epoll_create1 s) as [[epfd|e] s1] eqn:E1; cbn [fst snd] in *; [|apply safe_ret; simpl; by rewrite Hep].
  destruct Hep as [Hnew Hv]. assert (Hback : forall s2, v_open (os_view s2) = v_open (os_view s1) ->
    v_open (os_view (os_close epfd s2).2) = v_open (os_view s)).
  { intros s2 Ho. rewrite os_law_close. cbn [v_open v_closed]. rewrite Ho, Hv. by apply remove_new. }
  assert (Hgone : safe (_ ← sys (os_close epfd); mret None) (flood_done target s) s1).
  { apply safe_bind, safe_sys. specialize (Hback s1 eq_refl). by destruct (os_close epfd s1). }
  destruct host_ok; [|exact Hgone]. destruct events_ok; [|exact Hgone]. cbn [negb]. clear Hgone.
  apply safe_bind. eapply safe_mono; [by apply (flood_loop_spec target (v_open (os_view s1))), start_ok|]. intros b s2 (k & Hb & Hc2).
  apply safe_bind. eapply safe_mono; [apply hold_spec|]. intros u s3 [Ho Hc3]. apply (flood_frame _ _ _ _ _ _ Hb) in Ho.
  apply safe_bind. eapply safe_mono; [by apply (flood_closed target (v_open (os_view s1)) k)|]. intros u' s4 [Hc Hc4].
  apply safe_bind, safe_sys. destruct (os_close epfd s4) as [r s5] eqn:E5. apply safe_ret. destruct Ho as [Hk Htd]. split.
  - exists k. split; [done|]. intros m Hm. specialize (Hc2 m Hm). specialize (Hc3 m Hm). specialize (Hc4 m Hm).
    pose proof (mt_epoll_create1 m Hm s) as H1. pose proof (mt_close m Hm epfd s4) as H5.
    rewrite E1 in H1. rewrite E5 in H5. cbn in H1, H5 |- *. lia.
  - intros Hs. destruct (td_counts _ _ _ (Htd Hs)) as [He Hn]. split_and!; [|done|done].
    specialize (Hback s4 (Hc Hs)). by rewrite E5 in Hback.
Qed.
End Main.

(** ** The program ends *)

Section Ends.
Context `{OsLaws} (remaining : ost -> nat) (Hclock : clock remaining).
Hypothesis Hstop : forall s, remaining s = 0%nat -> os_stop s = true.
Hypothesis Hlimit : forall s e, (os_socket s).1 = Fail e -> e = EMFILE \/ e = ENFILE.
Context (target : Z).

Ltac ends := repeat first
  [ done | apply finishes_sys | apply finishes_load | apply finishes_store | apply finishes_bind; [|intros ? ? _]
  | case_match ].

Lemma dial_finishes epfd fd b s : finishes (dial epfd fd b) s.
Proof using. unfold dial, connected, in_progress, refused. ends. Qed.

Lemma completions_finishes epfd b evs s : finishes (completions epfd b evs) s.
Proof using.
  revert b s. induction evs as [|ev evs IH]; intros b s; [done|]. cbn [completions]. apply finishes_bind; [|intros; apply IH].
  unfold completion. ends.
Qed.

Lemma forward_dial epfd fd b : forward remaining (dial epfd fd b).
Proof using Hclock. unfold dial, connected, in_progress, refused. forward. Qed.

Lemma forward_connections fuel epfd b : forward remaining (fill_connections fuel epfd target b).
Proof using Hclock.
  revert b. induction fuel; intros b; cbn [fill_connections]; forward.
Qed.

Lemma forward_completions epfd b evs : forward remaining (completions epfd b evs).
Proof using Hclock.
  revert b. induction evs; intros b; cbn [completions]; [apply forward_ret|].
  apply forward_bind; [|done]. unfold completion. forward.
Qed.

Lemma fill_connections_finishes base fuel epfd k b s :
  flood_ok target base k (os_view s) b -> target - fl_created b <= Z.of_nat fuel ->
  finishes (fill_connections fuel epfd target b) s.
Proof using Hlimit.
  revert k b s. induction fuel as [|fuel IH]; intros k b s Hok Hf; cbn [fill_connections];
    unfold finishes, mbind at 1, prog_bind at 1, get_os; destruct (_ && _) eqn:Eg; try done;
    rewrite !andb_true_iff, !Z.ltb_lt in Eg; destruct Eg as [[_ Hroom] _]; [lia|].
  apply finishes_sys. pose proof (os_law_socket s) as Hs. pose proof (Hlimit s) as Hl.
  destruct (os_socket s) as [[fd|e] s1]; cbn [fst snd] in *.
  - destruct Hs as [Hnew Hv]. apply finishes_bind; [apply dial_finishes|]. intros b' s2 E.
    apply (safe_ok _ _ _ _ _ (dial_spec target base epfd fd k (os_view s) b Hok Hroom Hnew s1 ltac:(by rewrite Hv))) in E.
    destruct E as [[Hok' Hc] _]. apply (IH k); [done|lia].
  - by destruct (Hl e eq_refl) as [->| ->].
Qed.

Lemma flood_loop_finishes base rounds fuel epfd k b s :
  flood_ok target base k (os_view s) b -> target <= Z.of_nat fuel -> (remaining s <= rounds)%nat ->
  finishes (flood_loop rounds fuel epfd target b) s.
Proof using All.
  revert k b s. induction rounds as [|rounds IH]; intros k b s Hok Hf Hr; cbn [flood_loop];
    unfold finishes, mbind at 1, prog_bind at 1, get_os.
  { rewrite (Hstop s) by lia. by rewrite orb_true_r. }
  destruct (fl_stop b || os_stop s) eqn:Est; [done|]. destruct (target <=? fl_established b); [done|]. cbn [orb].
  apply finishes_bind; [eapply fill_connections_finishes; [done|]; destruct Hok as [[] _]; lia|]. intros b1 s1 E1.
  pose proof E1 as Hr1%forward_connections.
  apply (safe_ok _ _ _ _ _ (fill_connections_spec target base fuel epfd k b s Hok)) in E1 as (k1 & E1 & _).
  apply finishes_sys. pose proof (os_law_epoll_wait s1 epfd MAX_EVENTS 10) as (Ho & _).
  pose proof (ck_epoll_wait _ Hclock epfd MAX_EVENTS 10 s1) as Hlt.
  destruct (os_epoll_wait _ _ _ s1) as [[evs|e] s2]; cbn [fst snd] in *; apply (flood_frame _ _ _ _ _ _ E1) in Ho.
  - apply finishes_bind; [apply completions_finishes|]. intros b2 s3 E2. pose proof E2 as Hr2%forward_completions.
    apply (safe_ok _ _ _ _ _ (completions_spec target base epfd k1 b1 evs s2 Ho)) in E2 as (k2 & E2 & _).
    apply (IH k2); [done|done|lia].
  - destruct (e =? EINTR); [|done]. apply (IH k1); [done|done|lia].
Qed.

Lemma forward_loop rounds fuel epfd b : forward remaining (flood_loop rounds fuel epfd target b).
Proof using Hclock.
  pose proof (ck_epoll_wait _ Hclock epfd MAX_EVENTS 10) as Hw.
  revert b. induction rounds; intros b; cbn [flood_loop]; forward; [apply forward_connections| |apply forward_completions].
  apply forward_sys. intros s. specialize (Hw s). lia.
Qed.

Lemma hold_finishes rounds b s : (remaining s <= rounds)%nat -> finishes (hold rounds b) s.
Proof using Hclock Hstop.
  revert s. induction rounds as [|rounds IH]; intros s Hr; cbn [hold]; unfold finishes, mbind at 1, prog_bind at 1, get_os.
  { rewrite (Hstop s) by lia. by rewrite orb_true_r. }
  destruct (_ || _); [done|]. apply finishes_sys, IH. pose proof (ck_sleep _ Hclock 1 s). lia.
Qed.

Lemma flood_main_finishes rounds fuel host_ok calloc_ok events_ok s :
  target <= Z.of_nat fuel -> (remaining s <= rounds)%nat ->
  finishes (main rounds fuel host_ok calloc_ok events_ok target) s.
Proof using All.
  intros Hf Hr. unfold main. destruct (Z.leb_spec target 0) as [|Ht]; [done|].
  destruct calloc_ok; [|done]. cbn [negb].
  apply finishes_sys. pose proof (ck_epoll_create1 _ Hclock s) as Hc. destruct (os_epoll_create1 s) as [[epfd|e] s1]; [|done].
  cbn [fst snd] in *. destruct host_ok, events_ok; cbn [negb]; try by apply finishes_sys.
  apply finishes_bind; [apply (flood_loop_finishes (v_open (os_view s1)) _ _ _ 0); [by apply start_ok|done|lia]|].
  intros b s2 E%forward_loop. apply finishes_bind; [apply hold_finishes; lia|]. intros ? s3 _.
  apply finishes_bind; [apply close_clients_finishes|]. intros ? s4 _. by apply finishes_sys.
Qed.
End Ends.

(** ** When connections fail *)

Section Failing.
Context `{OsLaws}.

(** The loop is left when a stop was asked for, when all connections are there, or on
    an error of epoll_wait. *)
Lemma flood_loop_left rounds fuel epfd target b s :
  (forall ep n t s e, (os_epoll_wait ep n t s).1 = Fail e -> e = EINTR) ->
  match flood_loop rounds fuel epfd target b s with
  | Ok (b', s') => fl_stop b' || os_stop s' = true \/ target <= fl_established b'
  | _ => True
  end.
Proof.
  intros Hwait. revert b s. induction rounds as [|rounds IH]; intros b s; cbn [flood_loop];
    unfold mbind at 1, prog_bind at 1, get_os;
    (destruct (fl_stop b || os_stop s) eqn:Est; [by left|]); destruct (Z.leb_spec target (fl_established b)); try by right.
  { done. }
  cbn [orb]. unfold mbind at 1, prog_bind at 1. destruct (fill_connections _ _ _ _ _) as [[b1 s1]| |]; [|done..].
  unfold mbind at 1, prog_bind at 1, sys. pose proof (Hwait epfd MAX_EVENTS 10 s1) as Hw.
  destruct (os_epoll_wait _ _ _ s1) as [[evs|e] s2]; cbn [fst] in Hw.
  - unfold mbind, prog_bind. destruct (completions _ _ _ _) as [[b2 s3]| |]; [apply IH|done..].
  - rewrite (Hw e eq_refl). apply IH.
Qed.

(** Every connect fails at once. *)
Hypothesis Href : forall fd s, exists e, (os_connect fd s).1 = Fail e /\ e <> EINPROGRESS.

(** The table is as it was allocated. *)
Definition untouched (target : Z) (b : flood) : Prop :=
  fl_clients b = replicate (Z.to_nat target) (Client 0 0) /\ 0 <= fl_created b <= target /\
  fl_established b = 0 /\ fl_connecting b = 0.

Lemma fill_refused fuel epfd target b s :
  untouched target b -> safe (fill_connections fuel epfd target b) (fun b' _ => untouched target b') s.
Proof using Href.
  revert b s. induction fuel as [|fuel IH]; intros b s Hb; cbn [fill_connections];
    apply safe_bind, safe_get_os; destruct (_ && _) eqn:Eg; try done.
  rewrite !andb_true_iff, !Z.ltb_lt in Eg. destruct Eg as [[_ Hroom] _]. destruct Hb as (Hc & Hr & He & Hn).
  apply safe_bind, safe_sys. destruct (os_socket s) as [[fd|e] s1]; cbn [fst snd].
  - apply safe_bind, safe_bind, safe_sys. destruct (Href fd s1) as (e & E & Hne).
    destruct (os_connect fd s1) as [a s2]; cbn [fst snd] in *. subst a. rewrite (proj2 (Z.eqb_neq _ _) Hne). cbn [negb].
    apply safe_bind, safe_sys. destruct (os_close fd s2) as [r s3]. apply IH. split_and!; cbn; done || lia.
  - destruct (_ || _); [apply safe_ret|apply IH]; split_and!; cbn; done || lia.
Qed.

Lemma completions_refused epfd target b evs s :
  untouched target b -> safe (completions epfd b evs) (fun b' _ => b' = b) s.
Proof using.
  intros Hb. induction evs as [|[ev data] evs IH]; [by apply safe_ret|]. cbn [completions]. apply safe_bind.
  unfold completion. destruct (Z.leb_spec (u32 (fl_created b)) (u32 data)) as [|Hlt]; [by apply safe_ret|].
  destruct Hb as (Hc & Hr & _). assert (Hu : 0 <= u32 data) by (apply Z.mod_pos_bound; lia).
  assert (Hle : u32 (fl_created b) <= fl_created b) by (apply Z.mod_le; lia).
  apply safe_bind. eapply safe_pure; [apply load_ok; [lia|]; rewrite Hc; apply lookup_replicate_2; lia|]. by apply safe_ret.
Qed.

Lemma flood_loop_refused rounds fuel epfd target b s :
  untouched target b -> safe (flood_loop rounds fuel epfd target b) (fun b' _ => untouched target b') s.
Proof using Href.
  revert b s. induction rounds as [|rounds IH]; intros b s Hb; cbn [flood_loop];
    apply safe_bind, safe_get_os; destruct (_ || _); try done.
  apply safe_bind. eapply safe_mono; [by apply fill_refused|]. intros b1 s1 Hb1. apply safe_bind, safe_sys.
  destruct (os_epoll_wait _ _ _ s1) as [[evs|e] s2]; cbn [fst snd].
  - apply safe_bind. eapply safe_mono; [by apply (completions_refused epfd target)|]. intros b2 s3 ->. by apply IH.
  - destruct (e =? EINTR); [by apply IH|by apply safe_ret].
Qed.

Lemma main_refused rounds fuel host_ok calloc_ok events_ok target s :
  safe (main rounds fuel host_ok calloc_ok events_ok target) (fun r s' =>
    match r with Some b => untouched target b /\ (0 < fl_created b -> 0 ∉ v_open (os_view s')) | None => True end) s.
Proof using Href.
  unfold main. destruct (Z.leb_spec target 0) as [|Ht]; [by apply safe_ret|]. destruct calloc_ok; [|by apply safe_ret].
  cbn [negb]. apply safe_bind, safe_sys. destruct (os_epoll_create1 s) as [[epfd|e] s1]; cbn [fst snd]; [|by apply safe_ret].
  assert (Hgone : forall Q : option flood -> ost -> Prop, (forall s, Q None s) -> safe (_ ← sys (os_close epfd); mret None) Q s1).
  { intros Q HQ. apply safe_bind, safe_sys. destruct (os_close epfd s1). by apply safe_ret. }
  destruct host_ok, events_ok; cbn [negb]; try by apply Hgone. clear Hgone.
  apply safe_bind. eapply safe_mono; [apply flood_loop_refused; split_and!; cbn; done || lia|]. intros b s2 Hb.
  apply safe_bind. eapply safe_mono; [apply hold_spec|]. intros ? s3 _.
  apply safe_bind. eapply safe_mono; [apply close_clients_all|]. intros ? s4 [_ Hcl].
  apply safe_bind, safe_sys. pose proof (os_law_close s4 epfd) as Hc. destruct (os_close epfd s4) as [r s5].
  apply safe_ret. split; [done|]. intros Hpos. cbn [snd] in *. rewrite Hc. cbn [v_open v_closed].
  intros [Hin _]%elem_of_difference. apply (Hcl (Client 0 0)); [|done|done].
  destruct Hb as (-> & Hr & _). rewrite take_replicate. apply elem_of_replicate. split; [done|lia].
Qed.
End Failing.

(** A full table. *)
Lemma all_established base target v b :
  zlen (fl_clients b) = target -> 0 <= fl_created b <= target -> tidy base v b -> target <= fl_established b ->
  fl_established b = target /\ fl_created b = target /\ fl_connecting b = 0 /\
  Forall (fun c => cl_state c = ESTABLISHED) (fl_clients b).
Proof.
  intros Hl Hc Ht Hf. destruct (td_counts _ _ _ Ht) as [He Hn].
  pose proof (length_filter (fun c => cl_state c = ESTABLISHED) (made b)) as Hle. fold (count ESTABLISHED (made b)) in Hle.
  assert (Hm : length (made b) = Z.to_nat (fl_created b)) by (unfold made, zlen in *; rewrite length_take; lia).
  assert (Hall : fl_created b = target) by lia.
  assert (Em : made b = fl_clients b) by (unfold made, zlen in *; apply take_ge; lia). rewrite Em in *.
  assert (HF : Forall (fun c => cl_state c = ESTABLISHED) (fl_clients b)).
  { apply Forall_forall. intros c Hin. destruct (decide (cl_state c = ESTABLISHED)) as [|Hne]; [done|].
    pose proof (length_filter_lt (fun c => cl_state c = ESTABLISHED) _ c Hin Hne) as Hlt.
    fold (count ESTABLISHED (fl_clients b)) in Hlt. unfold zlen in Hl. lia. }
  split_and!; [lia|done| |done]. rewrite Hn. apply (f_equal Z.of_nat (y:=0%nat)). clear -HF.
  induction HF as [|c cs Hc _ IH]; [done|]. by rewrite count_cons, count_one, Hc, IH.
Qed.

(** ** The properties *)

(** C17. conn_flood.c keeps its books and cleans up.  No access is outside its table.
    When [main] is through, every connection it tried is established, under way or
    failed: the three counters sum to the number of tried connections and the number
    of calls of socket that failed for another reason than the number of descriptors,
    as any [meter] of these calls counts them, and [failed] is not negative.  Where no
    registration fails and no connect fails at once, [established] and [connecting]
    are the numbers of entries of the table in these states and all descriptors are
    closed again.  It is through, with [target] turns for the inner loop, when socket
    fails for want of descriptors only and a stop is asked for in the end. *)
Theorem flood_accounts `{OsLaws} (rounds fuel : nat) (host_ok calloc_ok events_ok : bool) (target : Z) (s : ost) :
  match main rounds fuel host_ok calloc_ok events_ok target s with
  | Ok (Some b, s') =>
      (forall failures, meter failures ->
         fl_established b + fl_connecting b + fl_failed b
         = fl_created b + (Z.of_nat (failures s') - Z.of_nat (failures s))) /\
      0 <= fl_created b <= target /\ 0 <= fl_failed b /\
      (smooth -> v_open (os_view s') = v_open (os_view s) /\
         fl_established b = Z.of_nat (count ESTABLISHED (made b)) /\
         fl_connecting b = Z.of_nat (count CONNECTING (made b)))
  | Ok (None, s') => v_open (os_view s') = v_open (os_view s)
  | Undef => False
  | NoFuel => ~ ((forall s e, (os_socket s).1 = Fail e -> e = EMFILE \/ e = ENFILE) /\ target <= Z.of_nat fuel /\
      exists remaining, clock remaining /\ (forall s, remaining s = 0%nat -> os_stop s = true) /\
        (remaining s <= rounds)%nat)
  end.
Proof.
  pose proof (flood_main_spec rounds fuel host_ok calloc_ok events_ok target s) as Hs. unfold safe in Hs.
  destruct (main _ _ _ _ _ _ s) as [[[b|] s']| |] eqn:E; [|done|done|].
  - destruct Hs as [(k & [_ Hc Hf Hsum] & Hcnt) Hs]. split_and!; [|lia|lia|done|done].
    intros m Hm. specialize (Hcnt m Hm). lia.
  - intros (Hl & Hf & remaining & Hck & Hst & Hr). by eapply flood_main_finishes in E.
Qed.

(** C18. The main loop of conn_flood.c waits for all connections.  On a smooth system
    where epoll_wait is at most interrupted, the loop is left only because a stop was
    asked for or because every one of the [target] connections is established: after
    a single one has failed, it does not end by itself. *)
Theorem flood_waits_for_all `{OsLaws} (rounds fuel : nat) (epfd target : Z) (s : ost)
  (Ht : 0 < target) (Hs : smooth) (Hwait : forall ep n t s e, (os_epoll_wait ep n t s).1 = Fail e -> e = EINTR) :
  match flood_loop rounds fuel epfd target (Flood (replicate (Z.to_nat target) (Client 0 0)) 0 0 0 0 false) s with
  | Ok (b, s') => fl_stop b || os_stop s' = true \/
      (fl_established b = target /\ fl_created b = target /\ fl_connecting b = 0 /\
       Forall (fun c => cl_state c = ESTABLISHED) (fl_clients b))
  | Undef => False
  | NoFuel => True
  end.
Proof.
  pose proof (flood_loop_left rounds fuel epfd target (Flood (replicate (Z.to_nat target) (Client 0 0)) 0 0 0 0 false)
    s Hwait) as Hleft.
  pose proof (flood_loop_spec target (v_open (os_view s)) rounds fuel epfd 0 _ s (start_ok _ _ _ Ht eq_refl)) as Hsafe.
  unfold safe in Hsafe. destruct (flood_loop _ _ _ _ _ s) as [[b s']| |]; [|done..].
  destruct Hleft as [|Hfull]; [by left|right]. destruct Hsafe as (k & [[Hl Hc _ _] Htd] & _). eapply all_established; eauto.
Qed.

(** C38. A server that refuses connections costs conn_flood.c its standard input.  When
    every connect fails at once, the table keeps the descriptor 0 it was allocated
    with in every entry, and the cleanup closes it. *)
Theorem refused_connects_close_stdin `{OsLaws} (rounds fuel : nat) (host_ok calloc_ok events_ok : bool) (target : Z) (s : ost)
  (Href : forall fd s, exists e, (os_connect fd s).1 = Fail e /\ e <> EINPROGRESS) :
  match main rounds fuel host_ok calloc_ok events_ok target s with
  | Ok (Some b, s') => fl_established b = 0 /\ fl_connecting b = 0 /\ (0 < fl_created b -> 0 ∉ v_open (os_view s'))
  | _ => True
  end.
Proof.
  pose proof (main_refused Href rounds fuel host_ok calloc_ok events_ok target s) as Hs. unfold safe in Hs.
  destruct (main _ _ _ _ _ _ s) as [[[b|] s']| |]; [|done..]. by destruct Hs as [(_ & _ & He & Hn) Hc].
Qed.

(** ** Witnesses *)

Section Witness.

(** A server that says nothing; connects fail as [connect] says. *)
Definition silent (connect : option Z) : Peer :=
  {| peer _ := []; peer_room := None; peer_connect := connect; peer_mono _ _ := prefix_nil _; peer_bytes _ := Forall_nil_2 _ |}.

Definition ECONNREFUSED : Z := 111.

#[local] Instance slow : Peer := silent (Some EINPROGRESS).

Lemma slow_smooth : smooth.
Proof. split; [by eexists|]. by intros fd s e [= <-]. Qed.

(** In the simulation socket does not fail. *)
Lemma slow_meter : meter (fun _ => 0%nat).
Proof. by split. Qed.

Lemma flood_accounts_witness :
  returned (main 5 3 true true true 3 (lab 3 4)) =
    Some (Some (Flood [Client 4 2; Client 5 2; Client 6 2] 3 3 0 0 false)) /\
  match main 5 3 true true true 3 (lab 3 4) with
  | Ok (Some b, s') =>
      fl_established b + fl_connecting b + fl_failed b = fl_created b + (Z.of_nat 0 - Z.of_nat 0) /\
      v_open (os_view s') = v_open (os_view (lab 3 4))
  | _ => False
  end.
Proof.
  assert (Hr : returned (main 5 3 true true true 3 (lab 3 4)) =
    Some (Some (Flood [Client 4 2; Client 5 2; Client 6 2] 3 3 0 0 false))) by (by vm_compute).
  split; [exact Hr|]. pose proof (flood_accounts 5 3 true true true 3 (lab 3 4)) as Ha. revert Hr Ha.
  destruct (main 5 3 true true true 3 (lab 3 4)) as [[[b|] s']| |]; intros Hr Ha; try discriminate Hr.
  destruct Ha as (Hsum & _ & _ & Hs). split; [exact (Hsum (fun _ => 0%nat) slow_meter)|]. apply (Hs slow_smooth).
Defined.

Lemma flood_waits_for_all_witness :
  match flood_loop 5 3 3 3 (Flood (replicate (Z.to_nat 3) (Client 0 0)) 0 0 0 0 false) (lab 3 4) with
  | Ok (b, s') => fl_stop b || os_stop s' = true \/
      (fl_established b = 3 /\ fl_created b = 3 /\ fl_connecting b = 0 /\
       Forall (fun c => cl_state c = ESTABLISHED) (fl_clients b))
  | Undef => False
  | NoFuel => True
  end.
Proof. apply (flood_waits_for_all 5 3 3 3 (lab 3 4)); [lia|exact slow_smooth|done]. Defined.

#[local] Instance refusing : Peer := silent (Some ECONNREFUSED).

Lemma refused_connects_close_stdin_witness :
  fmap (M := option) fl_failed (mjoin (returned (main 5 3 true true true 3 (lab 3 4)))) = Some 3 /\
  match main 5 3 true true true 3 (lab 3 4) with
  | Ok (Some b, s') => fl_established b = 0 /\ fl_connecting b = 0 /\ (0 < fl_created b -> 0 ∉ v_open (os_view s'))
  | _ => True
  end.
Proof.
  split; [by vm_compute|]. apply (refused_connects_close_stdin 5 3 true true true 3 (lab 3 4)).
  intros fd s. by exists ECONNREFUSED.
Defined.
End Witness.
