(* ===== verification/Script.v ===== *)
(** * Script: the Python clients inside the test scripts

    The scripts of tests/ run Python programs that talk to the server through
    blocking sockets with a timeout.  Here is what they share: exceptions, the
    socket calls they make, the packets they build and take apart
    (tests/parser_walk.sh, lines 54-91), on the operating system of Client.

    [answered] is what a client can have received from the server, in terms of what
    it has sent; [linked_answered] derives it from the runs of the server.  The
    specifications follow one connection, on which packets [ws] were sent and
    [i] answers received ([talk]). *)

From S2P Require Import Prelude Core RingBuffer Packet Parser Protocol Machine Connection World Reactor.
From S2P Require Import Sim SocketUtils Enqueue Preserve ReactorSpec EventLoop Service History Client ClientSim Bench Echo PingPong Compose.
#[local] Open Scope Z_scope.

(** ** Python *)

(** The exceptions the programs raise or catch.  ConnectionError and the timeout are
    OSErrors in Python. *)
Inductive exn :=
| ConnectionError
| OSError (e : Z)
| AssertionError.

(** [except (ConnectionError, socket.timeout, OSError)] *)
Definition is_oserror (e : exn) : bool := match e with AssertionError => false | _ => true end.

(** Code that returns a value or raises. *)
Abbreviation py A := (prog (A + exn)).

Section Python.
Context `{Os}.

Definition py_ret {A} (x : A) : py A := mret (inl x).
Definition raise {A} (e : exn) : py A := mret (inr e).
Definition py_bind {A B} (m : py A) (k : A -> py B) : py B :=
  r ← m; match r with inl x => k x | inr e => raise e end.
Definition py_assert (b : bool) : py unit := if b then py_ret tt else raise AssertionError.

(** [for x in xs: body(x)] *)
Fixpoint py_for {A} (xs : list A) (body : A -> py unit) : py unit :=
  match xs with
  | [] => py_ret tt
  | x :: xs => py_bind (body x) (fun _ => py_for xs body)
  end.
End Python.

Notation "x ⇐ m ; k" := (py_bind m (fun x => k)) (at level 100, m at level 99, k at level 200, right associativity).

Section Sockets.
Context `{Os}.

(** A system call; the interpreter repeats one that a signal interrupts. *)
Fixpoint call {A} (fuel : nat) (f : ost -> answer A * ost) : py A :=
  r ← sys f;
  match r with
  | Done x => py_ret x
  | Fail e =>
      if e =? EINTR then match fuel with O => too_long | S fuel => call fuel f end
      else raise (OSError e)
  end.

(** [socket.create_connection]: the socket is closed when it cannot be connected. *)
Definition create_connection (fuel : nat) : py Z :=
  fd ← sys os_socket;
  match fd with
  | Fail e => raise (OSError e)
  | Done fd =>
      r ← call fuel (os_connect fd);
      match r with
      | inl _ => py_ret fd
      | inr e => _ ← sys (os_close fd); raise e
      end
  end.

(** [sock.sendall] *)
Fixpoint sendall (fuel : nat) (fd : Z) (data : list Z) : py unit :=
  match data with
  | [] => py_ret tt
  | _ :: _ =>
      match fuel with
      | O => too_long
      | S fuel => n ⇐ call fuel (os_send fd data); sendall fuel fd (drop (Z.to_nat n) data)
      end
  end.

(** [with socket.create_connection(...) as sock: body(sock)] *)
Definition with_connection {A} (fuel : nat) (body : Z -> py A) : py A :=
  fd ⇐ create_connection fuel;
  r ← body fd;
  _ ← sys (os_close fd);
  mret r.

(** ** Packets *)

(** [packet]; [struct.pack] with fields that are in range. *)
Definition packet (pkt_type stream_id flags : Z) (payload : list Z) (magic version : Z) : list Z :=
  header_bytes (Header magic version pkt_type stream_id flags (zlen payload)) ++ payload.

(** [packet(pkt_type, stream_id, payload=payload)] *)
Definition plain_packet (pkt_type stream_id : Z) (payload : list Z) : list Z :=
  packet pkt_type stream_id 0 payload VR_MAGIC VR_PROTOCOL_VERSION.

(** [recv_exact], with [buf] received. *)
Fixpoint recv_exact (fuel : nat) (fd n : Z) (buf : list Z) : py (list Z) :=
  if zlen buf <? n then
    match fuel with
    | O => too_long
    | S fuel =>
        chunk ⇐ call fuel (os_recv fd (n - zlen buf));
        match chunk with
        | [] => raise ConnectionError
        | _ :: _ => recv_exact fuel fd n (buf ++ chunk)
        end
    end
  else py_ret buf.

(** [recv_packet]: the fields of the header, and the payload. *)
Definition recv_packet (fuel : nat) (fd : Z) : py (vr_packet_header_t * list Z) :=
  header ⇐ recv_exact fuel fd 8 [];
  let pkt := header_of_bytes header in
  payload ⇐ (if h_payload_len pkt =? 0 then py_ret [] else recv_exact fuel fd (h_payload_len pkt) []);
  py_ret (pkt, payload).

(** CONNECT -> CONNECT_ACK *)
Definition connect_and_establish (fuel : nat) (fd : Z) : py unit :=
  _ ⇐ sendall fuel fd (plain_packet (pkt_int VR_PKT_CONNECT) 0 []);
  pkt ⇐ recv_packet fuel fd;
  _ ⇐ py_assert (h_type pkt.1 =? pkt_int VR_PKT_CONNECT_ACK);
  py_assert ((h_magic pkt.1 =? VR_MAGIC) && (h_version pkt.1 =? VR_PROTOCOL_VERSION)).
End Sockets.

(** ** The answers of the server *)

(** What may be in a packet on the wire. *)
Record wire_ok (k : vr_packet_t) : Prop := {
  wo_fits : header_fits (pk_header k);
  wo_valid : header_valid (pk_header k) = true;
  wo_payload : exists payload, Forall is_byte payload /\ zlen payload = h_payload_len (pk_header k) /\
    pk_payload k = if h_payload_len (pk_header k) =? 0 then None else Some payload
}.

(** A packet of the server: a header alone. *)
Definition bare_ok (k : vr_packet_t) : Prop :=
  header_fits (pk_header k) /\ pk_payload k = None /\ h_payload_len (pk_header k) = 0 /\
  h_magic (pk_header k) = VR_MAGIC /\ h_version (pk_header k) = VR_PROTOCOL_VERSION.

Lemma answers_bare_ok ws : Forall (fun k => header_fits (pk_header k)) ws -> Forall bare_ok (answers ws).
Proof.
  unfold answers. generalize machine_start as m. induction ws as [|k ws IH]; intros m Hf; [constructor|].
  apply Forall_cons in Hf as [Hk Hf]. cbn [fmap list_fmap machine_answers]. apply Forall_app. split; [|by apply IH].
  pose proof (machine_step_ok m (pk_header k) Hk) as Hr. destruct (machine_step _ _) as [[r|] m']; cbn [fst] in *; [|constructor].
  destruct Hr as (t & sid & E & Ht & Hs). injection E as ->. constructor; [|constructor]. unfold bare_ok. cbn.
  split_and!; [|done..]. split; cbn; unfold is_byte in *; try done; lia.
Qed.

(** More packets, more answers. *)
Lemma answers_prefix ws ws' : ws `prefix_of` ws' -> answers ws `prefix_of` answers ws'.
Proof. intros [e ->]. unfold answers. rewrite fmap_app, machine_answers_app. by eexists. Qed.

Section Answered.
Context `{Abi}.

(** The server has sent the answers to the packets in [sent], or to some of them, of
    which [got] is what has arrived. *)
Definition answered (got sent : list Z) : Prop :=
  exists kept, sublist kept (answers (packets_in sent)) /\ got `prefix_of` concat (packet_bytes <$> kept).

(** A client linked to a connection of the server, in any state it can reach. *)
Lemma linked_answered `{Libc} `{KernelLaws} port w0 lst w l c cv fd :
  sizeof_vr_packet_header_t = 8 -> allocates sizeof_vr_packet_t ->
  idle w0 -> reachable port w0 lst w -> l <> lst -> w_heap w !! l = Some c ->
  linked cv fd w c -> Forall is_byte (traffic cv fd).2 -> answered (traffic cv fd).1 (traffic cv fd).2.
Proof.
  intros H8 Ha Hi Hr Hl Hc Hlink Hb.
  destruct (linked_answers Ha port w0 lst w l c cv fd Hi Hr Hl Hc Hlink Hb) as (pks & kept & frames & _ & Hp & Hk & Hf & Hg).
  exists kept. rewrite (frames_packets H8 _ _ Hf) in Hg. split; [|by etransitivity; [apply (lk_down _ _ _ _ Hlink)|]].
  etransitivity; [exact Hk|]. destruct (answers_prefix _ _ Hp) as [e ->]. by apply sublist_inserts_r.
Qed.

Hypothesis H8 : sizeof_vr_packet_header_t = 8.

Lemma packet_bytes_wire k payload :
  zlen payload = h_payload_len (pk_header k) ->
  pk_payload k = (if h_payload_len (pk_header k) =? 0 then None else Some payload) ->
  packet_bytes k = header_bytes (pk_header k) ++ payload.
Proof.
  intros Hl Hp. unfold packet_bytes, payload_bytes. rewrite Hp. destruct (Z.eqb_spec (h_payload_len (pk_header k)) 0) as [E|E].
  - rewrite E in Hl. by destruct payload.
  - rewrite take_ge; [done|]. unfold zlen in Hl. lia.
Qed.

Lemma wire_bytes ws : Forall wire_ok ws -> Forall is_byte (concat (packet_bytes <$> ws)).
Proof.
  induction 1 as [|k ws [Hf Hv (payload & Hb & Hl & Hp)] _ IH]; [constructor|]. cbn [fmap list_fmap concat].
  apply Forall_app. split; [|done]. rewrite (packet_bytes_wire _ payload) by done. apply Forall_app. split; [by apply header_bytes_bytes|done].
Qed.

(** The server finds the packets that were sent. *)
Lemma packets_in_wire ws e :
  Forall wire_ok ws -> Forall is_byte e -> packets_in (concat (packet_bytes <$> ws) ++ e) = ws ++ packets_in e.
Proof using H8.
  intros Hws He. induction Hws as [|[h pl] ws [Hf Hv (payload & Hb & Hl & Hp)] Hws IH]; [done|].
  cbn [fmap list_fmap concat app pk_header pk_payload] in *. rewrite (packet_bytes_wire _ payload) by done. cbn [pk_header].
  rewrite <-!app_assoc. rewrite packets_in_packet; try done; [by rewrite IH, <-Hp|].
  apply Forall_app. split; [by apply wire_bytes|done].
Qed.

(** None in a header that is not valid. *)
Lemma packets_in_invalid h e : header_fits h -> header_valid h = false -> packets_in (header_bytes h ++ e) = [].
Proof using H8.
  intros Hf Hv. unfold packets_in, parsed. cbn [stream_spec]. unfold parse_spec. cbn [ps_state zeroed_parser]. rewrite H8.
  rewrite (proj2 (Z.ltb_ge _ 8)) by (unfold zlen; rewrite length_app, header_bytes_length; lia).
  by rewrite header_of_bytes_app, header_of_bytes_bytes, Hv by (rewrite ?header_bytes_length; done || lia).
Qed.
End Answered.

(** ** One answer after the other *)

Lemma sublist_later {A} (xs ys : list A) i x : sublist xs ys -> xs !! i = Some x -> x ∈ drop i ys.
Proof.
  intros Hs. revert i. induction Hs as [|y xs ys Hs IH|y xs ys Hs IH]; intros i Hi; [done| |].
  - destruct i as [|i]; [injection Hi as ->; by left|]. by apply IH.
  - apply IH in Hi. destruct i as [|i]; [by right|]. rewrite skipn_cons. rewrite <-(Nat.add_1_r i), <-drop_drop in Hi.
    apply list_elem_of_lookup in Hi as [j Hj]. rewrite !lookup_drop in Hj. apply list_elem_of_lookup. exists (1 + j)%nat.
    by rewrite lookup_drop.
Qed.

Lemma bare_bytes_length k : bare_ok k -> length (packet_bytes k) = 8%nat.
Proof. intros (_ & Hp & _). unfold packet_bytes, payload_bytes. by rewrite Hp, app_nil_r, header_bytes_length. Qed.

Lemma bare_header k : bare_ok k -> header_of_bytes (packet_bytes k) = pk_header k.
Proof.
  intros (Hf & Hp & _). unfold packet_bytes, payload_bytes. rewrite Hp, app_nil_r. by apply header_of_bytes_bytes.
Qed.

(** In a stream of frames of eight bytes, the [i]-th frame. *)
Lemma frame_at kept i got inp :
  Forall bare_ok kept -> length got = (8 * i)%nat -> got ++ inp `prefix_of` concat (packet_bytes <$> kept) -> inp <> [] ->
  exists k, kept !! i = Some k /\ (length inp = 8%nat -> inp = packet_bytes k).
Proof.
  revert got kept. induction i as [|i IH]; intros got kept Hk Hl Hp Hne.
  - destruct got; [|done]. cbn [app] in Hp. destruct kept as [|k kept]; [by apply prefix_nil_inv in Hp|].
    apply Forall_cons in Hk as [Hk _]. exists k. split; [done|]. intros Hi. destruct Hp as [e He].
    cbn [fmap list_fmap concat] in He. apply app_inj_1 in He as [-> _]; [done|]. by rewrite bare_bytes_length.
  - destruct kept as [|k kept].
    { apply prefix_nil_inv in Hp. apply app_eq_nil in Hp as [_ Hp]. done. }
    apply Forall_cons in Hk as [Hk Hks]. cbn [fmap list_fmap concat] in Hp. apply (IH (drop 8 got)); [done| | |done].
    + rewrite length_drop. lia.
    + destruct Hp as [e He]. rewrite <-(take_drop 8 got), <-!app_assoc in He.
      apply app_inj_1 in He as [_ He]; [|rewrite length_take, bare_bytes_length by done; lia].
      exists e. by rewrite He, <-app_assoc.
Qed.

(** What arrives behind [i] answers is a later one. *)
Lemma next_answer `{Abi} got inp sent i :
  answered (got ++ inp) sent -> Forall (fun k => header_fits (pk_header k)) (packets_in sent) ->
  length got = (8 * i)%nat -> inp <> [] ->
  exists k, k ∈ drop i (answers (packets_in sent)) /\ bare_ok k /\ (length inp = 8%nat -> inp = packet_bytes k).
Proof.
  intros (kept & Hs & Hp) Hf Hl Hne. pose proof (answers_bare_ok _ Hf) as Hb.
  assert (Hk : Forall bare_ok kept).
  { apply Forall_forall. intros k Hin. rewrite Forall_forall in Hb. apply Hb.
    by apply (elem_of_submseteq _ _ _ Hin), sublist_submseteq. }
  destruct (frame_at kept i got inp Hk Hl Hp Hne) as (k & Hi & E). exists k. split_and!; [by eapply sublist_later| |done].
  rewrite Forall_forall in Hk. apply Hk. by eapply list_elem_of_lookup_2.
Qed.

(** ** Specifications *)

Section Specs.
Context `{OsLaws}.

(** [m] does nothing undefined, fails no assertion, ends in [Q] with a value and in [E]
    with an exception of the network. *)
Definition py_safe {A} (m : py A) (Q : A -> ost -> Prop) (E : ost -> Prop) (s : ost) : Prop :=
  safe m (fun r s' => match r with inl x => Q x s' | inr e => is_oserror e = true /\ E s' end) s.

Lemma py_safe_ret {A} (x : A) (Q : A -> ost -> Prop) E s : Q x s -> py_safe (py_ret x) Q E s.
Proof. done. Qed.

Lemma py_safe_bind {A B} (m : py A) (k : A -> py B) Q E s :
  py_safe m (fun x s' => py_safe (k x) Q E s') E s -> py_safe (py_bind m k) Q E s.
Proof.
  intros Hm. apply safe_bind. eapply safe_mono; [exact Hm|]. by intros [x|e] s' Hx.
Qed.

Lemma py_safe_mono {A} (m : py A) (Q Q' : A -> ost -> Prop) (E E' : ost -> Prop) s :
  py_safe m Q E s -> (forall x s', Q x s' -> Q' x s') -> (forall s', E s' -> E' s') -> py_safe m Q' E' s.
Proof. intros Hm HQ HE. eapply safe_mono; [exact Hm|]. intros [x|e] s'; [apply HQ|]. intros [? ?]. auto. Qed.

Lemma py_safe_assert (b : bool) (Q : unit -> ost -> Prop) E s : b = true -> Q tt s -> py_safe (py_assert b) Q E s.
Proof. by intros ->. Qed.

(** A call, by what it leaves when it returns. *)
Lemma call_spec {A} fuel (f : ost -> answer A * ost) (Q : A -> ost -> Prop) (E I : ost -> Prop) s :
  I s -> (forall s, I s -> match f s with (Done x, s') => Q x s' | (Fail _, s') => I s' /\ E s' end) ->
  py_safe (call fuel f) Q E s.
Proof.
  intros Hi Hf. revert s Hi. induction fuel as [|fuel IH]; intros s Hi; cbn [call]; apply safe_bind, safe_sys;
    specialize (Hf s Hi) as Hfs; destruct (f s) as [[x|e] s']; cbn [fst snd]; try done; destruct Hfs as [Hi' He];
    destruct (e =? EINTR); try done. by apply IH.
Qed.

(** [bs] of [data] was sent through [fd], nothing else happened. *)
Lemma sendall_spec fuel fd data s :
  py_safe (sendall fuel fd data) (fun _ s' => spoke fd data [] (os_view s) (os_view s'))
    (fun s' => exists out, spoke fd out [] (os_view s) (os_view s')) s.
Proof.
  revert data s. induction fuel as [|fuel IH]; intros [|b data] s; cbn [sendall]; try done;
    try (apply py_safe_ret, spoke_refl). set (bs := b :: data). apply py_safe_bind.
  apply (call_spec _ _ _ _ (fun s' => os_view s' = os_view s)); [done|]. intros s1 Hv1.
  pose proof (os_law_send s1 fd bs) as Hlaw. destruct (os_send fd bs s1) as [[n|e] s2].
  - destruct Hlaw as [Hn Hv]. rewrite Hv1 in Hv.
    pose proof (spoke_accepted fd (take (Z.to_nat n) bs) (os_view s)) as H1. rewrite <-Hv in H1.
    eapply py_safe_mono; [apply IH| |].
    + intros u s3 H3. pose proof (spoke_trans _ _ _ _ _ _ _ _ H1 H3) as H13. by rewrite take_drop in H13.
    + intros s3 [out H3]. eexists. exact (spoke_trans _ _ _ [] [] _ _ _ H1 H3).
  - split; [congruence|]. exists []. rewrite Hlaw, Hv1. apply spoke_refl.
Qed.

Lemma recv_spec fuel fd n s :
  py_safe (call fuel (os_recv fd n))
    (fun bs s' => Forall is_byte bs /\ zlen bs <= Z.max 0 n /\ spoke fd [] bs (os_view s) (os_view s'))
    (fun s' => spoke fd [] [] (os_view s) (os_view s')) s.
Proof.
  apply (call_spec _ _ _ _ (fun s' => os_view s' = os_view s)); [done|]. intros s1 Hv1.
  pose proof (os_law_recv s1 fd n) as Hlaw. destruct (os_recv fd n s1) as [[bs|e] s2].
  - destruct Hlaw as (Hb & Hl & Hv). split_and!; [done|done|]. rewrite Hv, Hv1. apply spoke_received.
  - split; [congruence|]. rewrite Hlaw, Hv1. apply spoke_refl.
Qed.

Lemma recv_exact_py_spec fuel fd n buf s :
  zlen buf <= n ->
  py_safe (recv_exact fuel fd n buf)
    (fun bs s' => exists inp, bs = buf ++ inp /\ zlen bs = n /\ Forall is_byte inp /\
       spoke fd [] inp (os_view s) (os_view s'))
    (fun s' => exists inp, spoke fd [] inp (os_view s) (os_view s')) s.
Proof.
  revert buf s. induction fuel as [|fuel IH]; intros buf s Hl; cbn [recv_exact];
    destruct (Z.ltb_spec (zlen buf) n) as [Hlt|Hge]; try done.
  1, 3: apply py_safe_ret; exists []; rewrite app_nil_r; split_and!; [done|lia|done|apply spoke_refl].
  apply py_safe_bind. eapply py_safe_mono; [apply recv_spec| |].
  2:{ intros s' H1. by exists []. }
  intros chunk s1 (Hb & Hc & H1). destruct chunk as [|b chunk'] eqn:Ec; [by split; [|exists []]|].
  rewrite <-Ec in *. eapply py_safe_mono; [apply IH; unfold zlen in *; rewrite length_app; lia| |].
  - intros bs s2 (inp & -> & Hn & Hi & H2). exists (chunk ++ inp). rewrite <-app_assoc in *.
    split_and!; [done|done|by apply Forall_app|].
    exact (spoke_trans _ [] [] _ _ _ _ _ H1 H2).
  - intros s2 [inp H2]. eexists. exact (spoke_trans _ [] [] _ _ _ _ _ H1 H2).
Qed.
End Specs.

(** ** A conversation *)

(** Through [fd] the packets [ws] were sent and [i] answers received; open are [open]. *)
Record talk (open : gset Z) (fd : Z) (ws : list vr_packet_t) (i : nat) (v : kview) : Prop := {
  tk_open : v_open v = open;
  tk_sent : (traffic v fd).2 = concat (packet_bytes <$> ws);
  tk_got : length (traffic v fd).1 = (8 * i)%nat
}.

(** The peer is the server. *)
Definition velora `{OsLaws} `{Abi} : Prop := forall s fd,
  Forall is_byte (traffic (os_view s) fd).2 -> answered (traffic (os_view s) fd).1 (traffic (os_view s) fd).2.

Section Talk.
Context `{OsLaws} `{Abi}.
Hypothesis H8 : sizeof_vr_packet_header_t = 8.
Hypothesis Hpeer : velora.

Lemma talk_quiet open fd fd' ws i v v' :
  talk open fd ws i v -> fd' <> fd -> quiet fd' v v' -> v_open v' = v_open v -> talk open fd ws i v'.
Proof. intros [Ho Hs Hg] Hne Hq E. by split; rewrite ?E, ?Hq by done. Qed.

Lemma say_spec open fd ws i ks fuel s :
  talk open fd ws i (os_view s) ->
  py_safe (sendall fuel fd (concat (packet_bytes <$> ks)))
    (fun _ s' => talk open fd (ws ++ ks) i (os_view s') /\ quiet fd (os_view s) (os_view s'))
    (fun s' => v_open (os_view s') = open) s.
Proof using.
  intros [Ho Hs Hg]. eapply py_safe_mono; [apply sendall_spec| |].
  - intros u s' [Eo T Q]. split; [|done]. split; [congruence| |]; rewrite T; cbn [fst snd].
    + by rewrite Hs, fmap_app, concat_app.
    + by rewrite app_nil_r.
  - intros s' [out []]. congruence.
Qed.

Lemma hear_spec open fd ws i fuel s :
  talk open fd ws i (os_view s) -> Forall wire_ok ws ->
  py_safe (recv_packet fuel fd)
    (fun pkt s' => talk open fd ws (S i) (os_view s') /\ quiet fd (os_view s) (os_view s') /\
       exists k, k ∈ drop i (answers ws) /\ bare_ok k /\ pkt = (pk_header k, []))
    (fun s' => v_open (os_view s') = open) s.
Proof using H8 Hpeer.
  intros [Ho Hs Hg] Hws. apply py_safe_bind. eapply py_safe_mono; [by apply recv_exact_py_spec| |].
  2:{ intros s' [inp []]. congruence. }
  intros bs s1 (inp & -> & Hl & _ & [Eo T Q]). cbn [app] in *. pose proof (Hpeer s1 fd) as Ha.
  rewrite T, Hs in Ha. cbn [fst snd] in Ha. rewrite app_nil_r in Ha. specialize (Ha (wire_bytes _ Hws)).
  assert (Hp : packets_in (concat (packet_bytes <$> ws)) = ws).
  { pose proof (packets_in_wire H8 ws [] Hws (Forall_nil_2 _)) as E. by rewrite packets_in_nil, !app_nil_r in E. }
  destruct (next_answer _ _ _ i Ha) as (k & Hk & Hb & E).
  { rewrite Hp. eapply Forall_impl; [exact Hws|]. by intros ? []. }
  { done. }
  { intros ->. done. }
  unfold zlen in Hl. rewrite E, bare_header by (done || lia). rewrite Hp in Hk. pose proof Hb as (_ & _ & Hz & _).
  rewrite Hz. cbn [Z.eqb]. apply py_safe_bind, py_safe_ret, py_safe_ret. split_and!; [|done|by exists k].
  split; [congruence| |]; rewrite T; cbn [fst snd]; [by rewrite app_nil_r|]. rewrite length_app. lia.
Qed.

(** The packet of [plain_packet]. *)
Definition wire (pkt_type stream_id : Z) (payload : list Z) : vr_packet_t :=
  Packet (Header VR_MAGIC VR_PROTOCOL_VERSION pkt_type stream_id 0 (zlen payload))
    (if zlen payload =? 0 then None else Some payload).

Lemma plain_packet_wire t sid payload : plain_packet t sid payload = packet_bytes (wire t sid payload).
Proof. symmetry. by apply (packet_bytes_wire (wire t sid payload)). Qed.

Lemma wire_wire_ok t sid payload :
  1 <= t <= 9 -> is_byte sid -> zlen payload < 65536 -> Forall is_byte payload -> wire_ok (wire t sid payload).
Proof.
  intros Ht Hs Hl Hb. pose proof (zlen_nonneg payload). split; [| |by exists payload].
  - split; cbn; unfold is_byte in *; done || lia.
  - cbn. assert (t = 1 \/ t = 2 \/ t = 3 \/ t = 4 \/ t = 5 \/ t = 6 \/ t = 7 \/ t = 8 \/ t = 9) as Hc by lia.
    by repeat destruct Hc as [->|Hc]; [..|subst t].
Qed.

(** One packet. *)
Lemma say_packet open fd ws i t sid payload fuel s :
  talk open fd ws i (os_view s) ->
  py_safe (sendall fuel fd (plain_packet t sid payload))
    (fun _ s' => talk open fd (ws ++ [wire t sid payload]) i (os_view s') /\ quiet fd (os_view s) (os_view s'))
    (fun s' => v_open (os_view s') = open) s.
Proof using.
  intros Ht. pose proof (say_spec open fd ws i [wire t sid payload] fuel s Ht) as Hs. cbn [fmap list_fmap concat] in Hs.
  by rewrite app_nil_r, <-plain_packet_wire in Hs.
Qed.

Definition CONNECT : vr_packet_t := wire (pkt_int VR_PKT_CONNECT) 0 [].

Lemma CONNECT_ok : wire_ok CONNECT.
Proof. by apply wire_wire_ok. Qed.

Lemma establish_py_spec open fd fuel s :
  talk open fd [] 0 (os_view s) ->
  py_safe (connect_and_establish fuel fd)
    (fun _ s' => talk open fd [CONNECT] 1 (os_view s') /\ quiet fd (os_view s) (os_view s'))
    (fun s' => v_open (os_view s') = open) s.
Proof using H8 Hpeer.
  intros Ht. apply py_safe_bind. eapply py_safe_mono; [by apply say_packet| |done]. intros u s1 [Ht1 Hq1].
  apply py_safe_bind. eapply py_safe_mono; [apply (hear_spec open fd [CONNECT] 0); [done|]| |done].
  { constructor; [apply CONNECT_ok|constructor]. }
  intros pkt s2 (Ht2 & Hq2 & k & Hk & (_ & _ & _ & Hm & Hv) & ->). apply list_elem_of_singleton in Hk as ->.
  apply py_safe_bind, py_safe_assert; [done|]. apply py_safe_assert; [done|]. split; [done|by eapply quiet_trans].
Qed.

Lemma create_connection_spec fuel s :
  py_safe (create_connection fuel)
    (fun fd s' => (fd ∉ v_open (os_view s)) /\ talk ({[fd]} ∪ v_open (os_view s)) fd [] 0 (os_view s') /\
       quiet fd (os_view s) (os_view s'))
    (fun s' => v_open (os_view s') = v_open (os_view s)) s.
Proof using.
  apply safe_bind, safe_sys. pose proof (os_law_socket s) as Hs. destruct (os_socket s) as [[fd|e] s1]; cbn [fst snd].
  2:{ split; [done|]. by rewrite Hs. }
  destruct Hs as [Hnew Hv]. apply safe_bind.
  eapply safe_mono; [apply (call_spec fuel (os_connect fd) (fun _ s' => same_io (os_view s1) (os_view s'))
    (fun s' => same_io (os_view s1) (os_view s')) (fun s' => same_io (os_view s1) (os_view s'))); [done|]|].
  { intros s2 (E1 & E2 & E3). pose proof (os_law_connect s2 fd) as (F1 & F2 & F3).
    assert (Hio : same_io (os_view s1) (os_view (os_connect fd s2).2)) by (split_and!; congruence).
    by destruct (os_connect fd s2) as [[u|e] s3]. }
  intros [u|e] s2.
  - intros (E1 & E2 & E3). apply py_safe_ret. split_and!; [done| |].
    + split; unfold traffic; rewrite ?E1, ?E2, ?E3, Hv; unfold log_of; cbn; by rewrite ?lookup_insert_eq.
    + intros fd' Hne. unfold traffic. rewrite E2, E3, Hv. unfold log_of. cbn. by rewrite !lookup_insert_ne.
  - intros [He (E1 & _)]. apply safe_bind, safe_sys. pose proof (os_law_close s2 fd) as Hc.
    destruct (os_close fd s2) as [r s3]; cbn [fst snd] in *. split; [done|]. rewrite Hc. cbn [v_open v_closed].
    rewrite E1, Hv. by apply remove_new.
Qed.

(** A test with a connection of its own. *)
Lemma with_connection_spec {A} fuel (body : Z -> py A) (P : A -> Prop) s :
  (forall fd s1, talk ({[fd]} ∪ v_open (os_view s)) fd [] 0 (os_view s1) ->
     py_safe (body fd) (fun x s' => P x /\ v_open (os_view s') = {[fd]} ∪ v_open (os_view s))
       (fun s' => v_open (os_view s') = {[fd]} ∪ v_open (os_view s)) s1) ->
  py_safe (with_connection fuel body) (fun x s' => P x /\ v_open (os_view s') = v_open (os_view s))
    (fun s' => v_open (os_view s') = v_open (os_view s)) s.
Proof using.
  intros Hbody. apply py_safe_bind. eapply py_safe_mono; [apply create_connection_spec| |done].
  intros fd s1 (Hnew & Ht & _). apply safe_bind. eapply safe_mono; [by apply Hbody|]. intros r s2 Hr.
  apply safe_bind, safe_sys. pose proof (os_law_close s2 fd) as Hc. destruct (os_close fd s2) as [u s3]; cbn [fst snd] in *.
  apply safe_ret. rewrite Hc. cbn [v_open v_closed].
  destruct r as [x|e]; destruct Hr as [? ->]; (split; [done|]); by apply remove_new.
Qed.
End Talk.

(** ** The programs end *)

(** No signal interrupts a call, and a blocking send takes something. *)
Record calm `{Os} : Prop := {
  ca_undisturbed : undisturbed;
  ca_connect fd s : (os_connect fd s).1 <> Fail EINTR;
  ca_send fd bs s : bs <> [] -> (os_send fd bs s).1 <> Done 0
}.

Section Ends.
Context `{OsLaws}.
Hypothesis Hcalm : calm.

Lemma py_bind_finishes {A B} (m : py A) (k : A -> py B) s :
  finishes m s -> (forall x s', m s = Ok (inl x, s') -> finishes (k x) s') -> finishes (py_bind m k) s.
Proof using. intros Hm Hk. apply finishes_bind; [done|]. intros [x|e] s' E; [by apply Hk|done]. Qed.

Lemma call_calm {A} fuel (f : ost -> answer A * ost) s :
  (f s).1 <> Fail EINTR ->
  call fuel f s = match f s with (Done x, s') => Ok (inl x, s') | (Fail e, s') => Ok (inr (OSError e), s') end.
Proof using.
  intros Hf. destruct fuel; cbn [call]; unfold mbind, prog_bind, sys; destruct (f s) as [[x|e] s']; try done; cbn [fst] in Hf;
    rewrite (proj2 (Z.eqb_neq e EINTR)) by congruence; done.
Qed.

Lemma call_finishes {A} fuel (f : ost -> answer A * ost) s : (f s).1 <> Fail EINTR -> finishes (call fuel f) s.
Proof using. intros Hf. unfold finishes. rewrite call_calm by done. by destruct (f s) as [[x|e] s']. Qed.

Lemma sendall_finishes fuel fd data s : (length data <= fuel)%nat -> finishes (sendall fuel fd data) s.
Proof using All.
  revert data s. induction fuel as [|fuel IH]; intros [|b data] s Hf; [done|simpl in Hf; lia|done|]. cbn [sendall].
  pose proof (proj1 (ca_undisturbed Hcalm) fd (b :: data) s) as Hu. pose proof (ca_send Hcalm fd (b :: data) s) as Hn.
  apply py_bind_finishes; [by apply call_finishes|]. intros n s' E. rewrite call_calm in E by done.
  pose proof (os_law_send s fd (b :: data)) as Hlaw. destruct (os_send fd (b :: data) s) as [[m|e] s1]; [|done].
  injection E as -> ->. apply IH. rewrite length_drop. cbn [length] in *. destruct Hlaw as [Hr _]. specialize (Hn ltac:(done)).
  cbn [fst] in Hn. assert (n <> 0) by congruence. lia.
Qed.

Lemma recv_exact_py_finishes fuel fd n buf s : n - zlen buf <= Z.of_nat fuel -> finishes (recv_exact fuel fd n buf) s.
Proof using All.
  revert buf s. induction fuel as [|fuel IH]; intros buf s Hf; cbn [recv_exact];
    destruct (Z.ltb_spec (zlen buf) n) as [Hlt|Hge]; try done; [lia|].
  apply py_bind_finishes; [apply call_finishes, (proj1 (proj2 (ca_undisturbed Hcalm)))|]. intros chunk s' _.
  destruct chunk as [|b chunk]; [done|]. apply IH. unfold zlen in *. rewrite length_app. simpl. lia.
Qed.

Lemma recv_packet_finishes fuel fd s : 65535 <= Z.of_nat fuel -> finishes (recv_packet fuel fd) s.
Proof using All.
  intros Hf. apply py_bind_finishes; [apply recv_exact_py_finishes; unfold zlen; simpl; lia|]. intros bs s1 E.
  apply (safe_ok _ _ _ _ _ (recv_exact_py_spec fuel fd 8 [] s ltac:(done))) in E.
  destruct E as (inp & -> & Hl & Hb & _). cbn [app] in *.
  destruct (header_of_bytes_spec inp) as [Hh _]; [unfold zlen in Hl; lia|done|]. destruct (_ =? 0); [done|].
  apply py_bind_finishes; [|done]. apply recv_exact_py_finishes. pose proof (hf_payload_len _ Hh). unfold zlen. simpl. lia.
Qed.

Lemma establish_py_finishes fuel fd s : 65535 <= Z.of_nat fuel -> finishes (connect_and_establish fuel fd) s.
Proof using All.
  intros Hf. apply py_bind_finishes; [apply sendall_finishes; simpl; lia|]. intros u s1 _.
  apply py_bind_finishes; [by apply recv_packet_finishes|]. intros pkt s2 _.
  apply py_bind_finishes; [by destruct (h_type pkt.1 =? _)|]. intros u' s3 _. by destruct (_ && _).
Qed.

Lemma create_connection_finishes fuel s : finishes (create_connection fuel) s.
Proof using All.
  apply finishes_sys. destruct (os_socket s) as [[fd|e] s1]; [|done]. cbn [fst snd].
  apply finishes_bind; [apply call_finishes, (ca_connect Hcalm)|]. intros [u|e] s2 _; [done|]. by apply finishes_sys.
Qed.

Lemma with_connection_finishes {A} fuel (body : Z -> py A) s :
  (forall fd s, finishes (body fd) s) -> finishes (with_connection fuel body) s.
Proof using All.
  intros Hb. apply py_bind_finishes; [apply create_connection_finishes|]. intros fd s1 _.
  apply finishes_bind; [apply Hb|]. intros r s2 _. by apply finishes_sys.
Qed.

Lemma py_for_finishes {A} (xs : list A) (body : A -> py unit) s :
  (forall x s, finishes (body x) s) -> finishes (py_for xs body) s.
Proof using.
  intros Hb. revert s. induction xs as [|x xs IH]; intros s; [done|]. cbn [py_for].
  apply py_bind_finishes; [apply Hb|]. intros u s' _. apply IH.
Qed.
End Ends.
