(* ===== verification/Walk.v ===== *)
(** * Walk: tests/parser_walk.sh

    The conformance test of the repository: nine checks of parser and protocol over
    real connections, from a packet that arrives byte by byte to connections that
    are served side by side.  Each check is modelled as it is written, with the
    exception that ends it; [main] runs them all and yields the exit code.

    The theorem says that the server passes: with the header size of the wire
    format, a check can only fail because of the network. *)

From Stdlib Require Import Strings.String Strings.Ascii.
From S2P Require Import Prelude Core RingBuffer Packet Parser Protocol Machine Connection World Reactor.
From S2P Require Import Sim SocketUtils Enqueue Preserve ReactorSpec EventLoop Service History Client ClientSim Bench Echo PingPong Compose Workload Script.
#[local] Open Scope Z_scope.

(** A bytes literal. *)
Definition bytes_of (s : string) : list Z := (fun c => Z.of_nat (nat_of_ascii c)) <$> list_ascii_of_string s.

(** [report(name, ok, detail)], with the exception the detail is the text of. *)
Record report := Report { rp_ok : bool; rp_exn : option exn }.

Section Code.
Context `{Os}.

(** [try: ... report(name, ok) except Exception as e: report(name, False, str(e))] *)
Definition try_report (m : py bool) : prog report :=
  r ← m; mret (match r with inl ok => Report ok None | inr e => Report false (Some e) end).

(** [send_fragmented] with [chunk_size = 1]; what [send] returns is not looked at. *)
Definition send_fragmented (fuel : nat) (sock : Z) (data : list Z) : py unit :=
  py_for data (fun b => _ ⇐ call fuel (os_send sock [b]); py_ret tt).

(** 1. Header and payload arriving one byte at a time *)
Definition test_fragmented_delivery (fuel : nat) : prog report :=
  try_report (with_connection fuel (fun sock =>
    _ ⇐ connect_and_establish fuel sock;
    let payload := bytes_of "velora-fragmented-payload-test" in
    _ ⇐ send_fragmented fuel sock (plain_packet (pkt_int VR_PKT_PUBLISH) 0 payload);
    _ ⇐ sendall fuel sock (plain_packet (pkt_int VR_PKT_PING) 0 []);
    pkt ⇐ recv_packet fuel sock;
    py_ret (h_type pkt.1 =? pkt_int VR_PKT_PONG))).

(** [replies.append(recv_packet(sock))], [count] times *)
Fixpoint recv_packets (fuel : nat) (sock : Z) (count : nat) : py (list (vr_packet_header_t * list Z)) :=
  match count with
  | O => py_ret []
  | S count => pkt ⇐ recv_packet fuel sock; pkts ⇐ recv_packets fuel sock count; py_ret (pkt :: pkts)
  end.

(** 2. Several packets pipelined into a single write *)
Definition test_pipelined_burst (fuel : nat) (count : nat) : prog report :=
  try_report (with_connection fuel (fun sock =>
    _ ⇐ connect_and_establish fuel sock;
    _ ⇐ sendall fuel sock (concat (replicate count (plain_packet (pkt_int VR_PKT_PING) 0 [])));
    replies ⇐ recv_packets fuel sock count;
    let all_pong := forallb (fun p => h_type p.1 =? pkt_int VR_PKT_PONG) replies in
    py_ret ((length replies =? count)%nat && all_pong))).

(** 3. Payload large enough to force read_buf growth *)
Definition test_large_payload_buffer_growth (fuel : nat) (payload_size : Z) : prog report :=
  try_report (with_connection fuel (fun sock =>
    _ ⇐ connect_and_establish fuel sock;
    let payload := make_payload payload_size in
    _ ⇐ sendall fuel sock (plain_packet (pkt_int VR_PKT_PUBLISH) 0 payload);
    _ ⇐ sendall fuel sock (plain_packet (pkt_int VR_PKT_PING) 0 []);
    pkt ⇐ recv_packet fuel sock;
    py_ret (h_type pkt.1 =? pkt_int VR_PKT_PONG))).

(** 4. Full FSM walk: CONNECT -> PING -> STREAM_OPEN(x2) -> PUBLISH -> STREAM_CLOSE *)
Definition test_full_fsm_walk (fuel : nat) : prog report :=
  try_report (with_connection fuel (fun sock =>
    _ ⇐ connect_and_establish fuel sock;
    _ ⇐ sendall fuel sock (plain_packet (pkt_int VR_PKT_PING) 0 []);
    pkt ⇐ recv_packet fuel sock;
    _ ⇐ py_assert (h_type pkt.1 =? pkt_int VR_PKT_PONG);
    _ ⇐ sendall fuel sock (plain_packet (pkt_int VR_PKT_STREAM_OPEN) 0 []);
    pkt ⇐ recv_packet fuel sock;
    _ ⇐ py_assert (h_type pkt.1 =? pkt_int VR_PKT_STREAM_OPEN_ACK);
    let stream_a := h_stream_id pkt.1 in
    _ ⇐ py_assert (negb (stream_a =? 0));
    _ ⇐ sendall fuel sock (plain_packet (pkt_int VR_PKT_STREAM_OPEN) 0 []);
    pkt ⇐ recv_packet fuel sock;
    _ ⇐ py_assert (h_type pkt.1 =? pkt_int VR_PKT_STREAM_OPEN_ACK);
    let stream_b := h_stream_id pkt.1 in
    _ ⇐ py_assert (negb (stream_b =? stream_a));
    _ ⇐ sendall fuel sock (plain_packet (pkt_int VR_PKT_PUBLISH) stream_a (bytes_of "hello on stream A"));
    _ ⇐ sendall fuel sock (plain_packet (pkt_int VR_PKT_PING) 0 []);
    pkt ⇐ recv_packet fuel sock;
    _ ⇐ py_assert (h_type pkt.1 =? pkt_int VR_PKT_PONG);
    _ ⇐ sendall fuel sock (plain_packet (pkt_int VR_PKT_STREAM_CLOSE) stream_a []);
    pkt ⇐ recv_packet fuel sock;
    _ ⇐ py_assert ((h_magic pkt.1 =? VR_MAGIC) && (h_version pkt.1 =? VR_PROTOCOL_VERSION));
    _ ⇐ py_assert (h_stream_id pkt.1 =? stream_a);
    py_ret true)).

(** 5. Malformed packets must be rejected and the connection closed *)
Definition test_invalid_packet (fuel : nat) (raw_packet : list Z) : prog report :=
  r ← with_connection fuel (fun sock =>
    _ ⇐ connect_and_establish fuel sock;
    _ ⇐ sendall fuel sock raw_packet;
    data ⇐ call fuel (os_recv sock 4096);
    py_ret (zlen data =? 0));
  mret (match r with
        | inl ok => Report ok None
        | inr e => Report (is_oserror e) (Some e)
        end).

Definition invalid_packets : list (list Z) :=
  [packet (pkt_int VR_PKT_PING) 0 0 [] 0xDEAD VR_PROTOCOL_VERSION;
   packet (pkt_int VR_PKT_PING) 0 0 [] VR_MAGIC 9;
   packet 99 0 0 [] VR_MAGIC VR_PROTOCOL_VERSION;
   packet (pkt_int VR_PKT_PING) 0 0xF0 [] VR_MAGIC VR_PROTOCOL_VERSION].

Fixpoint test_invalid_packets (fuel : nat) (raws : list (list Z)) : prog (list report) :=
  match raws with
  | [] => mret []
  | raw :: raws => r ← test_invalid_packet fuel raw; rs ← test_invalid_packets fuel raws; mret (r :: rs)
  end.

(** [socks], and the exception that ended the loop. *)
Fixpoint open_all (fuel n : nat) : prog (list Z * option exn) :=
  match n with
  | O => mret ([], None)
  | S n =>
      r ← create_connection fuel;
      match r with
      | inr e => mret ([], Some e)
      | inl s => '(socks, e) ← open_all fuel n; mret (s :: socks, e)
      end
  end.

Fixpoint close_all (socks : list Z) : prog unit :=
  match socks with
  | [] => mret tt
  | s :: socks => _ ← sys (os_close s); close_all socks
  end.

(** [s.sendall(packet(pkt_type))] for each; [recv_packet(s)] and its type for each *)
Definition send_each (fuel : nat) (socks : list Z) (t : vr_packet_type_t) : py unit :=
  py_for socks (fun s => sendall fuel s (plain_packet (pkt_int t) 0 [])).

Definition expect_each (fuel : nat) (socks : list Z) (t : vr_packet_type_t) : py unit :=
  py_for socks (fun s => pkt ⇐ recv_packet fuel s; py_assert (h_type pkt.1 =? pkt_int t)).

(** 6. Concurrent connections must not cross-contaminate parser/proto state *)
Definition test_concurrent_connections (fuel n : nat) : prog report :=
  '(socks, e) ← open_all fuel n;
  report ← try_report (match e with
    | Some e => raise e
    | None =>
        _ ⇐ send_each fuel socks VR_PKT_CONNECT;
        _ ⇐ expect_each fuel socks VR_PKT_CONNECT_ACK;
        _ ⇐ send_each fuel socks VR_PKT_STREAM_OPEN;
        _ ⇐ expect_each fuel socks VR_PKT_STREAM_OPEN_ACK;
        _ ⇐ send_each fuel socks VR_PKT_PING;
        _ ⇐ expect_each fuel socks VR_PKT_PONG;
        py_ret true
    end);
  _ ← close_all socks;
  mret report.

(** The results, and the exit code. *)
Definition main (fuel : nat) : prog (list report * Z) :=
  r1 ← test_fragmented_delivery fuel;
  r2 ← test_pipelined_burst fuel 25;
  r3 ← test_large_payload_buffer_growth fuel 50000;
  r4 ← test_full_fsm_walk fuel;
  rs ← test_invalid_packets fuel invalid_packets;
  r6 ← test_concurrent_connections fuel 10;
  let results := r1 :: r2 :: r3 :: r4 :: rs ++ [r6] in
  mret (results, if forallb rp_ok results then 0 else 1).
End Code.

(** ** The checks pass *)

(** A check that passed, or failed because of the network. *)
Definition fair (r : report) : Prop := rp_ok r = true \/ exists e, rp_exn r = Some e /\ is_oserror e = true.

Lemma bytes_of_bytes s : Forall is_byte (bytes_of s).
Proof.
  apply Forall_fmap, Forall_forall. intros c _. unfold is_byte. cbn.
  pose proof (nat_ascii_bounded c). lia.
Qed.

Section Pass.
Context `{OsLaws} `{Abi}.
Hypothesis H8 : sizeof_vr_packet_header_t = 8.
Hypothesis Hpeer : velora.
Hypothesis Hsend : forall fd bs s, bs <> [] -> (os_send fd bs s).1 <> Done 0.

Local Abbreviation PING := (wire (pkt_int VR_PKT_PING) 0 []).
Local Abbreviation OPEN := (wire (pkt_int VR_PKT_STREAM_OPEN) 0 []).
Local Abbreviation PUBLISH := (wire (pkt_int VR_PKT_PUBLISH)).

Lemma simple_wire_ok (t : vr_packet_type_t) sid : is_byte sid -> wire_ok (wire (pkt_int t) sid []).
Proof using. intros Hs. apply wire_wire_ok; [by destruct t|done|done|constructor]. Qed.

Lemma publish_wire_ok sid payload :
  is_byte sid -> zlen payload < 65536 -> Forall is_byte payload -> wire_ok (PUBLISH sid payload).
Proof using. by apply wire_wire_ok. Qed.

(** The only answer that is due. *)
Lemma hear_this open fd ws i k fuel s :
  talk open fd ws i (os_view s) -> Forall wire_ok ws -> drop i (answers ws) = [k] ->
  py_safe (recv_packet fuel fd)
    (fun pkt s' => talk open fd ws (S i) (os_view s') /\ quiet fd (os_view s) (os_view s') /\ pkt = (pk_header k, []))
    (fun s' => v_open (os_view s') = open) s.
Proof using H8 Hpeer.
  intros Ht Hws Hk. eapply py_safe_mono; [by apply (hear_spec H8 Hpeer open fd ws i)| |done].
  intros pkt s' (Ht' & Hq & k' & Hin & _ & ->). rewrite Hk in Hin. by apply list_elem_of_singleton in Hin as ->.
Qed.

(** Byte by byte is the same as at once. *)
Lemma send_fragmented_spec fuel fd data s :
  py_safe (send_fragmented fuel fd data) (fun _ s' => spoke fd data [] (os_view s) (os_view s'))
    (fun s' => exists out, spoke fd out [] (os_view s) (os_view s')) s.
Proof using Hsend.
  revert s. induction data as [|b data IH]; intros s; [apply py_safe_ret, spoke_refl|]. cbn [send_fragmented py_for].
  do 2 apply py_safe_bind. apply (call_spec _ _ _ _ (fun s' => os_view s' = os_view s)); [done|]. intros s1 Hv1.
  pose proof (os_law_send s1 fd [b]) as Hlaw. pose proof (Hsend fd [b] s1 ltac:(done)) as Hn.
  destruct (os_send fd [b] s1) as [[n|e] s2]; cbn [fst] in Hn.
  - destruct Hlaw as [Hr Hv]. unfold zlen in Hr. simpl in Hr. assert (n = 1) as -> by (assert (n <> 0) by congruence; lia). rewrite Hv1 in Hv.
    pose proof (spoke_accepted fd [b] (os_view s)) as Hs1. change (take (Z.to_nat 1) [b]) with [b] in Hv. rewrite <-Hv in Hs1.
    apply py_safe_ret. eapply py_safe_mono; [apply IH| |].
    + intros u s3 Hs3. exact (spoke_trans _ [b] _ [] [] _ _ _ Hs1 Hs3).
    + intros s3 [out Hs3]. eexists. exact (spoke_trans _ [b] _ [] [] _ _ _ Hs1 Hs3).
  - split; [congruence|]. exists []. rewrite Hlaw, Hv1. apply spoke_refl.
Qed.

Lemma try_report_spec (m : py bool) open s :
  py_safe m (fun ok s' => ok = true /\ v_open (os_view s') = open) (fun s' => v_open (os_view s') = open) s ->
  safe (try_report m) (fun r s' => fair r /\ v_open (os_view s') = open) s.
Proof using.
  intros Hm. apply safe_bind. eapply safe_mono; [exact Hm|]. intros [ok|e] s' [He Ho]; apply safe_ret; (split; [|done]).
  - by left.
  - right. by exists e.
Qed.

Lemma say_fragmented open fd ws i t sid payload fuel s :
  talk open fd ws i (os_view s) ->
  py_safe (send_fragmented fuel fd (plain_packet t sid payload))
    (fun _ s' => talk open fd (ws ++ [wire t sid payload]) i (os_view s') /\ quiet fd (os_view s) (os_view s'))
    (fun s' => v_open (os_view s') = open) s.
Proof using Hsend.
  intros [Ho Hs Hg]. eapply py_safe_mono; [apply send_fragmented_spec| |].
  - intros u s' [Eo T Q]. split; [|done]. split; [congruence| |]; rewrite T; cbn [fst snd].
    + rewrite Hs, fmap_app, concat_app. cbn [fmap list_fmap concat]. by rewrite app_nil_r, plain_packet_wire.
    + by rewrite app_nil_r.
  - intros s' [out []]. congruence.
Qed.

(** The steps of a check: each leaves the conversation it finds one packet further. *)
Ltac py_step spec := apply py_safe_bind; eapply py_safe_mono; [apply spec; try done| |done].
Ltac wires := repeat (apply Forall_cons; split); try apply Forall_nil_2; try apply CONNECT_ok;
  try (by apply simple_wire_ok); try (apply publish_wire_ok; [done|done|apply bytes_of_bytes]).

Lemma fragmented_spec fuel s :
  safe (test_fragmented_delivery fuel) (fun r s' => fair r /\ v_open (os_view s') = v_open (os_view s)) s.
Proof using All.
  apply try_report_spec, (with_connection_spec _ _ (fun ok => ok = true)). intros fd s1 Ht.
  py_step (establish_py_spec H8 Hpeer _ _ fuel s1 Ht). intros ? s2 [Ht2 _]. cbv zeta.
  py_step (say_fragmented _ _ _ _ (pkt_int VR_PKT_PUBLISH) 0 (bytes_of "velora-fragmented-payload-test") fuel s2 Ht2).
  intros ? s3 [Ht3 _]. py_step (say_packet _ _ _ _ (pkt_int VR_PKT_PING) 0 [] fuel s3 Ht3). intros ? s4 [Ht4 _].
  py_step (hear_this _ _ _ _ (bare VR_PKT_PONG) fuel s4 Ht4).
  { wires. }
  intros pkt s5 (Ht5 & _ & ->). apply py_safe_ret. split; [done|apply Ht5].
Qed.

Lemma recv_packets_spec open fd ws i n fuel s :
  talk open fd ws i (os_view s) -> Forall wire_ok ws ->
  (forall j k, (i <= j)%nat -> k ∈ drop j (answers ws) -> h_type (pk_header k) = pkt_int VR_PKT_PONG) ->
  py_safe (recv_packets fuel fd n)
    (fun pkts s' => (length pkts = n /\ forallb (fun p => h_type p.1 =? pkt_int VR_PKT_PONG) pkts = true) /\
       v_open (os_view s') = open)
    (fun s' => v_open (os_view s') = open) s.
Proof using H8 Hpeer.
  revert i s. induction n as [|n IH]; intros i s Ht Hws Hp; [apply py_safe_ret; split; [done|apply Ht]|].
  py_step (hear_spec H8 Hpeer open fd ws i fuel s Ht Hws). intros pkt s1 (Ht1 & _ & k & Hk & _ & ->).
  py_step (IH (S i) s1 Ht1 Hws); [intros j k' Hj; apply Hp; lia|].
  intros pkts s2 [[Hl Hf] Ho]. apply py_safe_ret. split; [|done]. cbn [length forallb]. rewrite Hl, Hf. split; [done|].
  cbn [fst]. rewrite (Hp i k (le_n _) Hk). done.
Qed.

Lemma burst_spec fuel n s :
  safe (test_pipelined_burst fuel n) (fun r s' => fair r /\ v_open (os_view s') = v_open (os_view s)) s.
Proof using All.
  apply try_report_spec, (with_connection_spec _ _ (fun ok => ok = true)). intros fd s1 Ht.
  py_step (establish_py_spec H8 Hpeer _ _ fuel s1 Ht). intros ? s2 [Ht2 _].
  replace (concat (replicate n _)) with (concat (packet_bytes <$> replicate n PING))
    by (by rewrite fmap_replicate, <-plain_packet_wire).
  py_step (say_spec _ _ _ _ (replicate n PING) fuel s2 Ht2). intros ? s3 [Ht3 _].
  py_step (recv_packets_spec _ _ _ _ n fuel s3 Ht3).
  - apply Forall_app. split; [wires|]. apply Forall_replicate. by apply simple_wire_ok.
  - intros j k Hj Hk. change (answers _) with (answers (bare VR_PKT_CONNECT :: replicate n (bare VR_PKT_PING))) in Hk.
    rewrite answers_pings in Hk. destruct j as [|j]; [lia|]. cbn [drop] in Hk. rewrite drop_replicate in Hk.
    by apply elem_of_replicate in Hk as [-> _].
  - intros pkts s4 [[Hl Hf] Ho]. apply py_safe_ret. split; [|done]. by rewrite Hl, Hf, Nat.eqb_refl.
Qed.

Lemma large_spec fuel payload_size s :
  0 <= payload_size < 65536 ->
  safe (test_large_payload_buffer_growth fuel payload_size)
    (fun r s' => fair r /\ v_open (os_view s') = v_open (os_view s)) s.
Proof using All.
  intros Hp. apply try_report_spec, (with_connection_spec _ _ (fun ok => ok = true)). intros fd s1 Ht.
  destruct (make_payload_ok payload_size) as [Hl Hb]; [lia|]. revert Hl Hb. generalize (make_payload payload_size).
  intros payload Hl Hb. cbv zeta.
  py_step (establish_py_spec H8 Hpeer _ _ fuel s1 Ht). intros ? s2 [Ht2 _].
  py_step (say_packet _ _ _ _ (pkt_int VR_PKT_PUBLISH) 0 payload fuel s2 Ht2). intros ? s3 [Ht3 _].
  py_step (say_packet _ _ _ _ (pkt_int VR_PKT_PING) 0 [] fuel s3 Ht3). intros ? s4 [Ht4 _].
  py_step (hear_this _ _ _ _ (bare VR_PKT_PONG) fuel s4 Ht4).
  { wires. apply publish_wire_ok; [done|lia|done]. }
  intros pkt s5 (Ht5 & _ & ->). apply py_safe_ret. split; [done|apply Ht5].
Qed.

(** An answer with a stream. *)
Definition reply (t sid : Z) : vr_packet_t := Packet (Header VR_MAGIC VR_PROTOCOL_VERSION t sid 0 0) None.

Ltac hears k :=
  match goal with Ht : talk _ _ _ _ (os_view ?s) |- py_safe _ _ _ ?s =>
    apply py_safe_bind; eapply py_safe_mono; [apply (hear_this _ _ _ _ k _ s Ht)| |done]; [|by vm_compute|];
    [wires|clear Ht; intros ? ? (? & _ & ->); cbn [fst pk_header h_type h_stream_id h_magic h_version reply bare client_header]]
  end.
Ltac says :=
  match goal with Ht : talk _ _ _ _ (os_view ?s) |- py_safe (py_bind (sendall _ _ (plain_packet ?t ?sid ?p)) _) _ _ ?s =>
    apply py_safe_bind; eapply py_safe_mono; [apply (say_packet _ _ _ _ t sid p _ s Ht)| |done];
    clear Ht; intros ? ? [? _]; cbn [app] in *
  end.
Ltac asserts := apply py_safe_bind, py_safe_assert; [done|].

Lemma walk_spec fuel s :
  safe (test_full_fsm_walk fuel) (fun r s' => fair r /\ v_open (os_view s') = v_open (os_view s)) s.
Proof using All.
  apply try_report_spec, (with_connection_spec _ _ (fun ok => ok = true)). intros fd s1 Ht.
  py_step (establish_py_spec H8 Hpeer _ _ fuel s1 Ht). clear Ht. intros ? s2 [Ht _].
  says. hears (bare VR_PKT_PONG). asserts.
  says. hears (reply (pkt_int VR_PKT_STREAM_OPEN_ACK) 1). cbv zeta. do 2 asserts.
  says. hears (reply (pkt_int VR_PKT_STREAM_OPEN_ACK) 2). cbv zeta. do 2 asserts.
  says. says. hears (bare VR_PKT_PONG). asserts.
  says. hears (reply 0 1). do 2 asserts. apply py_safe_ret. split; [done|]. by destruct select (talk _ _ _ _ _).
Qed.

Lemma invalid_spec fuel h s :
  header_fits h -> header_valid h = false ->
  safe (test_invalid_packet fuel (header_bytes h)) (fun r s' => fair r /\ v_open (os_view s') = v_open (os_view s)) s.
Proof using All.
  intros Hf Hv. apply safe_bind.
  eapply safe_mono; [apply (with_connection_spec _ _ (fun ok => ok = true))|].
  2:{ intros [ok|e] s' [He Ho]; apply safe_ret; (split; [|done]); [by left|right; by exists e]. }
  intros fd s1 Ht. py_step (establish_py_spec H8 Hpeer _ _ fuel s1 Ht). clear Ht. intros ? s2 [[Ho2 Hs2 Hg2] _].
  apply py_safe_bind. eapply py_safe_mono; [apply sendall_spec| |].
  2:{ intros s' [out []]. congruence. }
  intros ? s3 [Ho3 T3 _]. apply py_safe_bind. eapply py_safe_mono; [apply recv_spec| |].
  2:{ intros s' []. congruence. }
  intros data s4 (_ & _ & [Ho4 T4 _]). apply py_safe_ret. split; [|congruence].
  pose proof (Hpeer s4 fd) as Ha. rewrite T4, T3, Hs2 in Ha. cbn [fst snd] in Ha. rewrite !app_nil_r in Ha.
  assert (Hb : Forall wire_ok [CONNECT]) by wires.
  specialize (Ha ltac:(apply Forall_app; split; [by apply wire_bytes|by apply header_bytes_bytes])).
  assert (Hp : packets_in (concat (packet_bytes <$> [CONNECT]) ++ header_bytes h) = [CONNECT]).
  { rewrite packets_in_wire by (done || by apply header_bytes_bytes).
    rewrite <-(app_nil_r (header_bytes h)), packets_in_invalid by done. by rewrite app_nil_r. }
  destruct data as [|b data]; [done|]. destruct (next_answer _ _ _ 1 Ha) as (k & Hk & _); [|done|done|].
  - rewrite Hp. constructor; [apply CONNECT_ok|constructor].
  - rewrite Hp in Hk. by apply not_elem_of_nil in Hk.
Qed.

(** *** Several connections *)

(** Sockets that were opened and nothing else. *)
Definition opened (s : ost) (socks : list Z) (s' : ost) : Prop :=
  NoDup socks /\ Forall (fun fd => fd ∉ v_open (os_view s)) socks /\
  v_open (os_view s') = v_open (os_view s) ∪ list_to_set socks /\
  Forall (fun fd => traffic (os_view s') fd = ([], [])) socks /\
  (forall fd, fd ∈ v_open (os_view s) -> traffic (os_view s') fd = traffic (os_view s) fd).

Lemma opened_none s : opened s [] s.
Proof using. split_and!; [apply NoDup_nil_2|apply Forall_nil_2|by rewrite list_to_set_nil, (right_id_L ∅ (∪))|apply Forall_nil_2|done]. Qed.

Lemma open_all_spec fuel n s :
  safe (open_all fuel n) (fun r s' => exists s1, opened s r.1 s1 /\ v_open (os_view s') = v_open (os_view s1) /\
    match r.2 with Some e => is_oserror e = true | None => s' = s1 end) s.
Proof using.
  revert s. induction n as [|n IH]; intros s; cbn [open_all].
  { apply safe_ret. exists s. split_and!; [apply opened_none|done|done]. }
  apply safe_bind. eapply safe_mono; [apply create_connection_spec|]. intros [fd|e] s1.
  2:{ intros [He Ho]. apply safe_ret. exists s. split_and!; [apply opened_none|done|done]. }
  intros (Hnew & [Ho Hs Hg] & Hq). apply safe_bind. eapply safe_mono; [apply IH|].
  intros [socks e] s2 (s3 & (Hn & Hb & Ho2 & Ht & Hk) & Hv & He). cbn [fst snd] in *. apply safe_ret. exists s3.
  cbn [fst snd]. split; [|done]. rewrite Ho in *.
  assert (Hfd : fd ∈ {[fd]} ∪ v_open (os_view s)) by (by apply elem_of_union_l, elem_of_singleton).
  split_and!.
  - constructor; [|done]. intros Hin. rewrite Forall_forall in Hb. by apply (Hb fd Hin).
  - constructor; [done|]. eapply Forall_impl; [exact Hb|]. intros x Hx Hin. by apply Hx, elem_of_union_r.
  - rewrite Ho2. cbn [list_to_set]. apply set_eq. intros x. rewrite !elem_of_union. tauto.
  - constructor; [|done]. rewrite (Hk fd Hfd). destruct (traffic (os_view s1) fd) as [[|]]; [|done]. cbn in Hs. by rewrite Hs.
  - intros x Hx. rewrite Hk by (by apply elem_of_union_r). apply Hq. by intros ->.
Qed.

Lemma close_all_spec socks s :
  safe (close_all socks) (fun _ s' => v_open (os_view s') = v_open (os_view s) ∖ list_to_set socks) s.
Proof using.
  revert s. induction socks as [|fd socks IH]; intros s; cbn [close_all].
  { apply safe_ret. cbn [list_to_set]. by rewrite difference_empty_L. }
  apply safe_bind, safe_sys. pose proof (os_law_close s fd) as Hc. destruct (os_close fd s) as [r s1]; cbn [fst snd] in *.
  eapply safe_mono; [apply IH|]. intros ? s2 ->. rewrite Hc. cbn [v_open v_closed list_to_set].
  apply set_eq. intros y. rewrite !elem_of_difference, elem_of_union. tauto.
Qed.

(** The same step on each of several connections, none of which disturbs another. *)
Lemma each_spec open (body : Z -> py unit) ws i ws' i' :
  (forall fd s, talk open fd ws i (os_view s) ->
     py_safe (body fd) (fun _ s' => talk open fd ws' i' (os_view s') /\ quiet fd (os_view s) (os_view s'))
       (fun s' => v_open (os_view s') = open) s) ->
  forall socks s, NoDup socks -> v_open (os_view s) = open -> Forall (fun fd => talk open fd ws i (os_view s)) socks ->
  py_safe (py_for socks body)
    (fun _ s' => Forall (fun fd => talk open fd ws' i' (os_view s')) socks /\ v_open (os_view s') = open /\
       forall fd, fd ∉ socks -> traffic (os_view s') fd = traffic (os_view s) fd)
    (fun s' => v_open (os_view s') = open) s.
Proof using.
  intros Hbody. induction socks as [|fd socks IH]; intros s Hn Ho Ht; cbn [py_for].
  { apply py_safe_ret. split_and!; [constructor|done|done]. }
  apply NoDup_cons in Hn as [Hni Hn]. apply Forall_cons in Ht as [Ht Hts].
  apply py_safe_bind. eapply py_safe_mono; [by apply Hbody| |done]. intros u s1 [Ht1 Hq].
  assert (Ho1 : v_open (os_view s1) = v_open (os_view s)) by (rewrite Ho; apply Ht1).
  eapply py_safe_mono; [apply IH; [done|congruence|]| |done].
  { apply Forall_forall. intros x Hx. rewrite Forall_forall in Hts.
    apply (talk_quiet open x fd ws i (os_view s)); [by apply Hts|by intros ->|done|done]. }
  intros u' s2 (Ht2 & Ho2 & Hq2). split_and!; [|done|].
  - constructor; [|done]. destruct Ht1 as [_ Hs1 Hg1]. split; [done| |]; by rewrite Hq2.
  - intros x [Hx Hxs]%not_elem_of_cons. rewrite Hq2 by done. by apply Hq.
Qed.

Lemma expect_spec open ws i k t fuel :
  Forall wire_ok ws -> drop i (answers ws) = [k] -> h_type (pk_header k) = pkt_int t ->
  forall fd s, talk open fd ws i (os_view s) ->
  py_safe (py_bind (recv_packet fuel fd) (fun pkt => py_assert (h_type pkt.1 =? pkt_int t)))
    (fun _ s' => talk open fd ws (S i) (os_view s') /\ quiet fd (os_view s) (os_view s'))
    (fun s' => v_open (os_view s') = open) s.
Proof using H8 Hpeer.
  intros Hws Hk Htype fd s Ht. apply py_safe_bind. eapply py_safe_mono; [by apply (hear_this open fd ws i k)| |done].
  intros pkt s1 (Ht1 & Hq & ->). apply py_safe_assert; [by apply Z.eqb_eq|]. done.
Qed.

Lemma exchange_spec open (socks : list Z) ws i k t t' fuel (m : py bool) Q s :
  NoDup socks -> Forall (fun fd => talk open fd ws i (os_view s)) socks -> v_open (os_view s) = open ->
  Forall wire_ok (ws ++ [wire (pkt_int t) 0 []]) -> drop i (answers (ws ++ [wire (pkt_int t) 0 []])) = [k] ->
  h_type (pk_header k) = pkt_int t' ->
  (forall s', Forall (fun fd => talk open fd (ws ++ [wire (pkt_int t) 0 []]) (S i) (os_view s')) socks ->
     v_open (os_view s') = open -> py_safe m Q (fun s' => v_open (os_view s') = open) s') ->
  py_safe (py_bind (send_each fuel socks t) (fun _ => py_bind (expect_each fuel socks t') (fun _ => m))) Q
    (fun s' => v_open (os_view s') = open) s.
Proof using H8 Hpeer.
  intros Hn Ht Ho Hws Hk Htype Hm. apply py_safe_bind.
  eapply py_safe_mono; [apply (each_spec open _ ws i (ws ++ [wire (pkt_int t) 0 []]) i); [|done..]| |done].
  { intros fd s0 Ht0. by apply say_packet. }
  intros u s1 (Ht1 & Ho1 & _). apply py_safe_bind.
  eapply py_safe_mono; [apply (each_spec open _ _ i _ (S i) (expect_spec open _ i k t' fuel Hws Hk Htype)); done| |done].
  intros u' s2 (Ht2 & Ho2 & _). by apply Hm.
Qed.

Lemma concurrent_spec fuel n s :
  safe (test_concurrent_connections fuel n) (fun r s' => fair r /\ v_open (os_view s') = v_open (os_view s)) s.
Proof using All.
  apply safe_bind. eapply safe_mono; [apply open_all_spec|].
  intros [socks e] s1 (s2 & (Hn & Hb & Ho & Ht & _) & Hv & He). cbn [fst snd] in *.
  set (open := v_open (os_view s) ∪ list_to_set socks) in *.
  assert (Hback : forall s', v_open (os_view s') = open ->
    safe (close_all socks) (fun _ s' => v_open (os_view s') = v_open (os_view s)) s').
  { intros s' Hs'. eapply safe_mono; [apply close_all_spec|]. intros ? s'' ->. rewrite Hs'. subst open.
    apply set_eq. intros y. rewrite elem_of_difference, elem_of_union, elem_of_list_to_set.
    rewrite Forall_forall in Hb. specialize (Hb y). tauto. }
  apply safe_bind. eapply safe_mono; [apply (try_report_spec _ open)|].
  2:{ intros r s3 [Hf Ho3]. apply safe_bind. eapply safe_mono; [by apply Hback|]. intros ? s4 Ho4. by apply safe_ret. }
  destruct e as [e|]; [by split; [|rewrite Hv]|]. subst s1.
  assert (Ht0 : Forall (fun fd => talk open fd [] 0 (os_view s2)) socks).
  { eapply Forall_impl; [exact Ht|]. intros fd E. by split; rewrite ?E. }
  apply (exchange_spec open socks [] 0 (bare VR_PKT_CONNECT_ACK)); [done|done|done|wires|done|done|].
  intros s3 Ht3 Ho3. cbn [app] in Ht3.
  eapply (exchange_spec open socks _ 1 (reply (pkt_int VR_PKT_STREAM_OPEN_ACK) 1)); [done|exact Ht3|done|wires|by vm_compute|done|].
  intros s4 Ht4 Ho4. cbn [app] in Ht4.
  eapply (exchange_spec open socks _ 2 (bare VR_PKT_PONG)); [done|exact Ht4|done|wires|by vm_compute|done|].
  intros s5 _ Ho5. by apply py_safe_ret.
Qed.
End Pass.

Section Suite.
Context `{OsLaws} `{Abi}.
Hypothesis H8 : sizeof_vr_packet_header_t = 8.
Hypothesis Hpeer : velora.
Hypothesis Hsend : forall fd bs s, bs <> [] -> (os_send fd bs s).1 <> Done 0.

Definition fair_results (open : gset Z) (n : nat) (rs : list report) (s' : ost) : Prop :=
  length rs = n /\ Forall fair rs /\ v_open (os_view s') = open.

Lemma invalid_packets_spec fuel hs s :
  Forall (fun h => header_fits h /\ header_valid h = false) hs ->
  safe (test_invalid_packets fuel (header_bytes <$> hs)) (fair_results (v_open (os_view s)) (length hs)) s.
Proof using All.
  intros Hhs. revert s. induction Hhs as [|h hs [Hf Hv] _ IH]; intros s; [by apply safe_ret|].
  rewrite fmap_cons. cbn [test_invalid_packets length]. apply safe_bind.
  eapply safe_mono; [by apply (invalid_spec H8 Hpeer Hsend)|]. intros r s1 [Hr Ho1].
  apply safe_bind. eapply safe_mono; [apply IH|]. intros rs s2 (Hl & Hrs & Ho2). apply safe_ret.
  split_and!; [simpl; by rewrite Hl|by constructor|congruence].
Qed.

Definition invalid_headers : list vr_packet_header_t :=
  [Header 0xDEAD VR_PROTOCOL_VERSION (pkt_int VR_PKT_PING) 0 0 0;
   Header VR_MAGIC 9 (pkt_int VR_PKT_PING) 0 0 0;
   Header VR_MAGIC VR_PROTOCOL_VERSION 99 0 0 0;
   Header VR_MAGIC VR_PROTOCOL_VERSION (pkt_int VR_PKT_PING) 0 0xF0 0].

Lemma invalid_headers_ok : Forall (fun h => header_fits h /\ header_valid h = false) invalid_headers.
Proof using. repeat constructor; done. Qed.

Lemma walk_main_spec fuel s :
  safe (main fuel) (fun r s' => fair_results (v_open (os_view s)) 9 r.1 s' /\
    (Forall (fun r => rp_exn r = None) r.1 -> r.2 = 0)) s.
Proof using All.
  apply safe_bind. eapply safe_mono; [by apply fragmented_spec|]. intros r1 s1 [F1 O1].
  apply safe_bind. eapply safe_mono; [by apply burst_spec|]. intros r2 s2 [F2 O2].
  apply safe_bind. eapply safe_mono; [apply large_spec; try done; lia|]. intros r3 s3 [F3 O3].
  apply safe_bind. eapply safe_mono; [by apply walk_spec|]. intros r4 s4 [F4 O4].
  apply safe_bind. change invalid_packets with (header_bytes <$> invalid_headers).
  eapply safe_mono; [apply invalid_packets_spec, invalid_headers_ok|]. intros rs s5 (L5 & F5 & O5).
  apply safe_bind. eapply safe_mono; [by apply concurrent_spec|]. intros r6 s6 [F6 O6].
  apply safe_ret. cbn [fst snd].
  assert (Hfair : Forall fair (r1 :: r2 :: r3 :: r4 :: rs ++ [r6])).
  { do 4 (constructor; [done|]). apply Forall_app. split; [done|]. by constructor. }
  split_and!; [split_and!; [simpl; rewrite length_app, L5; done|done|congruence]|].
  intros Hnone. assert (Hall : forallb rp_ok (r1 :: r2 :: r3 :: r4 :: rs ++ [r6]) = true); [|by rewrite Hall].
  apply forallb_forall. intros r Hr%list_elem_of_In. rewrite Forall_forall in Hfair, Hnone.
  destruct (Hfair r Hr) as [|(e & E & _)]; [done|]. by rewrite (Hnone r Hr) in E.
Qed.

(** *** The end *)

Hypothesis Hcalm : calm.
Context (fuel : nat).
Hypothesis Hfuel : 65535 <= Z.of_nat fuel.

Lemma try_report_finishes (m : py bool) s : finishes m s -> finishes (try_report m) s.
Proof using. intros Hm. by apply finishes_bind. Qed.

Lemma plain_finishes fd t sid payload s : zlen payload <= 60000 -> finishes (sendall fuel fd (plain_packet t sid payload)) s.
Proof using All.
  intros Hp. apply sendall_finishes; [done|]. unfold plain_packet, packet, zlen in *.
  rewrite length_app, header_bytes_length. lia.
Qed.

Lemma send_fragmented_finishes fd data s : finishes (send_fragmented fuel fd data) s.
Proof using All.
  apply py_for_finishes. intros b s1. apply py_bind_finishes; [|done].
  apply call_finishes, (proj1 (ca_undisturbed Hcalm)).
Qed.

Lemma recv_packets_finishes fd n s : finishes (recv_packets fuel fd n) s.
Proof using All.
  revert s. induction n as [|n IH]; intros s; [done|]. cbn [recv_packets].
  apply py_bind_finishes; [by apply recv_packet_finishes|]. intros pkt s1 _. apply py_bind_finishes; [apply IH|done].
Qed.

Lemma assert_finishes b s : finishes (py_assert b) s.
Proof using. by destruct b. Qed.

Ltac py_ends := repeat first
  [ done | apply assert_finishes | apply send_fragmented_finishes | apply recv_packets_finishes
  | apply plain_finishes; vm_compute; discriminate | apply recv_packet_finishes; done | apply establish_py_finishes; done
  | apply call_finishes, (proj1 (proj2 (ca_undisturbed Hcalm))) | apply py_bind_finishes; [|intros ? ? _] ].

Lemma large_finishes payload_size s :
  0 <= payload_size <= 60000 -> finishes (test_large_payload_buffer_growth fuel payload_size) s.
Proof using All.
  intros Hp. apply try_report_finishes, with_connection_finishes; [done|]. intros fd s1.
  destruct (make_payload_ok payload_size) as [Hl _]; [lia|]. revert Hl. generalize (make_payload payload_size).
  intros payload Hl. cbv zeta. apply py_bind_finishes; [by apply establish_py_finishes|]. intros ? s2 _.
  apply py_bind_finishes; [apply plain_finishes; lia|]. intros ? s3 _. py_ends.
Qed.

Lemma burst_finishes count s : (count <= 1000)%nat -> finishes (test_pipelined_burst fuel count) s.
Proof using All.
  intros Hc. apply try_report_finishes, with_connection_finishes; [done|]. intros fd s1.
  apply py_bind_finishes; [by apply establish_py_finishes|]. intros ? s2 _. apply py_bind_finishes; [|intros; py_ends].
  apply sendall_finishes; [done|]. change (concat (replicate count _)) with (times count ping_packet).
  pose proof (times_zlen count ping_packet) as Hl. unfold zlen in Hl. change (length ping_packet) with 8%nat in Hl. lia.
Qed.

Lemma checks_finish s :
  finishes (test_fragmented_delivery fuel) s /\ finishes (test_full_fsm_walk fuel) s /\
  Forall (fun raw => forall s, finishes (test_invalid_packet fuel raw) s) invalid_packets.
Proof using All.
  split_and!; try (apply try_report_finishes, with_connection_finishes; [done|]; intros fd s1; py_ends).
  apply Forall_forall. intros raw Hraw s1. assert (Hl : (length raw <= 8)%nat).
    { change invalid_packets with (header_bytes <$> invalid_headers) in Hraw.
      apply list_elem_of_fmap in Hraw as (h & -> & _). by rewrite header_bytes_length. }
    apply finishes_bind; [|by intros [] ? _]. apply with_connection_finishes; [done|]. intros fd s2. py_ends.
    apply sendall_finishes; [done|lia].
Qed.

Lemma invalid_packets_finish raws s :
  Forall (fun raw => forall s, finishes (test_invalid_packet fuel raw) s) raws -> finishes (test_invalid_packets fuel raws) s.
Proof using.
  intros Hr. revert s. induction Hr as [|raw raws Hraw _ IH]; intros s; [done|]. cbn [test_invalid_packets].
  apply finishes_bind; [apply Hraw|]. intros r s1 _. apply finishes_bind; [apply IH|done].
Qed.

Lemma concurrent_finishes n s : finishes (test_concurrent_connections fuel n) s.
Proof using All.
  apply finishes_bind.
  { revert s. induction n as [|n IH]; intros s; [done|]. cbn [open_all].
    apply finishes_bind; [by apply create_connection_finishes|]. intros [fd|e] s1 _; [|done].
    apply finishes_bind; [apply IH|]. by intros [] ? _. }
  intros [socks e] s1 _. apply finishes_bind.
  - apply try_report_finishes. destruct e as [e|]; [done|].
    assert (Hs : forall t s, finishes (send_each fuel socks t) s) by (intros; apply py_for_finishes; intros; py_ends).
    assert (He : forall t s, finishes (expect_each fuel socks t) s) by (intros; apply py_for_finishes; intros; py_ends).
    repeat first [done | apply Hs | apply He | apply py_bind_finishes; [|intros ? ? _]].
  - intros r s2 _. apply finishes_bind; [|done]. clear. revert s2. induction socks as [|fd socks IH]; intros s2; [done|].
    cbn [close_all]. apply finishes_sys, IH.
Qed.

Lemma walk_main_finishes s : finishes (main fuel) s.
Proof using All.
  apply finishes_bind; [apply checks_finish|]. intros r1 s1 _. apply finishes_bind; [apply burst_finishes; lia|]. intros r2 s2 _.
  apply finishes_bind; [apply large_finishes; lia|]. intros r3 s3 _.
  apply finishes_bind; [apply checks_finish|]. intros r4 s4 _.
  apply finishes_bind; [apply invalid_packets_finish, checks_finish; exact s4|]. intros rs s5 _.
  apply finishes_bind; [apply concurrent_finishes|done].
Qed.
End Suite.

(** ** Property *)

(** C16. The server passes its conformance test.  Let the peer of every connection be
    the server, with enums of one byte, and let a blocking send take something.
    Then parser_walk.sh has no undefined behaviour and, when it ends, has closed
    what it opened and reported nine checks, each of which passed or was ended by an
    error of the network; where no check was ended by an exception, its exit code is
    0.  It does end, with 65535 turns for its loops, if no signal interrupts a call
    and no blocking call waits forever. *)
Theorem suite_passes `{OsLaws} `{Abi} (fuel : nat) (s : ost)
  (Hsize : sizeof_enum = 1) (Hpeer : velora)
  (Hsend : forall fd bs s, bs <> [] -> (os_send fd bs s).1 <> Done 0) :
  match main fuel s with
  | Ok ((results, code), s') =>
      length results = 9%nat /\ Forall fair results /\
      (Forall (fun r => rp_exn r = None) results -> code = 0) /\
      v_open (os_view s') = v_open (os_view s)
  | Undef => False
  | NoFuel => ~ (calm /\ 65535 <= Z.of_nat fuel)
  end.
Proof.
  apply sizeof_header_8 in Hsize. pose proof (walk_main_spec Hsize Hpeer Hsend fuel s) as Hs. unfold safe in Hs.
  destruct (main fuel s) as [[[results code] s']| |] eqn:E; [|done|].
  - destruct Hs as [(Hl & Hf & Ho) Hc]. by split_and!.
  - intros [Hcalm Hfuel]. by apply (walk_main_finishes Hsize Hpeer Hsend Hcalm fuel Hfuel s).
Qed.

(** ** Witness *)

Section Witness.
#[local] Existing Instance short_enums_abi.

Lemma stream_spec_prefix f f' parser q e :
  parser_wf parser -> Forall is_byte q -> (f <= f')%nat ->
  (stream_spec f parser q).1.1.1 `prefix_of` (stream_spec f' parser (q ++ e)).1.1.1.
Proof.
  revert f' parser q. induction f as [|f IH]; intros f' parser q Hp Hq Hf; [apply prefix_nil|].
  destruct f' as [|f']; [lia|]. cbn [stream_spec]. pose proof (parse_spec_app parser q e Hp Hq) as Happ.
  pose proof (parse_spec_step parser q Hp Hq) as Hs.
  destruct (parse_spec mem_ok parser q) as [[[res parser'] q'] out]. destruct Hs as (Hp' & Hq' & _).
  destruct res; try apply prefix_nil. rewrite Happ. specialize (IH f' parser' q' Hp' Hq' ltac:(lia)).
  destruct (stream_spec f parser' q') as [[[? ?] ?] ?], (stream_spec f' parser' (q' ++ e)) as [[[? ?] ?] ?].
  by apply prefix_cons.
Qed.

Lemma stream_spec_fits f parser q :
  parser_wf parser -> Forall is_byte q -> Forall (fun k => header_fits (pk_header k)) (stream_spec f parser q).1.1.1.
Proof.
  revert parser q. induction f as [|f IH]; intros parser q Hp Hq; [constructor|]. cbn [stream_spec].
  pose proof (parse_spec_wf mem_ok parser q Hq Hp) as Hwf.
  destruct (parse_spec mem_ok parser q) as [[[res parser'] q'] out]. destruct Hwf as (Hp' & Hq' & Hok).
  destruct res; try constructor. specialize (IH parser' q' Hp' Hq'). destruct (Hok eq_refl) as [Hh _].
  destruct (stream_spec f parser' q') as [[[? ?] ?] ?]. by constructor.
Qed.

(** The server as a function of what it receives. *)
Definition velora_peer (a : list Z) : list Z := concat (packet_bytes <$> answers (packets_in (u8 <$> a))).

Lemma u8_bytes a : Forall is_byte (u8 <$> a).
Proof. apply Forall_fmap, Forall_true. intros x. apply u8_byte. Qed.

Lemma velora_peer_mono a b : velora_peer a `prefix_of` velora_peer (a ++ b).
Proof.
  unfold velora_peer. destruct (answers_prefix (packets_in (u8 <$> a)) (packets_in (u8 <$> a ++ b))) as [more ->].
  - rewrite fmap_app. apply stream_spec_prefix; [done|apply u8_bytes|]. rewrite length_app. lia.
  - rewrite fmap_app, concat_app. by eexists.
Qed.

Lemma velora_peer_bytes a : Forall is_byte (velora_peer a).
Proof.
  unfold velora_peer. apply Forall_concat, Forall_fmap.
  assert (Hb : Forall bare_ok (answers (packets_in (u8 <$> a)))) by (by apply answers_bare_ok, stream_spec_fits, u8_bytes).
  eapply Forall_impl; [exact Hb|]. intros k (Hh & Hk & Hl & _). apply packet_bytes_length; [done|by left].
Qed.

#[local] Instance velora_server : Peer :=
  {| peer := velora_peer; peer_room := None; peer_connect := None;
     peer_mono := velora_peer_mono; peer_bytes := velora_peer_bytes |}.

Lemma velora_server_answers : velora.
Proof.
  intros s fd Hb. exists (answers (packets_in (traffic (os_view s) fd).2)). split; [done|]. destruct s as [s Hs].
  pose proof (nk_peer s Hs fd) as Hp. cbn [peer velora_server] in Hp. unfold velora_peer in Hp.
  replace (u8 <$> _) with (traffic (nt_view s) fd).2 in Hp; [exact Hp|].
  symmetry. rewrite <-(list_fmap_id (traffic (nt_view s) fd).2) at 2. apply list_fmap_ext. intros i x Hx.
  rewrite Forall_lookup in Hb. apply u8_id. exact (Hb i x Hx).
Qed.

Lemma velora_server_takes fd bs s : bs <> [] -> (os_send fd bs s).1 <> Done 0.
Proof.
  intros Hne. cbn [os_send net_os peer_room velora_server takes]. destruct (_ <? 0); [done|]. case_bool_decide as Hn; [done|].
  intros [= E]. apply Hn. unfold takes in *. by split.
Qed.

Lemma suite_passes_witness :
  returned (test_full_fsm_walk 100 (lab 0 0)) = Some (Report true None) /\
  match main 100 (lab 0 0) with
  | Ok ((results, code), s') =>
      length results = 9%nat /\ Forall fair results /\
      (Forall (fun r => rp_exn r = None) results -> code = 0) /\
      v_open (os_view s') = v_open (os_view (lab 0 0))
  | Undef => False
  | NoFuel => ~ (calm /\ 65535 <= Z.of_nat 100)
  end.
Proof. split; [by vm_compute|]. apply (suite_passes 100 (lab 0 0)); [done|exact velora_server_answers|exact velora_server_takes]. Defined.
End Witness.
